(* ===== verification/_CoqProject ===== *)
-Q . S2P
Prelude.v
GoStrings.v
GoPath.v
GoJson.v
GoJsonFacts.v
GoUrl.v
GoCrypto.v
GoTime.v
AsciiText.v
GoHeap.v
GoHeapFacts.v
DeepCopies.v
GoFlag.v
Api.v
Effects.v
Peat.v
Batching.v
Manifest.v
Objstore.v
Creds.v
Staging.v
Importer.v
ImportRefinement.v
ImportFaithful.v
Ledger.v
LedgerPool.v
Kube.v
BackupController.v
ReplicationController.v
ReplicationLiveness.v
ImportController.v
Requeue.v
Source.v
SourceRuns.v
Destination.v
ImportConvergence.v
Setup.v
MainCmd.v
EndToEnd.v
AirGap.v
