(* ===== verification/Prelude.v ===== *)
(** * Snapback: replicating Velero backups across an air gap

    A verification library of the Go program under [src/src]: a Kubernetes
    controller that copies the objects of completed Velero backups from a source
    object store to a destination one, over the "peat" peer-to-peer sidecar.

    ** The program

    On the source cluster
    - [BackupController] ([internal/controller/backup_controller.go]) watches
      Velero Backups and creates one BackupReplication per completed backup, under
      the first ReplicationPolicy that takes it;
    - [ReplicationController] ([backupreplication_controller.go]) reconciles a
      BackupReplication: it resolves the store ([Creds], [Objstore]), lists what
      was not shipped yet ([Ledger]), stages each object as a file of the peat
      outbox ([Staging]), packs the files into bundles ([Batching]), sends them and
      waits for their distributions ([Peat]), puts the manifest into the sidecar's
      document store ([Manifest]), commits the ledger and marks the object
      Replicated.
    On the destination cluster
    - [ImportController] ([backupimport_controller.go]): the manifest bridge polls
      the documents and creates a BackupImport for each complete manifest; the
      reconciler fetches the manifest again and runs import passes ([Importer])
      until every file is verified and stored and the discovery object, which
      makes the backup visible to Velero, is written last.
    [MainCmd] ([cmd/main.go]) parses the flags and sets up the manager for its role;
    [Setup] has the registration of controllers and types that it uses.
    [DeepCopies] are the generated copies of the API types, which controller-runtime
    calls whenever an object leaves its cache.

    ** The files

    Prelude, the generic part: results, error values, machine integers, strings.
    The Go standard library as the program uses it, executable: [GoStrings]
    (strings, strconv, hex, base64, UTF-8), [GoPath] (path, path/filepath),
    [GoJson] with [GoJsonFacts] (encoding/json), [GoUrl] (net/url), [GoCrypto]
    (crypto/sha256), [GoTime] (time), [GoFlag] (flag, strconv.ParseBool,
    time.ParseDuration).  [GoHeap] with [GoHeapFacts] is Go's memory: variables,
    pointers, slices over arrays and maps, for the deep copies, whose point is what
    is shared; everywhere else values are immutable.  [AsciiText]: what is made of
    ASCII texts is ASCII, and what is printed is UTF-8.
    [Api]: the custom resources of [src/src/api] and the Velero types, a Record
    per struct and an Inductive per enum.
    [Effects]: what a function that touches the outside is.  Every call out of
    the program (files, clock, HTTP, minio-go, the API server) is a constructor of
    [call], and such a function is a tree of calls, [io].  [safe G m h Q]
    quantifies over every answer: each call of [m] obeys [G] given the history
    before it, and every result [Q].  [returns X m h] and [completes m] say that a
    result there is; [under E m h Q] that, with answers as [E] expects them, [m]
    comes to a result in [Q]; [run hd m w] executes [m] against a handler [hd].
    Then one file per component, under the name of its Go package or file: [Peat],
    [Batching], [Manifest], [Objstore], [Creds], [Staging], [Importer], [Ledger],
    [Kube], [BackupController], [ReplicationController], [ImportController],
    [Setup], [MainCmd], [DeepCopies]; [EndToEnd] joins the two sides and
    [AirGap] the states they reach, [LedgerPool] runs commits to one ledger concurrently,
    [ReplicationLiveness] gives the replication reconciler an outside that
    cooperates, [ImportRefinement] has the abstract specification of an import pass,
    [ImportFaithful] follows the bytes from the inbox to the store, [Requeue] says
    when an object leaves the queue of its controller.  [Source] is the source
    cluster as a step relation: any number of reconciles of both controllers, call by
    call, over an API server with versioned objects, and the invariant of its
    reachable states; [SourceRuns] has what follows for the objects, and runs it.
    [Destination] gives a reconcile and a poll of the bridge as relations on a whole
    destination, and [ImportConvergence] runs these over time, for any number of
    backups.  A definition has the name of the Go function it
    models, where it models a whole one; its other definitions are the loops,
    closures and struct literals inside.  A Go struct is a Record; a method that
    changes its receiver returns the new one; [(T, error)] is [res T].

    ** Interfaces

    [Objstore.Store] is the Go interface, a record of operations;
    [Objstore.StoreSpec] is what its clients rely on, and the importer's theorems
    hold of every store that meets it; [Objstore.minio_spec] shows that the MinIO
    store does.  [Objstore.LedgerObject] and [Importer.ImportWorld] state the
    documented behaviour of S3's conditional puts and of a file system with a
    store, for the theorems that speak of effects on them;
    [ImportRefinement.InboxWorld] adds absent files and the walk of the inbox,
    [Destination.DestinationWorld] the sidecar's documents and an API server that
    may refuse to write, [Source.serves] the API server's versions: optimistic locking
    of updates, stale reads, lost answers, and [AirGap.linked] what the sidecar does between the
    clusters.  All have in-memory instances.  [Peat.Client] is the Go
    interface of the sidecar client, with [Peat.as_Client] its implementation.
    [Kube.ApiMachinery] holds the library functions of apimachinery and
    controller-runtime that the reconcilers call.  [DeepCopies.LibraryCopies]
    are the copies of apimachinery's own types, with [LibraryCopiesSpec] their laws;
    [GoHeap.deep_copier] is the contract that both they and the generated copies
    meet.  The manager is an arbitrary function of the steps made so far
    ([Setup.answers]).

    ** What the theorems show

    End to end: [AirGap.replicated_crosses], a replication that is Replicated in a
    reachable state of the source is of a backup that was reported Completed, and is
    followed at the destination, through a sidecar that keeps its word, by an import
    with the very bytes of every object of the delta, from any reachable state; its
    witness runs the three reconcilers.
    The source over time: [SourceRuns.source_evidence] (however reconciles
    interleave, crash, and read stale versions, an object shows only what was done:
    made of a completed backup under its policy, Replicated only when shipped, never
    Failed), [finished_stays] (a finished replication keeps its status until it is
    deleted), [backup_converges] (from every reachable state one reconcile of a
    completed backup and then one of its replication end inevitably with the
    replication Replicated and everything sent, whatever an API server and an outside
    that fulfil each request answer: [obliges] says which answers these are,
    [inevitably] that the runs get stuck on none of them).
    Replication: [ReplicationController.Reconcile_writes] (Replicated is written
    only after every object of the delta was staged, all files were sent in bundles
    and reported completed, the manifest of exactly these files was accepted and the
    ledger committed), [Reconcile_returns], and
    [ReplicationLiveness.Reconcile_replicates] (with an outside that fulfils every
    request a pending replication does end Replicated), [Requeue.replication_requeues]
    (no failure takes an unfinished one off the queue); lemmas on bundle ids,
    bundle summaries and manifest entries.
    Import: [Importer.Import_writes] (whatever is answered, only verified bytes are
    written, the discovery object last); [Import_committed] (a pass says Committed
    only when every file is in the store);
    [ImportFaithful.Import_faithful] (the bytes stored are those declared, unless a
    verified file is rewritten before it is read again);
    [ImportRefinement.Import_refines] (a pass computes a plain function of the
    inbox and the store); [ImportConvergence.destination_consistent],
    [destination_converges] and [published_imported] (the destination as a state
    machine over any number of backups: however files, documents, deletions,
    refused writes, polls and reconciles interleave nothing half-imported shows;
    once the manifest is published and the bytes are there, a poll and a reconcile
    import the backup); [Requeue.import_requeues];
    [ImportController.Reconcile_imports] and [Start_creates] (what the bridge
    creates, that it returns only when its context ends if the poll interval is
    positive, and that it panics before the first poll if it is not).
    Ledger and stores: no lost update through the compare-and-swap; however the
    calls of concurrent commits interleave, the ledger has exactly the keys it had
    and those of the commits that succeeded ([LedgerPool.concurrent_commits]), and
    they all end, one of them successfully ([commits_progress]); exactly what a
    delta contains, exactly what a commit writes, the round trip of the ledger and
    of the keys, endpoint and TLS configuration, profile choice.
    Staging: which keys are accepted, that no staged path leaves the outbox, which
    calls are made in which order, clean-up on every path.
    Batching: nothing lost or reordered, limits respected, the least number of
    bundles, stable bundle indices.
    Wire formats: manifests, ledgers, sizes and credentials files read back as they
    were written; foreign manifest versions are refused.
    Peat: what a send requests and records, that a wait succeeds only when every
    distribution was reported finished, that it returns.
    Policies: what is created for a backup, and when, under which policy: the first
    one listed that is not paused, covers the location and selects the labels
    ([BackupController.chosen]).
    Command line: [MainCmd.main_outcome] (the controllers of the role and nothing
    else are set up, in order, up to the first refusal; every way to exit) and
    [MainCmd.main_reads] (the role, the manager's options and those of the
    destination are what the documented flags were last set to, or their defaults).
    API types: every generated copy holds the same contents, shares nothing with
    its original, and neither sees what is assigned to the other.

    ** Bounds and fuel

    Integers keep their width: [uint64], [int64], [int32] wrap.  The import
    theorems assume fewer than 2^63 files, more than a Go slice has; the batching
    ones int64 file sizes (what the store reports) and a byte limit up to 2^63.
    [AirGap.replicated_crosses] assumes ASCII keys and names and listings of fewer than
    2^61 objects; a staged file whose place is taken by another of the same path is
    outside of its contract [linked].
    Two loops have fuel, because Go's end only with their context: the poll loop
    of [WaitBundle] ([fuel] rounds) and of [Start] ([rounds]).
    [Peat.WaitBundle_terminates]: one more round than the context has ticks left
    is enough; [Reconcile_returns] and [Start_creates]: fuel runs out only after
    as many ticks.  A Go panic is the result [Panic]: there are two, the assignment
    to a nil ledger map and [time.NewTicker] on a poll interval that is not positive;
    [Ledger.commitLedger_outcome] and [Start_creates] say when they happen.

    ** What is not modelled

    Log lines, metrics, the closing of readers and clients, and the mutex of the
    peat client (one goroutine uses a client).  Contexts appear only as the end of
    the two poll loops.  Of the manager only its answers are modelled, of the scheme
    only the kinds registered, and of [apimachinery]'s structs only what the copies
    of our own types need.  A read of a file or object is one call that yields its
    bytes and perhaps an error.  In [ImportConvergence] a reconcile and a poll are one
    step each: the inbox changes between passes, not during one ([Import_writes],
    [Import_faithful] and [Requeue] hold of every interleaving, as they assume
    nothing of the answers); controller-runtime's queue appears only as the steps
    that may be taken.  In [Source] others than the reconcilers edit the metadata of
    replications and delete them, but do not make them or change their specs; what
    the object stores and the sidecar hold is any sequence of answers.  Tests, charts, Zarf and UDS packages are not code of the
    program. *)
From stdpp Require Export base list strings gmap.
From Stdlib Require Export ZArith Lia.

(** a decidable proposition that is evaluated *)
Ltac decided := apply (bool_decide_unpack _); vm_compute; exact I.

(** ** Results: Go's [(T, error)] pairs *)

Inductive result (E A : Type) : Type :=
| Ok (a : A)
| Er (e : E).
Arguments Ok {E A} a.
Arguments Er {E A} e.

#[export] Instance result_ret E : MRet (result E) := fun A a => Ok a.
#[export] Instance result_bind E : MBind (result E) :=
  fun A B f m => match m with Ok a => f a | Er e => Er e end.

#[export] Instance result_fmap E : FMap (result E) :=
  fun A B f m => match m with Ok a => Ok (f a) | Er e => Er e end.

#[export] Instance result_eq_dec {E A} `{!EqDecision E} `{!EqDecision A} :
  EqDecision (result E A).
Proof. solve_decision. Defined.

Lemma result_bind_ok {E A B} (m : result E A) (f : A -> result E B) b :
  m ≫= f = Ok b <-> exists a, m = Ok a /\ f a = Ok b.
Proof. destruct m; cbn; naive_solver. Qed.

(** ** Error values

    [fmt.Errorf] and friends build a text from literals and formatted operands.
    The development keeps the text unrendered: [FQuo s] is the [%q] rendering of
    [s] and [FInt z] the [%d] rendering of [z], so no message depends on a
    rendering table.  An error that an external call returns carries what the
    program can ask about it: its text, the S3 error code and HTTP status that
    minio-go reports, and whether [IsNotFound] / [IsNotExist] holds of it. *)

Inductive frag : Set :=
| FStr (s : string)
| FQuo (s : string)
| FInt (z : Z).

#[export] Instance frag_eq_dec : EqDecision frag.
Proof. solve_decision. Defined.

Abbreviation text := (list frag).

Record ext_error : Set := {
  ee_text : string;
  ee_code : string;
  ee_status : Z;
  ee_not_found : bool;
}.

#[export] Instance ext_error_eq_dec : EqDecision ext_error.
Proof. solve_decision. Defined.

Inductive error : Set :=
| ESentinel (name : string)
| EText (t : text)
| EWrap (pre : text) (inner : error) (post : text)
| EExt (e : ext_error).

#[export] Instance error_eq_dec : EqDecision error.
Proof. solve_decision. Defined.

(** [err.Error()] *)
Fixpoint Error (e : error) : text :=
  match e with
  | ESentinel s => [FStr s]
  | EText t => t
  | EWrap pre e' post => pre ++ Error e' ++ post
  | EExt x => [FStr (ee_text x)]
  end.

(** [errors.Is(err, target)] for a sentinel target *)
Fixpoint Is (e : error) (target : string) : bool :=
  match e with
  | ESentinel s => bool_decide (s = target)
  | EWrap _ e' _ => Is e' target
  | EText _ | EExt _ => false
  end.

Definition errorf (pre : text) (inner : error) : error := EWrap pre inner [].

Abbreviation res A := (result error A).

(** ** Machine integers: a w-bit integer is a [Z] with its wrap-around *)

Definition wrapU (w z : Z) : Z := (z mod 2 ^ w)%Z.
Definition wrapS (w z : Z) : Z := ((z + 2 ^ (w - 1)) mod 2 ^ w - 2 ^ (w - 1))%Z.

Definition uint64 : Z -> Z := wrapU 64.
Definition int64 : Z -> Z := wrapS 64.
Definition int32 : Z -> Z := wrapS 32.

Definition max_uint64 : Z := (2 ^ 64 - 1)%Z.

Lemma uint64_small z : (0 <= z < 2 ^ 64)%Z -> uint64 z = z.
Proof. intros H. unfold uint64, wrapU. by apply Z.mod_small. Qed.

Lemma uint64_range z : (0 <= uint64 z < 2 ^ 64)%Z.
Proof. unfold uint64, wrapU. apply Z.mod_pos_bound. lia. Qed.

Lemma uint64_add_l a b : uint64 (uint64 a + b) = uint64 (a + b).
Proof. unfold uint64, wrapU. apply Zplus_mod_idemp_l. Qed.

Lemma int64_small z : (- 2 ^ 63 <= z < 2 ^ 63)%Z -> int64 z = z.
Proof.
  intros H. unfold int64, wrapS. rewrite Z.mod_small; lia.
Qed.

Lemma int64_range z : (- 2 ^ 63 <= int64 z < 2 ^ 63)%Z.
Proof.
  unfold int64, wrapS.
  pose proof (Z.mod_pos_bound (z + 2 ^ (64 - 1)) (2 ^ 64)). lia.
Qed.

Lemma int32_small z : (- 2 ^ 31 <= z < 2 ^ 31)%Z -> int32 z = z.
Proof.
  intros H. unfold int32, wrapS. rewrite Z.mod_small; lia.
Qed.

(** ** Byte strings

    [+:+] is string concatenation.  The rewrite database [str] puts a
    concatenation in the shape [String a (... +:+ ...)], right-nested. *)

Create Rewrite HintDb str.

Lemma sapp_nil_l (s : string) : "" +:+ s = s.
Proof. done. Qed.
Lemma sapp_cons a (s t : string) : String a s +:+ t = String a (s +:+ t).
Proof. done. Qed.
Lemma sapp_nil_r (s : string) : s +:+ "" = s.
Proof. induction s as [|a s IH]; [done|]. by rewrite sapp_cons, IH. Qed.
Lemma sapp_assoc (s t u : string) : (s +:+ t) +:+ u = s +:+ t +:+ u.
Proof. induction s as [|a s IH]; [done|]. by rewrite !sapp_cons, IH. Qed.
Lemma length_sapp (s t : string) :
  String.length (s +:+ t) = String.length s + String.length t.
Proof. induction s as [|a s IH]; [done|]. rewrite sapp_cons. cbn. by rewrite IH. Qed.

#[export] Hint Rewrite sapp_nil_l sapp_cons sapp_nil_r sapp_assoc : str.

Lemma sapp_eq_nil (s t : string) : s +:+ t = "" -> s = "" /\ t = "".
Proof. destruct s; [by rewrite sapp_nil_l | rewrite sapp_cons; discriminate]. Qed.

Lemma sapp_inj_l (s t u : string) : s +:+ t = s +:+ u -> t = u.
Proof. apply (inj (String.append s)). Qed.

Lemma sapp_inj_r (s t u : string) : s +:+ u = t +:+ u -> s = t.
Proof.
  revert t. induction s as [|a s IH]; intros [|b t]; autorewrite with str; try done.
  - intros H. apply (f_equal String.length) in H. cbn in H. rewrite length_sapp in H. lia.
  - intros H. apply (f_equal String.length) in H. cbn in H. rewrite length_sapp in H. lia.
  - intros [= -> ->%IH]. done.
Qed.

(** [bool_decide] on the byte and string tests of the code *)
Ltac case_bool :=
  match goal with
  | |- context [bool_decide ?P] => case_bool_decide; simplify_eq/=
  | H : context [bool_decide ?P] |- _ => revert H; case_bool_decide; intros H; simplify_eq/=
  end.

Lemma wrapS_add_l w a b : (0 < w)%Z -> wrapS w (wrapS w a + b) = wrapS w (a + b).
Proof.
  intros Hw. unfold wrapS. f_equal.
  replace ((a + 2 ^ (w - 1)) mod 2 ^ w - 2 ^ (w - 1) + b + 2 ^ (w - 1))%Z
    with ((a + 2 ^ (w - 1)) mod 2 ^ w + b)%Z by lia.
  rewrite Zplus_mod_idemp_l. f_equal. lia.
Qed.

Lemma int64_add_l a b : int64 (int64 a + b) = int64 (a + b).
Proof. by apply wrapS_add_l. Qed.

Lemma int64_add_r a b : int64 (a + int64 b) = int64 (a + b).
Proof. by rewrite Z.add_comm, int64_add_l, Z.add_comm. Qed.
