(* ===== verification/GoStrings.v ===== *)
(** * GoStrings: the parts of Go's [strings], [strconv] and [encoding] that the
    program uses

    A Go [string] or [[]byte] is a sequence of bytes: here a [string], one
    [ascii] per byte.  Every function is executable and works on any byte
    sequence.  [strings.ToLower] is exact on ASCII input and on the two
    non-ASCII letters whose lower case is ASCII (U+0130 and U+212A); it leaves
    the other non-ASCII bytes alone, which its one caller cannot observe because
    it only looks the result up under ASCII names. *)

From S2P Require Import Prelude.
From Stdlib Require Import Ascii String.
Open Scope string_scope.
Open Scope list_scope.

Definition slash : ascii := "/"%char.

(** ** Package [strings] *)

Fixpoint strip_prefix (p s : string) : option string :=
  match p, s with
  | "", _ => Some s
  | String a p', String b s' =>
      if bool_decide (a = b) then strip_prefix p' s' else None
  | String _ _, "" => None
  end.

Definition HasPrefix (s p : string) : bool :=
  match strip_prefix p s with Some _ => true | None => false end.

Definition TrimPrefix (s p : string) : string :=
  match strip_prefix p s with Some r => r | None => s end.

Fixpoint HasSuffix (s suf : string) : bool :=
  bool_decide (s = suf) ||
  match s with "" => false | String _ s' => HasSuffix s' suf end.

Fixpoint Contains (s sub : string) : bool :=
  HasPrefix s sub ||
  match s with "" => false | String _ s' => Contains s' sub end.

(** [strings.TrimLeft(s, c)], [TrimRight], [Trim] for a one-byte cutset *)
Fixpoint TrimLeft (s : string) (c : ascii) : string :=
  match s with
  | "" => ""
  | String a s' => if bool_decide (a = c) then TrimLeft s' c else s
  end.

Fixpoint TrimRight (s : string) (c : ascii) : string :=
  match s with
  | "" => ""
  | String a s' =>
      match TrimRight s' c with
      | "" => if bool_decide (a = c) then "" else String a ""
      | t => String a t
      end
  end.

Definition Trim (s : string) (c : ascii) : string := TrimRight (TrimLeft s c) c.

(** [strings.Cut(s, c)] for a one-byte separator *)
Fixpoint Cut (s : string) (c : ascii) : option (string * string) :=
  match s with
  | "" => None
  | String a s' =>
      if bool_decide (a = c) then Some ("", s')
      else match Cut s' c with
           | Some (x, y) => Some (String a x, y)
           | None => None
           end
  end.

(** [strings.Split(s, c)] and [strings.Join(l, c)] for a one-byte separator *)
Fixpoint Split (s : string) (c : ascii) : list string :=
  match s with
  | "" => [""]
  | String a s' =>
      if bool_decide (a = c) then "" :: Split s' c
      else match Split s' c with
           | x :: l => String a x :: l
           | [] => [String a ""]
           end
  end.

Fixpoint Join (l : list string) (c : ascii) : string :=
  match l with
  | [] => ""
  | [x] => x
  | x :: l' => x +:+ String c (Join l' c)
  end.

Fixpoint no_char (c : ascii) (s : string) : bool :=
  match s with
  | "" => true
  | String a s' => negb (bool_decide (a = c)) && no_char c s'
  end.

(** *** White space ([unicode.IsSpace], by its UTF-8 encodings) *)

Definition space1 (a : ascii) : bool :=
  let n := nat_of_ascii a in
  ((9 <=? n) && (n <=? 13) || (n =? 32))%nat.

Definition space2 (a b : ascii) : bool :=
  let (n, m) := (nat_of_ascii a, nat_of_ascii b) in
  ((n =? 194) && ((m =? 133) || (m =? 160)))%nat.

Definition space3 (a b c : ascii) : bool :=
  let n := nat_of_ascii a in
  let m := nat_of_ascii b in
  let k := nat_of_ascii c in
  (((n =? 225) && (m =? 154) && (k =? 128))
   || ((n =? 226) && (m =? 128) &&
       ((128 <=? k) && (k <=? 138) || (k =? 168) || (k =? 169) || (k =? 175)))
   || ((n =? 226) && (m =? 129) && (k =? 159))
   || ((n =? 227) && (m =? 128) && (k =? 128)))%nat.

Fixpoint TrimLeftSpace (s : string) : string :=
  match s with
  | "" => ""
  | String a s1 =>
      if space1 a then TrimLeftSpace s1
      else match s1 with
           | "" => s
           | String b s2 =>
               if space2 a b then TrimLeftSpace s2
               else match s2 with
                    | "" => s
                    | String c s3 => if space3 a b c then TrimLeftSpace s3 else s
                    end
           end
  end.

(** the same on a reversed string, so that it trims at the right *)
Fixpoint trim_rev (s : string) : string :=
  match s with
  | "" => ""
  | String a s1 =>
      if space1 a then trim_rev s1
      else match s1 with
           | "" => s
           | String b s2 =>
               if space2 b a then trim_rev s2
               else match s2 with
                    | "" => s
                    | String c s3 => if space3 c b a then trim_rev s3 else s
                    end
           end
  end.

Fixpoint rev_append (s acc : string) : string :=
  match s with "" => acc | String a s' => rev_append s' (String a acc) end.
Definition reverse (s : string) : string := rev_append s "".

Definition TrimRightSpace (s : string) : string := reverse (trim_rev (reverse s)).
Definition TrimSpace (s : string) : string := TrimRightSpace (TrimLeftSpace s).

(** *** [strings.ToLower] *)

Definition lower (a : ascii) : ascii :=
  let n := nat_of_ascii a in
  if ((65 <=? n) && (n <=? 90))%nat then ascii_of_nat (n + 32) else a.

Fixpoint ToLower (s : string) : string :=
  match s with
  | "" => ""
  | String a "" => String (lower a) ""
  | String a (String b s2 as s1) =>
      if bool_decide ((a, b) = ("196", "176")%char) then String "i" (ToLower s2)
      else if bool_decide ((a, b) = ("226", "132")%char) then
        match s2 with
        | String c s3 =>
            if bool_decide (c = "170"%char) then String "k" (ToLower s3)
            else String (lower a) (ToLower s1)
        | "" => String (lower a) (ToLower s1)
        end
      else String (lower a) (ToLower s1)
  end.

(** ** Package [strconv] *)

Definition digit_char (d : Z) : ascii := ascii_of_nat (Z.to_nat (48 + d)).

Definition digit_val (a : ascii) : option Z :=
  let n := Z.of_nat (nat_of_ascii a) in
  if bool_decide (48 <= n <= 57)%Z then Some (n - 48)%Z else None.

Fixpoint fmt_digits (fuel : nat) (n : Z) (acc : string) : string :=
  match fuel with
  | O => acc
  | S fuel' =>
      let acc' := String (digit_char (n mod 10)) acc in
      if (n <? 10)%Z then acc' else fmt_digits fuel' (n / 10) acc'
  end.

(** [strconv.FormatUint(n, 10)]; [Z.log2 n + 1] digits are enough in base 2 *)
Definition FormatUint (n : Z) : string := fmt_digits (S (Z.to_nat (Z.log2 n))) n "".

(** [strconv.Itoa] *)
Definition Itoa (n : Z) : string :=
  if (n <? 0)%Z then String "-" (FormatUint (- n)) else FormatUint n.

Fixpoint zeros (n : nat) : string :=
  match n with O => "" | S n' => String "0" (zeros n') end.

(** [fmt.Sprintf("%04d", n)] for [n >= 0] *)
Definition fmt_04d (n : Z) : string :=
  let s := FormatUint n in zeros (4 - String.length s) +:+ s.

(** [strconv.ParseUint(s, 10, 64)]: a value and whether it is an error; out of
    range reports the largest value, a syntax error reports 0 *)
Inductive num_error : Set := ErrSyntax | ErrRange.

Fixpoint parse_uint_loop (s : string) (n : Z) : Z * option num_error :=
  match s with
  | "" => (n, None)
  | String c s' =>
      match digit_val c with
      | None => (0%Z, Some ErrSyntax)
      | Some d =>
          let n1 := (n * 10 + d)%Z in
          if (max_uint64 <? n1)%Z then (max_uint64, Some ErrRange)
          else parse_uint_loop s' n1
      end
  end.

Definition ParseUint (s : string) : Z * option num_error :=
  if bool_decide (s = "") then (0%Z, Some ErrSyntax) else parse_uint_loop s 0.

(** ** Packages [encoding/hex] and [encoding/base64] *)

Definition hex_digit (n : nat) : ascii :=
  ascii_of_nat (if (n <? 10)%nat then 48 + n else 87 + n)%nat.

Fixpoint HexEncode (s : string) : string :=
  match s with
  | "" => ""
  | String a s' =>
      let n := nat_of_ascii a in
      String (hex_digit (n / 16)) (String (hex_digit (n mod 16)) (HexEncode s'))
  end.

Definition b64_digit (n : nat) : ascii :=
  ascii_of_nat
    (if (n <? 26) then 65 + n else if (n <? 52) then 71 + n
     else if (n <? 62) then n - 4 else if (n =? 62) then 43 else 47)%nat.

(** [base64.StdEncoding.EncodeToString] *)
Fixpoint Base64Encode (s : string) : string :=
  match s with
  | "" => ""
  | String a "" =>
      let n := nat_of_ascii a in
      String (b64_digit (n / 4)) (String (b64_digit (n mod 4 * 16)) "==")
  | String a (String b "") =>
      let (n, m) := (nat_of_ascii a, nat_of_ascii b) in
      String (b64_digit (n / 4)) (String (b64_digit (n mod 4 * 16 + m / 16))
        (String (b64_digit (m mod 16 * 4)) "="))
  | String a (String b (String c s')) =>
      let n := nat_of_ascii a in
      let m := nat_of_ascii b in
      let k := nat_of_ascii c in
      String (b64_digit (n / 4)) (String (b64_digit (n mod 4 * 16 + m / 16))
        (String (b64_digit (m mod 16 * 4 + k / 64)) (String (b64_digit (k mod 64))
          (Base64Encode s'))))
  end.

(** ** Lemmas *)

Lemma strip_prefix_app (p s : string) : strip_prefix p (p +:+ s) = Some s.
Proof.
  induction p as [|a p IH]; [by destruct s|].
  rewrite sapp_cons. cbn. by case_bool_decide.
Qed.

Lemma strip_prefix_Some (p s r : string) : strip_prefix p s = Some r <-> s = p +:+ r.
Proof.
  split; [|intros ->; apply strip_prefix_app].
  revert s. induction p as [|a p IH]; intros [|b s]; cbn; intros H; simplify_eq; try done.
  case_bool_decide; [subst | done]. rewrite sapp_cons. f_equal. by apply IH.
Qed.

Lemma HasPrefix_iff (s p : string) : HasPrefix s p = true <-> exists r, s = p +:+ r.
Proof.
  unfold HasPrefix. destruct (strip_prefix p s) as [r|] eqn:E.
  - apply strip_prefix_Some in E. naive_solver.
  - split; [done|]. intros [r ->]. by rewrite strip_prefix_app in E.
Qed.

Lemma TrimPrefix_app (p s : string) : TrimPrefix (p +:+ s) p = s.
Proof. unfold TrimPrefix. by rewrite strip_prefix_app. Qed.

(** *** [Split] and [Join] *)

Lemma Split_nonempty s c : Split s c <> [].
Proof. destruct s as [|a s]; cbn; [done|]. case_bool_decide; [done|]. by destruct (Split s c). Qed.

Lemma Split_no_char s c : no_char c s = true -> Split s c = [s].
Proof.
  induction s as [|a s IH]; cbn; [done|].
  case_bool_decide; cbn; [done|]. intros H'. by rewrite IH.
Qed.

Lemma Split_app s t c : no_char c s = true -> Split (s +:+ String c t) c = s :: Split t c.
Proof.
  induction s as [|a s IH]; intros H; [rewrite sapp_nil_l; cbn; by case_bool_decide|].
  rewrite sapp_cons. cbn in *. case_bool_decide; cbn in *; [done|]. by rewrite IH.
Qed.

Lemma Split_pieces s c : Forall (fun x => no_char c x = true) (Split s c).
Proof.
  induction s as [|a s IH]; cbn; [by repeat constructor|].
  case_bool_decide as Ha; [by constructor|].
  destruct (Split s c) as [|x l]; [repeat constructor; cbn; by case_bool_decide|].
  apply Forall_cons in IH as [Hx Hl]. constructor; [|done].
  cbn. by case_bool_decide.
Qed.

(** splitting at a separator undoes joining, when no piece contains it *)
Lemma Split_Join l c :
  l <> [] -> Forall (fun x => no_char c x = true) l -> Split (Join l c) c = l.
Proof.
  intros Hl. induction l as [|x l IH]; [done|].
  intros [Hx Hf]%Forall_cons. destruct l as [|y l]; [by apply Split_no_char|].
  change (Join (x :: y :: l) c) with (x +:+ String c (Join (y :: l) c)).
  rewrite Split_app by done. f_equal. by apply IH.
Qed.

Lemma Join_Split s c : Join (Split s c) c = s.
Proof.
  induction s as [|a s IH]; [done|]. cbn. case_bool_decide; subst.
  - pose proof (Split_nonempty s c). destruct (Split s c) as [|x l]; [done|].
    cbn in *. by rewrite IH.
  - destruct (Split s c) as [|x [|y l]]; cbn in *; [by subst| by subst|].
    rewrite sapp_cons. by rewrite IH.
Qed.

(** *** Trimming *)

Lemma TrimLeft_id s c : (forall s', s <> String c s') -> TrimLeft s c = s.
Proof. destruct s as [|a s]; cbn; [done|]. intros H. case_bool_decide; naive_solver. Qed.

Lemma TrimLeft_no_head s c s' : TrimLeft s c <> String c s'.
Proof. induction s as [|a s IH]; cbn; [done|]. case_bool_decide; naive_solver. Qed.

Lemma TrimLeft_idem s c : TrimLeft (TrimLeft s c) c = TrimLeft s c.
Proof. apply TrimLeft_id, TrimLeft_no_head. Qed.

Lemma TrimRight_last s c s' : TrimRight s c <> s' +:+ String c "".
Proof.
  revert s'. induction s as [|a s IH]; intros s'; cbn.
  { intros H. symmetry in H. by apply sapp_eq_nil in H as [_ ?]. }
  destruct (TrimRight s c) as [|b t] eqn:E.
  - case_bool_decide; [intros H'; symmetry in H'; by apply sapp_eq_nil in H' as [_ ?]|].
    destruct s' as [|d s']; [rewrite sapp_nil_l; naive_solver|].
    rewrite sapp_cons. intros [= -> H']. symmetry in H'. by apply sapp_eq_nil in H' as [_ ?].
  - destruct s' as [|d s']; [done|]. rewrite sapp_cons. intros [= -> H']. by eapply IH.
Qed.

(** *** Decimal digits *)

Fixpoint all_digits (s : string) : bool :=
  match s with
  | "" => true
  | String a s' => match digit_val a with Some _ => all_digits s' | None => false end
  end.

Lemma digit_val_char d : (0 <= d < 10)%Z -> digit_val (digit_char d) = Some d.
Proof.
  intros H.
  assert (d = 0 \/ d = 1 \/ d = 2 \/ d = 3 \/ d = 4 \/ d = 5 \/ d = 6 \/ d = 7 \/ d = 8
          \/ d = 9)%Z as Hd by lia.
  destruct_or! Hd; subst; reflexivity.
Qed.

Lemma digit_char_zero d : (0 <= d < 10)%Z -> digit_char d = "0"%char -> d = 0%Z.
Proof. intros H E. apply digit_val_char in H. rewrite E in H. by injection H. Qed.

Lemma fmt_digits_spec fuel n acc :
  (0 <= n < 2 ^ Z.of_nat fuel)%Z -> fuel <> O ->
  exists D, fmt_digits fuel n acc = D +:+ acc /\ all_digits D = true /\ D <> "" /\
    (forall D', D = String "0" D' -> n = 0%Z /\ D' = "").
Proof.
  revert n acc. induction fuel as [|f IH]; intros n acc Hn Hf; [done|].
  rewrite Nat2Z.inj_succ, Z.pow_succ_r in Hn by lia.
  pose proof (Z.mod_pos_bound n 10 ltac:(lia)) as Hm.
  cbn [fmt_digits]. destruct (Z.ltb_spec n 10) as [Hlt|Hge].
  - exists (String (digit_char (n mod 10)) ""). rewrite sapp_cons, sapp_nil_l.
    split_and!; [done| |done|].
    + cbn. by rewrite digit_val_char.
    + intros D' [= H <-]. rewrite Z.mod_small in H by lia.
      apply digit_char_zero in H; [done|lia].
  - destruct (IH (n / 10)%Z (String (digit_char (n mod 10)) acc)) as (D & HD & Hdig & Hne & H0).
    { pose proof (Z_div_mod_eq_full n 10). lia. }
    { intros ->. cbn in Hn. lia. }
    exists (D +:+ String (digit_char (n mod 10)) ""). autorewrite with str.
    split_and!; [done| | |].
    + clear -Hdig Hm. induction D as [|a D IH].
      * rewrite sapp_nil_l. cbn. by rewrite digit_val_char.
      * rewrite sapp_cons. cbn in *. destruct (digit_val a); [auto|done].
    + destruct D; [done|]. by rewrite sapp_cons.
    + intros D' HD'. destruct D as [|a D]; [done|]. rewrite sapp_cons in HD'.
      injection HD' as -> _. destruct (H0 D eq_refl) as [H1 ->].
      pose proof (Z_div_mod_eq_full n 10). lia.
Qed.

Lemma log2_bound n : (0 <= n)%Z -> (n < 2 ^ Z.of_nat (S (Z.to_nat (Z.log2 n))))%Z.
Proof.
  intros Hn. destruct (decide (n = 0)%Z) as [->|]; [done|].
  rewrite Nat2Z.inj_succ, Z2Nat.id by apply Z.log2_nonneg.
  apply Z.log2_spec. lia.
Qed.

Lemma FormatUint_spec n :
  (0 <= n)%Z ->
  all_digits (FormatUint n) = true /\ FormatUint n <> "" /\
  (forall D', FormatUint n = String "0" D' -> n = 0%Z /\ D' = "").
Proof.
  intros Hn. unfold FormatUint.
  destruct (fmt_digits_spec (S (Z.to_nat (Z.log2 n))) n "") as (D & -> & H).
  { pose proof (log2_bound n Hn). lia. }
  { done. }
  by rewrite sapp_nil_r.
Qed.

Lemma parse_fmt_digits fuel n acc :
  (0 <= n <= max_uint64)%Z -> (n < 2 ^ Z.of_nat fuel)%Z ->
  parse_uint_loop (fmt_digits fuel n acc) 0 = parse_uint_loop acc n.
Proof.
  revert n acc. induction fuel as [|f IH]; intros n acc Hn Hf.
  { cbn in *. by replace n with 0%Z by lia. }
  rewrite Nat2Z.inj_succ, Z.pow_succ_r in Hf by lia.
  pose proof (Z.mod_pos_bound n 10 ltac:(lia)) as Hm.
  pose proof (Z_div_mod_eq_full n 10) as Hdm.
  cbn [fmt_digits]. destruct (Z.ltb_spec n 10) as [Hlt|Hge].
  - cbn. rewrite digit_val_char by done. rewrite Z.mod_small by lia.
    destruct (Z.ltb_spec max_uint64 (0 * 10 + n)); [lia|]. f_equal; lia.
  - rewrite IH by (unfold max_uint64 in *; lia). cbn. rewrite digit_val_char by done.
    destruct (Z.ltb_spec max_uint64 (n / 10 * 10 + n mod 10)); [lia|]. f_equal. lia.
Qed.

(** [ParseUint] reads back what [FormatUint] prints *)
Lemma ParseUint_FormatUint n :
  (0 <= n <= max_uint64)%Z -> ParseUint (FormatUint n) = (n, None).
Proof.
  intros Hn. destruct (FormatUint_spec n) as (_ & Hne & _); [lia|].
  unfold ParseUint. rewrite bool_decide_eq_false_2 by done.
  unfold FormatUint. rewrite parse_fmt_digits; [done|done|]. apply log2_bound. lia.
Qed.

(** A successful [ParseUint] is in range, and a failed one reports 0 or the top. *)
Lemma parse_uint_loop_range s n v e :
  (0 <= n <= max_uint64)%Z -> parse_uint_loop s n = (v, e) -> (0 <= v <= max_uint64)%Z.
Proof.
  revert n. induction s as [|a s IH]; intros n Hn; cbn; [naive_solver|].
  destruct (digit_val a) as [d|] eqn:Hd; [|naive_solver lia].
  destruct (Z.ltb_spec max_uint64 (n * 10 + d)); [naive_solver lia|].
  apply IH. unfold digit_val in Hd. case_bool_decide; [|done]. injection Hd as <-. lia.
Qed.

(** *** [Contains] *)

Lemma Contains_app s sub t : Contains (s +:+ sub +:+ t) sub = true.
Proof.
  induction s as [|a s IH].
  - rewrite sapp_nil_l. destruct (sub +:+ t) as [|b u] eqn:E; cbn.
    + by apply sapp_eq_nil in E as [-> _].
    + rewrite <- E. by rewrite (proj2 (HasPrefix_iff _ _)) by by exists t.
  - rewrite sapp_cons. cbn. rewrite IH. by destruct (HasPrefix _ _).
Qed.

(** a string that contains [sub] has every byte of it *)
Lemma Contains_no_char s sub c :
  Contains s sub = true -> no_char c s = true -> no_char c sub = true.
Proof.
  assert (Hp : forall p r, no_char c (p +:+ r) = true -> no_char c p = true).
  { induction p as [|a p IH]; intros r; [done|]. rewrite sapp_cons. cbn.
    rewrite !andb_true_iff. naive_solver. }
  induction s as [|a s IH]; cbn; intros H Hc.
  - destruct (HasPrefix "" sub) eqn:E; [|done]. apply HasPrefix_iff in E as [r E].
    symmetry in E. by apply sapp_eq_nil in E as [-> _].
  - destruct (HasPrefix (String a s) sub) eqn:E.
    + apply HasPrefix_iff in E as [r E]. apply (Hp sub r). by rewrite <- E.
    + apply andb_true_iff in Hc as [_ Hc]. by apply IH.
Qed.

Lemma TrimRight_no_char s c : no_char c s = true -> TrimRight s c = s.
Proof.
  induction s as [|a s IH]; cbn; [done|]. rewrite andb_true_iff, negb_true_iff. intros [Ha Hs].
  rewrite IH by done. destruct s; [|done]. by rewrite Ha.
Qed.

Lemma TrimRight_nil_no_head s c : TrimRight s c = "" -> s = "" \/ exists s', s = String c s'.
Proof.
  destruct s as [|a s]; [by left|]. cbn. destruct (TrimRight s c); [|done].
  case_bool_decide; [|done]. subst. right. by exists s.
Qed.

Lemma TrimRight_head s c a s' : TrimRight s c = String a s' -> exists t, s = String a t.
Proof.
  destruct s as [|b s]; cbn; [done|]. destruct (TrimRight s c); [|naive_solver].
  case_bool_decide; naive_solver.
Qed.

(** [Trim] leaves the byte at neither end *)
Lemma Trim_ends s c :
  (forall s', Trim s c <> String c s') /\ (forall s', Trim s c <> s' +:+ String c "").
Proof.
  split; intros s'; [|apply TrimRight_last]. intros [t Ht]%TrimRight_head.
  by apply TrimLeft_no_head in Ht.
Qed.

Lemma parse_uint_loop_err s n v e :
  parse_uint_loop s n = (v, Some e) -> v = match e with ErrSyntax => 0%Z | ErrRange => max_uint64 end.
Proof.
  revert n. induction s as [|a s IH]; intros n; cbn; [done|].
  destruct (digit_val a) as [d|]; [|naive_solver].
  destruct (max_uint64 <? n * 10 + d)%Z; [naive_solver|]. apply IH.
Qed.

(** the value that comes with an error, and the range of every value *)
Lemma ParseUint_spec s :
  (0 <= (ParseUint s).1 <= max_uint64)%Z /\
  forall e, (ParseUint s).2 = Some e ->
    (ParseUint s).1 = match e with ErrSyntax => 0%Z | ErrRange => max_uint64 end.
Proof.
  unfold ParseUint. case_bool_decide; [split; [done|naive_solver]|].
  destruct (parse_uint_loop s 0) as [v e] eqn:E. split.
  - by apply parse_uint_loop_range in E.
  - cbn. intros e' ->. by eapply parse_uint_loop_err.
Qed.

(** *** [Cut] *)

Lemma no_char_app c s t : no_char c (s +:+ t) = no_char c s && no_char c t.
Proof. induction s as [|a s IH]; [done|]. rewrite sapp_cons. cbn. by rewrite IH, andb_assoc. Qed.

Lemma Cut_none s c : no_char c s = true -> Cut s c = None.
Proof.
  induction s as [|a s IH]; cbn; [done|]. case_bool_decide; cbn; [done|]. intros H'. by rewrite IH.
Qed.

Lemma Cut_at s t c : no_char c s = true -> Cut (s +:+ String c t) c = Some (s, t).
Proof.
  induction s as [|a s IH]; intros H.
  - rewrite sapp_nil_l. cbn. by rewrite bool_decide_eq_true_2.
  - rewrite sapp_cons. cbn in *. case_bool_decide; [done|]. cbn in H. by rewrite IH.
Qed.

(** *** Text without white space at its ends *)

(** a printable ASCII byte other than the space *)
Definition solid (a : ascii) : bool := ((33 <=? nat_of_ascii a) && (nat_of_ascii a <=? 126))%nat.

Lemma solid_range a : solid a = true -> 33 <= nat_of_ascii a <= 126.
Proof. unfold solid. rewrite andb_true_iff, !Nat.leb_le. lia. Qed.

Lemma solid_no_space1 a : solid a = true -> space1 a = false.
Proof.
  intros H%solid_range. unfold space1. apply not_true_iff_false.
  rewrite orb_true_iff, andb_true_iff, !Nat.leb_le, Nat.eqb_eq. lia.
Qed.

Ltac solid_not_utf8 H :=
  apply solid_range in H; apply not_true_iff_false;
  repeat first [rewrite orb_true_iff | rewrite andb_true_iff
               | rewrite Nat.leb_le | rewrite Nat.eqb_eq]; lia.

Lemma solid_no_space2 a b : solid a = true \/ solid b = true -> space2 a b = false.
Proof. unfold space2. intros [H|H]; solid_not_utf8 H. Qed.

Lemma solid_no_space3 a b c : solid a = true \/ solid c = true -> space3 a b c = false.
Proof. unfold space3. cbv zeta. intros [H|H]; solid_not_utf8 H. Qed.

Lemma TrimLeftSpace_solid a s : solid a = true -> TrimLeftSpace (String a s) = String a s.
Proof.
  intros H. destruct s as [|b [|c s]]; cbn -[space1 space2 space3];
    rewrite solid_no_space1 by done; [done|..]; rewrite solid_no_space2 by auto; [done|].
  by rewrite solid_no_space3 by auto.
Qed.

Lemma trim_rev_solid a s : solid a = true -> trim_rev (String a s) = String a s.
Proof.
  intros H. destruct s as [|b [|c s]]; cbn -[space1 space2 space3];
    rewrite solid_no_space1 by done; [done|..]; rewrite solid_no_space2 by auto; [done|].
  by rewrite solid_no_space3 by auto.
Qed.

Lemma rev_append_app s t acc : rev_append (s +:+ t) acc = rev_append t (rev_append s acc).
Proof. revert acc. induction s as [|a s IH]; intros acc; [done|]. rewrite sapp_cons. apply IH. Qed.

Lemma rev_append_acc s acc : rev_append s acc = reverse s +:+ acc.
Proof.
  unfold reverse. revert acc. induction s as [|a s IH]; intros acc; [done|]. cbn.
  rewrite IH, (IH (String a "")), sapp_assoc. done.
Qed.

Lemma reverse_snoc s a : reverse (s +:+ String a "") = String a (reverse s).
Proof. unfold reverse at 1. by rewrite rev_append_app. Qed.

Lemma reverse_cons a s : reverse (String a s) = reverse s +:+ String a "".
Proof. unfold reverse at 1. cbn. apply rev_append_acc. Qed.

Lemma reverse_involutive s : reverse (reverse s) = s.
Proof. induction s as [|a s IH]; [done|]. by rewrite reverse_cons, reverse_snoc, IH. Qed.

(** a solid byte at the end stops the right trim, one at the start the left trim *)
Lemma TrimRightSpace_solid s a : solid a = true -> TrimRightSpace (s +:+ String a "") = s +:+ String a "".
Proof.
  intros H. unfold TrimRightSpace. rewrite reverse_snoc, trim_rev_solid by done.
  by rewrite reverse_cons, reverse_involutive.
Qed.

Definition solid_text (s : string) : Prop :=
  (exists a t, s = String a t /\ solid a = true) /\ (exists t a, s = t +:+ String a "" /\ solid a = true).

Lemma TrimSpace_solid s : solid_text s -> TrimSpace s = s.
Proof.
  intros [(a & t & E & Ha) (u & b & E' & Hb)]. unfold TrimSpace. rewrite E at 1.
  rewrite TrimLeftSpace_solid, <- E, E' by done. by apply TrimRightSpace_solid.
Qed.

Lemma TrimSpace_space_solid s : solid_text s -> TrimSpace (String " " s) = s.
Proof.
  intros H. rewrite <- (TrimSpace_solid s H) at 2. unfold TrimSpace. by destruct s.
Qed.

(** every byte solid *)
Fixpoint all_solid (s : string) : bool :=
  match s with "" => true | String a s' => solid a && all_solid s' end.

Lemma all_solid_last s : s <> "" -> all_solid s = true -> exists t a, s = t +:+ String a "" /\ solid a = true.
Proof.
  induction s as [|a s IH]; [done|]. intros _. cbn. intros [Ha Hs]%andb_true_iff.
  destruct s as [|b s]; [by exists "", a|].
  destruct IH as (t & c & -> & Hc); [done|done|]. by exists (String a t), c.
Qed.

Lemma all_solid_text s : s <> "" -> all_solid s = true -> solid_text s.
Proof.
  intros Hne Hs. split; [|by apply all_solid_last].
  destruct s as [|a s]; [done|]. cbn in Hs. apply andb_true_iff in Hs as [Ha _]. by exists a, s.
Qed.

(** a solid end makes solid text, whatever is between *)
Lemma solid_text_app a p s : solid a = true -> s <> "" -> all_solid s = true -> solid_text (String a p +:+ s).
Proof.
  intros Ha Hne Hs. split; [exists a, (p +:+ s); by rewrite sapp_cons|].
  destruct (all_solid_last s Hne Hs) as (t & b & -> & Hb). exists (String a p +:+ t), b.
  by rewrite sapp_assoc.
Qed.

Lemma all_solid_no_char s c : solid c = false -> all_solid s = true -> no_char c s = true.
Proof.
  intros Hc. induction s as [|a s IH]; cbn; [done|]. intros [Ha Hs]%andb_true_iff.
  rewrite IH by done. rewrite bool_decide_eq_false_2; [done|]. intros ->. congruence.
Qed.
