(* ===== verification/GoPath.v ===== *)
(** * GoPath: Go's [path] and [path/filepath] (on Unix), lexically

    [Clean] works component by component; [walk] is the reference it is compared
    with: following the components from a root directory, where a [..] at the
    root has nowhere to go. *)

From S2P Require Import Prelude GoStrings.
From Stdlib Require Import Ascii String.
Open Scope string_scope.
Open Scope list_scope.

(** ** Package [path] *)

(** One component of the path against the components kept so far, last first. *)
Definition clean_step (rooted : bool) (stack : list string) (c : string) : list string :=
  if bool_decide (c = "" \/ c = ".") then stack
  else if bool_decide (c = "..") then
    match stack with
    | [] => if rooted then [] else [".."]
    | top :: rest => if bool_decide (top = "..") then ".." :: stack else rest
    end
  else c :: stack.

Definition clean_comps (rooted : bool) (s : string) : list string :=
  rev (fold_left (clean_step rooted) (Split s slash) []).

(** [path.Clean]; [filepath.Clean] is the same function on Unix *)
Definition Clean (s : string) : string :=
  let rooted := HasPrefix s "/" in
  let body := Join (clean_comps rooted s) slash in
  if rooted then String slash body
  else if bool_decide (body = "") then "." else body.

(** [path.Base] *)
Definition Base (s : string) : string :=
  if bool_decide (s = "") then "."
  else let b := default "" (last (Split (TrimRight s slash) slash)) in
       if bool_decide (b = "") then "/" else b.

(** [path.Dir]: everything up to the last slash, cleaned *)
Definition Dir (s : string) : string :=
  match rev (Split s slash) with
  | _ :: (_ :: _) as r => Clean (Join (rev (tail r)) slash +:+ "/")
  | _ => Clean ""
  end.

(** [filepath.Join] *)
Fixpoint PathJoin (l : list string) : string :=
  match l with
  | [] => ""
  | x :: l' => if bool_decide (x = "") then PathJoin l' else Clean (Join l slash)
  end.


(** ** Reference semantics: walking the components from a root *)

Definition walk_step (st : option (list string)) (c : string) : option (list string) :=
  match st with
  | None => None
  | Some stack =>
      if bool_decide (c = "" \/ c = ".") then Some stack
      else if bool_decide (c = "..") then
        match stack with [] => None | _ :: rest => Some rest end
      else Some (c :: stack)
  end.

(** the directories entered, outermost first; [None] when the walk leaves the root *)
Definition walk (s : string) : option (list string) :=
  @rev string <$> fold_left walk_step (Split s slash) (Some []).

(** ** Normal forms *)

Definition proper (c : string) : Prop :=
  c <> "" /\ c <> "." /\ c <> ".." /\ no_char slash c = true.

(** A cleaned stack: proper components, above some [..] when not rooted. *)
Definition stack_ok (rooted : bool) (st : list string) : Prop :=
  exists l k, st = l ++ replicate k ".." /\ Forall proper l /\ (rooted = true -> k = 0).

Definition slash_free (l : list string) : Prop := Forall (fun c => no_char slash c = true) l.

Lemma proper_slash_free l : Forall proper l -> slash_free l.
Proof. intros Hl. eapply Forall_impl; [exact Hl|]. by intros c (_ & _ & _ & ?). Qed.

Lemma stack_ok_slash_free rooted st : stack_ok rooted st -> slash_free st.
Proof.
  intros (l & k & -> & Hl & _). apply Forall_app. split; [by apply proper_slash_free|].
  by apply Forall_replicate.
Qed.

Lemma clean_step_ok rooted st c :
  stack_ok rooted st -> no_char slash c = true -> stack_ok rooted (clean_step rooted st c).
Proof.
  intros (l & k & -> & Hl & Hk) Hc. unfold clean_step.
  case_bool_decide as H1; [by exists l, k|].
  case_bool_decide as H2.
  - destruct l as [|x l]; cbn.
    + destruct k as [|k]; cbn.
      * destruct rooted; [by exists [], 0|]. by exists [], 1.
      * rewrite bool_decide_eq_true_2 by done. exists [], (S (S k)).
        split_and!; [done|done|]. intros Hr. by apply Hk in Hr.
    + apply Forall_cons in Hl as [(_ & _ & Hx & _) Hl].
      rewrite bool_decide_eq_false_2 by done. by exists l, k.
  - exists (c :: l), k. split_and!; [done| |done]. constructor; [|done].
    unfold proper. naive_solver.
Qed.

Lemma clean_fold_ok rooted l st :
  stack_ok rooted st -> slash_free l -> stack_ok rooted (fold_left (clean_step rooted) l st).
Proof.
  revert st. induction l as [|c l IH]; intros st Hst; [done|].
  intros [Hc Hl]%Forall_cons. cbn. apply IH; [|done]. by apply clean_step_ok.
Qed.

Lemma clean_comps_ok rooted s : stack_ok rooted (rev (clean_comps rooted s)).
Proof.
  unfold clean_comps. rewrite rev_involutive. apply clean_fold_ok; [by exists [], 0|].
  apply Split_pieces.
Qed.

(** ** [Clean] against [walk] *)

(** As long as the walk stays inside, the stack is the walk's; once it has left,
    the stack keeps a [..] at its bottom for good. *)
Lemma walk_none l : fold_left walk_step l None = None.
Proof. by induction l. Qed.

Lemma clean_dotdot_stays l st :
  exists l', fold_left (clean_step false) l (st ++ [".."]) = l' ++ [".."].
Proof.
  revert st. induction l as [|c l IH]; intros st; [by exists st|]. cbn.
  unfold clean_step at 2. case_bool_decide; [apply IH|]. case_bool_decide.
  - destruct st as [|x st]; cbn; [apply (IH [".."])|].
    case_bool_decide; [apply (IH (".." :: x :: st))|apply IH].
  - apply (IH (c :: st)).
Qed.

Lemma clean_walk_fold l st :
  Forall proper st -> slash_free l ->
  match fold_left walk_step l (Some st) with
  | Some st' => fold_left (clean_step false) l st = st' /\ Forall proper st'
  | None => exists l', fold_left (clean_step false) l st = l' ++ [".."]
  end.
Proof.
  revert st. induction l as [|c l IH]; intros st Hst; cbn; [done|].
  intros [Hc Hl]%Forall_cons. unfold clean_step at 2 4.
  case_bool_decide as H1; [by apply IH|].
  case_bool_decide as H2.
  - destruct st as [|x st]; cbn.
    + rewrite walk_none. apply (clean_dotdot_stays l []).
    + apply Forall_cons in Hst as [(_ & _ & Hx & _) Hst].
      rewrite bool_decide_eq_false_2 by done. by apply IH.
  - apply IH; [|done]. constructor; [|done]. unfold proper. naive_solver.
Qed.

(** ** Cleaned paths split into their components again *)

Lemma proper_stack_fold rooted l st :
  Forall proper l -> fold_left (clean_step rooted) l st = rev l ++ st.
Proof.
  revert st. induction l as [|c l IH]; intros st; [done|].
  intros [(Hne & Hd & Hdd & _) Hl]%Forall_cons. cbn.
  unfold clean_step at 2. rewrite bool_decide_eq_false_2 by naive_solver.
  rewrite bool_decide_eq_false_2 by done. rewrite IH by done. by rewrite <- app_assoc.
Qed.

Lemma clean_rel s st :
  HasPrefix s "/" = false -> walk s = Some st -> st <> [] ->
  Clean s = Join st slash /\ Forall proper st.
Proof.
  intros Hr Hw Hne. unfold walk in Hw.
  pose proof (clean_walk_fold (Split s slash) [] ltac:(constructor) (Split_pieces s slash)) as Hc.
  destruct (fold_left walk_step (Split s slash) (Some [])) as [st'|]; [|done].
  injection Hw as <-. destruct Hc as [Hc Hp]. unfold Clean, clean_comps. rewrite Hr, Hc.
  apply Forall_rev in Hp. rewrite bool_decide_eq_false_2; [done|].
  destruct (rev st') as [|x l]; [done|]. apply Forall_cons in Hp as [(Hx & _) _].
  destruct l; cbn; [done|]. intros [? _]%sapp_eq_nil. done.
Qed.

(** a join of proper components cleans to itself and walks to those components *)
Lemma proper_no_slash_prefix l : Forall proper l -> HasPrefix (Join l slash) "/" = false.
Proof.
  intros Hl. destruct (HasPrefix (Join l slash) "/") eqn:E; [|done].
  apply HasPrefix_iff in E as [r E]. destruct l as [|x l]; [done|].
  apply Forall_cons in Hl as [(Hne & _ & _ & Hs) _].
  rewrite sapp_cons, sapp_nil_l in E.
  destruct x as [|a x]; [done|]. destruct l; cbn in E, Hs.
  - injection E as -> _. by rewrite bool_decide_eq_true_2 in Hs.
  - rewrite sapp_cons in E. injection E as -> _. by rewrite bool_decide_eq_true_2 in Hs.
Qed.

Lemma walk_fold_proper l st :
  Forall proper l -> fold_left walk_step l (Some st) = Some (rev l ++ st).
Proof.
  revert st. induction l as [|c l IH]; intros st; [done|].
  intros [(Hne & Hd & Hdd & _) Hl]%Forall_cons. cbn.
  rewrite bool_decide_eq_false_2 by naive_solver.
  rewrite bool_decide_eq_false_2 by done. rewrite IH by done. by rewrite <- app_assoc.
Qed.

Lemma walk_Join l : Forall proper l -> l <> [] -> walk (Join l slash) = Some l.
Proof.
  intros Hl Hne. unfold walk. rewrite Split_Join; [|done|by apply proper_slash_free].
  rewrite walk_fold_proper by done. rewrite app_nil_r. cbn.
  by rewrite rev_involutive.
Qed.

(** ** Paths that leave the root, and paths that stay on it *)

Lemma clean_escapes s :
  HasPrefix s "/" = false -> walk s = None -> exists r, Clean s = ".." \/ Clean s = "../" +:+ r.
Proof.
  intros Hr Hw. unfold walk in Hw.
  pose proof (clean_walk_fold (Split s slash) [] ltac:(constructor) (Split_pieces s slash)) as Hc.
  destruct (fold_left walk_step (Split s slash) (Some [])) as [st'|]; [done|].
  destruct Hc as [l Hc]. unfold Clean, clean_comps. rewrite Hr, Hc, rev_app_distr. cbn.
  destruct (rev l) as [|x l'].
  - exists "". by left.
  - exists (Join (x :: l') slash). right.
    change (Join (".." :: x :: l') slash) with (".." +:+ String slash (Join (x :: l') slash)).
    autorewrite with str. done.
Qed.

Lemma clean_at_root s :
  HasPrefix s "/" = false -> walk s = Some [] -> Clean s = ".".
Proof.
  intros Hr Hw. unfold walk in Hw.
  pose proof (clean_walk_fold (Split s slash) [] ltac:(constructor) (Split_pieces s slash)) as Hc.
  destruct (fold_left walk_step (Split s slash) (Some [])) as [st'|]; [|done].
  injection Hw as Hw. destruct Hc as [Hc _]. unfold Clean, clean_comps. by rewrite Hr, Hc, Hw.
Qed.

(** a join of proper components is no special path *)
Lemma Join_cons_eq x l (c : ascii) :
  Join (x :: l) c = match l with [] => x | _ => x +:+ String c (Join l c) end.
Proof. by destruct l. Qed.

Lemma proper_Join_not_special l :
  Forall proper l -> l <> [] ->
  Join l slash <> "" /\ Join l slash <> "." /\ Join l slash <> ".." /\
  HasPrefix (Join l slash) "../" = false.
Proof.
  intros Hl Hne.
  assert (Hs : forall t, walk t <> Some l -> Join l slash <> t).
  { intros t Ht E. apply Ht. rewrite <- E. by apply walk_Join. }
  assert (walk "" = Some [] /\ walk "." = Some [] /\ walk ".." = None) as (H1 & H2 & H3) by done.
  split_and!; [apply Hs; congruence..|].
  destruct (HasPrefix (Join l slash) "../") eqn:E; [|done].
  apply HasPrefix_iff in E as [r E]. pose proof (walk_Join l Hl Hne) as Hw.
  rewrite E in Hw. unfold walk in Hw.
  change ("../" +:+ r) with (".." +:+ String slash r) in Hw. rewrite Split_app in Hw by done.
  cbn in Hw. by rewrite walk_none in Hw.
Qed.

(** ** Joining below an absolute directory *)

Lemma Split_sep s t c : Split (s +:+ String c t) c = Split s c ++ Split t c.
Proof.
  induction s as [|a s IH].
  - rewrite sapp_nil_l. cbn. by case_bool_decide.
  - rewrite sapp_cons. cbn. rewrite IH. case_bool_decide; [done|].
    pose proof (Split_nonempty s c). by destruct (Split s c).
Qed.

Lemma Join_app l l' c :
  l <> [] -> l' <> [] -> Join (l ++ l') c = Join l c +:+ String c (Join l' c).
Proof.
  intros Hl Hl'. induction l as [|x l IH]; [done|].
  destruct l as [|y l].
  - cbn [app]. rewrite Join_cons_eq. by destruct l'.
  - cbn [app] in *. rewrite (Join_cons_eq x), (Join_cons_eq x (y :: l)).
    rewrite IH by done. by rewrite sapp_assoc, sapp_cons.
Qed.

Lemma HasPrefix_sapp s t p : HasPrefix s p = true -> HasPrefix (s +:+ t) p = true.
Proof. intros [r ->]%HasPrefix_iff. apply HasPrefix_iff. exists (r +:+ t). by rewrite sapp_assoc. Qed.

Lemma PathJoin_below root l :
  HasPrefix root "/" = true -> Forall proper l -> l <> [] ->
  PathJoin [root; Join l slash] =
    (if bool_decide (Clean root = "/") then "" else Clean root) +:+ "/" +:+ Join l slash.
Proof.
  intros Hr Hl Hne.
  assert (Hroot : root <> "") by (by intros ->).
  assert (HJ : Join l slash <> "") by (by apply proper_Join_not_special).
  unfold PathJoin. rewrite bool_decide_eq_false_2 by done.
  change (Join [root; Join l slash] slash) with (root +:+ String slash (Join l slash)).
  unfold Clean. rewrite HasPrefix_sapp by done. rewrite Hr.
  assert (clean_comps true (root +:+ String slash (Join l slash)) = clean_comps true root ++ l) as ->.
  { unfold clean_comps. rewrite Split_sep, fold_left_app.
    rewrite Split_Join by (try done; by apply proper_slash_free).
    rewrite proper_stack_fold, rev_app_distr, rev_involutive by done. done. }
  destruct (clean_comps true root) as [|x cs] eqn:E.
  - cbn. done.
  - pose proof (clean_comps_ok true root) as (l' & k & Hst & Hp & Hk).
    rewrite (Hk eq_refl), app_nil_r in Hst.
    assert (Forall proper (x :: cs)) as Hx.
    { rewrite <- E, <- (rev_involutive (clean_comps true root)), Hst. by apply Forall_rev. }
    rewrite bool_decide_eq_false_2.
    2:{ intros [= E']. by destruct (proper_Join_not_special (x :: cs) Hx ltac:(done)). }
    rewrite Join_app by done. autorewrite with str. done.
Qed.
