(* ===== verification/GoJson.v ===== *)
(** * GoJson: [encoding/json] as the program uses it

    [print] is [json.Marshal]'s compact output, escapes included: HTML-sensitive
    bytes, control bytes and U+2028/U+2029 are escaped and a byte that is not
    part of a valid UTF-8 sequence becomes [\ufffd].  [parse] is the reader of
    [json.Unmarshal]: white space, escapes with surrogate pairs, the number
    grammar and the nesting limit of 10000.  A number keeps its literal, as Go
    does until the target type is known.  The [get_*] and [struct] functions
    store a parsed value into a Go value: a [null] leaves scalars alone, keys
    match a field exactly or up to case, and repeated keys store again.
    The text of a decoding error (offset, Go type) is not modelled. *)

From S2P Require Import Prelude GoStrings.
From Stdlib Require Import Ascii String.
Open Scope string_scope.
Open Scope list_scope.

#[warnings="-register-all"]
Inductive json : Set :=
| JNull
| JBool (b : bool)
| JNum (lit : string)
| JStr (s : string)
| JArr (l : list json)
| JObj (l : list (string * json)).

(** ** UTF-8 *)

Definition code (a : ascii) : Z := Z.of_nat (nat_of_ascii a).
Definition chr (n : Z) : ascii := ascii_of_nat (Z.to_nat n).
Definition between (lo x hi : Z) : bool := ((lo <=? x) && (x <=? hi))%Z.
Definition cont (a : ascii) : bool := between 128 (code a) 191.

(** The rune at the front of [s] and the rest ([utf8.DecodeRuneInString]);
    [None] when the first byte starts no valid sequence. *)
Definition decode_rune (s : string) : option (Z * string * string) :=
  match s with
  | "" => None
  | String a s1 =>
      let x := code a in
      if (x <? 128)%Z then Some (x, String a "", s1) else
      match s1 with
      | "" => None
      | String b s2 =>
          let y := code b in
          if between 194 x 223 && cont b then
            Some ((x - 192) * 64 + (y - 128), String a (String b ""), s2)%Z
          else match s2 with
          | "" => None
          | String c s3 =>
              let z := code c in
              if ((x =? 224)%Z && between 160 y 191 || between 225 x 236 && cont b
                  || (x =? 237)%Z && between 128 y 159 || between 238 x 239 && cont b)
                 && cont c
              then Some ((x - 224) * 4096 + (y - 128) * 64 + (z - 128),
                         String a (String b (String c "")), s3)%Z
              else match s3 with
              | "" => None
              | String d s4 =>
                  if ((x =? 240)%Z && between 144 y 191 || between 241 x 243 && cont b
                      || (x =? 244)%Z && between 128 y 143) && cont c && cont d
                  then Some ((x - 240) * 262144 + (y - 128) * 4096 + (z - 128) * 64
                             + (code d - 128),
                             String a (String b (String c (String d ""))), s4)%Z
                  else None
              end
          end
      end
  end.

(** [utf8.AppendRune] on a rune that is no surrogate *)
Definition encode_rune (r : Z) : string :=
  (if r <? 128 then String (chr r) ""
   else if r <? 2048 then String (chr (192 + r / 64)) (String (chr (128 + r mod 64)) "")
   else if r <? 65536 then
     String (chr (224 + r / 4096)) (String (chr (128 + r / 64 mod 64))
       (String (chr (128 + r mod 64)) ""))
   else
     String (chr (240 + r / 262144)) (String (chr (128 + r / 4096 mod 64))
       (String (chr (128 + r / 64 mod 64)) (String (chr (128 + r mod 64)) ""))))%Z.

Definition rune_error : string := encode_rune 65533.

Fixpoint valid_utf8_loop (fuel : nat) (s : string) : bool :=
  match s, fuel with
  | "", _ => true
  | _, O => false
  | _, S f =>
      match decode_rune s with
      | Some (_, _, rest) => valid_utf8_loop f rest
      | None => false
      end
  end.
Definition valid_utf8 (s : string) : bool := valid_utf8_loop (String.length s) s.

(** ** Printing *)

Definition quote : ascii := "034"%char.
Definition backslash : ascii := "092"%char.

Definition esc2 (c : ascii) : string := String backslash (String c "").
Definition escu (r : Z) : string :=
  let h n := hex_digit (Z.to_nat (n mod 16)) in
  String backslash (String "u" (String (h (r / 4096)%Z) (String (h (r / 256)%Z)
    (String (h (r / 16)%Z) (String (h r) ""))))).

Definition escape_ascii (a : ascii) : string :=
  if bool_decide (a = backslash \/ a = quote) then esc2 a
  else if bool_decide (a = "008"%char) then esc2 "b"
  else if bool_decide (a = "012"%char) then esc2 "f"
  else if bool_decide (a = "010"%char) then esc2 "n"
  else if bool_decide (a = "013"%char) then esc2 "r"
  else if bool_decide (a = "009"%char) then esc2 "t"
  else if (code a <? 32)%Z || bool_decide (a ∈ ["<"; ">"; "&"]%char)
  then escu (code a)
  else String a "".

Fixpoint escape (fuel : nat) (s : string) : string :=
  match s, fuel with
  | "", _ | _, O => ""
  | String a s1, S f =>
      match decode_rune s with
      | None => escu 65533 +:+ escape f s1
      | Some (r, raw, rest) =>
          (if (r <? 128)%Z then escape_ascii a
           else if (r =? 8232)%Z || (r =? 8233)%Z then escu r
           else raw) +:+ escape f rest
      end
  end.

Definition print_string (s : string) : string :=
  String quote (escape (String.length s) s +:+ String quote "").

Fixpoint sep_by (c : ascii) (l : list string) : string :=
  match l with
  | [] => ""
  | [x] => x
  | x :: l' => x +:+ String c (sep_by c l')
  end.

Fixpoint print (j : json) : string :=
  match j with
  | JNull => "null"
  | JBool true => "true"
  | JBool false => "false"
  | JNum lit => lit
  | JStr s => print_string s
  | JArr l => String "[" (sep_by "," (map print l) +:+ "]")
  | JObj l =>
      String "{" (sep_by "," (map (fun '(k, v) => print_string k +:+ String ":" (print v)) l)
                  +:+ "}")
  end.

(** ** Parsing *)

Fixpoint skip_ws (s : string) : string :=
  match s with
  | String a s' => if bool_decide (a ∈ [" "; "009"; "010"; "013"]%char) then skip_ws s' else s
  | "" => ""
  end.

Definition hex_val (a : ascii) : option Z :=
  let x := code a in
  if between 48 x 57 then Some (x - 48)%Z
  else if between 97 x 102 then Some (x - 87)%Z
  else if between 65 x 70 then Some (x - 55)%Z
  else None.

Definition hex4 (s : string) : option (Z * string) :=
  match s with
  | String a (String b (String c (String d r))) =>
      match hex_val a, hex_val b, hex_val c, hex_val d with
      | Some x, Some y, Some z, Some w => Some (x * 4096 + y * 256 + z * 16 + w, r)%Z
      | _, _, _, _ => None
      end
  | _ => None
  end.

(** after [\u]: one code unit, or a surrogate pair *)
Definition unescape_u (s : string) : option (string * string) :=
  match hex4 s with
  | None => None
  | Some (u, r) =>
      if between 55296 u 57343 then
        match r with
        | String b1 (String b2 r') =>
            match hex4 r' with
            | Some (u', r'') =>
                if bool_decide (b1 = backslash) && bool_decide (b2 = "u"%char)
                   && between 55296 u 56319 && between 56320 u' 57343
                then Some (encode_rune ((u - 55296) * 1024 + (u' - 56320) + 65536), r'')%Z
                else Some (rune_error, r)
            | None => Some (rune_error, r)
            end
        | _ => Some (rune_error, r)
        end
      else Some (encode_rune u, r)
  end.

Definition unescape2 (c : ascii) : option ascii :=
  if bool_decide (c ∈ [quote; backslash; slash]) then Some c
  else if bool_decide (c = "b"%char) then Some "008"%char
  else if bool_decide (c = "f"%char) then Some "012"%char
  else if bool_decide (c = "n"%char) then Some "010"%char
  else if bool_decide (c = "r"%char) then Some "013"%char
  else if bool_decide (c = "t"%char) then Some "009"%char
  else None.

Definition cons_fst (x : string) (o : option (string * string)) : option (string * string) :=
  match o with Some (s, r) => Some (x +:+ s, r) | None => None end.

(** the rest of a string after its opening quote *)
Fixpoint parse_string (fuel : nat) (s : string) : option (string * string) :=
  match fuel, s with
  | O, _ | _, "" => None
  | S f, String a s1 =>
      if bool_decide (a = quote) then Some ("", s1)
      else if bool_decide (a = backslash) then
        match s1 with
        | "" => None
        | String c s2 =>
            if bool_decide (c = "u"%char) then
              match unescape_u s2 with
              | Some (x, r) => cons_fst x (parse_string f r)
              | None => None
              end
            else match unescape2 c with
                 | Some x => cons_fst (String x "") (parse_string f s2)
                 | None => None
                 end
        end
      else if (code a <? 32)%Z then None
      else match decode_rune s with
           | Some (_, raw, rest) => cons_fst raw (parse_string f rest)
           | None => cons_fst rune_error (parse_string f s1)
           end
  end.

Definition is_digit (a : ascii) : bool := between 48 (code a) 57.

Fixpoint take_digits (s : string) : string * string :=
  match s with
  | String a s' =>
      if is_digit a then let (d, r) := take_digits s' in (String a d, r) else ("", s)
  | "" => ("", "")
  end.

(** at least one digit *)
Definition digits1 (s : string) : option (string * string) :=
  match take_digits s with
  | ("", _) => None
  | p => Some p
  end.

Definition int_part (s : string) : option (string * string) :=
  match s with
  | String a s' => if bool_decide (a = "0"%char) then Some ("0", s') else digits1 s
  | "" => None
  end.

Definition frac_part (s : string) : option (string * string) :=
  match s with
  | String a s' =>
      if bool_decide (a = "."%char) then cons_fst "." (digits1 s') else Some ("", s)
  | "" => Some ("", "")
  end.

Definition exp_part (s : string) : option (string * string) :=
  match s with
  | String a s' =>
      if bool_decide (a = "e"%char \/ a = "E"%char) then
        match s' with
        | String b s'' =>
            if bool_decide (b = "+"%char \/ b = "-"%char)
            then cons_fst (String a (String b "")) (digits1 s'')
            else cons_fst (String a "") (digits1 s')
        | "" => None
        end
      else Some ("", s)
  | "" => Some ("", "")
  end.

Definition parse_unsigned (s : string) : option (string * string) :=
  match int_part s with
  | Some (i, s1) =>
      match frac_part s1 with
      | Some (f, s2) => cons_fst (i +:+ f) (exp_part s2)
      | None => None
      end
  | None => None
  end.

Definition parse_number (s : string) : option (string * string) :=
  match s with
  | String a s' =>
      if bool_decide (a = "-"%char) then cons_fst "-" (parse_unsigned s')
      else parse_unsigned s
  | "" => None
  end.

Definition parse_lit (lit : string) (j : json) (s : string) : option (json * string) :=
  match strip_prefix lit s with Some r => Some (j, r) | None => None end.

Definition max_depth : Z := 10000.

Fixpoint parse_value (fuel : nat) (depth : Z) (s : string) : option (json * string) :=
  match fuel, skip_ws s with
  | O, _ | _, "" => None
  | S f, String a r as s0 =>
      if bool_decide (a = "{"%char) then
        if (depth <=? 0)%Z then None else
        match skip_ws r with
        | String b r' =>
            if bool_decide (b = "}"%char) then Some (JObj [], r') else
            match parse_members f (depth - 1) r with
            | Some (l, r'') => Some (JObj l, r'')
            | None => None
            end
        | "" => None
        end
      else if bool_decide (a = "["%char) then
        if (depth <=? 0)%Z then None else
        match skip_ws r with
        | String b r' =>
            if bool_decide (b = "]"%char) then Some (JArr [], r') else
            match parse_elems f (depth - 1) r with
            | Some (l, r'') => Some (JArr l, r'')
            | None => None
            end
        | "" => None
        end
      else if bool_decide (a = quote) then
        match parse_string (String.length r) r with
        | Some (x, r') => Some (JStr x, r')
        | None => None
        end
      else if bool_decide (a = "t"%char) then parse_lit "true" (JBool true) s0
      else if bool_decide (a = "f"%char) then parse_lit "false" (JBool false) s0
      else if bool_decide (a = "n"%char) then parse_lit "null" JNull s0
      else match parse_number s0 with
           | Some (lit, r') => Some (JNum lit, r')
           | None => None
           end
  end

with parse_elems (fuel : nat) (depth : Z) (s : string) : option (list json * string) :=
  match fuel with
  | O => None
  | S f =>
      match parse_value f depth s with
      | None => None
      | Some (v, r) =>
          match skip_ws r with
          | String b r' =>
              if bool_decide (b = ","%char) then
                match parse_elems f depth r' with
                | Some (l, r'') => Some (v :: l, r'')
                | None => None
                end
              else if bool_decide (b = "]"%char) then Some ([v], r') else None
          | "" => None
          end
      end
  end

with parse_members (fuel : nat) (depth : Z) (s : string)
  : option (list (string * json) * string) :=
  match fuel, skip_ws s with
  | O, _ | _, "" => None
  | S f, String q r0 =>
      if bool_decide (q = quote) then
        match parse_string (String.length r0) r0 with
        | None => None
        | Some (k, r1) =>
            match skip_ws r1 with
            | String c r2 =>
                if bool_decide (c = ":"%char) then
                  match parse_value f depth r2 with
                  | None => None
                  | Some (v, r3) =>
                      match skip_ws r3 with
                      | String b r4 =>
                          if bool_decide (b = ","%char) then
                            match parse_members f depth r4 with
                            | Some (l, r5) => Some ((k, v) :: l, r5)
                            | None => None
                            end
                          else if bool_decide (b = "}"%char) then Some ([(k, v)], r4)
                          else None
                      | "" => None
                      end
                  end
                else None
            | "" => None
            end
        end
      else None
  end.

(** Every recursive call follows at least one consumed byte of its caller's
    caller, so twice the length of the text is fuel enough. *)
Definition parse (s : string) : option json :=
  match parse_value (2 * String.length s) max_depth s with
  | Some (j, r) => if bool_decide (skip_ws r = "") then Some j else None
  | None => None
  end.

(** ** Storing a parsed value ([json.Unmarshal])

    A store function takes the current Go value and the parsed value; it gives
    the value after the store and whether decoding reported no error.  Go goes
    on after a type mismatch, so the other fields are stored all the same. *)

Definition decoder (A : Type) : Type := A -> json -> A * bool.

Definition get_string : decoder string := fun cur j =>
  match j with JStr s => (s, true) | JNull => (cur, true) | _ => (cur, false) end.

Definition get_bool : decoder bool := fun cur j =>
  match j with JBool b => (b, true) | JNull => (cur, true) | _ => (cur, false) end.

(** [strconv.ParseInt(lit, 10, 64)] on a number literal *)
Definition ParseInt (lit : string) : option Z :=
  match lit with
  | String a r =>
      if bool_decide (a = "-"%char) then
        match ParseUint r with
        | (n, None) => if (n <=? 2 ^ 63)%Z then Some (- n)%Z else None
        | _ => None
        end
      else match ParseUint lit with
           | (n, None) => if (n <? 2 ^ 63)%Z then Some n else None
           | _ => None
           end
  | "" => None
  end.

Definition get_number (conv : string -> option Z) : decoder Z := fun cur j =>
  match j with
  | JNum lit => match conv lit with Some n => (n, true) | None => (cur, false) end
  | JNull => (cur, true)
  | _ => (cur, false)
  end.

Definition get_int64 : decoder Z := get_number ParseInt.

Definition get_uint32 : decoder Z := get_number (fun lit =>
  match ParseUint lit with
  | (n, None) => if (n <? 2 ^ 32)%Z then Some n else None
  | _ => None
  end).

(** a [*string] field *)
Definition get_string_ptr : decoder (option string) := fun cur j =>
  match j with JStr s => (Some s, true) | JNull => (None, true) | _ => (cur, false) end.

Fixpoint get_elems {A} (zero : A) (get : decoder A) (cur : list A) (l : list json)
  : list A * bool :=
  match l with
  | [] => ([], true)
  | j :: l' =>
      let (a, ok) := get (default zero (head cur)) j in
      let (r, ok') := get_elems zero get (tail cur) l' in
      (a :: r, ok && ok')
  end.

(** a slice: the elements already there are stored into, in order *)
Definition get_slice {A} (zero : A) (get : decoder A) : decoder (list A) := fun cur j =>
  match j with
  | JArr l => get_elems zero get cur l
  | JNull => ([], true)
  | _ => (cur, false)
  end.

(** [foldName]: keys are compared up to Unicode case; U+017F and U+212A are the
    only non-ASCII letters that fold to an ASCII one. *)
Definition upper (a : ascii) : ascii :=
  if between 97 (code a) 122 then chr (code a - 32) else a.

Fixpoint fold_name (s : string) : string :=
  match s with
  | "" => ""
  | String a "" => String (upper a) ""
  | String a (String b s2 as s1) =>
      if bool_decide ((a, b) = ("197", "191")%char) then String "S" (fold_name s2)
      else if bool_decide ((a, b) = ("226", "132")%char) then
        match s2 with
        | String c s3 =>
            if bool_decide (c = "170"%char) then String "K" (fold_name s3)
            else String (upper a) (fold_name s1)
        | "" => String (upper a) (fold_name s1)
        end
      else String (upper a) (fold_name s1)
  end.

(** the struct field a key stores into *)
Definition find_field (names : list string) (k : string) : option string :=
  if bool_decide (k ∈ names) then Some k
  else head (filter (fun n => fold_name n = fold_name k) names).

Section Struct.
Context {A : Type} (names : list string) (store : string -> decoder A).

Fixpoint store_members (cur : A) (l : list (string * json)) : A * bool :=
  match l with
  | [] => (cur, true)
  | (k, v) :: l' =>
      let (a, ok) := match find_field names k with
                     | Some n => store n cur v
                     | None => (cur, true)
                     end in
      let (r, ok') := store_members a l' in
      (r, ok && ok')
  end.

Definition get_struct : decoder A := fun cur j =>
  match j with
  | JObj l => store_members cur l
  | JNull => (cur, true)
  | _ => (cur, false)
  end.
End Struct.

(** a [map[string]T]: each value is stored into a new zero element *)
Definition get_map {A} (zero : A) (get : decoder A) : decoder (gmap string A) := fun cur j =>
  match j with
  | JObj l =>
      fold_left (fun '(m, ok) '(k, v) =>
        let (a, ok') := get zero v in (<[k := a]> m, ok && ok')) l (cur, true)
  | JNull => (∅, true)
  | _ => (cur, false)
  end.

Definition json_error : error := ESentinel "json: decoding failed".

(** [json.Unmarshal(data, &v)]: an input that is no JSON text stores nothing *)
Definition Unmarshal {A} (get : decoder A) (v : A) (data : string) : A * option error :=
  match parse data with
  | None => (v, Some json_error)
  | Some j => let (v', ok) := get v j in (v', if ok then None else Some json_error)
  end.

(** storing into one field of a record *)
Definition field {A B} (get : decoder B) (cur : B) (update : B -> A) (j : json) : A * bool :=
  let (x, ok) := get cur j in (update x, ok).
