(* ===== verification/GoJsonFacts.v ===== *)
(** * GoJsonFacts: the round trip of the JSON printer and reader

    [parse_print]: reading what was printed gives the value back, for values made
    of valid UTF-8 strings and integers, nested up to the limit.  [ParseInt_Itoa]
    and the [get_*] lemmas carry it to Go values. *)

From S2P Require Import Prelude GoStrings GoJson.
From Stdlib Require Import Ascii String.
Open Scope string_scope.
Open Scope list_scope.

(** ** Round trip: [parse] reads back what [print] writes *)

Section JsonInd.
Context (P : json -> Prop).
Hypothesis (Hnull : P JNull) (Hbool : forall b, P (JBool b)) (Hnum : forall s, P (JNum s))
  (Hstr : forall s, P (JStr s)) (Harr : forall l, Forall P l -> P (JArr l))
  (Hobj : forall l, Forall (fun kv => P kv.2) l -> P (JObj l)).

Fixpoint json_nested_ind (j : json) : P j :=
  match j with
  | JNull => Hnull
  | JBool b => Hbool b
  | JNum s => Hnum s
  | JStr s => Hstr s
  | JArr l => Harr l ((fix go l : Forall P l :=
      match l with
      | [] => List.Forall_nil _
      | x :: l' => @List.Forall_cons _ P x l' (json_nested_ind x) (go l')
      end) l)
  | JObj l => Hobj l ((fix go l : Forall (fun kv => P kv.2) l :=
      match l with
      | [] => List.Forall_nil _
      | x :: l' => @List.Forall_cons _ (fun kv => P kv.2) x l' (json_nested_ind x.2) (go l')
      end) l)
  end.
End JsonInd.

(** what the program prints: UTF-8 strings and integers, any nesting *)
Fixpoint json_ok (j : json) : Prop :=
  match j with
  | JNull | JBool _ => True
  | JNum lit => exists n, lit = Itoa n
  | JStr s => valid_utf8 s = true
  | JArr l => foldr (fun x Q => json_ok x /\ Q) True l
  | JObj l => foldr (fun kv Q => (valid_utf8 kv.1 = true /\ json_ok kv.2) /\ Q) True l
  end.

Fixpoint depth (j : json) : Z :=
  match j with
  | JArr l => 1 + foldr (fun x m => Z.max (depth x) m) 0 l
  | JObj l => 1 + foldr (fun kv m => Z.max (depth kv.2) m) 0 l
  | _ => 0
  end%Z.

(** *** Strings *)

Lemma code_range a : (0 <= code a < 256)%Z.
Proof. unfold code. pose proof (nat_ascii_bounded a). lia. Qed.

Lemma chr_code a : chr (code a) = a.
Proof. unfold chr, code. by rewrite Nat2Z.id, ascii_nat_embedding. Qed.

Lemma code_chr n : (0 <= n < 256)%Z -> code (chr n) = n.
Proof. intros H. unfold chr, code. rewrite nat_ascii_embedding; lia. Qed.

Lemma code_inj a b : code a = code b -> a = b.
Proof. intros H. by rewrite <- (chr_code a), H, chr_code. Qed.

Lemma decode_rune_inv s r raw rest :
  decode_rune s = Some (r, raw, rest) ->
  s = raw +:+ rest /\ raw <> "" /\ (forall t, decode_rune (raw +:+ t) = Some (r, raw, t)).
Proof.
  destruct s as [|a s1]; cbn; [done|].
  destruct (Z.ltb_spec (code a) 128) as [Hlt|Hge].
  { intros [= <- <- <-]. split_and!; [done|done|]. intros t. rewrite sapp_cons, sapp_nil_l. cbn.
    destruct (Z.ltb_spec (code a) 128); [done|lia]. }
  assert ((code a <? 128)%Z = false) as Hf by (apply Z.ltb_ge; lia).
  destruct s1 as [|b s2]; [done|].
  destruct (between 194 (code a) 223 && cont b) eqn:H2.
  { intros [= <- <- <-]. split_and!; [done|done|]. intros t. autorewrite with str. cbn.
    by rewrite Hf, H2. }
  destruct s2 as [|c s3]; [done|].
  match goal with |- context [if ?x then _ else _] => destruct x eqn:H3 end.
  { intros [= <- <- <-]. split_and!; [done|done|]. intros t. autorewrite with str. cbn.
    by rewrite Hf, H2, H3. }
  destruct s3 as [|d s4]; [done|].
  match goal with |- context [if ?x then _ else _] => destruct x eqn:H4 end; [|done].
  intros [= <- <- <-]. split_and!; [done|done|]. intros t. autorewrite with str. cbn.
  by rewrite Hf, H2, H3, H4.
Qed.

(** valid texts can be joined *)
Lemma valid_utf8_app_loop n s t :
  valid_utf8_loop n s = true -> valid_utf8 t = true ->
  valid_utf8_loop (n + String.length t) (s +:+ t) = true.
Proof.
  intros Hs Ht. revert s Hs. induction n as [|n IH]; intros [|a s] Hs; try done.
  - cbn [valid_utf8_loop] in Hs. rewrite sapp_nil_l.
    cbn [Nat.add]. clear IH Hs. unfold valid_utf8 in Ht.
    assert (forall k m u, k <= m -> valid_utf8_loop k u = true -> valid_utf8_loop m u = true)
      as Hmono.
    { induction k as [|k IH]; intros [|m] [|b u] Hle; try done; try lia.
      cbn -[decode_rune]. destruct (decode_rune _) as [[[r raw] rest]|]; [|done].
      intros H. apply IH; [lia|done]. }
    apply (Hmono (String.length t)); [lia|done].
  - cbn -[decode_rune] in Hs. destruct (decode_rune (String a s)) as [[[r raw] rest]|] eqn:Hd;
      [|done].
    apply decode_rune_inv in Hd as (Happ & Hne & Hext). rewrite Happ, sapp_assoc.
    destruct raw as [|b raw]; [done|]. specialize (Hext (rest +:+ t)). rewrite sapp_cons in *.
    cbn -[decode_rune]. rewrite Hext. by apply IH.
Qed.

Lemma valid_utf8_app s t :
  valid_utf8 s = true -> valid_utf8 t = true -> valid_utf8 (s +:+ t) = true.
Proof. intros Hs Ht. unfold valid_utf8. rewrite length_sapp. by apply valid_utf8_app_loop. Qed.

Lemma valid_utf8_ascii a s :
  (code a < 128)%Z -> valid_utf8 s = true -> valid_utf8 (String a s) = true.
Proof.
  intros Ha Hs. apply (valid_utf8_app (String a "") s); [|done].
  unfold valid_utf8. cbn. destruct (Z.ltb_spec (code a) 128); [done|lia].
Qed.

Lemma valid_utf8_digits s : all_digits s = true -> valid_utf8 s = true.
Proof.
  induction s as [|a s IH]; [done|]. cbn. unfold digit_val.
  case_bool_decide as Hd; [|done]. intros H. apply valid_utf8_ascii; [unfold code; lia|auto].
Qed.

(** the first byte tells the ASCII runes from the others *)
Lemma decode_rune_head a s r raw rest :
  decode_rune (String a s) = Some (r, raw, rest) ->
  ((r < 128)%Z /\ raw = String a "" /\ r = code a) \/ ((128 <= r)%Z /\ (128 <= code a)%Z).
Proof.
  cbn. destruct (Z.ltb_spec (code a) 128) as [Hlt|Hge]; [naive_solver|].
  unfold cont, between. pose proof code_range as R. intros H. right. split; [|lia].
  repeat (match goal with
  | H : match ?x with _ => _ end = Some _ |- _ => destruct x eqn:?
  end; try done); simplify_eq; lia.
Qed.

(** U+2028 and U+2029 have one encoding each *)
Lemma decode_rune_line_sep s r raw rest :
  (r = 8232 \/ r = 8233)%Z -> decode_rune s = Some (r, raw, rest) -> raw = encode_rune r.
Proof.
  intros Hr. destruct s as [|a s1]; cbn; [done|]. unfold cont, between.
  pose proof code_range as R.
  destruct (Z.ltb_spec (code a) 128) as [Hlt|Hge]; [naive_solver lia|].
  destruct s1 as [|b s2]; [done|].
  match goal with |- context [if ?x then _ else _] => destruct x eqn:H2 end.
  { intros [= Hx <- <-]. lia. }
  destruct s2 as [|c s3]; [done|].
  match goal with |- context [if ?x then _ else _] => destruct x eqn:H3 end.
  { intros [= Hx <- <-]. pose proof (R a). pose proof (R b). pose proof (R c).
    assert (code a = 226 /\ code b = 128 /\ (code c = 168 \/ code c = 169))%Z as (Ha & Hb & Hc) by lia.
    change 226%Z with (code "226"%char) in Ha. change 128%Z with (code "128"%char) in Hb.
    apply code_inj in Ha as ->, Hb as ->. destruct Hc as [Hc|Hc].
    - change 168%Z with (code "168"%char) in Hc. apply code_inj in Hc as ->. by subst r.
    - change 169%Z with (code "169"%char) in Hc. apply code_inj in Hc as ->. by subst r. }
  destruct s3 as [|d s4]; [done|].
  match goal with |- context [if ?x then _ else _] => destruct x eqn:H4 end; [|done].
  intros [= Hx <- <-]. pose proof (R d). pose proof (R c). lia.
Qed.

(** one escaped ASCII byte is read back *)
Lemma parse_escape_ascii a f t :
  (code a < 128)%Z ->
  parse_string (S f) (escape_ascii a +:+ t) = cons_fst (String a "") (parse_string f t).
Proof.
  intros H. destruct a as [[] [] [] [] [] [] [] []]; first [by cbv in H | reflexivity].
Qed.

Lemma parse_escu r f t :
  (r = 8232 \/ r = 8233)%Z ->
  parse_string (S f) (escu r +:+ t) = cons_fst (encode_rune r) (parse_string f t).
Proof. intros [-> | ->]; reflexivity. Qed.

Lemma parse_raw s r raw rest f t :
  (128 <= r)%Z -> decode_rune s = Some (r, raw, rest) ->
  parse_string (S f) (raw +:+ t) = cons_fst raw (parse_string f t).
Proof.
  intros Hr Hd. destruct (decode_rune_inv _ _ _ _ Hd) as (-> & Hne & Happ).
  destruct raw as [|a raw]; [done|].
  specialize (Happ t) as Ht. destruct (decode_rune_head a (raw +:+ t) r (String a raw) t)
    as [(? & _)|(_ & Ha)]; [by rewrite <- sapp_cons|lia|].
  rewrite sapp_cons in Ht |- *. cbn -[decode_rune].
  rewrite bool_decide_eq_false_2 by (intros ->; cbv in Ha; done).
  rewrite bool_decide_eq_false_2 by (intros ->; cbv in Ha; done).
  destruct (Z.ltb_spec (code a) 32); [lia|]. by rewrite Ht.
Qed.

Lemma escape_ascii_pos a : 1 <= String.length (escape_ascii a).
Proof.
  unfold escape_ascii, esc2, escu. repeat case_match; cbn; lia.
Qed.

(** the piece printed for one rune is read back as that rune *)
Lemma parse_piece a s r raw rest f t :
  decode_rune (String a s) = Some (r, raw, rest) ->
  let piece := if (r <? 128)%Z then escape_ascii a
               else if (r =? 8232)%Z || (r =? 8233)%Z then escu r else raw in
  1 <= String.length piece /\
  parse_string (S f) (piece +:+ t) = cons_fst raw (parse_string f t).
Proof.
  intros Hd. destruct (decode_rune_head _ _ _ _ _ Hd) as [(Hr & -> & ->)|(Hr & _)]; cbn zeta.
  - destruct (Z.ltb_spec (code a) 128); [|lia].
    split; [apply escape_ascii_pos|by apply parse_escape_ascii].
  - destruct (Z.ltb_spec r 128); [lia|].
    destruct ((r =? 8232)%Z || (r =? 8233)%Z) eqn:E.
    + assert (r = 8232 \/ r = 8233)%Z as Hs by lia.
      rewrite (decode_rune_line_sep _ _ _ _ Hs Hd). split; [cbn; lia|by apply parse_escu].
    + split; [|by eapply parse_raw].
      apply decode_rune_inv in Hd as (_ & Hne & _). destruct raw; [done|cbn; lia].
Qed.

Lemma parse_escape n s f t :
  String.length s <= n -> valid_utf8_loop n s = true ->
  String.length (escape n s) < f ->
  parse_string f (escape n s +:+ String quote t) = Some (s, t).
Proof.
  revert s f t. induction n as [|n IH]; intros s f t Hlen Hv Hf.
  { destruct s; cbn in *; [|lia]. destruct f; [lia|]. by rewrite sapp_nil_l. }
  destruct s as [|a s]; [destruct f; [cbn in Hf; lia|]; by rewrite sapp_nil_l|].
  cbn -[decode_rune] in *. destruct (decode_rune (String a s)) as [[[r raw] rest]|] eqn:Hd; [|done].
  destruct f as [|f]; [lia|].
  destruct (parse_piece a s r raw rest f (escape n rest +:+ String quote t) Hd) as [Hp Hparse].
  rewrite sapp_assoc, Hparse. rewrite length_sapp in Hf.
  destruct (decode_rune_inv _ _ _ _ Hd) as (Hs & Hne & _).
  assert (String.length s = String.length rest + (String.length raw - 1)) as Hl.
  { apply (f_equal String.length) in Hs. rewrite length_sapp in Hs. cbn in Hs.
    destruct raw; [done|cbn in *; lia]. }
  rewrite IH; [|lia|done|lia]. cbn. by rewrite Hs.
Qed.

Lemma parse_print_string s t :
  valid_utf8 s = true ->
  parse_string (String.length (escape (String.length s) s +:+ String quote t))
    (escape (String.length s) s +:+ String quote t) = Some (s, t).
Proof.
  intros Hv. apply parse_escape; [done|done|]. rewrite length_sapp. cbn. lia.
Qed.

(** *** Texts that are not UTF-8: they are read back with U+FFFD in place of the bytes
    that are not, so never as an ASCII text *)

Fixpoint all_ascii (s : string) : bool :=
  match s with
  | "" => true
  | String a s' => (code a <? 128)%Z && all_ascii s'
  end.

Lemma all_ascii_app s t : all_ascii (s +:+ t) = all_ascii s && all_ascii t.
Proof.
  induction s as [|a s IH]; [by rewrite sapp_nil_l|]. rewrite sapp_cons. cbn. rewrite IH.
  by rewrite andb_assoc.
Qed.

Lemma valid_utf8_all_ascii s : all_ascii s = true -> valid_utf8 s = true.
Proof.
  induction s as [|a s IH]; [done|]. cbn. intros [Ha%Z.ltb_lt Hs]%andb_prop.
  apply valid_utf8_ascii; [done|auto].
Qed.

Lemma parse_escape_any n s f t :
  String.length s <= n -> String.length (escape n s) < f ->
  exists x, parse_string f (escape n s +:+ String quote t) = Some (x, t) /\
    (valid_utf8_loop n s = false -> all_ascii x = false).
Proof.
  revert s f t. induction n as [|n IH]; intros s f t Hlen Hf.
  { destruct s; cbn in *; [|lia]. destruct f; [lia|]. rewrite sapp_nil_l. by exists "". }
  destruct s as [|a s]; [destruct f; [cbn in Hf; lia|]; rewrite sapp_nil_l; by exists ""|].
  cbn -[decode_rune] in *. destruct f as [|f]; [lia|].
  destruct (decode_rune (String a s)) as [[[r raw] rest]|] eqn:Hd.
  - destruct (parse_piece a s r raw rest f (escape n rest +:+ String quote t) Hd) as [Hp Hparse].
    rewrite sapp_assoc, Hparse. rewrite length_sapp in Hf.
    destruct (decode_rune_inv _ _ _ _ Hd) as (Hs & Hne & _).
    apply (f_equal String.length) in Hs. rewrite length_sapp in Hs. cbn in Hs.
    destruct (IH rest f t) as (x & -> & Hx); [destruct raw; [done|cbn in *; lia]|lia|].
    exists (raw +:+ x). split; [done|]. intros Hv. rewrite all_ascii_app, Hx by done. apply andb_false_r.
  - rewrite sapp_assoc. rewrite length_sapp in Hf.
    destruct (IH s f t) as (x & Hx & _); [lia|cbn in Hf; lia|].
    change (parse_string (S f) (escu 65533 +:+ (escape n s +:+ String quote t)))
      with (cons_fst rune_error (parse_string f (escape n s +:+ String quote t))).
    rewrite Hx. exists (rune_error +:+ x). by split.
Qed.

(** a printed text is read back as an ASCII text only when it is that text *)
Lemma parse_print_ascii s t x :
  parse_string (String.length (escape (String.length s) s +:+ String quote t))
    (escape (String.length s) s +:+ String quote t) = Some (x, t) ->
  all_ascii x = true -> x = s.
Proof.
  intros Hp Hx. destruct (valid_utf8 s) eqn:Hv.
  - rewrite parse_print_string in Hp by done. congruence.
  - destruct (parse_escape_any (String.length s) s
      (String.length (escape (String.length s) s +:+ String quote t)) t) as (y & Hy & Hna);
      [done|rewrite length_sapp; cbn; lia|]. specialize (Hna Hv). congruence.
Qed.

(** *** Numbers *)

(** what may follow a number without being read as part of it *)
Definition ends_number (s : string) : Prop :=
  match s with
  | "" => True
  | String a _ => is_digit a = false /\ a <> "."%char /\ a <> "e"%char /\ a <> "E"%char
  end.

Lemma digit_val_is_digit a : is_digit a = match digit_val a with Some _ => true | None => false end.
Proof. unfold is_digit, digit_val, between, code. case_bool_decide; lia. Qed.

Lemma take_digits_app D t :
  all_digits D = true -> ends_number t -> take_digits (D +:+ t) = (D, t).
Proof.
  induction D as [|a D IH]; intros HD Ht.
  - rewrite sapp_nil_l. destruct t as [|b t]; [done|]. cbn. by destruct Ht as (-> & _).
  - rewrite sapp_cons. cbn in *. rewrite digit_val_is_digit.
    destruct (digit_val a); [|done]. by rewrite IH.
Qed.

Lemma parse_unsigned_digits n t :
  (0 <= n)%Z -> ends_number t -> parse_unsigned (FormatUint n +:+ t) = Some (FormatUint n, t).
Proof.
  intros Hn Ht. destruct (FormatUint_spec n Hn) as (Hd & Hne & H0).
  unfold parse_unsigned.
  assert (int_part (FormatUint n +:+ t) = Some (FormatUint n, t)) as ->.
  { destruct (FormatUint n) as [|a D] eqn:E; [done|]. rewrite sapp_cons. cbn.
    case_bool_decide as Ha; [subst; by destruct (H0 D eq_refl) as [_ ->]|].
    unfold digits1. rewrite <- sapp_cons, take_digits_app by done. done. }
  assert (frac_part t = Some ("", t) /\ exp_part t = Some ("", t)) as [-> ->].
  { destruct t as [|b t]; [done|]. destruct Ht as (_ & ? & ? & ?). cbn.
    by rewrite !bool_decide_eq_false_2 by naive_solver. }
  cbn. by rewrite !sapp_nil_r.
Qed.

Lemma FormatUint_head n : (0 <= n)%Z -> exists a s, FormatUint n = String a s /\ is_digit a = true.
Proof.
  intros Hn. destruct (FormatUint_spec n Hn) as (Hd & Hne & _).
  destruct (FormatUint n) as [|a s]; [done|]. exists a, s. split; [done|].
  rewrite digit_val_is_digit. cbn in Hd. by destruct (digit_val a).
Qed.

Lemma parse_number_Itoa n t :
  ends_number t -> parse_number (Itoa n +:+ t) = Some (Itoa n, t).
Proof.
  intros Ht. unfold Itoa. destruct (Z.ltb_spec n 0).
  - rewrite sapp_cons. cbn -[parse_unsigned FormatUint].
    rewrite parse_unsigned_digits; [done|lia|done].
  - destruct (FormatUint_head n) as (a & s & E & Ha); [done|].
    pose proof (parse_unsigned_digits n t ltac:(done) Ht) as Hp.
    rewrite E in Hp |- *. rewrite sapp_cons in Hp |- *. cbn -[parse_unsigned].
    rewrite bool_decide_eq_false_2 by (intros ->; cbv in Ha; done). done.
Qed.

Lemma ParseInt_Itoa n : (- 2 ^ 63 <= n < 2 ^ 63)%Z -> ParseInt (Itoa n) = Some n.
Proof.
  intros Hn. unfold Itoa. destruct (Z.ltb_spec n 0).
  - cbn -[ParseUint FormatUint]. rewrite ParseUint_FormatUint by (unfold max_uint64; lia).
    destruct (Z.leb_spec (- n) (2 ^ 63)); [f_equal; lia|lia].
  - destruct (FormatUint_head n) as (a & s & E & Ha); [done|].
    pose proof (ParseUint_FormatUint n ltac:(unfold max_uint64; lia)) as Hp.
    rewrite E in Hp |- *. cbn -[ParseUint].
    rewrite bool_decide_eq_false_2 by (intros ->; cbv in Ha; done). rewrite Hp.
    destruct (Z.ltb_spec n (2 ^ 63)); [done|lia].
Qed.

(** *** Values *)

Definition plain_head (s : string) : Prop :=
  match s with
  | "" => False
  | String a _ => a ∉ [" "; "009"; "010"; "013"; "]"; "}"; ","]%char
  end.

Lemma skip_ws_plain s : plain_head s -> skip_ws s = s.
Proof.
  destruct s as [|a s]; [done|]. cbn -[bool_decide]. intros H.
  rewrite bool_decide_eq_false_2; set_solver.
Qed.

Lemma plain_head_app s t : plain_head s -> plain_head (s +:+ t).
Proof. by destruct s. Qed.

Lemma Itoa_head n : exists a s, Itoa n = String a s /\ (a = "-"%char \/ is_digit a = true).
Proof.
  unfold Itoa. destruct (Z.ltb_spec n 0); [by repeat eexists; left|].
  destruct (FormatUint_head n) as (a & s & -> & Ha); [done|]. eauto.
Qed.

(** a digit or a minus sign is none of the bytes the reader tests for first *)
Lemma number_head_other a c :
  a = "-"%char \/ is_digit a = true ->
  c ∈ [" "; "009"; "010"; "013"; "]"; "}"; ","; "{"; "["; "034"; "t"; "f"; "n"]%char -> a <> c.
Proof.
  intros Ha Hc ->. rewrite list_elem_of_In in Hc.
  cbn in Hc. destruct_or! Hc; subst; destruct Ha; done.
Qed.

Lemma print_plain j : json_ok j -> plain_head (print j).
Proof.
  destruct j as [|[]|lit|s|l|l]; cbn; try (intros _; set_solver).
  intros [n ->]. destruct (Itoa_head n) as (a & s & -> & Ha). cbn.
  intros Hin. apply (number_head_other a a Ha); set_solver.
Qed.

Definition roundtrips (j : json) : Prop :=
  json_ok j -> forall fuel d t,
    2 * String.length (print j) <= fuel -> (depth j <= d)%Z -> ends_number t ->
    parse_value fuel d (print j +:+ t) = Some (j, t).

Lemma parse_value_number n : roundtrips (JNum (Itoa n)).
Proof.
  intros _ fuel d t Hf Hd Ht. cbn in Hf |- *.
  destruct (Itoa_head n) as (a & s & E & Ha). pose proof (parse_number_Itoa n t Ht) as Hp.
  rewrite E in Hf, Hp |- *. destruct fuel as [|f]; [cbn in Hf; lia|].
  rewrite sapp_cons in Hp |- *. cbn -[parse_number parse_lit parse_string skip_ws].
  rewrite skip_ws_plain by (cbn; intros Hin; apply (number_head_other a a Ha); set_solver).
  rewrite !bool_decide_eq_false_2 by (apply number_head_other; [done|set_solver]).
  by rewrite Hp.
Qed.

Lemma depth_elem x l d :
  (1 + foldr (fun x m => Z.max (depth x) m) 0 l <= d)%Z -> x ∈ l -> (depth x <= d - 1)%Z.
Proof.
  intros H Hx. induction Hx as [l|x y l Hx IH]; cbn in H; [lia|]. apply IH. lia.
Qed.

Lemma depth_member kv l d :
  (1 + foldr (fun kv m => Z.max (depth (kv : string * json).2) m) 0 l <= d)%Z ->
  kv ∈ l -> (depth kv.2 <= d - 1)%Z.
Proof.
  intros H Hx. induction Hx as [l|x y l Hx IH]; cbn in H; [lia|]. apply IH. lia.
Qed.

Lemma json_ok_elems l :
  foldr (fun x Q => json_ok x /\ Q) True l <-> Forall json_ok l.
Proof. induction l as [|x l IH]; cbn; [done|]. by rewrite Forall_cons, IH. Qed.

Lemma json_ok_members (l : list (string * json)) :
  foldr (fun kv Q => (valid_utf8 kv.1 = true /\ json_ok kv.2) /\ Q) True l
  <-> Forall (fun kv => valid_utf8 kv.1 = true /\ json_ok kv.2) l.
Proof. induction l as [|x l IH]; cbn; [done|]. by rewrite Forall_cons, IH. Qed.

Lemma print_pos j : json_ok j -> 1 <= String.length (print j).
Proof. intros H%print_plain. destruct (print j); cbn in *; [done|lia]. Qed.

Lemma parse_elems_print l : forall fuel d t,
  l <> [] -> Forall roundtrips l -> Forall json_ok l ->
  (forall x, x ∈ l -> (depth x <= d)%Z) ->
  2 * String.length (sep_by "," (map print l)) < fuel ->
  parse_elems fuel d (sep_by "," (map print l) +:+ String "]" t) = Some (l, t).
Proof.
  induction l as [|x l IH]; intros fuel d t Hne Hrt Hok Hd Hf; [done|].
  apply Forall_cons in Hrt as [Hx Hrt]. apply Forall_cons in Hok as [Okx Hok].
  destruct fuel as [|f]; [lia|]. destruct l as [|y l].
  - cbn in Hf |- *. rewrite (Hx Okx) by (done || lia || set_solver). cbn.
    done.
  - change (sep_by "," (map print (x :: y :: l)))
      with (print x +:+ String "," (sep_by "," (map print (y :: l)))) in Hf |- *.
    rewrite length_sapp in Hf. cbn [String.length] in Hf. pose proof (print_pos x Okx).
    cbn [parse_elems]. autorewrite with str.
    rewrite (Hx Okx) by (done || lia || set_solver). cbn [skip_ws].
    rewrite bool_decide_eq_false_2 by set_solver. rewrite bool_decide_eq_true_2 by done.
    rewrite IH; [done|done|done|done|set_solver|lia].
Qed.

(** the key, the colon and the value of one member *)
Lemma parse_member f d k v t :
  valid_utf8 k = true -> json_ok v -> roundtrips v ->
  2 * String.length (print v) <= f -> (depth v <= d)%Z -> ends_number t ->
  parse_members (S f) d (print_string k +:+ String ":" (print v +:+ t)) =
    match skip_ws t with
    | String b r4 =>
        if bool_decide (b = ","%char) then
          match parse_members f d r4 with
          | Some (l, r5) => Some ((k, v) :: l, r5)
          | None => None
          end
        else if bool_decide (b = "}"%char) then Some ([(k, v)], r4)
        else None
    | "" => None
    end.
Proof.
  intros Hk Okv Hv Hf Hd Ht. unfold print_string. autorewrite with str.
  cbn [parse_members]. rewrite (skip_ws_plain (String quote _)) by (cbn; set_solver).
  rewrite bool_decide_eq_true_2 by done. rewrite parse_print_string by done.
  rewrite (skip_ws_plain (String ":" _)) by (cbn; set_solver).
  rewrite bool_decide_eq_true_2 by done. by rewrite (Hv Okv) by done.
Qed.

Definition print_member (kv : string * json) : string :=
  print_string kv.1 +:+ String ":" (print kv.2).

Lemma parse_members_print (l : list (string * json)) : forall fuel d t,
  l <> [] -> Forall (fun kv => roundtrips kv.2) l ->
  Forall (fun kv => valid_utf8 kv.1 = true /\ json_ok kv.2) l ->
  (forall kv, kv ∈ l -> (depth kv.2 <= d)%Z) ->
  2 * String.length (sep_by "," (map print_member l)) < fuel ->
  parse_members fuel d (sep_by "," (map print_member l) +:+ String "}" t) = Some (l, t).
Proof.
  induction l as [|[k v] l IH]; intros fuel d t Hne Hrt Hok Hd Hf; [done|].
  apply Forall_cons in Hrt as [Hv Hrt]. apply Forall_cons in Hok as [[Hk Okv] Hok].
  cbn in Hv, Hk, Okv. specialize (Hd (k, v) ltac:(set_solver)) as Hdv. cbn in Hdv.
  destruct fuel as [|f]; [lia|]. pose proof (print_pos v Okv).
  destruct l as [|kv l].
  - cbn [map sep_by] in Hf |- *. unfold print_member in *. rewrite length_sapp in Hf.
    cbn [String.length fst snd] in Hf |- *. autorewrite with str.
    rewrite parse_member by (done || lia). done.
  - change (sep_by "," (map print_member ((k, v) :: kv :: l)))
      with (print_member (k, v) +:+ String "," (sep_by "," (map print_member (kv :: l))))
      in Hf |- *.
    unfold print_member at 1 in Hf. unfold print_member at 1.
    rewrite !length_sapp in Hf. cbn [String.length fst snd] in Hf |- *.
    autorewrite with str. rewrite parse_member by (done || lia).
    cbn [skip_ws]. rewrite bool_decide_eq_false_2 by set_solver.
    rewrite bool_decide_eq_true_2 by done.
    rewrite IH; [done|done|done|done|set_solver|lia].
Qed.

Lemma print_obj l :
  print (JObj l) = String "{" (sep_by "," (map print_member l) +:+ "}").
Proof. cbn. do 3 f_equal. apply map_ext. by intros []. Qed.

Lemma parse_value_print j : roundtrips j.
Proof.
  induction j as [|b|lit|s|l IH|l IH] using json_nested_ind; intros Hok fuel d t Hf Hd Ht.
  - destruct fuel as [|f]; [cbn in Hf; lia|]. done.
  - destruct fuel as [|f]; [destruct b; cbn in Hf; lia|]. by destruct b.
  - destruct Hok as [n ->]. apply parse_value_number; [by exists n|done..].
  - destruct fuel as [|f]; [cbn in Hf; lia|].
    cbn [print]. unfold print_string. autorewrite with str.
    cbn [parse_value skip_ws]. rewrite !bool_decide_eq_false_2 by set_solver.
    rewrite bool_decide_eq_true_2 by done. by rewrite parse_print_string.
  - apply json_ok_elems in Hok. destruct fuel as [|f]; [cbn in Hf; lia|].
    cbn [print depth] in *. cbn [String.length] in Hf. rewrite length_sapp in Hf.
    cbn [String.length] in Hf. autorewrite with str.
    cbn [parse_value skip_ws]. rewrite !bool_decide_eq_false_2 by set_solver.
    rewrite bool_decide_eq_true_2 by done.
    assert (0 <= foldr (fun x m => Z.max (depth x) m) 0 l)%Z by (clear; induction l; cbn; lia).
    destruct (Z.leb_spec d 0); [lia|]. destruct l as [|x l]; [done|].
    assert (plain_head (sep_by "," (map print (x :: l)))) as Hp.
    { apply Forall_cons in Hok as [Hx _]. apply print_plain in Hx.
      cbn. destruct (map print l); [done|]. by apply plain_head_app. }
    rewrite skip_ws_plain by (by apply plain_head_app).
    pose proof (parse_elems_print (x :: l) f (d - 1) t ltac:(done) IH Hok) as HE.
    rewrite HE; [|intros y Hy; by eapply depth_elem|lia].
    destruct (sep_by "," (map print (x :: l))) as [|a s] eqn:E; [done|].
    rewrite sapp_cons. cbn in Hp. rewrite bool_decide_eq_false_2 by set_solver. done.
  - apply json_ok_members in Hok. destruct fuel as [|f]; [cbn in Hf; lia|].
    rewrite print_obj in *. cbn [depth] in *. cbn [String.length] in Hf. rewrite length_sapp in Hf.
    cbn [String.length] in Hf. autorewrite with str.
    cbn [parse_value skip_ws]. rewrite !bool_decide_eq_false_2 by set_solver.
    rewrite bool_decide_eq_true_2 by done.
    assert (0 <= foldr (fun kv m => Z.max (depth (kv : string * json).2) m) 0 l)%Z
      by (clear; induction l; cbn; lia).
    destruct (Z.leb_spec d 0); [lia|]. destruct l as [|x l]; [done|].
    assert (exists s, sep_by "," (map print_member (x :: l)) = String quote s) as [s Hs].
    { destruct x as [k v]. cbn [map sep_by]. unfold print_member, print_string. cbn [fst snd].
      destruct (map _ l); [rewrite sapp_cons|rewrite !sapp_cons]; by eexists. }
    pose proof (parse_members_print (x :: l) f (d - 1) t ltac:(done) IH Hok) as HE.
    rewrite HE; [|intros y Hy; by eapply depth_member|lia].
    rewrite Hs, sapp_cons. cbn [skip_ws]. by rewrite !bool_decide_eq_false_2 by set_solver.
Qed.

(** Reading printed JSON gives the value back. *)
Lemma parse_print j : json_ok j -> (depth j <= max_depth)%Z -> parse (print j) = Some j.
Proof.
  intros Hok Hd. unfold parse. rewrite <- (sapp_nil_r (print j)) at 2.
  by rewrite parse_value_print.
Qed.

(** ** Storing what was printed *)

Lemma get_int64_Itoa cur n :
  (- 2 ^ 63 <= n < 2 ^ 63)%Z -> get_int64 cur (JNum (Itoa n)) = (n, true).
Proof. intros H. unfold get_int64, get_number. by rewrite ParseInt_Itoa. Qed.

Lemma store_known {A} names (store : string -> decoder A) cur k v l n a r :
  find_field names k = Some n -> store n cur v = (a, true) ->
  store_members names store a l = r -> store_members names store cur ((k, v) :: l) = r.
Proof. intros Hk Hv <-. cbn. rewrite Hk, Hv. by destruct (store_members names store a l). Qed.

Lemma get_elems_map {A} (zero : A) (get : decoder A) (enc : A -> json) l :
  Forall (fun a => get zero (enc a) = (a, true)) l ->
  get_elems zero get [] (map enc l) = (l, true).
Proof. induction 1 as [|a l Ha _ IH]; cbn; [done|]. by rewrite Ha, IH. Qed.

Lemma field_int64 {A} cur (update : Z -> A) n :
  (- 2 ^ 63 <= n < 2 ^ 63)%Z -> field get_int64 cur update (JNum (Itoa n)) = (update n, true).
Proof. intros H. unfold field. by rewrite get_int64_Itoa. Qed.

(** decide the closed string comparisons of a store function *)
Ltac decide_fields :=
  repeat match goal with
  | |- context [bool_decide (?a = ?b)] =>
      let d := eval vm_compute in (bool_decide (a = b)) in
      change (bool_decide (a = b)) with d; cbv iota beta
  end.
