(* ===== verification/GoUrl.v ===== *)
(** * GoUrl: [url.Parse] as far as a caller sees the host, the scheme and the
    failure

    The steps of Go's parser: fragment, control bytes, scheme, query, authority
    (user info, bracketed or plain host, port) and the escapes of each part. *)

From S2P Require Import Prelude GoStrings GoJson.
From Stdlib Require Import Ascii String.
Open Scope string_scope.
Open Scope list_scope.

Definition is_alpha (a : ascii) : bool := between 65 (code a) 90 || between 97 (code a) 122.
Definition is_alnum (a : ascii) : bool := is_alpha a || is_digit a.

Fixpoint forall_char (p : ascii -> bool) (s : string) : bool :=
  match s with "" => true | String a s' => p a && forall_char p s' end.

(** [strings.LastIndex] for one byte, as the two sides of the cut *)
Fixpoint CutLast (s : string) (c : ascii) : option (string * string) :=
  match s with
  | "" => None
  | String a s' =>
      match CutLast s' c with
      | Some (x, y) => Some (String a x, y)
      | None => if bool_decide (a = c) then Some ("", s') else None
      end
  end.

(** bytes that may stand unescaped in a host *)
Definition host_byte (a : ascii) : bool :=
  (128 <=? code a)%Z || is_alnum a ||
  bool_decide (a ∈ ["-"; "_"; "."; "~"; "!"; "$"; "&"; "'"; "("; ")"; "*"; "+"; ","; ";"; "=";
                    ":"; "["; "]"; "<"; ">"; "034"]%char).

Inductive escape_mode : Set := ModeHost | ModeZone | ModeOther.

(** [unescape]: [None] on a malformed escape or a byte the mode refuses *)
Fixpoint unescape (m : escape_mode) (s : string) : option string :=
  match s with
  | "" => Some ""
  | String a s1 =>
      if bool_decide (a = "%"%char) then
        match s1 with
        | String b (String c s3) =>
            match hex_val b, hex_val c with
            | Some x, Some y =>
                let v := chr (x * 16 + y) in
                let is_percent := bool_decide ((b, c) = ("2", "5")%char) in
                let refused :=
                  match m with
                  | ModeHost => (x <? 8)%Z && negb is_percent
                  | ModeZone => negb is_percent && negb (bool_decide (v = " "%char))
                                && negb (host_byte v && (code v <? 128)%Z)
                  | ModeOther => false
                  end in
                if refused then None else String v <$> unescape m s3
            | _, _ => None
            end
        | _ => None
        end
      else
        match m with
        | ModeOther => String a <$> unescape m s1
        | _ => if host_byte a then String a <$> unescape m s1 else None
        end
  end.

Definition validOptionalPort (port : string) : bool :=
  match port with
  | "" => true
  | String a p => bool_decide (a = ":"%char) && forall_char is_digit p
  end.

(** the part of [s] before the first occurrence of [sub], and the rest from it on *)
Fixpoint split_at (s sub : string) : option (string * string) :=
  if HasPrefix s sub then Some ("", s) else
  match s with
  | "" => None
  | String a s' => match split_at s' sub with
                   | Some (x, y) => Some (String a x, y)
                   | None => None
                   end
  end.

Definition parseHost (host : string) : option string :=
  if HasPrefix host "[" then
    match CutLast host "]" with
    | None => None
    | Some (inside, colonPort) =>
        if negb (validOptionalPort colonPort) then None else
        match split_at inside "%25" with
        | Some (h1, zone) =>
            h1' ← unescape ModeHost h1;
            h2' ← unescape ModeZone zone;
            h3' ← unescape ModeHost (String "]" colonPort);
            Some (h1' +:+ h2' +:+ h3')
        | None => unescape ModeHost host
        end
    end
  else
    match CutLast host ":" with
    | Some (_, port) =>
        if validOptionalPort (String ":" port) then unescape ModeHost host else None
    | None => unescape ModeHost host
    end.

Definition valid_userinfo (s : string) : bool :=
  forall_char (fun a => is_alnum a ||
    bool_decide (a ∈ ["-"; "."; "_"; ":"; "~"; "!"; "$"; "&"; "'"; "("; ")"; "*"; "+"; ",";
                      ";"; "="; "%"; "@"]%char)) s.

(** [parseAuthority], for the host *)
Definition parseAuthority (authority : string) : option string :=
  match CutLast authority "@" with
  | None => parseHost authority
  | Some (userinfo, h) =>
      host ← parseHost h;
      if negb (valid_userinfo userinfo) then None
      else
        let (user, password) := default (userinfo, "") (Cut userinfo ":") in
        _ ← unescape ModeOther user;
        _ ← unescape ModeOther password;
        Some host
  end.

(** [getScheme]: [None] when the scheme is missing before a leading colon *)
Fixpoint getScheme (first : bool) (s : string) : option (option (string * string)) :=
  match s with
  | "" => Some None
  | String a s' =>
      if is_alpha a || (negb first && (is_digit a || bool_decide (a ∈ ["+"; "-"; "."]%char)))
      then match getScheme false s' with
           | Some (Some (x, rest)) => Some (Some (String a x, rest))
           | o => o
           end
      else if bool_decide (a = ":"%char) then
        if first then None else Some (Some ("", s'))
      else Some None
  end.

Fixpoint lower_all (s : string) : string :=
  match s with "" => "" | String a s' => String (lower a) (lower_all s') end.

(** The fields [Scheme] and [Host] of the parsed URL; [None] for an error. *)
Definition url_Parse (rawURL : string) : option (string * string) :=
  let (u, frag) := default (rawURL, "") (Cut rawURL "#") in
  if negb (forall_char (fun a => (32 <=? code a)%Z && negb (code a =? 127)%Z) u) then None else
  let parsed :=
    if bool_decide (u = "*") then Some ("", "") else
    sch ← getScheme true u;
    let '(scheme, rest0) := default ("", u) sch in
    let scheme := lower_all scheme in
    let rest := default (rest0, "") (Cut rest0 "?") in
    let rest := rest.1 in
    if negb (HasPrefix rest "/") then
      if bool_decide (scheme <> "") then Some (scheme, "")
      else if Contains (default (rest, "") (Cut rest "/")).1 ":" then None
      else _ ← unescape ModeOther rest; Some (scheme, "")
    else if (bool_decide (scheme <> "") || negb (HasPrefix rest "///")) && HasPrefix rest "//" then
      let after := TrimPrefix rest "//" in
      let (authority, path) :=
        match Cut after "/" with
        | Some (a, p) => (a, String slash p)
        | None => (after, "")
        end in
      host ← parseAuthority authority;
      _ ← unescape ModeOther path;
      Some (scheme, host)
    else _ ← unescape ModeOther rest; Some (scheme, "") in
  sh ← parsed;
  _ ← unescape ModeOther frag;
  Some sh.

(** ** Plain URLs: a scheme, a host with an optional port, and a path *)

Definition plain_char (a : ascii) : bool :=
  is_alnum a || bool_decide (a ∈ ["-"; "."]%char).

Definition plain_path_char (a : ascii) : bool :=
  plain_char a || bool_decide (a ∈ ["/"; "_"]%char).

Definition plain_port (p : string) : bool := validOptionalPort p.

Lemma forall_char_app p s t : forall_char p (s +:+ t) = forall_char p s && forall_char p t.
Proof. induction s as [|a s IH]; [done|]. rewrite sapp_cons. cbn. by rewrite IH, andb_assoc. Qed.

Lemma forall_char_impl (p q : ascii -> bool) s :
  (forall a, p a = true -> q a = true) -> forall_char p s = true -> forall_char q s = true.
Proof.
  intros H. induction s as [|a s IH]; cbn; [done|]. rewrite !andb_true_iff. naive_solver.
Qed.

Lemma forall_char_no_char p s c :
  p c = false -> forall_char p s = true -> no_char c s = true.
Proof.
  intros Hc. induction s as [|a s IH]; cbn; [done|]. rewrite andb_true_iff. intros [Ha Hs].
  rewrite IH by done. rewrite bool_decide_eq_false_2; [done|]. intros ->. congruence.
Qed.

Lemma CutLast_none s c : no_char c s = true -> CutLast s c = None.
Proof.
  induction s as [|a s IH]; cbn; [done|]. rewrite andb_true_iff. intros [Ha Hs].
  rewrite IH by done. case_bool_decide; [done|done].
Qed.

Lemma CutLast_at s t c : no_char c t = true -> CutLast (s +:+ String c t) c = Some (s, t).
Proof.
  intros H. induction s as [|a s IH].
  - rewrite sapp_nil_l. cbn. rewrite CutLast_none by done. by rewrite bool_decide_eq_true_2.
  - rewrite sapp_cons. cbn. by rewrite IH.
Qed.

Lemma getScheme_letters first sch rest :
  forall_char is_alpha sch = true -> (first = true -> sch <> "") ->
  getScheme first (sch +:+ ":" +:+ rest) = Some (Some (sch, rest)).
Proof.
  revert first. induction sch as [|a sch IH]; intros first H Hne.
  - destruct first; [by destruct Hne|]. done.
  - rewrite sapp_cons. cbn in *. apply andb_true_iff in H as [-> H]. cbn.
    by rewrite IH.
Qed.

Lemma unescape_host s :
  no_char "%" s = true -> forall_char host_byte s = true -> unescape ModeHost s = Some s.
Proof.
  induction s as [|a s IH]; [done|]. cbn. case_bool_decide; cbn; [done|].
  intros Hs [-> Hh]%andb_true_iff. by rewrite IH.
Qed.

Lemma unescape_other s : no_char "%" s = true -> unescape ModeOther s = Some s.
Proof.
  induction s as [|a s IH]; [done|]. cbn. case_bool_decide; cbn; [done|].
  intros Hs. by rewrite IH.
Qed.

Lemma plain_host_byte a : plain_char a = true -> host_byte a = true.
Proof.
  unfold plain_char, host_byte. rewrite orb_true_iff, bool_decide_eq_true. intros [-> | H].
  - by rewrite orb_true_r.
  - apply orb_true_iff. right. apply bool_decide_eq_true. set_solver.
Qed.

Definition url_char (a : ascii) : bool := plain_path_char a || bool_decide (a = ":"%char).

(** one byte at a time, over the 256 of them *)
Ltac each_byte a := destruct a as [[] [] [] [] [] [] [] []]; vm_compute; congruence.

Lemma url_char_printable a :
  url_char a = true -> (32 <=? code a)%Z && negb (code a =? 127)%Z = true.
Proof. each_byte a. Qed.

Lemma plain_url_char a : plain_char a = true -> url_char a = true.
Proof. unfold url_char, plain_path_char. by intros ->. Qed.

Lemma path_url_char a : plain_path_char a = true -> url_char a = true.
Proof. unfold url_char. by intros ->. Qed.

Lemma digit_plain_char a : is_digit a = true -> plain_char a = true.
Proof. unfold plain_char, is_alnum. intros ->. by rewrite orb_true_r. Qed.

Lemma alpha_plain_char a : is_alpha a = true -> plain_char a = true.
Proof. unfold plain_char, is_alnum. by intros ->. Qed.

Definition port_text (port : string) : Prop :=
  port = "" \/ exists digits, port = String ":" digits /\ forall_char is_digit digits = true.

Definition path_text (path : string) : Prop :=
  path = "" \/ exists p, path = String slash p /\ forall_char plain_path_char p = true.

Lemma hostport_no_slash host port :
  forall_char plain_char host = true -> port_text port -> no_char slash (host +:+ port) = true.
Proof.
  intros Hh Hp. rewrite no_char_app, andb_true_iff.
  split; [by apply (forall_char_no_char plain_char)|].
  destruct Hp as [-> |(d & -> & Hd)]; [done|]. cbn. by apply (forall_char_no_char is_digit).
Qed.

Lemma parseHost_plain host port :
  forall_char plain_char host = true -> port_text port -> parseHost (host +:+ port) = Some (host +:+ port).
Proof.
  intros Hh Hp.
  assert (forall_char host_byte (host +:+ port) = true /\ forall_char url_char (host +:+ port) = true)
    as [Hb Hu].
  { rewrite !forall_char_app, !andb_true_iff. split; split.
    - by apply (forall_char_impl plain_char); [apply plain_host_byte|].
    - destruct Hp as [-> |(d & -> & Hd)]; [done|]. cbn.
      apply (forall_char_impl is_digit); [|done]. intros a Ha. by apply plain_host_byte, digit_plain_char.
    - by apply (forall_char_impl plain_char); [apply plain_url_char|].
    - destruct Hp as [-> |(d & -> & Hd)]; [done|]. cbn.
      apply (forall_char_impl is_digit); [|done]. intros a Ha. by apply plain_url_char, digit_plain_char. }
  assert (unescape ModeHost (host +:+ port) = Some (host +:+ port)) as Hun.
  { apply unescape_host; [|done]. by apply (forall_char_no_char url_char). }
  unfold parseHost.
  assert (HasPrefix (host +:+ port) "[" = false) as ->.
  { destruct (HasPrefix (host +:+ port) "[") eqn:E; [|done]. apply HasPrefix_iff in E as [r E].
    rewrite E in Hu. done. }
  assert (no_char ":" host = true) by by apply (forall_char_no_char plain_char).
  destruct Hp as [-> |(d & -> & Hd)].
  - rewrite sapp_nil_r in *. by rewrite CutLast_none.
  - rewrite CutLast_at; [|by apply (forall_char_no_char is_digit)].
    cbn [validOptionalPort]. rewrite Hd, bool_decide_eq_true_2 by done. exact Hun.
Qed.

Lemma url_Parse_plain sch host port path :
  forall_char is_alpha sch = true -> sch <> "" ->
  forall_char plain_char host = true -> port_text port -> path_text path ->
  url_Parse (sch +:+ "://" +:+ host +:+ port +:+ path) = Some (lower_all sch, host +:+ port).
Proof.
  intros Hs Hne Hh Hp Hpath.
  assert (forall_char url_char (host +:+ port) = true) as Hhp.
  { rewrite forall_char_app, andb_true_iff. split.
    - by apply (forall_char_impl plain_char); [apply plain_url_char|].
    - destruct Hp as [-> |(d & -> & Hd)]; [done|]. cbn. apply (forall_char_impl is_digit); [|done].
      intros a Ha. by apply plain_url_char, digit_plain_char. }
  assert (forall_char url_char path = true) as Hpa.
  { destruct Hpath as [-> |(p & -> & Hd)]; [done|]. cbn.
    by apply (forall_char_impl plain_path_char); [apply path_url_char|]. }
  set (rest := "//" +:+ host +:+ port +:+ path).
  assert (forall_char url_char rest = true) as Hr.
  { unfold rest. rewrite <- (sapp_assoc host), forall_char_app, (forall_char_app _ (_ +:+ _)), Hhp, Hpa.
    done. }
  assert (forall_char url_char (sch +:+ ":" +:+ rest) = true) as Hu.
  { rewrite forall_char_app, (forall_char_app _ ":"), Hr, andb_true_iff. split; [|done].
    apply (forall_char_impl is_alpha); [|done]. intros a Ha. by apply plain_url_char, alpha_plain_char. }
  change ("://" +:+ host +:+ port +:+ path) with (":" +:+ rest).
  unfold url_Parse.
  rewrite Cut_none by by apply (forall_char_no_char url_char). cbn [default].
  rewrite (forall_char_impl url_char) by (try exact url_char_printable; done). cbn [negb].
  rewrite bool_decide_eq_false_2 by (intros E; rewrite E in Hu; done).
  rewrite getScheme_letters by done. cbn [mbind option_bind from_option id fst snd].
  rewrite (Cut_none rest) by by apply (forall_char_no_char url_char).
  cbn [from_option id fst snd].
  assert (lower_all sch <> "") by by destruct sch.
  change (HasPrefix rest "/") with true. change (HasPrefix rest "//") with true.
  assert (TrimPrefix rest "//" = (host +:+ port) +:+ path) as ->.
  { unfold rest. by rewrite TrimPrefix_app, sapp_assoc. }
  rewrite !bool_decide_eq_true_2 by done. cbn [negb orb andb].
  pose proof (hostport_no_slash host port Hh Hp) as Hsl.
  assert (parseAuthority (host +:+ port) = Some (host +:+ port)) as Hauth.
  { unfold parseAuthority. rewrite CutLast_none by by apply (forall_char_no_char url_char).
    by apply parseHost_plain. }
  destruct Hpath as [-> |(p & -> & Hpc)].
  - rewrite sapp_nil_r, Cut_none by done. cbn. by rewrite Hauth.
  - rewrite Cut_at by done. rewrite Hauth. cbn [mbind option_bind].
    rewrite (unescape_other (String slash p)); [done|]. by apply (forall_char_no_char url_char).
Qed.
