(* ===== verification/GoCrypto.v ===== *)
(** * GoCrypto: [crypto/sha256], on byte strings

    The FIPS 180-4 algorithm on 32-bit words: padding, message schedule and
    compression.  [Example]s check the published digests. *)

From S2P Require Import Prelude GoStrings.
From Stdlib Require Import Ascii String NArith.
Open Scope list_scope.
Open Scope N_scope.

Definition w32 (n : N) : N := N.land n 4294967295.
Definition add32 (a b : N) : N := w32 (a + b).
Definition rotr (k n : N) : N := N.lor (N.shiftr n k) (w32 (N.shiftl n (32 - k))).
Definition not32 (n : N) : N := N.lxor n 4294967295.

(** *** The constants: 32 bits of the fractions of square and cube roots of primes *)

Definition is_prime (n : nat) : bool :=
  forallb (fun d => negb (Nat.eqb (Nat.modulo n d) 0)) (seq 2 (n - 2)).

(** the 64 primes up to 311 *)
Definition small_primes : list N :=
  Eval vm_compute in map N.of_nat (List.filter is_prime (seq 2 310)).

(** the integer cube root of a number below 2^105, bit by bit from the highest *)
Definition cube_root (x : N) : N :=
  fold_right (fun i r => let r' := r + 2 ^ N.of_nat i in if r' ^ 3 <=? x then r' else r) 0
    (seq 0 35).

Definition round_constants : list N :=
  Eval vm_compute in map (fun p => w32 (cube_root (N.shiftl p 96))) small_primes.

Definition initial_hash : list N :=
  Eval vm_compute in map (fun p => w32 (N.sqrt (N.shiftl p 64))) (List.firstn 8 small_primes).

Fixpoint bytes_of (s : string) : list N :=
  match s with EmptyString => [] | String a s' => N_of_ascii a :: bytes_of s' end.

(** big-endian bytes of [n], [k] of them *)
Fixpoint be_bytes (k : nat) (n : N) : list N :=
  match k with O => [] | S k' => be_bytes k' (N.shiftr n 8) ++ [N.land n 255] end.

(** one 0x80, zeros, and the bit length, up to a multiple of 64 bytes *)
Definition pad (bs : list N) : list N :=
  let len := List.length bs in
  bs ++ [0x80] ++ repeat 0 ((64 - (len + 9) mod 64) mod 64)%nat ++ be_bytes 8 (8 * N.of_nat len).

Fixpoint words (bs : list N) : list N :=
  match bs with
  | a :: b :: c :: d :: bs' =>
      N.lor (N.shiftl a 24) (N.lor (N.shiftl b 16) (N.lor (N.shiftl c 8) d)) :: words bs'
  | _ => []
  end.

Fixpoint chunks (fuel : nat) (ws : list N) : list (list N) :=
  match fuel, ws with
  | S f, _ :: _ => firstn 16 ws :: chunks f (skipn 16 ws)
  | _, _ => []
  end.

(** The message schedule, latest word first. *)
Fixpoint schedule (k : nat) (rev_w : list N) : list N :=
  match k with
  | O => rev_w
  | S k' =>
      let w i := nth i rev_w 0 in
      let x := w 14%nat in
      let y := w 1%nat in
      let s0 := N.lxor (rotr 7 x) (N.lxor (rotr 18 x) (N.shiftr x 3)) in
      let s1 := N.lxor (rotr 17 y) (N.lxor (rotr 19 y) (N.shiftr y 10)) in
      schedule k' (add32 (add32 (w 15%nat) s0) (add32 (w 6%nat) s1) :: rev_w)
  end.

Definition round (st : list N) (kw : N * N) : list N :=
  match st with
  | [a; b; c; d; e; f; g; h] =>
      let s1 := N.lxor (rotr 6 e) (N.lxor (rotr 11 e) (rotr 25 e)) in
      let ch := N.lxor (N.land e f) (N.land (not32 e) g) in
      let t1 := add32 (add32 h s1) (add32 ch (add32 kw.1 kw.2)) in
      let s0 := N.lxor (rotr 2 a) (N.lxor (rotr 13 a) (rotr 22 a)) in
      let maj := N.lxor (N.land a b) (N.lxor (N.land a c) (N.land b c)) in
      [add32 t1 (add32 s0 maj); a; b; c; add32 d t1; e; f; g]
  | _ => st
  end.

Fixpoint add_words (xs ys : list N) : list N :=
  match xs, ys with x :: xs', y :: ys' => add32 x y :: add_words xs' ys' | _, _ => [] end.

Definition compress (h : list N) (block : list N) : list N :=
  let ws := rev (schedule 48 (rev block)) in
  add_words h (fold_left round (combine round_constants ws) h).

Definition string_of_bytes (bs : list N) : string :=
  fold_right (fun b s => String (ascii_of_N b) s) EmptyString bs.

(** the 32-byte digest, [sha256.Sum256] *)
Definition sha256 (s : string) : string :=
  let ws := words (pad (bytes_of s)) in
  let h := fold_left compress (chunks (List.length ws) ws) initial_hash in
  string_of_bytes (List.concat (map (be_bytes 4) h)).

Example sha256_empty :
  HexEncode (sha256 "") = "e3b0c44298fc1c149afbf4c8996fb92427ae41e4649b934ca495991b7852b855"%string.
Proof. vm_compute. reflexivity. Qed.

Example sha256_abc :
  HexEncode (sha256 "abc") = "ba7816bf8f01cfea414140de5dae2223b00361a396177a9cb410ff61f20015ad"%string.
Proof. vm_compute. reflexivity. Qed.
