(* ===== verification/GoTime.v ===== *)
(** * GoTime: [time.Time.UTC().Format(time.RFC3339)] of a Unix time in seconds

    The civil date is computed from the day number in the proleptic Gregorian
    calendar, by 400-year eras that start on March 1st. *)

From S2P Require Import Prelude GoStrings.
From stdpp Require Import strings.
Open Scope Z_scope.

(** year, month, day *)
Definition civil (days : Z) : Z * Z * Z :=
  let z := days + 719468 in
  let era := z / 146097 in
  let doe := z mod 146097 in
  let yoe := (doe - doe / 1460 + doe / 36524 - doe / 146096) / 365 in
  let doy := doe - (365 * yoe + yoe / 4 - yoe / 100) in
  let mp := (5 * doy + 2) / 153 in
  let d := doy - (153 * mp + 2) / 5 + 1 in
  let m := if mp <? 10 then mp + 3 else mp - 9 in
  (yoe + era * 400 + (if m <=? 2 then 1 else 0), m, d).

(** [appendInt(b, n, width)] *)
Definition pad_int (width : nat) (n : Z) : string :=
  let digits := FormatUint (Z.abs n) in
  (if n <? 0 then "-" else "") +:+ zeros (width - String.length digits) +:+ digits.

Definition RFC3339_UTC (t : Z) : string :=
  let '(y, m, d) := civil (t / 86400) in
  let s := t mod 86400 in
  pad_int 4 y +:+ "-" +:+ pad_int 2 m +:+ "-" +:+ pad_int 2 d +:+ "T" +:+
  pad_int 2 (s / 3600) +:+ ":" +:+ pad_int 2 (s / 60 mod 60) +:+ ":" +:+ pad_int 2 (s mod 60)
  +:+ "Z".

Example rfc3339_epoch : RFC3339_UTC 0 = "1970-01-01T00:00:00Z"%string.
Proof. vm_compute. reflexivity. Qed.
Example rfc3339_leap_day : RFC3339_UTC 1709210096 = "2024-02-29T12:34:56Z"%string.
Proof. vm_compute. reflexivity. Qed.
Example rfc3339_year_end : RFC3339_UTC 1767225599 = "2025-12-31T23:59:59Z"%string.
Proof. vm_compute. reflexivity. Qed.
