(* ===== verification/AsciiText.v ===== *)
(** * AsciiText: what the program builds of ASCII texts

    Object keys, names and digests are ASCII, and so are the paths, ids and dates
    that the program makes of them.  ASCII is valid UTF-8, so these texts are read
    back from a JSON document as they are. *)

From stdpp Require Import strings.
From Stdlib Require Import Ascii.
From S2P Require Import Prelude GoStrings GoPath GoJson GoJsonFacts GoTime.
#[local] Open Scope nat_scope.

Definition ascii_char (a : ascii) : bool := (code a <? 128)%Z.

Definition ascii_text (s : string) : Prop := all_ascii s = true.

Lemma ascii_text_cons a s : ascii_text (String a s) <-> ascii_char a = true /\ ascii_text s.
Proof. unfold ascii_text, ascii_char. cbn. by rewrite andb_true_iff. Qed.

Lemma ascii_text_nil : ascii_text "".
Proof. done. Qed.

Lemma ascii_text_app s t : ascii_text (s +:+ t) <-> ascii_text s /\ ascii_text t.
Proof. unfold ascii_text. by rewrite all_ascii_app, andb_true_iff. Qed.

Lemma ascii_text_valid s : ascii_text s -> valid_utf8 s = true.
Proof. apply valid_utf8_all_ascii. Qed.

Lemma ascii_char_nat n : n < 128 -> ascii_char (ascii_of_nat n) = true.
Proof.
  intros Hn. unfold ascii_char, code. rewrite nat_ascii_embedding by lia. apply Z.ltb_lt. lia.
Qed.

(** ** Numbers, digests, dates *)

Lemma ascii_zeros n : ascii_text (zeros n).
Proof. by induction n. Qed.

Lemma ascii_fmt_digits fuel n acc : ascii_text acc -> ascii_text (fmt_digits fuel n acc).
Proof.
  revert n acc. induction fuel as [|fuel IH]; intros n acc Ha; [done|]. cbn [fmt_digits].
  assert (ascii_text (String (digit_char (n mod 10)) acc)).
  { apply ascii_text_cons. split; [|done]. apply ascii_char_nat.
    pose proof (Z.mod_pos_bound n 10). lia. }
  destruct (n <? 10)%Z; auto.
Qed.

Lemma ascii_FormatUint n : ascii_text (FormatUint n).
Proof. by apply ascii_fmt_digits. Qed.

Lemma ascii_fmt_04d n : ascii_text (fmt_04d n).
Proof. apply ascii_text_app. split; [apply ascii_zeros|apply ascii_FormatUint]. Qed.

Lemma ascii_HexEncode s : ascii_text (HexEncode s).
Proof.
  assert (forall n, n < 16 -> ascii_char (hex_digit n) = true) as Hd.
  { intros n Hn. unfold hex_digit. destruct (Nat.ltb_spec n 10); apply ascii_char_nat; lia. }
  induction s as [|a s IH]; [done|]. cbn [HexEncode]. pose proof (nat_ascii_bounded a).
  rewrite !ascii_text_cons. split_and!; [apply Hd, Nat.Div0.div_lt_upper_bound; lia
    |apply Hd, Nat.mod_upper_bound; lia|done].
Qed.

Lemma ascii_b64_digit n : ascii_char (b64_digit n) = true.
Proof.
  unfold b64_digit. apply ascii_char_nat.
  destruct (Nat.ltb_spec n 26); [lia|]. destruct (Nat.ltb_spec n 52); [lia|].
  destruct (Nat.ltb_spec n 62); [lia|]. destruct (n =? 62); lia.
Qed.

Lemma ascii_Base64Encode s : ascii_text (Base64Encode s).
Proof.
  remember (String.length s) as n eqn:Hn. revert s Hn.
  induction n as [n IH] using (well_founded_induction Nat.lt_wf_0). intros [|a [|b [|c s]]] ->; cbn [Base64Encode];
    rewrite ?ascii_text_cons; split_and?; try apply ascii_b64_digit; try done.
  apply (IH (String.length s)); [cbn; lia|done].
Qed.

Lemma ascii_pad_int width n : ascii_text (pad_int width n).
Proof.
  unfold pad_int. rewrite !ascii_text_app.
  split_and!; [by destruct (n <? 0)%Z|apply ascii_zeros|apply ascii_FormatUint].
Qed.

Lemma ascii_RFC3339_UTC t : ascii_text (RFC3339_UTC t).
Proof.
  unfold RFC3339_UTC. destruct (civil _) as [[y m] d]. rewrite !ascii_text_app.
  split_and!; try apply ascii_pad_int; done.
Qed.

(** ** Paths *)

Lemma ascii_Split s c : ascii_text s -> Forall ascii_text (Split s c).
Proof.
  induction s as [|a s IH]; [by repeat constructor|]. cbn [Split].
  intros [Ha Hs]%ascii_text_cons. specialize (IH Hs). case_bool_decide; [by constructor|].
  destruct (Split s c) as [|x l]; [by constructor; [apply ascii_text_cons|]|].
  apply Forall_cons in IH as [Hx Hl]. constructor; [by apply ascii_text_cons|done].
Qed.

Lemma ascii_Join l c : ascii_char c = true -> Forall ascii_text l -> ascii_text (Join l c).
Proof.
  intros Hc. induction 1 as [|x [|y l] Hx Hl IH]; [done|done|].
  cbn [Join] in *. apply ascii_text_app. split; [done|]. by apply ascii_text_cons.
Qed.

Lemma ascii_clean_fold rooted l st :
  Forall ascii_text l -> Forall ascii_text st ->
  Forall ascii_text (fold_left (clean_step rooted) l st).
Proof.
  intros Hl. revert st. induction Hl as [|c l Hc Hl IH]; intros st Hst; [done|]. cbn. apply IH.
  unfold clean_step. repeat case_bool_decide; [done| |by constructor].
  destruct Hst as [|x st]; [destruct rooted; by repeat constructor|].
  case_bool_decide; [|done]. by repeat constructor.
Qed.

Lemma ascii_Clean s : ascii_text s -> ascii_text (Clean s).
Proof.
  intros Hs. unfold Clean.
  assert (ascii_text (Join (clean_comps (HasPrefix s "/") s) slash)).
  { apply ascii_Join; [done|]. unfold clean_comps. apply List.Forall_rev.
    apply ascii_clean_fold; [by apply ascii_Split|done]. }
  destruct (HasPrefix s "/"); [by apply ascii_text_cons|]. by case_bool_decide.
Qed.

Lemma ascii_TrimRight s c : ascii_text s -> ascii_text (TrimRight s c).
Proof.
  induction s as [|a s IH]; [done|]. cbn [TrimRight]. intros [Ha Hs]%ascii_text_cons.
  specialize (IH Hs). destruct (TrimRight s c) as [|b t]; [|by apply ascii_text_cons].
  case_bool_decide; [done|]. by apply ascii_text_cons.
Qed.

Lemma ascii_TrimLeft_inv s : ascii_text (TrimLeft s slash) -> ascii_text s.
Proof.
  induction s as [|a s IH]; [done|]. cbn [TrimLeft]. case_bool_decide as Ha; [|done].
  subst a. intros H. apply ascii_text_cons. split; [done|auto].
Qed.

Lemma ascii_Base s : ascii_text s -> ascii_text (Base s).
Proof.
  intros Hs. unfold Base. case_bool_decide; [done|].
  assert (ascii_text (default "" (last (Split (TrimRight s slash) slash)))) as Hl.
  { destruct (last _) as [b|] eqn:Hb; [|done]. apply last_Some_elem_of in Hb. cbn.
    revert Hb. apply Forall_forall. by apply ascii_Split, ascii_TrimRight. }
  by case_bool_decide.
Qed.

(** ** What is printed is UTF-8 *)

Lemma ascii_escu r : ascii_text (escu r).
Proof.
  assert (forall n, ascii_char (hex_digit (Z.to_nat (n mod 16))) = true) as Hd.
  { intros n. unfold hex_digit. pose proof (Z.mod_pos_bound n 16).
    destruct (Nat.ltb_spec (Z.to_nat (n mod 16)) 10); apply ascii_char_nat; lia. }
  unfold escu. rewrite !ascii_text_cons. by split_and!.
Qed.

Lemma ascii_escape_ascii a : (code a < 128)%Z -> ascii_text (escape_ascii a).
Proof.
  intros Ha. unfold escape_ascii, esc2.
  assert (ascii_char a = true) by by apply Z.ltb_lt.
  repeat case_match; try apply ascii_escu; by rewrite ?ascii_text_cons.
Qed.

(** a rune that was decoded is valid by itself *)
Lemma valid_rune s r raw rest : decode_rune s = Some (r, raw, rest) -> valid_utf8 raw = true.
Proof.
  intros (_ & Hne & Hd)%decode_rune_inv. specialize (Hd ""). rewrite sapp_nil_r in Hd.
  destruct raw as [|a raw]; [done|]. unfold valid_utf8. cbn -[decode_rune]. rewrite Hd.
  by destruct raw.
Qed.

Lemma valid_escape n s : valid_utf8 (escape n s) = true.
Proof.
  revert s. induction n as [|n IH]; intros [|a s]; [done..|]. cbn [escape].
  destruct (decode_rune (String a s)) as [[[r raw] rest]|] eqn:Hd.
  - apply valid_utf8_app; [|done].
    destruct (Z.ltb_spec r 128) as [Hr|Hr].
    + apply ascii_text_valid, ascii_escape_ascii.
      destruct (decode_rune_head _ _ _ _ _ Hd) as [(? & _ & ->)|[? _]]; lia.
    + destruct (_ || _); [apply ascii_text_valid, ascii_escu|by eapply valid_rune].
  - apply valid_utf8_app; [apply ascii_text_valid, ascii_escu|done].
Qed.

Lemma valid_cons a s : ascii_char a = true -> valid_utf8 s = true -> valid_utf8 (String a s) = true.
Proof. intros Ha%Z.ltb_lt. by apply valid_utf8_ascii. Qed.

Lemma valid_print_string s : valid_utf8 (print_string s) = true.
Proof. apply valid_cons; [done|]. apply valid_utf8_app; [apply valid_escape|done]. Qed.

Lemma valid_sep_by c l :
  ascii_char c = true -> Forall (fun s => valid_utf8 s = true) l -> valid_utf8 (sep_by c l) = true.
Proof.
  intros Hc. induction 1 as [|x [|y l] Hx Hl IH]; [done|done|].
  cbn [sep_by] in *. apply valid_utf8_app; [done|]. by apply valid_cons.
Qed.

Lemma valid_Itoa n : valid_utf8 (Itoa n) = true.
Proof.
  unfold Itoa. destruct (n <? 0)%Z; [apply valid_cons; [done|]|]; apply ascii_text_valid, ascii_FormatUint.
Qed.

Lemma valid_print j : json_ok j -> valid_utf8 (print j) = true.
Proof.
  induction j as [|[]| s |s|l IH|l IH] using json_nested_ind; cbn -[print]; [done..| | | |].
  - intros [n ->]. apply valid_Itoa.
  - intros _. apply valid_print_string.
  - intros Hl%json_ok_elems. cbn [print]. apply valid_cons; [done|].
    apply valid_utf8_app; [|done]. apply valid_sep_by; [done|]. apply Forall_map.
    rewrite Forall_forall in *. auto.
  - intros Hl%json_ok_members. rewrite print_obj. apply valid_cons; [done|].
    apply valid_utf8_app; [|done]. apply valid_sep_by; [done|]. apply Forall_map.
    rewrite Forall_forall in *. intros kv Hkv. unfold print_member, compose.
    apply valid_utf8_app; [apply valid_print_string|]. apply valid_cons; [done|].
    apply (IH kv Hkv), (Hl kv Hkv).
Qed.

#[export] Hint Resolve ascii_text_nil ascii_FormatUint ascii_fmt_04d ascii_HexEncode
  ascii_Base64Encode ascii_RFC3339_UTC ascii_Clean ascii_Base ascii_text_valid valid_print : ascii_text.
