(* ===== verification/GoHeap.v ===== *)
(** Go's memory, as far as the generated deep copies of the API types use it:
    variables with addresses of their own, structs with addressable fields,
    pointers, slices over backing arrays, maps.  A function is a state transformer
    [mem]; [None] is a run-time panic (a nil dereference).  [read] observes the
    value of a Go type that starts in a variable: its contents, a [tree], and the
    variables that it reaches.  [deep_copier] is what a [DeepCopyInto] has to do;
    the lemmas derive it for each idiom of controller-gen. *)
From stdpp Require Import base list strings gmap.
From S2P Require Import Prelude.

(** ** Values, variables and types *)

Inductive basic :=
| BStr (s : string)
| BInt (z : Z)
| BBool (b : bool).

Notation loc := nat.

(** A step from a variable to a part of it: a field, an array element. *)
Inductive step :=
| SField (f : string)
| SIndex (i : nat).

Definition addr : Type := loc * list step.

(** [VArray] and [VDict] are the objects behind slices and maps: a slice is the
    address of an array, an offset and a length; a map is a reference. *)
Inductive val :=
| VBase (b : basic)
| VStruct (fs : list (string * val))
| VPtr (p : option addr)
| VSlice (s : option (addr * nat * nat))
| VMap (m : option loc)
| VArray (vs : list val)
| VDict (m : gmap string basic).

Notation heap := (list val).

Inductive kind := KString | KInt | KBool.

#[export] Instance kind_eq_dec : EqDecision kind.
Proof. solve_decision. Defined.

Inductive ty :=
| TBase (k : kind)
| TStruct (fts : list (string * ty))
| TPtr (τ : ty)
| TSlice (τ : ty)
| TMap.

Definition kind_of (b : basic) : kind :=
  match b with BStr _ => KString | BInt _ => KInt | BBool _ => KBool end.

Definition zero_basic (k : kind) : basic :=
  match k with KString => BStr "" | KInt => BInt 0 | KBool => BBool false end.

(** The zero value of a type, which [new] and [make] start from. *)
Fixpoint zero (τ : ty) : val :=
  match τ with
  | TBase k => VBase (zero_basic k)
  | TStruct fts => VStruct (map (fun ft => (ft.1, zero ft.2)) fts)
  | TPtr _ => VPtr None
  | TSlice _ => VSlice None
  | TMap => VMap None
  end.

(** Types without pointers: assignment copies them entirely. *)
Fixpoint flat (τ : ty) : bool :=
  match τ with
  | TBase _ => true
  | TStruct fts => forallb (fun ft => flat ft.2) fts
  | _ => false
  end.

(** ** Loads and stores *)

Fixpoint field (f : string) (fs : list (string * val)) : option val :=
  match fs with
  | [] => None
  | (g, v) :: fs => if String.eqb f g then Some v else field f fs
  end.

Fixpoint set_field (f : string) (w : val) (fs : list (string * val))
    : option (list (string * val)) :=
  match fs with
  | [] => None
  | (g, v) :: fs =>
      if String.eqb f g then Some ((g, w) :: fs)
      else cons (g, v) <$> set_field f w fs
  end.

Definition set_index (i : nat) (w : val) (vs : list val) : option (list val) :=
  if decide (i < length vs)%nat then Some (<[i := w]> vs) else None.

Fixpoint get (p : list step) (v : val) : option val :=
  match p, v with
  | [], _ => Some v
  | SField f :: p, VStruct fs => field f fs ≫= get p
  | SIndex i :: p, VArray vs => vs !! i ≫= get p
  | _, _ => None
  end.

Fixpoint set (p : list step) (w v : val) : option val :=
  match p, v with
  | [], _ => Some w
  | SField f :: p, VStruct fs =>
      v ← field f fs; v ← set p w v; VStruct <$> set_field f v fs
  | SIndex i :: p, VArray vs =>
      v ← vs !! i; v ← set p w v; VArray <$> set_index i v vs
  | _, _ => None
  end.

Definition load (h : heap) (a : addr) : option val := h !! a.1 ≫= get a.2.

Definition store (a : addr) (w : val) (h : heap) : option heap :=
  v ← h !! a.1; v ← set a.2 w v; Some (<[a.1 := v]> h).

Definition at_field (a : addr) (f : string) : addr := (a.1, a.2 ++ [SField f]).
Definition at_index (a : addr) (i : nat) : addr := (a.1, a.2 ++ [SIndex i]).

(** ** Go statements as transformers of the memory *)

Definition mem (A : Type) : Type := heap -> option (A * heap).

#[export] Instance mem_ret : MRet mem := fun A a h => Some (a, h).
#[export] Instance mem_bind : MBind mem :=
  fun A B f m h => '(a, h) ← m h; f a h.

Definition loading (a : addr) : mem val := fun h => v ← load h a; Some (v, h).
Definition storing (a : addr) (v : val) : mem unit :=
  fun h => h ← store a v h; Some (tt, h).
Definition alloc (v : val) : mem loc := fun h => Some (length h, h ++ [v]).
Definition panic {A} : mem A := fun _ => None.

(** A function that copies the variable at one address into that at another. *)
Definition copier := addr -> addr -> mem unit.

(** [*out = *in] *)
Definition assign : copier := fun inp out => v ← loading inp; storing out v.

Definition is_nil (v : val) : bool :=
  match v with VPtr None | VSlice None | VMap None => true | _ => false end.

(** [if in.F != nil { in, out := &in.F, &out.F; s }] *)
Definition if_set (s : copier) : copier := fun inp out =>
  v ← loading inp;
  if is_nil v then mret tt else s inp out.

(** [*in] of a pointer to a pointer, dereferenced once more by the caller. *)
Definition deref (a : addr) : mem addr :=
  v ← loading a;
  match v with VPtr (Some p) => mret p | _ => panic end.

Definition slice_at (a : addr) : mem (addr * nat * nat) :=
  v ← loading a;
  match v with
  | VSlice (Some s) => mret s
  | _ => panic
  end.

(** [*out = new(T)], then [s] from the pointee of [*in] to that of [*out] *)
Definition copy_new (τ : ty) (s : copier) : copier := fun inp out =>
  l ← alloc (zero τ);
  _ ← storing out (VPtr (Some (l, [])));
  p ← deref inp;
  q ← deref out;
  s p q.

(** [*out] becomes what the method [DeepCopy] returns for the pointer [*in] *)
Definition copy_call (f : option addr -> mem (option addr)) : copier :=
  fun inp out =>
  p ← deref inp;
  q ← f (Some p);
  storing out (VPtr q).

(** [for i := range *in], with [s] from the [i]th element to the [i]th element *)
Fixpoint for_range (s : copier) (inp : addr) (off : nat) (out : addr) (i n : nat)
    : mem unit :=
  match n with
  | O => mret tt
  | S n =>
      _ ← s (at_index inp (off + i)) (at_index out i);
      for_range s inp off out (S i) n
  end.

(** [*out = make] of a slice with the length of [*in], and the loop over the elements.  With [assign]
    for [s] this is also the built-in [copy] of one slice to the other: the array just made overlaps no
    other, and both have the same length. *)
Definition make_slice (τ : ty) (s : copier) : copier := fun inp out =>
  '(arr, off, n) ← slice_at inp;
  l ← alloc (VArray (replicate n (zero τ)));
  _ ← storing out (VSlice (Some ((l, []), 0, n)));
  for_range s arr off (l, []) 0 n.

Definition map_at (a : addr) : mem loc :=
  v ← loading a;
  match v with VMap (Some l) => mret l | _ => panic end.

Definition dict_at (l : loc) : mem (gmap string basic) :=
  v ← loading (l, []);
  match v with VDict m => mret m | _ => panic end.

(** [for key, val := range *in], storing [val] under [key] in the map [*out] *)
Fixpoint insert_all (l : loc) (kvs : list (string * basic)) : mem unit :=
  match kvs with
  | [] => mret tt
  | (k, b) :: kvs =>
      m ← dict_at l;
      _ ← storing (l, []) (VDict (<[k := b]> m));
      insert_all l kvs
  end.

(** [*out = make] of an empty map, and that loop.  Go visits the
    entries in an unspecified order; every order gives the same map. *)
Definition make_map : copier := fun inp out =>
  src ← map_at inp;
  l ← alloc (VDict ∅);
  _ ← storing out (VMap (Some l));
  m ← dict_at src;
  insert_all l (map_to_list m).

(** The statements of a [DeepCopyInto] after [*out = *in], one per field. *)
Fixpoint fields (inp out : addr) (cs : list (string * copier)) : mem unit :=
  match cs with
  | [] => mret tt
  | (f, s) :: cs => _ ← s (at_field inp f) (at_field out f); fields inp out cs
  end.

(** [func (in *T) DeepCopyInto(out *T)]: [*out = *in], then the fields. *)
Definition copy_struct (cs : list (string * copier)) : copier := fun inp out =>
  _ ← assign inp out;
  fields inp out cs.

(** [func (in *T) DeepCopy() *T] *)
Definition deep_copy (τ : ty) (into : copier) (inp : option addr)
    : mem (option addr) :=
  match inp with
  | None => mret None
  | Some inp =>
      l ← alloc (zero τ);
      _ ← into inp (l, []);
      mret (Some (l, []))
  end.

(** An interface value: nil, or a dynamic type with a pointer that may be nil. *)
Definition iface := option (string * option addr).

(** [func (in *T) DeepCopyObject() runtime.Object] *)
Definition deep_copy_object (T : string) (dc : option addr -> mem (option addr))
    (inp : option addr) : mem iface :=
  c ← dc inp;
  match c with
  | Some a => mret (Some (T, Some a))
  | None => mret None
  end.

(** Later assignments, to any variables. *)
Fixpoint stores (ws : list (addr * val)) (h : heap) : option heap :=
  match ws with
  | [] => Some h
  | (a, v) :: ws => h ← store a v h; stores ws h
  end.

(** ** What a value holds *)

Inductive tree :=
| LBase (b : basic)
| LStruct (fs : list (string * tree))
| LNil
| LPtr (t : tree)
| LSlice (ts : list tree)
| LMap (m : gmap string basic).

Section read_parts.
Context (rd : ty -> val -> option (tree * list loc)).

Fixpoint read_fields (fts : list (string * ty)) (fvs : list (string * val))
    : option (list (string * tree) * list loc) :=
  match fts, fvs with
  | [], [] => Some ([], [])
  | (f, τ) :: fts, (g, v) :: fvs =>
      if String.eqb f g then
        '(t, ls) ← rd τ v;
        '(ts, ls') ← read_fields fts fvs;
        Some ((f, t) :: ts, ls ++ ls')
      else None
  | _, _ => None
  end.

Fixpoint read_elems (τ : ty) (vs : list val) : option (list tree * list loc) :=
  match vs with
  | [] => Some ([], [])
  | v :: vs =>
      '(t, ls) ← rd τ v;
      '(ts, ls') ← read_elems τ vs;
      Some (t :: ts, ls ++ ls')
  end.
End read_parts.

(** The elements that a slice shows of its array. *)
Definition window (off n : nat) (vs : list val) : option (list val) :=
  let ws := take n (drop off vs) in
  if decide (length ws = n) then Some ws else None.

(** The contents of a value of type [τ] and the variables it reaches through
    pointers, slices and maps. *)
Fixpoint read (h : heap) (τ : ty) (v : val) {struct τ}
    : option (tree * list loc) :=
  match τ, v with
  | TBase k, VBase b => if decide (kind_of b = k) then Some (LBase b, []) else None
  | TStruct fts, VStruct fvs =>
      '(ts, ls) ← read_fields (read h) fts fvs; Some (LStruct ts, ls)
  | TPtr _, VPtr None => Some (LNil, [])
  | TPtr τ, VPtr (Some a) =>
      w ← load h a;
      '(t, ls) ← read h τ w;
      Some (LPtr t, a.1 :: ls)
  | TSlice _, VSlice None => Some (LNil, [])
  | TSlice τ, VSlice (Some (a, off, n)) =>
      match load h a with
      | Some (VArray vs) =>
          ws ← window off n vs;
          '(ts, ls) ← read_elems (read h) τ ws;
          Some (LSlice ts, a.1 :: ls)
      | _ => None
      end
  | TMap, VMap None => Some (LNil, [])
  | TMap, VMap (Some l) =>
      match h !! l with
      | Some (VDict m) => Some (LMap m, [l])
      | _ => None
      end
  | _, _ => None
  end.

(** [v] holds [t] in the memory [h] extended by [new], reaching only new
    variables, each once. *)
Definition fresh (τ : ty) (h new : heap) (t : tree) (v : val) : Prop :=
  exists ls, read (h ++ new) τ v = Some (t, ls) /\
    (forall l, l ∈ ls -> (length h <= l)%nat) /\ NoDup ls.

(** What a run of a copier into [out] leaves: [out] holds the contents [t],
    sharing nothing, no other variable has changed. *)
Definition copied (τ : ty) (h : heap) (out : addr) (t : tree)
    (r : option (unit * heap)) : Prop :=
  exists v h1 new, r = Some (tt, h1 ++ new) /\ store out v h = Some h1 /\
    fresh τ h new t v.

(** The contract of [DeepCopyInto]: from a readable [*in] into a variable apart
    from everything [*in] reaches. *)
Definition deep_copier (τ : ty) (s : copier) : Prop :=
  forall h inp out v t ls,
    load h inp = Some v -> read h τ v = Some (t, ls) ->
    out.1 ∉ inp.1 :: ls -> is_Some (load h out) ->
    copied τ h out t (s inp out h).

(** The contract of a field's statement, which runs after [*out = *in]. *)
Definition field_copier (τ : ty) (s : copier) : Prop :=
  forall h inp out v t ls,
    load h inp = Some v -> load h out = Some v ->
    read h τ v = Some (t, ls) -> out.1 ∉ inp.1 :: ls ->
    copied τ h out t (s inp out h).

(** The contract of a [DeepCopy]. *)
Definition deep_copy_fn (τ : ty) (f : option addr -> mem (option addr)) : Prop :=
  forall h p t ls,
    read h (TPtr τ) (VPtr p) = Some (t, ls) ->
    exists q new, f p h = Some (q, h ++ new) /\ fresh (TPtr τ) h new t (VPtr q).
