(* ===== verification/GoHeapFacts.v ===== *)
(** Facts of [GoHeap]: what loads and stores do to each other, that reading a
    value depends only on the variables it reaches, and the contract of each
    statement that the generated deep copies are made of. *)
From stdpp Require Import base list strings gmap.
From S2P Require Import Prelude GoHeap.

(** ** Loads and stores *)

Lemma get_app p q v : get (p ++ q) v = get p v ≫= get q.
Proof.
  revert v. induction p as [|[f|i] p IH]; intros v; [done| |]; destruct v; try done; cbn.
  - destruct (field f fs); cbn; auto.
  - destruct (vs !! i); cbn; auto.
Qed.

Lemma set_field_some f w fs v :
  field f fs = Some v -> exists fs', set_field f w fs = Some fs'.
Proof.
  revert w v. induction fs as [|[g u] fs IH]; intros w v; cbn; [done|].
  destruct (String.eqb f g); [eauto|]. intros Hf.
  destruct (IH w v Hf) as [fs' ->]. eauto.
Qed.

Lemma field_set_field f w fs fs' :
  set_field f w fs = Some fs' ->
  field f fs' = Some w /\ (forall w', set_field f w' fs' = set_field f w' fs).
Proof.
  revert fs'. induction fs as [|[g u] fs IH]; intros fs'; cbn; [done|].
  destruct (String.eqb f g) eqn:E.
  - intros [= <-]. cbn. rewrite E. done.
  - destruct (set_field f w fs) as [fs1|]; [|done]. intros [= <-].
    destruct (IH fs1 eq_refl) as [Hf Hs]. cbn. rewrite E.
    split; [done|]. intros w'. by rewrite Hs.
Qed.

Lemma get_set p w v v' q : set p w v = Some v' -> get (p ++ q) v' = get q w.
Proof.
  revert v v'. induction p as [|[f|i] p IH]; intros v v'; cbn; [by intros [= ->]| |];
    destruct v; try done; intros H.
  - destruct (field f fs) as [u|]; [|done]. cbn in H.
    destruct (set p w u) as [u'|] eqn:Eu; [|done]. cbn in H.
    destruct (set_field f u' fs) as [fs'|] eqn:Ef; [|done]. injection H as <-.
    cbn. rewrite (proj1 (field_set_field _ _ _ _ Ef)). cbn. eauto.
  - destruct (vs !! i) as [u|] eqn:Ei; [|done]. cbn in H.
    destruct (set p w u) as [u'|] eqn:Eu; [|done]. cbn in H.
    unfold set_index in H. case_decide as Hi; [|done]. injection H as <-.
    cbn. rewrite list_lookup_insert_eq by done. cbn. eauto.
Qed.

Lemma set_set p w w' v v' : set p w v = Some v' -> set p w' v' = set p w' v.
Proof.
  revert v v'. induction p as [|[f|i] p IH]; intros v v'; cbn; [done| |];
    destruct v; try done; intros H.
  - destruct (field f fs) as [u|]; [|done]. cbn in H.
    destruct (set p w u) as [u'|] eqn:Eu; [|done]. cbn in H.
    destruct (set_field f u' fs) as [fs'|] eqn:Ef; [|done]. injection H as <-.
    destruct (field_set_field _ _ _ _ Ef) as [Hg Hs]. cbn. rewrite Hg. cbn.
    rewrite (IH _ _ Eu). destruct (set p w' u); cbn; [by rewrite Hs|done].
  - destruct (vs !! i) as [u|] eqn:Ei; [|done]. cbn in H.
    destruct (set p w u) as [u'|] eqn:Eu; [|done]. cbn in H.
    unfold set_index in H. case_decide as Hi; [|done]. injection H as <-.
    cbn. rewrite list_lookup_insert_eq by done. cbn.
    rewrite (IH _ _ Eu). destruct (set p w' u); cbn; [|done].
    unfold set_index. rewrite length_insert, list_insert_insert_eq. done.
Qed.

Lemma set_app p q w v u :
  get p v = Some u -> set (p ++ q) w v = u' ← set q w u; set p u' v.
Proof.
  revert v. induction p as [|[f|i] p IH]; intros v; cbn.
  - intros [= ->]. by destruct (set q w u).
  - destruct v; try done. destruct (field f fs) as [v1|]; [|done]. cbn.
    intros Hg. rewrite (IH _ Hg). by destruct (set q w u).
  - destruct v; try done. destruct (vs !! i) as [v1|]; [|done]. cbn.
    intros Hg. rewrite (IH _ Hg). by destruct (set q w u).
Qed.

Lemma set_some p w v u : get p v = Some u -> is_Some (set p w v).
Proof.
  revert v. induction p as [|[f|i] p IH]; intros v; cbn; [by eauto| |];
    destruct v; try done.
  - destruct (field f fs) as [v1|] eqn:Ef; [|done]. cbn. intros Hg.
    destruct (IH _ Hg) as [v' ->]. cbn.
    destruct (set_field_some f v' fs v1 Ef) as [? ->]. cbn. eauto.
  - destruct (vs !! i) as [v1|] eqn:Ei; [|done]. cbn. intros Hg.
    destruct (IH _ Hg) as [v' ->]. cbn. unfold set_index.
    rewrite decide_True by (by eapply lookup_lt_Some). eauto.
Qed.

Lemma store_inv a w h h1 :
  store a w h = Some h1 ->
  exists v v', h !! a.1 = Some v /\ set a.2 w v = Some v' /\ h1 = <[a.1 := v']> h.
Proof.
  unfold store. destruct (h !! a.1) as [v|]; [|done]. cbn.
  destruct (set a.2 w v) as [v'|] eqn:E; [|done]. intros [= <-]. eauto.
Qed.

Lemma store_some h a w : is_Some (load h a) -> is_Some (store a w h).
Proof.
  unfold load, store. intros [u H]. destruct (h !! a.1) as [v|]; [|done]. cbn in *.
  destruct (set_some _ w _ _ H) as [v' ->]. cbn. eauto.
Qed.

Lemma store_length a w h h1 : store a w h = Some h1 -> length h1 = length h.
Proof. intros (v & v' & ? & ? & ->)%store_inv. apply length_insert. Qed.

Lemma store_lookup a w h h1 l :
  store a w h = Some h1 -> l <> a.1 -> h1 !! l = h !! l.
Proof. intros (v & v' & ? & ? & ->)%store_inv ?. by apply list_lookup_insert_ne. Qed.

Lemma load_store a w h h1 q :
  store a w h = Some h1 -> load h1 (a.1, a.2 ++ q) = get q w.
Proof.
  intros (v & v' & Hl & Hs & ->)%store_inv. unfold load. cbn.
  rewrite list_lookup_insert_eq by (by eapply lookup_lt_Some). cbn.
  by eapply get_set.
Qed.

Lemma load_store_eq a w h h1 : store a w h = Some h1 -> load h1 a = Some w.
Proof.
  intros H. pose proof (load_store a w h h1 [] H) as Hl.
  rewrite app_nil_r in Hl. by destruct a.
Qed.

Lemma store_store a w w' h h1 :
  store a w h = Some h1 -> store a w' h1 = store a w' h.
Proof.
  intros (v & v' & Hl & Hs & ->)%store_inv. unfold store.
  rewrite list_lookup_insert_eq by (by eapply lookup_lt_Some). rewrite Hl. cbn.
  rewrite (set_set _ _ _ _ _ Hs). destruct (set a.2 w' v); cbn; [|done].
  by rewrite list_insert_insert_eq.
Qed.

Lemma load_lookup h h' a : h' !! a.1 = h !! a.1 -> load h' a = load h a.
Proof. unfold load. by intros ->. Qed.

Lemma load_lt h a v : load h a = Some v -> (a.1 < length h)%nat.
Proof.
  unfold load. destruct (h !! a.1) eqn:E; [|done]. intros _. by eapply lookup_lt_Some.
Qed.

Lemma load_app h new a v : load h a = Some v -> load (h ++ new) a = Some v.
Proof.
  intros H. rewrite <- H. apply load_lookup. apply lookup_app_l.
  by eapply load_lt.
Qed.

Lemma store_app a w h h1 new :
  store a w h = Some h1 -> store a w (h ++ new) = Some (h1 ++ new).
Proof.
  intros (v & v' & Hl & Hs & ->)%store_inv. unfold store.
  rewrite (lookup_app_l_Some _ _ _ _ Hl). cbn. rewrite Hs. cbn.
  by rewrite insert_app_l by (by eapply lookup_lt_Some).
Qed.

Lemma store_sub a q w h u u' :
  load h a = Some u -> set q w u = Some u' ->
  store (a.1, a.2 ++ q) w h = store a u' h.
Proof.
  unfold load, store. cbn. destruct (h !! a.1) as [v|]; [|done]. cbn.
  intros Hg Hs. by rewrite (set_app _ _ _ _ _ Hg), Hs.
Qed.

(** After a store to [out] and allocations, other variables are as before. *)
Lemma kept out w h h1 new l :
  store out w h = Some h1 -> (l < length h)%nat -> l <> out.1 ->
  (h1 ++ new) !! l = h !! l.
Proof.
  intros Hs Hl Hne. rewrite lookup_app_l by (by rewrite (store_length _ _ _ _ Hs)).
  by eapply store_lookup.
Qed.

(** ** Reading *)

Lemma ty_nested_ind (P : ty -> Prop) :
  (forall k, P (TBase k)) ->
  (forall fts, Forall (fun ft => P ft.2) fts -> P (TStruct fts)) ->
  (forall τ, P τ -> P (TPtr τ)) ->
  (forall τ, P τ -> P (TSlice τ)) ->
  P TMap ->
  forall τ, P τ.
Proof.
  intros Hb Hst Hp Hsl Hm.
  refine (fix go τ := match τ with
    | TBase k => Hb k
    | TStruct fts => Hst fts _
    | TPtr τ => Hp τ (go τ)
    | TSlice τ => Hsl τ (go τ)
    | TMap => Hm
    end).
  induction fts as [|[f τ'] fts IH]; constructor; [apply go | exact IH].
Qed.

Lemma read_struct_inv h fts v t ls :
  read h (TStruct fts) v = Some (t, ls) ->
  exists fvs ts, v = VStruct fvs /\ t = LStruct ts /\
    read_fields (read h) fts fvs = Some (ts, ls).
Proof.
  destruct v; try done. cbn. destruct (read_fields _ _ _) as [[ts l]|] eqn:E; [|done].
  cbn. intros [= <- <-]. eauto.
Qed.

Lemma read_ptr_inv h τ p t ls :
  read h (TPtr τ) (VPtr p) = Some (t, ls) ->
  (p = None /\ t = LNil /\ ls = []) \/
  exists a w t' ls', p = Some a /\ t = LPtr t' /\ ls = a.1 :: ls' /\
    load h a = Some w /\ read h τ w = Some (t', ls').
Proof.
  destruct p as [a|]; cbn; [|naive_solver].
  destruct (load h a) as [w|] eqn:El; [|done]. cbn.
  destruct (read h τ w) as [[t' ls']|] eqn:E; [|done]. cbn. intros [= <- <-].
  right. by exists a, w, t', ls'.
Qed.

Lemma read_slice_inv h τ s t ls :
  read h (TSlice τ) (VSlice s) = Some (t, ls) ->
  (s = None /\ t = LNil /\ ls = []) \/
  exists a off n vs ws ts ls', s = Some (a, off, n) /\ t = LSlice ts /\
    ls = a.1 :: ls' /\ load h a = Some (VArray vs) /\
    window off n vs = Some ws /\ read_elems (read h) τ ws = Some (ts, ls').
Proof.
  destruct s as [[[a off] n]|]; cbn; [|naive_solver].
  destruct (load h a) as [[]|] eqn:El; try done.
  destruct (window off n vs) as [ws|] eqn:Ew; [|done]. cbn.
  destruct (read_elems _ _ _) as [[ts ls']|] eqn:E; [|done]. cbn. intros [= <- <-].
  right. by exists a, off, n, vs, ws, ts, ls'.
Qed.

Lemma read_map_inv h m t ls :
  read h TMap (VMap m) = Some (t, ls) ->
  (m = None /\ t = LNil /\ ls = []) \/
  exists l d, m = Some l /\ t = LMap d /\ ls = [l] /\ h !! l = Some (VDict d).
Proof.
  destruct m as [l|]; cbn; [|naive_solver].
  destruct (h !! l) as [[]|] eqn:E; try done. intros [= <- <-]. right.
  by exists l, m.
Qed.

(** A value reads the same in two memories that agree where it reaches. *)
Definition same_on (h h' : heap) (ls : list loc) : Prop :=
  forall l, l ∈ ls -> h' !! l = h !! l.

Lemma same_on_app h h' ls ls' :
  same_on h h' (ls ++ ls') -> same_on h h' ls /\ same_on h h' ls'.
Proof. unfold same_on. set_solver. Qed.

Lemma same_on_cons h h' l ls :
  same_on h h' (l :: ls) -> h' !! l = h !! l /\ same_on h h' ls.
Proof. unfold same_on. set_solver. Qed.

Lemma read_elems_local h h' τ vs ts ls :
  (forall v t ls, read h τ v = Some (t, ls) -> same_on h h' ls ->
     read h' τ v = Some (t, ls)) ->
  read_elems (read h) τ vs = Some (ts, ls) -> same_on h h' ls ->
  read_elems (read h') τ vs = Some (ts, ls).
Proof.
  intros IH. revert ts ls. induction vs as [|v vs IHv]; intros ts ls; cbn; [done|].
  destruct (read h τ v) as [[t l1]|] eqn:Ev; [|done]. cbn.
  destruct (read_elems _ _ _) as [[ts2 l2]|] eqn:Es; [|done]. cbn.
  intros [= <- <-] [H1 H2]%same_on_app.
  by rewrite (IH _ _ _ Ev H1), (IHv _ _ eq_refl H2).
Qed.

Lemma read_fields_local h h' fts fvs ts ls :
  Forall (fun ft => forall v t ls, read h ft.2 v = Some (t, ls) ->
     same_on h h' ls -> read h' ft.2 v = Some (t, ls)) fts ->
  read_fields (read h) fts fvs = Some (ts, ls) -> same_on h h' ls ->
  read_fields (read h') fts fvs = Some (ts, ls).
Proof.
  intros IH. revert fvs ts ls.
  induction IH as [|[f τ] fts IHf _ IHfs]; intros [|[g v] fvs] ts ls; cbn; try done.
  simpl in IHf. destruct (String.eqb f g); [|done].
  destruct (read h τ v) as [[t l1]|] eqn:Ev; [|done]. cbn.
  destruct (read_fields _ _ _) as [[ts2 l2]|] eqn:Es; [|done]. cbn.
  intros [= <- <-] [H1 H2]%same_on_app.
  by rewrite (IHf _ _ _ Ev H1), (IHfs _ _ _ Es H2).
Qed.

Lemma read_local h h' τ v t ls :
  read h τ v = Some (t, ls) -> same_on h h' ls -> read h' τ v = Some (t, ls).
Proof.
  revert v t ls. induction τ as [k|fts IH|τ IH|τ IH|] using ty_nested_ind;
    intros v t ls H Hs.
  - by destruct v.
  - apply read_struct_inv in H as (fvs & ts & -> & -> & H). cbn.
    by rewrite (read_fields_local _ h' _ _ _ _ IH H Hs).
  - destruct v; try done.
    apply read_ptr_inv in H as [(-> & -> & ->)|(a & w & t' & ls' & -> & -> & -> & Hl & H)];
      [done|].
    apply same_on_cons in Hs as [Ha Hs].
    cbn. rewrite (load_lookup _ _ _ Ha), Hl. cbn. by rewrite (IH _ _ _ H Hs).
  - destruct v; try done.
    apply read_slice_inv in H
      as [(-> & -> & ->)|(a & off & n & vs & ws & ts & ls' & -> & -> & -> & Hl & Hw & H)];
      [done|].
    apply same_on_cons in Hs as [Ha Hs].
    cbn. rewrite (load_lookup _ _ _ Ha), Hl, Hw. cbn.
    by rewrite (read_elems_local _ h' _ _ _ _ IH H Hs).
  - destruct v; try done.
    apply read_map_inv in H as [(-> & -> & ->)|(l & d & -> & -> & -> & Hl)]; [done|].
    apply same_on_cons in Hs as [Ha _]. cbn. by rewrite Ha, Hl.
Qed.

Lemma read_elems_same h h' τ vs ts ls :
  read_elems (read h) τ vs = Some (ts, ls) -> same_on h h' ls ->
  read_elems (read h') τ vs = Some (ts, ls).
Proof. apply read_elems_local. intros ???. apply read_local. Qed.

Lemma read_fields_same h h' fts fvs ts ls :
  read_fields (read h) fts fvs = Some (ts, ls) -> same_on h h' ls ->
  read_fields (read h') fts fvs = Some (ts, ls).
Proof.
  apply read_fields_local, Forall_true. intros ft ???. apply read_local.
Qed.

(** Every variable reached exists. *)
Lemma read_elems_lt h τ vs ts ls :
  (forall v t ls, read h τ v = Some (t, ls) -> forall l, l ∈ ls -> (l < length h)%nat) ->
  read_elems (read h) τ vs = Some (ts, ls) -> forall l, l ∈ ls -> (l < length h)%nat.
Proof.
  intros IH. revert ts ls. induction vs as [|v vs IHv]; intros ts ls; cbn.
  { intros [= <- <-]. set_solver. }
  destruct (read h τ v) as [[t l1]|] eqn:Ev; [|done]. cbn.
  destruct (read_elems _ _ _) as [[ts2 l2]|] eqn:Es; [|done]. cbn.
  intros [= <- <-] l [Hl|Hl]%elem_of_app; [by eapply IH|by eapply IHv].
Qed.

Lemma read_lt h τ v t ls :
  read h τ v = Some (t, ls) -> forall l, l ∈ ls -> (l < length h)%nat.
Proof.
  revert v t ls. induction τ as [k|fts IH|τ IH|τ IH|] using ty_nested_ind;
    intros v t ls H l Hin.
  - destruct v; try done. cbn in H. case_decide; [|done].
    injection H as <- <-. set_solver.
  - apply read_struct_inv in H as (fvs & ts & -> & -> & H).
    revert fvs ts ls H Hin. induction IH as [|[f τ] fts IHf _ IHfs];
      intros [|[g v] fvs] ts ls; cbn; try done.
    { intros [= <- <-]. set_solver. }
    simpl in IHf. destruct (String.eqb f g); [|done].
    destruct (read h τ v) as [[t l1]|] eqn:Ev; [|done]. cbn.
    destruct (read_fields _ _ _) as [[ts2 l2]|] eqn:Es; [|done]. cbn.
    intros [= <- <-] [Hl|Hl]%elem_of_app; [by eapply IHf|by eapply IHfs].
  - destruct v; try done.
    apply read_ptr_inv in H as [(-> & -> & ->)|(a & w & t' & ls' & -> & -> & -> & Hl & H)].
    { set_solver. }
    apply elem_of_cons in Hin as [->|Hin]; [by eapply load_lt|by eapply IH].
  - destruct v; try done.
    apply read_slice_inv in H
      as [(-> & -> & ->)|(a & off & n & vs & ws & ts & ls' & -> & -> & -> & Hl & Hw & H)].
    { set_solver. }
    apply elem_of_cons in Hin as [->|Hin]; [by eapply load_lt|].
    by eapply (read_elems_lt h τ ws).
  - destruct v; try done.
    apply read_map_inv in H as [(-> & -> & ->)|(k & d & -> & -> & -> & Hl)].
    { set_solver. }
    apply list_elem_of_singleton in Hin as ->. by eapply lookup_lt_Some.
Qed.

Lemma read_app h new τ v t ls :
  read h τ v = Some (t, ls) -> read (h ++ new) τ v = Some (t, ls).
Proof.
  intros H. apply (read_local h); [done|]. intros l Hl. apply lookup_app_l.
  by eapply read_lt.
Qed.

(** A store elsewhere and allocations change nothing that [v] reaches. *)
Lemma read_kept out w h h1 new τ v t ls :
  store out w h = Some h1 -> out.1 ∉ ls ->
  read h τ v = Some (t, ls) -> read (h1 ++ new) τ v = Some (t, ls).
Proof.
  intros Hs Hne H. apply (read_local h); [done|]. intros l Hl.
  eapply kept; [done|by eapply read_lt|]. by intros ->.
Qed.

Lemma read_flat h τ v t ls : flat τ = true -> read h τ v = Some (t, ls) -> ls = [].
Proof.
  revert v t ls. induction τ as [k|fts IH|τ IH|τ IH|] using ty_nested_ind;
    intros v t ls Hf H; try done.
  - destruct v; try done. cbn in H. case_decide; [|done]. by injection H as <- <-.
  - apply read_struct_inv in H as (fvs & ts & -> & -> & H). cbn in Hf.
    revert fvs ts ls H Hf. induction IH as [|[f τ] fts IHf _ IHfs];
      intros [|[g v] fvs] ts ls; cbn; try done.
    { by intros [= <- <-]. }
    simpl in IHf. destruct (String.eqb f g); [|done].
    destruct (read h τ v) as [[t l1]|] eqn:Ev; [|done]. cbn.
    destruct (read_fields _ _ _) as [[ts2 l2]|] eqn:Es; [|done]. cbn.
    intros [= <- <-] [H1 H2]%andb_prop.
    by rewrite (IHf _ _ _ H1 Ev), (IHfs _ _ _ Es H2).
Qed.

(** ** Running statements *)

Lemma bind_run {A B} (m : mem A) (f : A -> mem B) h a h' :
  m h = Some (a, h') -> (m ≫= f) h = f a h'.
Proof. unfold mbind, mem_bind. by intros ->. Qed.

(** Perform the first statement, whose run is [E]. *)
Tactic Notation "run_step" uconstr(E) := rewrite (bind_run _ _ _ _ _ E); cbv beta.

Lemma alloc_run h v : alloc v h = Some (length h, h ++ [v]).
Proof. done. Qed.

Lemma loading_run h a v : load h a = Some v -> loading a h = Some (v, h).
Proof. unfold loading. by intros ->. Qed.

Lemma storing_run h h1 a v : store a v h = Some h1 -> storing a v h = Some (tt, h1).
Proof. unfold storing. by intros ->. Qed.

Lemma deref_run h a p : load h a = Some (VPtr (Some p)) -> deref a h = Some (p, h).
Proof. intros H. unfold deref. by run_step (loading_run _ _ _ H). Qed.

Lemma slice_at_run h a s : load h a = Some (VSlice (Some s)) -> slice_at a h = Some (s, h).
Proof. intros H. unfold slice_at. by run_step (loading_run _ _ _ H). Qed.

Lemma map_at_run h a l : load h a = Some (VMap (Some l)) -> map_at a h = Some (l, h).
Proof. intros H. unfold map_at. by run_step (loading_run _ _ _ H). Qed.

Lemma dict_at_run h l m : h !! l = Some (VDict m) -> dict_at l h = Some (m, h).
Proof.
  intros H. unfold dict_at.
  rewrite (bind_run _ _ _ (VDict m) h); [done|].
  apply loading_run. unfold load. cbn. by rewrite H.
Qed.

(** ** Contracts of the statements *)

Lemma set_same p u v : get p v = Some u -> set p u v = Some v.
Proof.
  revert v. induction p as [|[f|i] p IH]; intros v; cbn; [by intros [= ->]| |];
    destruct v; try done.
  - destruct (field f fs) as [v1|] eqn:Ef; [|done]. cbn. intros Hg.
    rewrite (IH _ Hg). cbn. clear Hg. revert v1 Ef.
    induction fs as [|[g u1] fs IHfs]; intros v1; cbn; [done|].
    destruct (String.eqb f g); [by intros [= ->]|]. intros Hf.
    specialize (IHfs _ Hf). destruct (set_field f v1 fs); [|done].
    cbn in *. by injection IHfs as ->.
  - destruct (vs !! i) as [v1|] eqn:Ei; [|done]. cbn. intros Hg.
    rewrite (IH _ Hg). cbn. unfold set_index.
    rewrite decide_True by (by eapply lookup_lt_Some).
    by rewrite list_insert_id.
Qed.

Lemma store_same h a v : load h a = Some v -> store a v h = Some h.
Proof.
  unfold load, store. destruct (h !! a.1) as [w|] eqn:E; [|done]. cbn.
  intros Hg. rewrite (set_same _ _ _ Hg). cbn. by rewrite list_insert_id.
Qed.

Lemma store_last h z w : store (length h, []) w (h ++ [z]) = Some (h ++ [w]).
Proof.
  unfold store. cbn. rewrite lookup_app_r, Nat.sub_diag by lia. cbn.
  f_equal. rewrite insert_app_r_alt, Nat.sub_diag by lia. done.
Qed.

Lemma load_last h w new q : load (h ++ w :: new) (length h, q) = get q w.
Proof.
  unfold load. cbn. rewrite lookup_app_r, Nat.sub_diag by lia. done.
Qed.

Lemma fresh_app τ h new new' t v :
  fresh τ h new t v -> fresh τ h (new ++ new') t v.
Proof.
  intros (ls & H & Hls). exists ls. split; [|done].
  rewrite app_assoc. by apply read_app.
Qed.

Lemma fresh_same_length τ h h' new t v :
  length h = length h' -> fresh τ h new t v -> fresh τ h' new t v.
Proof.
  intros Hlen (ls & H & Hls & Hnd). exists ls.
  split_and!; [|by rewrite <- Hlen|done].
  apply (read_local (h ++ new)); [done|]. intros l Hl. specialize (Hls l Hl).
  rewrite !lookup_app_r by lia. by rewrite Hlen.
Qed.

Lemma fresh_flat τ h new t v ls :
  flat τ = true -> read h τ v = Some (t, ls) -> fresh τ h new t v.
Proof.
  intros Hf H. exists []. rewrite <- (read_flat _ _ _ _ _ Hf H).
  split; [by apply read_app|]. rewrite (read_flat _ _ _ _ _ Hf H).
  split; [set_solver|constructor].
Qed.

Lemma deep_field τ s : deep_copier τ s -> field_copier τ s.
Proof. intros H h inp out v t ls Hi Ho Hr Hne. eapply H; eauto. Qed.

Lemma assign_deep τ : flat τ = true -> deep_copier τ assign.
Proof.
  intros Hf h inp out v t ls Hi Hr Hne Ho.
  destruct (store_some _ _ v Ho) as [h1 Hs].
  exists v, h1, []. split_and!; [|done|by eapply fresh_flat].
  unfold assign. run_step (loading_run _ _ _ Hi).
  rewrite (storing_run _ _ _ _ Hs). by rewrite app_nil_r.
Qed.

(** The contract of the body of [if in.F != nil { ... }]. *)
Definition set_copier (τ : ty) (s : copier) : Prop :=
  forall h inp out v t ls,
    load h inp = Some v -> is_nil v = false -> read h τ v = Some (t, ls) ->
    out.1 ∉ inp.1 :: ls -> is_Some (load h out) ->
    copied τ h out t (s inp out h).

Lemma if_set_field τ s : set_copier τ s -> field_copier τ (if_set s).
Proof.
  intros H h inp out v t ls Hi Ho Hr Hne.
  unfold if_set. run_step (loading_run _ _ _ Hi).
  destruct (is_nil v) eqn:En; [|by eapply H; eauto].
  exists v, h, []. rewrite app_nil_r. split_and!; [done|by apply store_same|].
  exists ls. split; [by apply read_app|].
  assert (ls = []) as ->.
  { destruct v as [| |p|s'|m| |]; try done; destruct τ; try done;
      [destruct p|destruct s'|destruct m]; try done; by injection Hr as <- <-. }
  split; [set_solver|constructor].
Qed.

(** A deep copier that writes into the variable just allocated. *)
Lemma copy_into_new τ s h z p w t ls :
  deep_copier τ s -> load h p = Some w -> read h τ w = Some (t, ls) ->
  exists w' new, s p (length h, []) (h ++ [z]) = Some (tt, h ++ w' :: new) /\
    fresh (TPtr τ) h (w' :: new) (LPtr t) (VPtr (Some (length h, []))).
Proof.
  intros Hd Hl Hr.
  destruct (Hd (h ++ [z]) p (length h, []) w t ls) as (w' & h1 & new & Hrun & Hs & Hf).
  - by apply load_app.
  - by apply read_app.
  - cbn. intros [He|Hin]%elem_of_cons.
    + apply load_lt in Hl. lia.
    + apply (read_lt _ _ _ _ _ Hr) in Hin. lia.
  - rewrite load_last. by eexists.
  - rewrite store_last in Hs. injection Hs as <-.
    exists w', new. split; [by rewrite Hrun, <- app_assoc|].
    destruct Hf as (ls' & Hr' & Hge & Hnd). exists (length h :: ls').
    split_and!.
    + cbn. rewrite load_last. cbn.
      rewrite (read_local ((h ++ [z]) ++ new) (h ++ w' :: new) τ w' t ls'); [done..|].
      intros l Hin%Hge. rewrite length_app in Hin. cbn in Hin.
      rewrite <- app_assoc, !lookup_app_r by lia. cbn.
      destruct (l - length h) eqn:E; [lia|done].
    + intros l [->|Hin%Hge]%elem_of_cons; [lia|].
      rewrite length_app in Hin. lia.
    + constructor; [|done]. intros Hin%Hge. rewrite length_app in Hin. cbn in Hin. lia.
Qed.

Lemma deep_copy_spec τ s : deep_copier τ s -> deep_copy_fn τ (deep_copy τ s).
Proof.
  intros Hd h p t ls Hr.
  apply read_ptr_inv in Hr as [(-> & -> & ->)|(a & w & t' & ls' & -> & -> & -> & Hl & Hr)].
  - exists None, []. cbn. rewrite app_nil_r. split; [done|]. exists [].
    split; [done|]. split; [set_solver|constructor].
  - destruct (copy_into_new _ _ h (zero τ) _ _ _ _ Hd Hl Hr) as (w' & new & Hrun & Hf).
    exists (Some (length h, [])), (w' :: new). split; [|done].
    unfold deep_copy. run_step (alloc_run h _).
    by run_step Hrun.
Qed.

(** What [*in] reaches is untouched by the store of a fresh pointer to [*out]. *)
Lemma pointee_kept h out v h1 new inp w :
  store out v h = Some h1 -> out.1 <> inp.1 -> load h inp = Some w ->
  load (h1 ++ new) inp = Some w.
Proof.
  intros Hs Hne Hl. rewrite <- Hl. apply load_lookup.
  eapply kept; [done|by eapply load_lt|congruence].
Qed.

Lemma set_ptr_inv h τ v t ls :
  read h (TPtr τ) v = Some (t, ls) -> is_nil v = false ->
  exists p w t' ls', v = VPtr (Some p) /\ t = LPtr t' /\ ls = p.1 :: ls' /\
    load h p = Some w /\ read h τ w = Some (t', ls').
Proof.
  intros H Hn. destruct v as [| |p| | | |]; try done.
  apply read_ptr_inv in H as [(-> & _ & _)|(a & w & t' & ls' & -> & -> & -> & Hl & H)];
    [done|eauto 10].
Qed.

Lemma copy_new_set τ s : deep_copier τ s -> set_copier (TPtr τ) (copy_new τ s).
Proof.
  intros Hd h inp out v t ls Hi Hn Hr Hne Ho.
  destruct (set_ptr_inv _ _ _ _ _ Hr Hn) as (p & w & t' & ls' & -> & -> & -> & Hp & Hw).
  apply not_elem_of_cons in Hne as [Hne1 [Hne2 Hne3]%not_elem_of_cons].
  set (q := VPtr (Some (length h, []))).
  destruct (store_some _ _ q Ho) as [h1 Hs].
  assert (Hlen : length h1 = length h) by by eapply store_length.
  assert (Hp1 : load h1 p = Some w).
  { rewrite <- Hp. apply load_lookup. by eapply store_lookup. }
  assert (Hw1 : read h1 τ w = Some (t', ls')).
  { rewrite <- (app_nil_r h1). by eapply read_kept. }
  destruct (copy_into_new _ _ h1 (zero τ) _ _ _ _ Hd Hp1 Hw1) as (w' & new & Hrun & Hf).
  rewrite Hlen in *.
  exists q, h1, (w' :: new). split_and!; [|done|by eapply fresh_same_length].
  unfold copy_new. run_step (alloc_run _ _).
  run_step (storing_run _ _ _ _ (store_app _ _ _ _ [zero τ] Hs)).
  run_step (deref_run _ _ _ (pointee_kept _ _ _ _ [zero τ] _ _ Hs Hne1 Hi)).
  run_step (deref_run _ _ _ (load_app _ [zero τ] _ _ (load_store_eq _ _ _ _ Hs))).
  done.
Qed.

Lemma copy_call_set τ f : deep_copy_fn τ f -> set_copier (TPtr τ) (copy_call f).
Proof.
  intros Hf h inp out v t ls Hi Hn Hr Hne Ho.
  destruct (set_ptr_inv _ _ _ _ _ Hr Hn) as (p & w & t' & ls' & -> & -> & -> & Hp & Hw).
  destruct (Hf _ _ _ _ Hr) as (q & new & Hrun & Hfr).
  destruct (store_some _ _ (VPtr q) Ho) as [h1 Hs].
  exists (VPtr q), h1, new. split_and!; [|done|done].
  unfold copy_call. run_step (deref_run _ _ _ Hi).
  run_step Hrun. apply storing_run. by apply store_app.
Qed.

(** ** Slices *)

Lemma at_index_load h a i vs v :
  load h a = Some (VArray vs) -> vs !! i = Some v -> load h (at_index a i) = Some v.
Proof.
  unfold load, at_index. cbn. destruct (h !! a.1) as [w|]; [|done]. cbn.
  intros Hg Hv. rewrite get_app, Hg. cbn. by rewrite Hv.
Qed.

Lemma at_index_store h a dn z zs w :
  load h a = Some (VArray (dn ++ z :: zs)) ->
  store (at_index a (length dn)) w h = store a (VArray ((dn ++ [w]) ++ zs)) h.
Proof.
  intros Hl. apply (store_sub a [SIndex (length dn)] w h _ _ Hl). cbn.
  rewrite lookup_app_r, Nat.sub_diag by lia. cbn. unfold set_index.
  rewrite decide_True by (rewrite length_app; cbn; lia). cbn.
  rewrite insert_app_r_alt, Nat.sub_diag by lia. cbn. by rewrite <- app_assoc.
Qed.

Lemma NoDup_apart (k : nat) (ls ls' : list loc) :
  NoDup ls -> NoDup ls' -> (forall l, l ∈ ls -> (l < k)%nat) ->
  (forall l, l ∈ ls' -> (k <= l)%nat) -> NoDup (ls ++ ls').
Proof.
  intros H1 H2 Hlt Hge. apply NoDup_app. split_and!; [done| |done].
  intros l Hl%Hlt Hl'%Hge. lia.
Qed.

(** Variables beyond [h] that were read in [(h1 ++ n1) ++ n2] are still there
    when the part below is [h]. *)
Lemma same_above (h h1 n1 n2 : heap) ls :
  length h1 = length h -> (forall l, l ∈ ls -> (length h <= l)%nat) ->
  same_on ((h1 ++ n1) ++ n2) (h ++ n1 ++ n2) ls.
Proof.
  intros Hlen Hge l Hl%Hge. rewrite <- app_assoc.
  rewrite (lookup_app_r h), (lookup_app_r h1) by lia. by rewrite Hlen.
Qed.

Lemma window_spec off n vs ws :
  window off n vs = Some ws ->
  length ws = n /\ (forall i v, ws !! i = Some v -> vs !! (off + i) = Some v).
Proof.
  unfold window. case_decide as Hl; [|done]. intros [= <-]. split; [done|].
  intros i v. rewrite lookup_take_Some, lookup_drop. by intros [? _].
Qed.

Lemma read_elems_lt' h τ vs ts ls :
  read_elems (read h) τ vs = Some (ts, ls) -> forall l, l ∈ ls -> (l < length h)%nat.
Proof. apply read_elems_lt. intros ???. apply read_lt. Qed.

Lemma elems_kept out w h h1 new τ vs ts ls :
  store out w h = Some h1 -> out.1 ∉ ls ->
  read_elems (read h) τ vs = Some (ts, ls) ->
  read_elems (read (h1 ++ new)) τ vs = Some (ts, ls).
Proof.
  intros Hs Hne H. eapply read_elems_same; [done|]. intros l Hl.
  eapply kept; [done|by eapply read_elems_lt'|]. by intros ->.
Qed.

Lemma window_all n ws : length ws = n -> window 0 n ws = Some ws.
Proof.
  intros H. unfold window. rewrite drop_0, firstn_all2 by lia.
  by rewrite decide_True.
Qed.

(** Contents read in two steps, the second above the first. *)
Definition fresh_elems (τ : ty) (h new : heap) (ts : list tree) (vs : list val) : Prop :=
  exists ls, read_elems (read (h ++ new)) τ vs = Some (ts, ls) /\
    (forall l, l ∈ ls -> (length h <= l)%nat) /\ NoDup ls.

Lemma fresh_elems_same_length τ h h' new ts vs :
  length h = length h' -> fresh_elems τ h new ts vs -> fresh_elems τ h' new ts vs.
Proof.
  intros Hlen (ls & H & Hls & Hnd). exists ls.
  split_and!; [|by rewrite <- Hlen|done].
  eapply read_elems_same; [done|]. intros l Hl%Hls.
  rewrite !lookup_app_r by lia. by rewrite Hlen.
Qed.

Lemma fresh_elems_cons τ h h1 n1 n2 t ts w ws :
  length h1 = length h ->
  fresh τ h n1 t w -> fresh_elems τ (h1 ++ n1) n2 ts ws ->
  fresh_elems τ h (n1 ++ n2) (t :: ts) (w :: ws).
Proof.
  intros Hlen (l1 & Hr1 & Hge1 & Hnd1) (l2 & Hr2 & Hge2 & Hnd2).
  rewrite length_app, Hlen in Hge2.
  exists (l1 ++ l2). split_and!.
  - cbn. rewrite app_assoc, (read_app _ n2 _ _ _ _ Hr1). cbn. rewrite <- app_assoc.
    erewrite read_elems_same; [done|exact Hr2|].
    apply same_above; [done|]. intros l Hl%Hge2. lia.
  - intros l [Hl|Hl]%elem_of_app; [by apply Hge1|]. apply Hge2 in Hl. lia.
  - eapply NoDup_apart; [done..| |exact Hge2].
    intros l Hl. rewrite <- length_app. by eapply read_lt.
Qed.

Lemma for_range_copies τ s inp off out vs :
  deep_copier τ s ->
  forall ws h dn zs ts ls,
  load h inp = Some (VArray vs) ->
  (forall i v, ws !! i = Some v -> vs !! (off + length dn + i) = Some v) ->
  load h out = Some (VArray (dn ++ zs)) -> length zs = length ws ->
  read_elems (read h) τ ws = Some (ts, ls) -> out.1 ∉ inp.1 :: ls ->
  exists ws' h1 new,
    for_range s inp off out (length dn) (length ws) h = Some (tt, h1 ++ new) /\
    store out (VArray (dn ++ ws')) h = Some h1 /\ length ws' = length ws /\
    fresh_elems τ h new ts ws'.
Proof.
  intros Hd. induction ws as [|w ws IH]; intros h dn zs ts ls Hi Hvs Ho Hz Hr Hne.
  { apply nil_length_inv in Hz as ->. cbn in Hr. injection Hr as <- <-.
    exists [], h, []. rewrite app_nil_r. split_and!; [done|by apply store_same|done|].
    exists []. split; [done|]. split; [set_solver|constructor]. }
  destruct zs as [|z zs]; [done|]. injection Hz as Hz. cbn in Hr.
  destruct (read h τ w) as [[t l1]|] eqn:Ew; [|done]. cbn in Hr.
  destruct (read_elems _ _ _) as [[ts2 l2]|] eqn:Es; [|done]. cbn in Hr.
  injection Hr as <- <-.
  apply not_elem_of_cons in Hne as [Hne1 [Hne2 Hne3]%not_elem_of_app].
  destruct (Hd h (at_index inp (off + length dn)) (at_index out (length dn)) w t l1)
    as (w' & h1 & n1 & Hrun & Hs & Hf); [| exact Ew | | |].
  { eapply at_index_load; [done|].
    specialize (Hvs 0 w). rewrite Nat.add_0_r in Hvs. by apply Hvs. }
  { cbn. by apply not_elem_of_cons. }
  { exists z. eapply at_index_load; [done|].
    by rewrite lookup_app_r, Nat.sub_diag by lia. }
  rewrite (at_index_store _ _ _ _ _ _ Ho) in Hs.
  destruct (IH (h1 ++ n1) (dn ++ [w']) zs ts2 l2)
    as (ws' & h2 & n2 & Hrun2 & Hs2 & Hlws & Hf2).
  { by eapply pointee_kept. }
  { intros i v Hv. rewrite length_app. cbn.
    replace (off + (length dn + 1) + i) with (off + length dn + S i) by lia. by apply Hvs. }
  { apply load_app. by eapply load_store_eq. }
  { done. }
  { by eapply elems_kept. }
  { by apply not_elem_of_cons. }
  destruct (store_some h1 out (VArray ((dn ++ [w']) ++ ws'))) as [h3 Hs3].
  { eexists. by eapply load_store_eq. }
  rewrite (store_app _ _ _ _ n1 Hs3) in Hs2. injection Hs2 as <-.
  rewrite length_app, Nat.add_1_r in Hrun2.
  exists (w' :: ws'), h3, (n1 ++ n2). split_and!.
  - cbn [for_range length]. run_step Hrun. rewrite Hrun2. by rewrite <- app_assoc.
  - rewrite (store_store _ _ _ _ _ Hs) in Hs3. by rewrite <- app_assoc in Hs3.
  - cbn. by rewrite Hlws.
  - eapply (fresh_elems_cons _ _ h1); [by eapply store_length|exact Hf|exact Hf2].
Qed.

(** A slice copied into an array just allocated. *)
Lemma make_slice_set τ s : deep_copier τ s -> set_copier (TSlice τ) (make_slice τ s).
Proof.
  intros Hd h inp out v t ls Hi Hn Hr Hne Ho.
  destruct v as [| | |sl| | |]; try done.
  apply read_slice_inv in Hr
    as [(-> & _ & _)|(a & off & n & vs & ws & ts & ls' & -> & -> & -> & Ha & Hw & Hr)];
    [done|].
  apply not_elem_of_cons in Hne as [Hne1 [Hne2 Hne3]%not_elem_of_cons].
  destruct (window_spec _ _ _ _ Hw) as [Hlw Hws].
  set (q := VSlice (Some ((length h, []), 0, n))).
  destruct (store_some _ _ q Ho) as [h1 Hs].
  pose proof (store_length _ _ _ _ Hs) as Hlen.
  destruct (for_range_copies τ s a off (length h, []) vs Hd ws
      (h1 ++ [VArray (replicate n (zero τ))]) [] (replicate n (zero τ)) ts ls')
    as (ws' & h2 & new & Hrun & Hs2 & Hl' & Hf).
  { by eapply pointee_kept. }
  { intros i w. cbn. rewrite Nat.add_0_r. apply Hws. }
  { by rewrite <- Hlen, load_last. }
  { by rewrite length_replicate. }
  { by eapply elems_kept. }
  { cbn. apply load_lt in Ha. intros [He|Hin]%elem_of_cons; [lia|].
    apply (read_elems_lt' _ _ _ _ _ Hr) in Hin. lia. }
  rewrite <- Hlen, store_last in Hs2. injection Hs2 as <-.
  exists q, h1, (VArray ws' :: new). split_and!; [|done|].
  - unfold make_slice. run_step (slice_at_run _ _ _ Hi). cbn beta iota.
    run_step (alloc_run _ _).
    run_step (storing_run _ _ _ _ (store_app _ _ _ _ _ Hs)).
    cbn [length] in Hrun. rewrite Hlw in Hrun. rewrite Hrun. by rewrite <- app_assoc.
  - apply (fresh_same_length _ h1); [done|].
    apply (fresh_elems_same_length _ _ (h1 ++ [VArray ws'])) in Hf;
      [|by rewrite !length_app].
    destruct Hf as (l2 & Hr2 & Hge & Hnd). rewrite <- app_assoc in Hr2.
    rewrite length_app in Hge. cbn in Hge, Hr2. subst q. rewrite <- Hlen.
    exists (length h1 :: l2). split_and!.
    + cbn. rewrite load_last. cbn. rewrite window_all by lia. cbn. by rewrite Hr2.
    + intros l [->|Hl%Hge]%elem_of_cons; lia.
    + constructor; [|done]. intros Hl%Hge. lia.
Qed.

(** ** Maps *)

Definition insert_kvs (m : gmap string basic) (kvs : list (string * basic)) :=
  foldl (fun m kv => <[kv.1 := kv.2]> m) m kvs.

Lemma insert_kvs_union m kvs :
  NoDup kvs.*1 -> insert_kvs m kvs = list_to_map kvs ∪ m.
Proof.
  revert m. induction kvs as [|[k b] kvs IH]; intros m; cbn.
  { intros _. by rewrite (left_id_L ∅ (∪)). }
  intros [Hk Hnd]%NoDup_cons. unfold insert_kvs in *. cbn. rewrite IH by done.
  rewrite <- insert_union_l, insert_union_r; [done|].
  by apply not_elem_of_list_to_map.
Qed.

Lemma insert_all_run l kvs h m :
  h !! l = Some (VDict m) ->
  insert_all l kvs h = Some (tt, <[l := VDict (insert_kvs m kvs)]> h).
Proof.
  revert h m. induction kvs as [|[k b] kvs IH]; intros h m Hl; cbn [insert_all].
  { by rewrite list_insert_id. }
  pose proof (lookup_lt_Some _ _ _ Hl) as Hlt.
  run_step (dict_at_run _ _ _ Hl).
  set (w := VDict (<[k := b]> m)).
  assert (Hs : store (l, []) w h = Some (<[l := w]> h)).
  { unfold store. cbn. by rewrite Hl. }
  run_step (storing_run _ _ _ _ Hs).
  rewrite (IH _ (<[k := b]> m)) by by apply list_lookup_insert_eq.
  by rewrite list_insert_insert_eq.
Qed.

Lemma make_map_set : set_copier TMap make_map.
Proof.
  intros h inp out v t ls Hi Hn Hr Hne Ho.
  destruct v as [| | | |m| |]; try done.
  apply read_map_inv in Hr as [(-> & _ & _)|(l & d & -> & -> & -> & Hl)]; [done|].
  apply not_elem_of_cons in Hne as [Hne1 [Hne2 _]%not_elem_of_cons].
  set (q := VMap (Some (length h))).
  destruct (store_some _ _ q Ho) as [h1 Hs].
  pose proof (store_length _ _ _ _ Hs) as Hlen.
  exists q, h1, [VDict d]. split_and!; [|done|].
  - unfold make_map. run_step (map_at_run _ _ _ Hi). run_step (alloc_run _ _).
    run_step (storing_run _ _ _ _ (store_app _ _ _ _ _ Hs)).
    assert (Hl1 : (h1 ++ [VDict ∅]) !! l = Some (VDict d)).
    { rewrite <- Hl. eapply kept; [done|by eapply lookup_lt_Some|congruence]. }
    run_step (dict_at_run _ _ _ Hl1).
    rewrite (insert_all_run _ _ _ ∅); last first.
    { by rewrite lookup_app_r, <- Hlen, Nat.sub_diag by lia. }
    rewrite insert_kvs_union by apply NoDup_fst_map_to_list.
    rewrite (right_id_L ∅ (∪)), list_to_map_to_list.
    by rewrite insert_app_r_alt, <- Hlen, Nat.sub_diag by lia.
  - exists [length h]. split_and!.
    + cbn. by rewrite lookup_app_r, Nat.sub_diag by lia.
    + intros k ->%list_elem_of_singleton. lia.
    + apply NoDup_singleton.
Qed.

(** ** Structs *)

(** [cs] are the statements for some fields of [fts], in the order of the struct;
    the fields they leave to [*out = *in] are flat. *)
Inductive copies : list (string * ty) -> list (string * copier) -> Prop :=
| copies_nil : copies [] []
| copies_field f τ s fts cs :
    field_copier τ s -> copies fts cs -> copies ((f, τ) :: fts) ((f, s) :: cs)
| copies_skip f τ fts cs :
    flat τ = true -> copies fts cs -> copies ((f, τ) :: fts) cs.

Definition fresh_fields (fts : list (string * ty)) (h new : heap)
    (ts : list (string * tree)) (fvs : list (string * val)) : Prop :=
  exists ls, read_fields (read (h ++ new)) fts fvs = Some (ts, ls) /\
    (forall l, l ∈ ls -> (length h <= l)%nat) /\ NoDup ls.

Lemma fresh_fields_cons f τ fts h h1 n1 n2 t ts v fvs :
  length h1 = length h ->
  fresh τ h n1 t v -> fresh_fields fts (h1 ++ n1) n2 ts fvs ->
  fresh_fields ((f, τ) :: fts) h (n1 ++ n2) ((f, t) :: ts) ((f, v) :: fvs).
Proof.
  intros Hlen (l1 & Hr1 & Hge1 & Hnd1) (l2 & Hr2 & Hge2 & Hnd2).
  rewrite length_app, Hlen in Hge2.
  exists (l1 ++ l2). split_and!.
  - cbn. rewrite String.eqb_refl.
    rewrite app_assoc, (read_app _ n2 _ _ _ _ Hr1). cbn. rewrite <- app_assoc.
    erewrite read_fields_same; [done|exact Hr2|].
    apply same_above; [done|]. intros l Hl%Hge2. lia.
  - intros l [Hl|Hl]%elem_of_app; [by apply Hge1|]. apply Hge2 in Hl. lia.
  - eapply NoDup_apart; [done..| |exact Hge2].
    intros l Hl. rewrite <- length_app. by eapply read_lt.
Qed.

Lemma fields_kept out w h h1 new fts vs ts ls :
  store out w h = Some h1 -> out.1 ∉ ls ->
  read_fields (read h) fts vs = Some (ts, ls) ->
  read_fields (read (h1 ++ new)) fts vs = Some (ts, ls).
Proof.
  intros Hs Hne H. eapply read_fields_same; [done|]. intros l Hl.
  eapply kept; [done| |by intros ->].
  apply (read_lt h (TStruct fts) (VStruct vs) (LStruct ts) ls); [|done].
  cbn. by rewrite H.
Qed.

Lemma field_app f dn v fvs :
  f ∉ dn.*1 -> field f (dn ++ (f, v) :: fvs) = Some v.
Proof.
  induction dn as [|[g u] dn IH]; cbn; [by rewrite String.eqb_refl|].
  intros [Hne Hf]%not_elem_of_cons. apply String.eqb_neq in Hne as ->. auto.
Qed.

Lemma set_field_app f dn v w fvs :
  f ∉ dn.*1 -> set_field f w (dn ++ (f, v) :: fvs) = Some ((dn ++ [(f, w)]) ++ fvs).
Proof.
  induction dn as [|[g u] dn IH]; cbn; [by rewrite String.eqb_refl|].
  intros [Hne Hf]%not_elem_of_cons. apply String.eqb_neq in Hne as ->.
  by rewrite (IH Hf).
Qed.

Lemma at_field_load h a f dn v fvs :
  load h a = Some (VStruct (dn ++ (f, v) :: fvs)) -> f ∉ dn.*1 ->
  load h (at_field a f) = Some v.
Proof.
  unfold load, at_field. cbn. destruct (h !! a.1) as [w|]; [|done]. cbn.
  intros Hg Hf. rewrite get_app, Hg. cbn. by rewrite field_app.
Qed.

Lemma at_field_store h a f dn v fvs w :
  load h a = Some (VStruct (dn ++ (f, v) :: fvs)) -> f ∉ dn.*1 ->
  store (at_field a f) w h = store a (VStruct ((dn ++ [(f, w)]) ++ fvs)) h.
Proof.
  intros Hl Hf. apply (store_sub a [SField f] w h _ _ Hl). cbn.
  rewrite field_app by done. cbn. by rewrite set_field_app.
Qed.

(** No field of [fts] is among those already done. *)
Definition apart (fts : list (string * ty)) (dn : list (string * val)) : Prop :=
  forall f, f ∈ fts.*1 -> f ∉ dn.*1.

Lemma apart_cons f τ fts dn v :
  apart ((f, τ) :: fts) dn -> f ∉ fts.*1 -> f ∉ dn.*1 /\ apart fts (dn ++ [(f, v)]).
Proof.
  unfold apart. cbn. intros H Hf. split; [set_solver|].
  intros g Hg. rewrite fmap_app. cbn. set_solver.
Qed.

Lemma read_fields_cons_inv h f τ fts fvs ts ls :
  read_fields (read h) ((f, τ) :: fts) fvs = Some (ts, ls) ->
  exists v fvs' t ts' l1 l2, fvs = (f, v) :: fvs' /\ ts = (f, t) :: ts' /\
    ls = l1 ++ l2 /\ read h τ v = Some (t, l1) /\
    read_fields (read h) fts fvs' = Some (ts', l2).
Proof.
  destruct fvs as [|[g v] fvs]; [done|]. cbn.
  destruct (String.eqb f g) eqn:Ef; [|done]. apply String.eqb_eq in Ef as <-.
  destruct (read h τ v) as [[t l1]|] eqn:Ev; [|done]. cbn.
  destruct (read_fields _ _ _) as [[ts' l2]|] eqn:Es; [|done]. cbn.
  intros [= <- <-]. by exists v, fvs, t, ts', l1, l2.
Qed.

Lemma fields_copies fts cs : copies fts cs ->
  forall h inp out dni dn fvs ts ls,
  NoDup fts.*1 -> apart fts dni -> apart fts dn ->
  load h inp = Some (VStruct (dni ++ fvs)) ->
  load h out = Some (VStruct (dn ++ fvs)) ->
  read_fields (read h) fts fvs = Some (ts, ls) -> out.1 ∉ inp.1 :: ls ->
  exists fvs' h1 new,
    fields inp out cs h = Some (tt, h1 ++ new) /\
    store out (VStruct (dn ++ fvs')) h = Some h1 /\ fresh_fields fts h new ts fvs'.
Proof.
  induction 1 as [|f τ s fts cs Hs _ IH|f τ fts cs Hf _ IH];
    intros h inp out dni dn fvs ts ls Hnd Hai Ha Hi Ho Hr Hne.
  - destruct fvs; [|done]. cbn in Hr. injection Hr as <- <-.
    exists [], h, []. rewrite app_nil_r. split_and!; [done|by apply store_same|].
    exists []. split; [done|]. split; [set_solver|constructor].
  - apply read_fields_cons_inv in Hr as (v & fvs' & t & ts' & l1 & l2 & -> & -> & -> & Hv & Hr).
    cbn in Hnd. apply NoDup_cons in Hnd as [Hfn Hnd].
    destruct (apart_cons _ _ _ _ v Hai Hfn) as [Hfi Hai'].
    apply not_elem_of_cons in Hne as [Hne1 [Hne2 Hne3]%not_elem_of_app].
    destruct (Hs h (at_field inp f) (at_field out f) v t l1) as (w & h1 & n1 & Hrun & Hst & Hfr);
      [by eapply at_field_load|eapply at_field_load; [done|]|done|by apply not_elem_of_cons|].
    { by eapply apart_cons. }
    destruct (apart_cons _ _ _ _ w Ha Hfn) as [Hfo Ha'].
    rewrite (at_field_store _ _ _ _ _ _ _ Ho Hfo) in Hst.
    destruct (IH (h1 ++ n1) inp out (dni ++ [(f, v)]) (dn ++ [(f, w)]) fvs' ts' l2)
      as (gvs & h2 & n2 & Hrun2 & Hst2 & Hfr2); [done..| | | | |].
    { rewrite <- app_assoc. by eapply pointee_kept. }
    { apply load_app. by eapply load_store_eq. }
    { by eapply fields_kept. }
    { by apply not_elem_of_cons. }
    destruct (store_some h1 out (VStruct ((dn ++ [(f, w)]) ++ gvs))) as [h3 Hst3].
    { eexists. by eapply load_store_eq. }
    rewrite (store_app _ _ _ _ n1 Hst3) in Hst2. injection Hst2 as <-.
    exists ((f, w) :: gvs), h3, (n1 ++ n2). split_and!.
    + cbn [fields]. run_step Hrun. rewrite Hrun2. by rewrite <- app_assoc.
    + rewrite (store_store _ _ _ _ _ Hst) in Hst3. by rewrite <- app_assoc in Hst3.
    + eapply (fresh_fields_cons _ _ _ _ h1); [by eapply store_length|exact Hfr|exact Hfr2].
  - apply read_fields_cons_inv in Hr as (v & fvs' & t & ts' & l1 & l2 & -> & -> & -> & Hv & Hr).
    cbn in Hnd. apply NoDup_cons in Hnd as [Hfn Hnd].
    destruct (apart_cons _ _ _ _ v Hai Hfn) as [_ Hai'].
    destruct (apart_cons _ _ _ _ v Ha Hfn) as [_ Ha'].
    apply not_elem_of_cons in Hne as [Hne1 [Hne2 Hne3]%not_elem_of_app].
    destruct (IH h inp out (dni ++ [(f, v)]) (dn ++ [(f, v)]) fvs' ts' l2)
      as (gvs & h2 & n2 & Hrun2 & Hst2 & Hfr2); [done..| | |done| |].
    { by rewrite <- app_assoc. }
    { by rewrite <- app_assoc. }
    { by apply not_elem_of_cons. }
    exists ((f, v) :: gvs), h2, n2. split_and!; [done|by rewrite <- app_assoc in Hst2|].
    apply (fresh_fields_cons _ _ _ h h [] n2); [done| |by rewrite app_nil_r].
    by eapply fresh_flat.
Qed.

(** [*out = *in] and the statements of the fields make a deep copy. *)
Lemma copy_struct_deep fts cs :
  NoDup fts.*1 -> copies fts cs -> deep_copier (TStruct fts) (copy_struct cs).
Proof.
  intros Hnd Hc h inp out v t ls Hi Hr Hne Ho.
  apply read_struct_inv in Hr as (fvs & ts & -> & -> & Hr).
  destruct (store_some _ _ (VStruct fvs) Ho) as [h0 Hs].
  apply not_elem_of_cons in Hne as [Hne1 Hne2].
  destruct (fields_copies _ _ Hc h0 inp out [] [] fvs ts ls)
    as (gvs & h1 & new & Hrun & Hs1 & Hf); [done| | | | | | |].
  { unfold apart. set_solver. }
  { unfold apart. set_solver. }
  { rewrite <- (app_nil_r h0). by eapply pointee_kept. }
  { by eapply load_store_eq. }
  { rewrite <- (app_nil_r h0). by eapply fields_kept. }
  { by apply not_elem_of_cons. }
  rewrite (store_store _ _ _ _ _ Hs) in Hs1.
  exists (VStruct gvs), h1, new. split_and!; [|done|].
  - unfold copy_struct.
    assert (Hrun0 : assign inp out h = Some (tt, h0)).
    { unfold assign. run_step (loading_run _ _ _ Hi). by apply storing_run. }
    run_step Hrun0. exact Hrun.
  - apply (fresh_same_length _ h0); [by eapply store_length|].
    destruct Hf as (ls' & Hr' & Hls'). exists ls'. split; [|done].
    cbn. by rewrite Hr'.
Qed.

(** ** Isolation *)

Lemma stores_outside ws h h' τ v t ls :
  stores ws h = Some h' -> Forall (fun w => w.1.1 ∉ ls) ws ->
  read h τ v = Some (t, ls) -> read h' τ v = Some (t, ls).
Proof.
  intros Hs Hf. revert h Hs. induction Hf as [|[a w] ws Ha _ IH]; intros h; cbn.
  { by intros [= ->]. }
  destruct (store a w h) as [h1|] eqn:E; [|done]. cbn. intros Hs Hr.
  apply (IH h1 Hs). rewrite <- (app_nil_r h1). by eapply read_kept.
Qed.

(** Original and copy do not see what is assigned to the other. *)
Lemma deep_copy_fn_isolated τ f h p t ls :
  deep_copy_fn τ f -> read h (TPtr τ) (VPtr p) = Some (t, ls) ->
  exists q h' ls', f p h = Some (q, h') /\
    read h' (TPtr τ) (VPtr q) = Some (t, ls') /\
    (forall ws h2, Forall (fun w => w.1.1 ∈ ls') ws -> stores ws h' = Some h2 ->
       read h2 (TPtr τ) (VPtr p) = Some (t, ls)) /\
    (forall ws h2, Forall (fun w => w.1.1 ∈ ls) ws -> stores ws h' = Some h2 ->
       read h2 (TPtr τ) (VPtr q) = Some (t, ls')).
Proof.
  intros Hf Hr. destruct (Hf _ _ _ _ Hr) as (q & new & Hrun & ls' & Hq & Hge & _).
  pose proof (read_lt _ _ _ _ _ Hr) as Hlt.
  exists q, (h ++ new), ls'. split_and!; [done|done| |].
  - intros ws h2 Hws Hs. eapply stores_outside; [done| |by apply read_app].
    eapply Forall_impl; [exact Hws|]. intros w Hw%Hge Hin%Hlt. lia.
  - intros ws h2 Hws Hs. eapply stores_outside; [done| |done].
    eapply Forall_impl; [exact Hws|]. intros w Hw%Hlt Hin%Hge. lia.
Qed.

(** ** Automation *)

Lemma set_assign τ : flat τ = true -> set_copier (TPtr τ) (copy_new τ assign).
Proof. intros H. by apply copy_new_set, assign_deep. Qed.

Lemma slice_assign τ : flat τ = true -> set_copier (TSlice τ) (make_slice τ assign).
Proof. intros H. by apply make_slice_set, assign_deep. Qed.

Lemma assign_field τ : flat τ = true -> field_copier τ assign.
Proof. intros H. by apply deep_field, assign_deep. Qed.

Lemma flat_deep fts : flat (TStruct fts) = true -> deep_copier (TStruct fts) assign.
Proof. apply assign_deep. Qed.

Create HintDb deepcopy.
#[export] Hint Resolve if_set_field set_assign slice_assign make_map_set
  copy_new_set copy_call_set make_slice_set deep_field assign_field : deepcopy.
#[export] Hint Constructors copies : deepcopy.

(** The copier of a struct: its field names are distinct, and each statement has
    the contract of its field. *)
Ltac deep_copier_struct :=
  apply copy_struct_deep;
  [ by apply (bool_decide_unpack _); vm_compute
  | repeat first
      [ apply copies_nil
      | apply copies_field; [solve [eauto with deepcopy]|]
      | apply copies_skip; [first [reflexivity | solve [eauto with deepcopy]]|] ] ].
