(* ===== verification/DeepCopies.v ===== *)
(** The generated deep copies of the API types, [api/v1alpha1] and
    [api/velero/v1], over the memory of [GoHeap]: the struct of every type as a
    descriptor, its [DeepCopyInto], [DeepCopy] and, for the types that are
    [runtime.Object]s, [DeepCopyObject].  The copies of the library's own types
    are an interface, [LibraryCopies], with its laws in [LibraryCopiesSpec]. *)
From stdpp Require Import base list strings gmap.
From S2P Require Import Prelude GoHeap GoHeapFacts.

(** ** The copies of apimachinery's and core's types *)

Class LibraryCopies := {
  TypeMeta_ty : ty;
  Duration_ty : ty;
  Time_ty : ty;
  Time_DeepCopy : option addr -> mem (option addr);
  ObjectMeta_ty : ty;
  ObjectMeta_DeepCopyInto : copier;
  ListMeta_ty : ty;
  ListMeta_DeepCopyInto : copier;
  Condition_ty : ty;
  Condition_DeepCopyInto : copier;
  LabelSelector_ty : ty;
  LabelSelector_DeepCopyInto : copier;
  SecretKeySelector_ty : ty;
  SecretKeySelector_DeepCopyInto : copier
}.

(** [TypeMeta] and [Duration] hold no pointers; the others' methods are deep
    copies, as their documentation says. *)
Class LibraryCopiesSpec (L : LibraryCopies) : Prop := {
  TypeMeta_flat : flat TypeMeta_ty = true;
  Duration_flat : flat Duration_ty = true;
  Time_deep : deep_copy_fn Time_ty Time_DeepCopy;
  ObjectMeta_deep : deep_copier ObjectMeta_ty ObjectMeta_DeepCopyInto;
  ListMeta_deep : deep_copier ListMeta_ty ListMeta_DeepCopyInto;
  Condition_deep : deep_copier Condition_ty Condition_DeepCopyInto;
  LabelSelector_deep : deep_copier LabelSelector_ty LabelSelector_DeepCopyInto;
  SecretKeySelector_deep :
    deep_copier SecretKeySelector_ty SecretKeySelector_DeepCopyInto
}.

#[export] Hint Resolve TypeMeta_flat Duration_flat Time_deep ObjectMeta_deep
  ListMeta_deep Condition_deep LabelSelector_deep SecretKeySelector_deep : deepcopy.

(** What the program relies on of one type. *)
Record api_type := ApiType {
  type_name : string;
  type_ty : ty;
  type_DeepCopyInto : copier;
  type_DeepCopy : option addr -> mem (option addr)
}.

(** One of the types that implement [runtime.Object]. *)
Record api_object := ApiObject {
  object_type : api_type;
  object_DeepCopyObject : option addr -> mem iface
}.

Section api.
Context {L : LibraryCopies}.

(** ** api/v1alpha1 *)

(** *** BackupImportSpec *)

Definition BackupImportSpec_ty : ty := TStruct
  [("BackupName", TBase KString);
   ("StorageLocation", TBase KString);
   ("ManifestDocID", TBase KString)].

Definition BackupImportSpec_DeepCopyInto : copier := assign.

Definition BackupImportSpec_DeepCopy : option addr -> mem (option addr) :=
  deep_copy BackupImportSpec_ty BackupImportSpec_DeepCopyInto.

(** *** BackupImportStatus *)

Definition BackupImportStatus_ty : ty := TStruct
  [("Phase", TBase KString);
   ("Conditions", TSlice Condition_ty);
   ("FilesTotal", TBase KInt);
   ("FilesImported", TBase KInt);
   ("BytesImported", TBase KInt);
   ("Committed", TBase KBool);
   ("StartedAt", TPtr Time_ty);
   ("CompletedAt", TPtr Time_ty);
   ("RetryCount", TBase KInt);
   ("ObservedGeneration", TBase KInt);
   ("LastError", TBase KString)].

Definition BackupImportStatus_DeepCopyInto : copier := copy_struct
  [("Conditions", if_set (make_slice Condition_ty Condition_DeepCopyInto));
   ("StartedAt", if_set (copy_call Time_DeepCopy));
   ("CompletedAt", if_set (copy_call Time_DeepCopy))].

Definition BackupImportStatus_DeepCopy : option addr -> mem (option addr) :=
  deep_copy BackupImportStatus_ty BackupImportStatus_DeepCopyInto.

(** *** BackupImport *)

Definition BackupImport_ty : ty := TStruct
  [("TypeMeta", TypeMeta_ty);
   ("ObjectMeta", ObjectMeta_ty);
   ("Spec", BackupImportSpec_ty);
   ("Status", BackupImportStatus_ty)].

Definition BackupImport_DeepCopyInto : copier := copy_struct
  [("TypeMeta", assign);
   ("ObjectMeta", ObjectMeta_DeepCopyInto);
   ("Spec", assign);
   ("Status", BackupImportStatus_DeepCopyInto)].

Definition BackupImport_DeepCopy : option addr -> mem (option addr) :=
  deep_copy BackupImport_ty BackupImport_DeepCopyInto.

Definition BackupImport_DeepCopyObject : option addr -> mem iface :=
  deep_copy_object "BackupImport" BackupImport_DeepCopy.

(** *** BackupImportList *)

Definition BackupImportList_ty : ty := TStruct
  [("TypeMeta", TypeMeta_ty);
   ("ListMeta", ListMeta_ty);
   ("Items", TSlice BackupImport_ty)].

Definition BackupImportList_DeepCopyInto : copier := copy_struct
  [("TypeMeta", assign);
   ("ListMeta", ListMeta_DeepCopyInto);
   ("Items", if_set (make_slice BackupImport_ty BackupImport_DeepCopyInto))].

Definition BackupImportList_DeepCopy : option addr -> mem (option addr) :=
  deep_copy BackupImportList_ty BackupImportList_DeepCopyInto.

Definition BackupImportList_DeepCopyObject : option addr -> mem iface :=
  deep_copy_object "BackupImportList" BackupImportList_DeepCopy.

(** *** BackupReplicationSpec *)

Definition BackupReplicationSpec_ty : ty := TStruct
  [("BackupName", TBase KString);
   ("PolicyName", TBase KString);
   ("StorageLocation", TBase KString)].

Definition BackupReplicationSpec_DeepCopyInto : copier := assign.

Definition BackupReplicationSpec_DeepCopy : option addr -> mem (option addr) :=
  deep_copy BackupReplicationSpec_ty BackupReplicationSpec_DeepCopyInto.

(** *** BundleStatus *)

Definition BundleStatus_ty : ty := TStruct
  [("BundleID", TBase KString);
   ("FileCount", TBase KInt);
   ("Bytes", TBase KInt);
   ("Phase", TBase KString);
   ("DistributionIDs", TSlice (TBase KString));
   ("BytesTransferred", TBase KInt)].

Definition BundleStatus_DeepCopyInto : copier := copy_struct
  [("DistributionIDs", if_set (make_slice (TBase KString) assign))].

Definition BundleStatus_DeepCopy : option addr -> mem (option addr) :=
  deep_copy BundleStatus_ty BundleStatus_DeepCopyInto.

(** *** BackupReplicationStatus *)

Definition BackupReplicationStatus_ty : ty := TStruct
  [("Phase", TBase KString);
   ("Conditions", TSlice Condition_ty);
   ("ObjectCount", TBase KInt);
   ("TotalBytes", TBase KInt);
   ("BytesTransferred", TBase KInt);
   ("Bundles", TSlice BundleStatus_ty);
   ("StartedAt", TPtr Time_ty);
   ("CompletedAt", TPtr Time_ty);
   ("RetryCount", TBase KInt);
   ("ObservedGeneration", TBase KInt);
   ("LastError", TBase KString)].

Definition BackupReplicationStatus_DeepCopyInto : copier := copy_struct
  [("Conditions", if_set (make_slice Condition_ty Condition_DeepCopyInto));
   ("Bundles", if_set (make_slice BundleStatus_ty BundleStatus_DeepCopyInto));
   ("StartedAt", if_set (copy_call Time_DeepCopy));
   ("CompletedAt", if_set (copy_call Time_DeepCopy))].

Definition BackupReplicationStatus_DeepCopy : option addr -> mem (option addr) :=
  deep_copy BackupReplicationStatus_ty BackupReplicationStatus_DeepCopyInto.

(** *** BackupReplication *)

Definition BackupReplication_ty : ty := TStruct
  [("TypeMeta", TypeMeta_ty);
   ("ObjectMeta", ObjectMeta_ty);
   ("Spec", BackupReplicationSpec_ty);
   ("Status", BackupReplicationStatus_ty)].

Definition BackupReplication_DeepCopyInto : copier := copy_struct
  [("TypeMeta", assign);
   ("ObjectMeta", ObjectMeta_DeepCopyInto);
   ("Spec", assign);
   ("Status", BackupReplicationStatus_DeepCopyInto)].

Definition BackupReplication_DeepCopy : option addr -> mem (option addr) :=
  deep_copy BackupReplication_ty BackupReplication_DeepCopyInto.

Definition BackupReplication_DeepCopyObject : option addr -> mem iface :=
  deep_copy_object "BackupReplication" BackupReplication_DeepCopy.

(** *** BackupReplicationList *)

Definition BackupReplicationList_ty : ty := TStruct
  [("TypeMeta", TypeMeta_ty);
   ("ListMeta", ListMeta_ty);
   ("Items", TSlice BackupReplication_ty)].

Definition BackupReplicationList_DeepCopyInto : copier := copy_struct
  [("TypeMeta", assign);
   ("ListMeta", ListMeta_DeepCopyInto);
   ("Items", if_set (make_slice BackupReplication_ty BackupReplication_DeepCopyInto))].

Definition BackupReplicationList_DeepCopy : option addr -> mem (option addr) :=
  deep_copy BackupReplicationList_ty BackupReplicationList_DeepCopyInto.

Definition BackupReplicationList_DeepCopyObject : option addr -> mem iface :=
  deep_copy_object "BackupReplicationList" BackupReplicationList_DeepCopy.

(** *** SecretKeyRef *)

Definition SecretKeyRef_ty : ty := TStruct
  [("Name", TBase KString);
   ("Key", TBase KString);
   ("Namespace", TBase KString)].

Definition SecretKeyRef_DeepCopyInto : copier := assign.

Definition SecretKeyRef_DeepCopy : option addr -> mem (option addr) :=
  deep_copy SecretKeyRef_ty SecretKeyRef_DeepCopyInto.

(** *** TargetSpec *)

Definition TargetSpec_ty : ty := TStruct
  [("EndpointID", TBase KString);
   ("NodeID", TBase KString);
   ("Addresses", TSlice (TBase KString));
   ("RelayURL", TBase KString)].

Definition TargetSpec_DeepCopyInto : copier := copy_struct
  [("Addresses", if_set (make_slice (TBase KString) assign))].

Definition TargetSpec_DeepCopy : option addr -> mem (option addr) :=
  deep_copy TargetSpec_ty TargetSpec_DeepCopyInto.

(** *** PeatSpec *)

Definition PeatSpec_ty : ty := TStruct
  [("Address", TBase KString);
   ("OutboxRoot", TBase KString);
   ("OutboxPath", TBase KString)].

Definition PeatSpec_DeepCopyInto : copier := assign.

Definition PeatSpec_DeepCopy : option addr -> mem (option addr) :=
  deep_copy PeatSpec_ty PeatSpec_DeepCopyInto.

(** *** ObjectStoreSpec *)

Definition ObjectStoreSpec_ty : ty := TStruct
  [("Endpoint", TBase KString);
   ("Region", TBase KString);
   ("CABundleSecretRef", TPtr SecretKeyRef_ty);
   ("InsecureSkipTLSVerify", TBase KBool);
   ("CredentialsSecretRef", TPtr SecretKeyRef_ty)].

Definition ObjectStoreSpec_DeepCopyInto : copier := copy_struct
  [("CABundleSecretRef", if_set (copy_new SecretKeyRef_ty assign));
   ("CredentialsSecretRef", if_set (copy_new SecretKeyRef_ty assign))].

Definition ObjectStoreSpec_DeepCopy : option addr -> mem (option addr) :=
  deep_copy ObjectStoreSpec_ty ObjectStoreSpec_DeepCopyInto.

(** *** ReplicationPolicySpec *)

Definition ReplicationPolicySpec_ty : ty := TStruct
  [("Paused", TBase KBool);
   ("BackupStorageLocations", TSlice (TBase KString));
   ("BackupStorageLocationSelector", TPtr LabelSelector_ty);
   ("BackupSelector", TPtr LabelSelector_ty);
   ("Target", TargetSpec_ty);
   ("Priority", TBase KString);
   ("BundleByteLimit", TBase KInt);
   ("BundleFileLimit", TBase KInt);
   ("MaxConcurrentBundles", TBase KInt);
   ("StaleAfter", TPtr Duration_ty);
   ("Peat", PeatSpec_ty);
   ("ObjectStore", ObjectStoreSpec_ty)].

Definition ReplicationPolicySpec_DeepCopyInto : copier := copy_struct
  [("BackupStorageLocations", if_set (make_slice (TBase KString) assign));
   ("BackupStorageLocationSelector", if_set (copy_new LabelSelector_ty LabelSelector_DeepCopyInto));
   ("BackupSelector", if_set (copy_new LabelSelector_ty LabelSelector_DeepCopyInto));
   ("Target", TargetSpec_DeepCopyInto);
   ("StaleAfter", if_set (copy_new Duration_ty assign));
   ("Peat", assign);
   ("ObjectStore", ObjectStoreSpec_DeepCopyInto)].

Definition ReplicationPolicySpec_DeepCopy : option addr -> mem (option addr) :=
  deep_copy ReplicationPolicySpec_ty ReplicationPolicySpec_DeepCopyInto.

(** *** ReplicationPolicyStatus *)

Definition ReplicationPolicyStatus_ty : ty := TStruct
  [("Conditions", TSlice Condition_ty);
   ("BackupsReplicated", TBase KInt);
   ("BytesReplicated", TBase KInt);
   ("ObservedGeneration", TBase KInt)].

Definition ReplicationPolicyStatus_DeepCopyInto : copier := copy_struct
  [("Conditions", if_set (make_slice Condition_ty Condition_DeepCopyInto))].

Definition ReplicationPolicyStatus_DeepCopy : option addr -> mem (option addr) :=
  deep_copy ReplicationPolicyStatus_ty ReplicationPolicyStatus_DeepCopyInto.

(** *** ReplicationPolicy *)

Definition ReplicationPolicy_ty : ty := TStruct
  [("TypeMeta", TypeMeta_ty);
   ("ObjectMeta", ObjectMeta_ty);
   ("Spec", ReplicationPolicySpec_ty);
   ("Status", ReplicationPolicyStatus_ty)].

Definition ReplicationPolicy_DeepCopyInto : copier := copy_struct
  [("TypeMeta", assign);
   ("ObjectMeta", ObjectMeta_DeepCopyInto);
   ("Spec", ReplicationPolicySpec_DeepCopyInto);
   ("Status", ReplicationPolicyStatus_DeepCopyInto)].

Definition ReplicationPolicy_DeepCopy : option addr -> mem (option addr) :=
  deep_copy ReplicationPolicy_ty ReplicationPolicy_DeepCopyInto.

Definition ReplicationPolicy_DeepCopyObject : option addr -> mem iface :=
  deep_copy_object "ReplicationPolicy" ReplicationPolicy_DeepCopy.

(** *** ReplicationPolicyList *)

Definition ReplicationPolicyList_ty : ty := TStruct
  [("TypeMeta", TypeMeta_ty);
   ("ListMeta", ListMeta_ty);
   ("Items", TSlice ReplicationPolicy_ty)].

Definition ReplicationPolicyList_DeepCopyInto : copier := copy_struct
  [("TypeMeta", assign);
   ("ListMeta", ListMeta_DeepCopyInto);
   ("Items", if_set (make_slice ReplicationPolicy_ty ReplicationPolicy_DeepCopyInto))].

Definition ReplicationPolicyList_DeepCopy : option addr -> mem (option addr) :=
  deep_copy ReplicationPolicyList_ty ReplicationPolicyList_DeepCopyInto.

Definition ReplicationPolicyList_DeepCopyObject : option addr -> mem iface :=
  deep_copy_object "ReplicationPolicyList" ReplicationPolicyList_DeepCopy.

(** ** api/velero/v1 *)

(** *** BackupSpec *)

Definition BackupSpec_ty : ty := TStruct
  [("StorageLocation", TBase KString);
   ("IncludedNamespaces", TSlice (TBase KString));
   ("DefaultVolumesToFsBackup", TPtr (TBase KBool));
   ("SnapshotVolumes", TPtr (TBase KBool))].

Definition BackupSpec_DeepCopyInto : copier := copy_struct
  [("IncludedNamespaces", if_set (make_slice (TBase KString) assign));
   ("DefaultVolumesToFsBackup", if_set (copy_new (TBase KBool) assign));
   ("SnapshotVolumes", if_set (copy_new (TBase KBool) assign))].

Definition BackupSpec_DeepCopy : option addr -> mem (option addr) :=
  deep_copy BackupSpec_ty BackupSpec_DeepCopyInto.

(** *** BackupStatus *)

Definition BackupStatus_ty : ty := TStruct
  [("Phase", TBase KString);
   ("StartTimestamp", TPtr Time_ty);
   ("CompletionTimestamp", TPtr Time_ty);
   ("Expiration", TPtr Time_ty)].

Definition BackupStatus_DeepCopyInto : copier := copy_struct
  [("StartTimestamp", if_set (copy_call Time_DeepCopy));
   ("CompletionTimestamp", if_set (copy_call Time_DeepCopy));
   ("Expiration", if_set (copy_call Time_DeepCopy))].

Definition BackupStatus_DeepCopy : option addr -> mem (option addr) :=
  deep_copy BackupStatus_ty BackupStatus_DeepCopyInto.

(** *** Backup *)

Definition Backup_ty : ty := TStruct
  [("TypeMeta", TypeMeta_ty);
   ("ObjectMeta", ObjectMeta_ty);
   ("Spec", BackupSpec_ty);
   ("Status", BackupStatus_ty)].

Definition Backup_DeepCopyInto : copier := copy_struct
  [("TypeMeta", assign);
   ("ObjectMeta", ObjectMeta_DeepCopyInto);
   ("Spec", BackupSpec_DeepCopyInto);
   ("Status", BackupStatus_DeepCopyInto)].

Definition Backup_DeepCopy : option addr -> mem (option addr) :=
  deep_copy Backup_ty Backup_DeepCopyInto.

Definition Backup_DeepCopyObject : option addr -> mem iface :=
  deep_copy_object "Backup" Backup_DeepCopy.

(** *** BackupList *)

Definition BackupList_ty : ty := TStruct
  [("TypeMeta", TypeMeta_ty);
   ("ListMeta", ListMeta_ty);
   ("Items", TSlice Backup_ty)].

Definition BackupList_DeepCopyInto : copier := copy_struct
  [("TypeMeta", assign);
   ("ListMeta", ListMeta_DeepCopyInto);
   ("Items", if_set (make_slice Backup_ty Backup_DeepCopyInto))].

Definition BackupList_DeepCopy : option addr -> mem (option addr) :=
  deep_copy BackupList_ty BackupList_DeepCopyInto.

Definition BackupList_DeepCopyObject : option addr -> mem iface :=
  deep_copy_object "BackupList" BackupList_DeepCopy.

(** *** ObjectStorageLocation *)

Definition ObjectStorageLocation_ty : ty := TStruct
  [("Bucket", TBase KString);
   ("Prefix", TBase KString);
   ("CACert", TSlice (TBase KInt))].

Definition ObjectStorageLocation_DeepCopyInto : copier := copy_struct
  [("CACert", if_set (make_slice (TBase KInt) assign))].

Definition ObjectStorageLocation_DeepCopy : option addr -> mem (option addr) :=
  deep_copy ObjectStorageLocation_ty ObjectStorageLocation_DeepCopyInto.

(** *** StorageType *)

Definition StorageType_ty : ty := TStruct
  [("ObjectStorage", TPtr ObjectStorageLocation_ty)].

Definition StorageType_DeepCopyInto : copier := copy_struct
  [("ObjectStorage", if_set (copy_new ObjectStorageLocation_ty ObjectStorageLocation_DeepCopyInto))].

Definition StorageType_DeepCopy : option addr -> mem (option addr) :=
  deep_copy StorageType_ty StorageType_DeepCopyInto.

(** *** BackupStorageLocationSpec *)

Definition BackupStorageLocationSpec_ty : ty := TStruct
  [("Provider", TBase KString);
   ("StorageType", StorageType_ty);
   ("Config", TMap);
   ("Credential", TPtr SecretKeySelector_ty);
   ("Default", TBase KBool)].

Definition BackupStorageLocationSpec_DeepCopyInto : copier := copy_struct
  [("StorageType", StorageType_DeepCopyInto);
   ("Config", if_set make_map);
   ("Credential", if_set (copy_new SecretKeySelector_ty SecretKeySelector_DeepCopyInto))].

Definition BackupStorageLocationSpec_DeepCopy : option addr -> mem (option addr) :=
  deep_copy BackupStorageLocationSpec_ty BackupStorageLocationSpec_DeepCopyInto.

(** *** BackupStorageLocationStatus *)

Definition BackupStorageLocationStatus_ty : ty := TStruct
  [("Phase", TBase KString)].

Definition BackupStorageLocationStatus_DeepCopyInto : copier := assign.

Definition BackupStorageLocationStatus_DeepCopy : option addr -> mem (option addr) :=
  deep_copy BackupStorageLocationStatus_ty BackupStorageLocationStatus_DeepCopyInto.

(** *** BackupStorageLocation *)

Definition BackupStorageLocation_ty : ty := TStruct
  [("TypeMeta", TypeMeta_ty);
   ("ObjectMeta", ObjectMeta_ty);
   ("Spec", BackupStorageLocationSpec_ty);
   ("Status", BackupStorageLocationStatus_ty)].

Definition BackupStorageLocation_DeepCopyInto : copier := copy_struct
  [("TypeMeta", assign);
   ("ObjectMeta", ObjectMeta_DeepCopyInto);
   ("Spec", BackupStorageLocationSpec_DeepCopyInto);
   ("Status", assign)].

Definition BackupStorageLocation_DeepCopy : option addr -> mem (option addr) :=
  deep_copy BackupStorageLocation_ty BackupStorageLocation_DeepCopyInto.

Definition BackupStorageLocation_DeepCopyObject : option addr -> mem iface :=
  deep_copy_object "BackupStorageLocation" BackupStorageLocation_DeepCopy.

(** *** BackupStorageLocationList *)

Definition BackupStorageLocationList_ty : ty := TStruct
  [("TypeMeta", TypeMeta_ty);
   ("ListMeta", ListMeta_ty);
   ("Items", TSlice BackupStorageLocation_ty)].

Definition BackupStorageLocationList_DeepCopyInto : copier := copy_struct
  [("TypeMeta", assign);
   ("ListMeta", ListMeta_DeepCopyInto);
   ("Items", if_set (make_slice BackupStorageLocation_ty BackupStorageLocation_DeepCopyInto))].

Definition BackupStorageLocationList_DeepCopy : option addr -> mem (option addr) :=
  deep_copy BackupStorageLocationList_ty BackupStorageLocationList_DeepCopyInto.

Definition BackupStorageLocationList_DeepCopyObject : option addr -> mem iface :=
  deep_copy_object "BackupStorageLocationList" BackupStorageLocationList_DeepCopy.

(** ** All of them *)

Definition api_types : list api_type :=
  [ApiType "BackupImportSpec" BackupImportSpec_ty BackupImportSpec_DeepCopyInto BackupImportSpec_DeepCopy;
   ApiType "BackupImportStatus" BackupImportStatus_ty BackupImportStatus_DeepCopyInto BackupImportStatus_DeepCopy;
   ApiType "BackupImport" BackupImport_ty BackupImport_DeepCopyInto BackupImport_DeepCopy;
   ApiType "BackupImportList" BackupImportList_ty BackupImportList_DeepCopyInto BackupImportList_DeepCopy;
   ApiType "BackupReplicationSpec" BackupReplicationSpec_ty BackupReplicationSpec_DeepCopyInto BackupReplicationSpec_DeepCopy;
   ApiType "BundleStatus" BundleStatus_ty BundleStatus_DeepCopyInto BundleStatus_DeepCopy;
   ApiType "BackupReplicationStatus" BackupReplicationStatus_ty BackupReplicationStatus_DeepCopyInto BackupReplicationStatus_DeepCopy;
   ApiType "BackupReplication" BackupReplication_ty BackupReplication_DeepCopyInto BackupReplication_DeepCopy;
   ApiType "BackupReplicationList" BackupReplicationList_ty BackupReplicationList_DeepCopyInto BackupReplicationList_DeepCopy;
   ApiType "SecretKeyRef" SecretKeyRef_ty SecretKeyRef_DeepCopyInto SecretKeyRef_DeepCopy;
   ApiType "TargetSpec" TargetSpec_ty TargetSpec_DeepCopyInto TargetSpec_DeepCopy;
   ApiType "PeatSpec" PeatSpec_ty PeatSpec_DeepCopyInto PeatSpec_DeepCopy;
   ApiType "ObjectStoreSpec" ObjectStoreSpec_ty ObjectStoreSpec_DeepCopyInto ObjectStoreSpec_DeepCopy;
   ApiType "ReplicationPolicySpec" ReplicationPolicySpec_ty ReplicationPolicySpec_DeepCopyInto ReplicationPolicySpec_DeepCopy;
   ApiType "ReplicationPolicyStatus" ReplicationPolicyStatus_ty ReplicationPolicyStatus_DeepCopyInto ReplicationPolicyStatus_DeepCopy;
   ApiType "ReplicationPolicy" ReplicationPolicy_ty ReplicationPolicy_DeepCopyInto ReplicationPolicy_DeepCopy;
   ApiType "ReplicationPolicyList" ReplicationPolicyList_ty ReplicationPolicyList_DeepCopyInto ReplicationPolicyList_DeepCopy;
   ApiType "BackupSpec" BackupSpec_ty BackupSpec_DeepCopyInto BackupSpec_DeepCopy;
   ApiType "BackupStatus" BackupStatus_ty BackupStatus_DeepCopyInto BackupStatus_DeepCopy;
   ApiType "Backup" Backup_ty Backup_DeepCopyInto Backup_DeepCopy;
   ApiType "BackupList" BackupList_ty BackupList_DeepCopyInto BackupList_DeepCopy;
   ApiType "ObjectStorageLocation" ObjectStorageLocation_ty ObjectStorageLocation_DeepCopyInto ObjectStorageLocation_DeepCopy;
   ApiType "StorageType" StorageType_ty StorageType_DeepCopyInto StorageType_DeepCopy;
   ApiType "BackupStorageLocationSpec" BackupStorageLocationSpec_ty BackupStorageLocationSpec_DeepCopyInto BackupStorageLocationSpec_DeepCopy;
   ApiType "BackupStorageLocationStatus" BackupStorageLocationStatus_ty BackupStorageLocationStatus_DeepCopyInto BackupStorageLocationStatus_DeepCopy;
   ApiType "BackupStorageLocation" BackupStorageLocation_ty BackupStorageLocation_DeepCopyInto BackupStorageLocation_DeepCopy;
   ApiType "BackupStorageLocationList" BackupStorageLocationList_ty BackupStorageLocationList_DeepCopyInto BackupStorageLocationList_DeepCopy].

Definition api_objects : list api_object :=
  [ApiObject (ApiType "BackupImport" BackupImport_ty BackupImport_DeepCopyInto BackupImport_DeepCopy)
     BackupImport_DeepCopyObject;
   ApiObject (ApiType "BackupImportList" BackupImportList_ty BackupImportList_DeepCopyInto BackupImportList_DeepCopy)
     BackupImportList_DeepCopyObject;
   ApiObject (ApiType "BackupReplication" BackupReplication_ty BackupReplication_DeepCopyInto BackupReplication_DeepCopy)
     BackupReplication_DeepCopyObject;
   ApiObject (ApiType "BackupReplicationList" BackupReplicationList_ty BackupReplicationList_DeepCopyInto BackupReplicationList_DeepCopy)
     BackupReplicationList_DeepCopyObject;
   ApiObject (ApiType "ReplicationPolicy" ReplicationPolicy_ty ReplicationPolicy_DeepCopyInto ReplicationPolicy_DeepCopy)
     ReplicationPolicy_DeepCopyObject;
   ApiObject (ApiType "ReplicationPolicyList" ReplicationPolicyList_ty ReplicationPolicyList_DeepCopyInto ReplicationPolicyList_DeepCopy)
     ReplicationPolicyList_DeepCopyObject;
   ApiObject (ApiType "Backup" Backup_ty Backup_DeepCopyInto Backup_DeepCopy)
     Backup_DeepCopyObject;
   ApiObject (ApiType "BackupList" BackupList_ty BackupList_DeepCopyInto BackupList_DeepCopy)
     BackupList_DeepCopyObject;
   ApiObject (ApiType "BackupStorageLocation" BackupStorageLocation_ty BackupStorageLocation_DeepCopyInto BackupStorageLocation_DeepCopy)
     BackupStorageLocation_DeepCopyObject;
   ApiObject (ApiType "BackupStorageLocationList" BackupStorageLocationList_ty BackupStorageLocationList_DeepCopyInto BackupStorageLocationList_DeepCopy)
     BackupStorageLocationList_DeepCopyObject].

End api.

(** ** Every one is a deep copy *)

Section facts.
Context {L : LibraryCopies} {LS : LibraryCopiesSpec L}.

Lemma BackupImportSpec_deep :
  deep_copier BackupImportSpec_ty BackupImportSpec_DeepCopyInto.
Proof. by apply assign_deep. Qed.

#[local] Hint Resolve BackupImportSpec_deep : deepcopy.

Lemma BackupImportStatus_deep :
  deep_copier BackupImportStatus_ty BackupImportStatus_DeepCopyInto.
Proof. deep_copier_struct. Qed.

#[local] Hint Resolve BackupImportStatus_deep : deepcopy.

Lemma BackupImport_deep :
  deep_copier BackupImport_ty BackupImport_DeepCopyInto.
Proof. deep_copier_struct. Qed.

#[local] Hint Resolve BackupImport_deep : deepcopy.

Lemma BackupImportList_deep :
  deep_copier BackupImportList_ty BackupImportList_DeepCopyInto.
Proof. deep_copier_struct. Qed.

#[local] Hint Resolve BackupImportList_deep : deepcopy.

Lemma BackupReplicationSpec_deep :
  deep_copier BackupReplicationSpec_ty BackupReplicationSpec_DeepCopyInto.
Proof. by apply assign_deep. Qed.

#[local] Hint Resolve BackupReplicationSpec_deep : deepcopy.

Lemma BundleStatus_deep :
  deep_copier BundleStatus_ty BundleStatus_DeepCopyInto.
Proof. deep_copier_struct. Qed.

#[local] Hint Resolve BundleStatus_deep : deepcopy.

Lemma BackupReplicationStatus_deep :
  deep_copier BackupReplicationStatus_ty BackupReplicationStatus_DeepCopyInto.
Proof. deep_copier_struct. Qed.

#[local] Hint Resolve BackupReplicationStatus_deep : deepcopy.

Lemma BackupReplication_deep :
  deep_copier BackupReplication_ty BackupReplication_DeepCopyInto.
Proof. deep_copier_struct. Qed.

#[local] Hint Resolve BackupReplication_deep : deepcopy.

Lemma BackupReplicationList_deep :
  deep_copier BackupReplicationList_ty BackupReplicationList_DeepCopyInto.
Proof. deep_copier_struct. Qed.

#[local] Hint Resolve BackupReplicationList_deep : deepcopy.

Lemma SecretKeyRef_deep :
  deep_copier SecretKeyRef_ty SecretKeyRef_DeepCopyInto.
Proof. by apply assign_deep. Qed.

#[local] Hint Resolve SecretKeyRef_deep : deepcopy.

Lemma TargetSpec_deep :
  deep_copier TargetSpec_ty TargetSpec_DeepCopyInto.
Proof. deep_copier_struct. Qed.

#[local] Hint Resolve TargetSpec_deep : deepcopy.

Lemma PeatSpec_deep :
  deep_copier PeatSpec_ty PeatSpec_DeepCopyInto.
Proof. by apply assign_deep. Qed.

#[local] Hint Resolve PeatSpec_deep : deepcopy.

Lemma ObjectStoreSpec_deep :
  deep_copier ObjectStoreSpec_ty ObjectStoreSpec_DeepCopyInto.
Proof. deep_copier_struct. Qed.

#[local] Hint Resolve ObjectStoreSpec_deep : deepcopy.

Lemma ReplicationPolicySpec_deep :
  deep_copier ReplicationPolicySpec_ty ReplicationPolicySpec_DeepCopyInto.
Proof. deep_copier_struct. Qed.

#[local] Hint Resolve ReplicationPolicySpec_deep : deepcopy.

Lemma ReplicationPolicyStatus_deep :
  deep_copier ReplicationPolicyStatus_ty ReplicationPolicyStatus_DeepCopyInto.
Proof. deep_copier_struct. Qed.

#[local] Hint Resolve ReplicationPolicyStatus_deep : deepcopy.

Lemma ReplicationPolicy_deep :
  deep_copier ReplicationPolicy_ty ReplicationPolicy_DeepCopyInto.
Proof. deep_copier_struct. Qed.

#[local] Hint Resolve ReplicationPolicy_deep : deepcopy.

Lemma ReplicationPolicyList_deep :
  deep_copier ReplicationPolicyList_ty ReplicationPolicyList_DeepCopyInto.
Proof. deep_copier_struct. Qed.

#[local] Hint Resolve ReplicationPolicyList_deep : deepcopy.

Lemma BackupSpec_deep :
  deep_copier BackupSpec_ty BackupSpec_DeepCopyInto.
Proof. deep_copier_struct. Qed.

#[local] Hint Resolve BackupSpec_deep : deepcopy.

Lemma BackupStatus_deep :
  deep_copier BackupStatus_ty BackupStatus_DeepCopyInto.
Proof. deep_copier_struct. Qed.

#[local] Hint Resolve BackupStatus_deep : deepcopy.

Lemma Backup_deep :
  deep_copier Backup_ty Backup_DeepCopyInto.
Proof. deep_copier_struct. Qed.

#[local] Hint Resolve Backup_deep : deepcopy.

Lemma BackupList_deep :
  deep_copier BackupList_ty BackupList_DeepCopyInto.
Proof. deep_copier_struct. Qed.

#[local] Hint Resolve BackupList_deep : deepcopy.

Lemma ObjectStorageLocation_deep :
  deep_copier ObjectStorageLocation_ty ObjectStorageLocation_DeepCopyInto.
Proof. deep_copier_struct. Qed.

#[local] Hint Resolve ObjectStorageLocation_deep : deepcopy.

Lemma StorageType_deep :
  deep_copier StorageType_ty StorageType_DeepCopyInto.
Proof. deep_copier_struct. Qed.

#[local] Hint Resolve StorageType_deep : deepcopy.

Lemma BackupStorageLocationSpec_deep :
  deep_copier BackupStorageLocationSpec_ty BackupStorageLocationSpec_DeepCopyInto.
Proof. deep_copier_struct. Qed.

#[local] Hint Resolve BackupStorageLocationSpec_deep : deepcopy.

Lemma BackupStorageLocationStatus_deep :
  deep_copier BackupStorageLocationStatus_ty BackupStorageLocationStatus_DeepCopyInto.
Proof. by apply assign_deep. Qed.

#[local] Hint Resolve BackupStorageLocationStatus_deep : deepcopy.

Lemma BackupStorageLocation_deep :
  deep_copier BackupStorageLocation_ty BackupStorageLocation_DeepCopyInto.
Proof. deep_copier_struct. Qed.

#[local] Hint Resolve BackupStorageLocation_deep : deepcopy.

Lemma BackupStorageLocationList_deep :
  deep_copier BackupStorageLocationList_ty BackupStorageLocationList_DeepCopyInto.
Proof. deep_copier_struct. Qed.

#[local] Hint Resolve BackupStorageLocationList_deep : deepcopy.

Lemma api_types_deep :
  Forall (fun A => deep_copier A.(type_ty) A.(type_DeepCopyInto)) api_types.
Proof.
  repeat constructor;
    [apply BackupImportSpec_deep
    |apply BackupImportStatus_deep
    |apply BackupImport_deep
    |apply BackupImportList_deep
    |apply BackupReplicationSpec_deep
    |apply BundleStatus_deep
    |apply BackupReplicationStatus_deep
    |apply BackupReplication_deep
    |apply BackupReplicationList_deep
    |apply SecretKeyRef_deep
    |apply TargetSpec_deep
    |apply PeatSpec_deep
    |apply ObjectStoreSpec_deep
    |apply ReplicationPolicySpec_deep
    |apply ReplicationPolicyStatus_deep
    |apply ReplicationPolicy_deep
    |apply ReplicationPolicyList_deep
    |apply BackupSpec_deep
    |apply BackupStatus_deep
    |apply Backup_deep
    |apply BackupList_deep
    |apply ObjectStorageLocation_deep
    |apply StorageType_deep
    |apply BackupStorageLocationSpec_deep
    |apply BackupStorageLocationStatus_deep
    |apply BackupStorageLocation_deep
    |apply BackupStorageLocationList_deep].
Qed.

Lemma api_types_DeepCopy :
  Forall (fun A => deep_copy_fn A.(type_ty) A.(type_DeepCopy)) api_types.
Proof.
  pose proof api_types_deep as H. unfold api_types in *.
  repeat (apply Forall_cons in H as [Hd H]; apply Forall_cons; split;
    [exact (deep_copy_spec _ _ Hd)|clear Hd]).
  constructor.
Qed.

Lemma api_objects_types :
  Forall (fun O => object_type O ∈ api_types /\
    object_DeepCopyObject O =
    deep_copy_object (type_name (object_type O)) (type_DeepCopy (object_type O)))
    api_objects.
Proof.
  repeat (apply Forall_cons; split; [split; [|reflexivity]|]); [..|constructor].
  - by apply (list_elem_of_lookup_2 _ 2).
  - by apply (list_elem_of_lookup_2 _ 3).
  - by apply (list_elem_of_lookup_2 _ 7).
  - by apply (list_elem_of_lookup_2 _ 8).
  - by apply (list_elem_of_lookup_2 _ 15).
  - by apply (list_elem_of_lookup_2 _ 16).
  - by apply (list_elem_of_lookup_2 _ 19).
  - by apply (list_elem_of_lookup_2 _ 20).
  - by apply (list_elem_of_lookup_2 _ 25).
  - by apply (list_elem_of_lookup_2 _ 26).
Qed.

(** C14: every generated [DeepCopyInto] of the API makes a deep copy at the struct
    type it is declared for: from a well-typed [*in] into a variable [*out] that
    [*in] does not reach, it ends without a nil dereference and leaves in [*out] a
    value of the same type and contents, all of whose pointers, slices and maps
    lead to variables that it allocated, each reached once; nothing else in the
    memory has changed. *)
Theorem DeepCopyInto_deep (A : api_type) h inp out v t ls :
  A ∈ api_types ->
  load h inp = Some v -> read h A.(type_ty) v = Some (t, ls) ->
  out.1 ∉ inp.1 :: ls -> is_Some (load h out) ->
  exists v' h1 new ls',
    A.(type_DeepCopyInto) inp out h = Some (tt, h1 ++ new) /\
    store out v' h = Some h1 /\
    read (h ++ new) A.(type_ty) v' = Some (t, ls') /\
    (forall l, l ∈ ls' -> (length h <= l)%nat) /\ NoDup ls'.
Proof.
  intros HA Hi Hr Hne Ho. pose proof api_types_deep as H.
  rewrite Forall_forall in H.
  destruct (H A HA h inp out v t ls Hi Hr Hne Ho) as (v' & h1 & new & ? & ? & ls' & ?).
  by exists v', h1, new, ls'.
Qed.

(** C15: a [DeepCopy] and its original are independent: the copy has the
    contents of the original, [nil] gives [nil], and after it any assignments to
    what one of them reaches leave the contents of the other as they were. *)
Theorem DeepCopy_isolated (A : api_type) h p t ls :
  A ∈ api_types ->
  read h (TPtr A.(type_ty)) (VPtr p) = Some (t, ls) ->
  exists q h' ls', A.(type_DeepCopy) p h = Some (q, h') /\
    (p = None -> q = None) /\
    read h' (TPtr A.(type_ty)) (VPtr q) = Some (t, ls') /\
    (forall ws h2, Forall (fun w => w.1.1 ∈ ls') ws -> stores ws h' = Some h2 ->
       read h2 (TPtr A.(type_ty)) (VPtr p) = Some (t, ls)) /\
    (forall ws h2, Forall (fun w => w.1.1 ∈ ls) ws -> stores ws h' = Some h2 ->
       read h2 (TPtr A.(type_ty)) (VPtr q) = Some (t, ls')).
Proof.
  intros HA Hr. pose proof api_types_DeepCopy as H. rewrite Forall_forall in H.
  destruct (deep_copy_fn_isolated _ _ _ _ _ _ (H A HA) Hr) as (q & h' & ls' & Hrun & Hq & Hw).
  exists q, h', ls'. split_and!; [done| |done|apply Hw..].
  intros ->. cbn in Hr. injection Hr as <- <-.
  destruct q as [a|]; [|done]. cbn in Hq.
  destruct (load h' a); [|done]. cbn in Hq. by destruct (read h' _ _) as [[]|].
Qed.

(** [DeepCopyObject] of a nil pointer is the nil interface, not an
    interface that holds a nil pointer; of anything else it is an interface of the
    receiver's own type that holds a deep copy. *)
Lemma DeepCopyObject_nil (O : api_object) h p t ls :
  O ∈ api_objects ->
  read h (TPtr (type_ty (object_type O))) (VPtr p) = Some (t, ls) ->
  exists i new, object_DeepCopyObject O p h = Some (i, h ++ new) /\
    match p with
    | None => i = None
    | Some _ => exists q, i = Some (type_name (object_type O), Some q) /\
        fresh (TPtr (type_ty (object_type O))) h new t (VPtr (Some q))
    end.
Proof.
  intros HO Hr. pose proof api_objects_types as Ht. rewrite Forall_forall in Ht.
  destruct (Ht O HO) as [HA ->]. clear Ht.
  pose proof api_types_DeepCopy as H. rewrite Forall_forall in H.
  destruct (H _ HA h p t ls Hr) as (q & new & Hrun & Hf).
  unfold deep_copy_object. run_step Hrun.
  apply read_ptr_inv in Hr as [(-> & -> & ->)|(a & w & t' & ls' & -> & -> & -> & Hl & Hr)].
  - destruct q as [b|]; [|by exists None, new].
    destruct Hf as (ls' & Hq & _). cbn in Hq.
    destruct (load (h ++ new) b); [|done]. cbn in Hq. by destruct (read _ _ _) as [[]|].
  - destruct q as [b|].
    + exists (Some (type_name (object_type O), Some b)), new. split; [done|]. by exists b.
    + destruct Hf as (ls2 & Hq & _). done.
Qed.

End facts.

(** ** A library to instantiate them with *)

Definition example_ObjectMeta_ty : ty := TStruct
  [("Name", TBase KString); ("Namespace", TBase KString);
   ("ResourceVersion", TBase KString); ("DeletionTimestamp", TPtr (TBase KInt));
   ("Labels", TMap); ("Annotations", TMap);
   ("Finalizers", TSlice (TBase KString))].

Definition example_ObjectMeta_DeepCopyInto : copier := copy_struct
  [("DeletionTimestamp", if_set (copy_new (TBase KInt) assign));
   ("Labels", if_set make_map); ("Annotations", if_set make_map);
   ("Finalizers", if_set (make_slice (TBase KString) assign))].

#[export] Instance example_library : LibraryCopies := {
  TypeMeta_ty := TStruct [("Kind", TBase KString); ("APIVersion", TBase KString)];
  Duration_ty := TStruct [("Duration", TBase KInt)];
  Time_ty := TBase KInt;
  Time_DeepCopy := deep_copy (TBase KInt) assign;
  ObjectMeta_ty := example_ObjectMeta_ty;
  ObjectMeta_DeepCopyInto := example_ObjectMeta_DeepCopyInto;
  ListMeta_ty := TStruct [("ResourceVersion", TBase KString)];
  ListMeta_DeepCopyInto := assign;
  Condition_ty := TStruct [("Type", TBase KString); ("Status", TBase KString)];
  Condition_DeepCopyInto := assign;
  LabelSelector_ty := TStruct [("MatchLabels", TMap)];
  LabelSelector_DeepCopyInto := copy_struct [("MatchLabels", if_set make_map)];
  SecretKeySelector_ty :=
    TStruct [("Name", TBase KString); ("Key", TBase KString); ("Optional", TPtr (TBase KBool))];
  SecretKeySelector_DeepCopyInto :=
    copy_struct [("Optional", if_set (copy_new (TBase KBool) assign))]
}.

#[export] Instance example_library_spec : LibraryCopiesSpec example_library.
Proof.
  split; [done|done| | | | | |]; cbn.
  - by apply deep_copy_spec, assign_deep.
  - deep_copier_struct.
  - by apply assign_deep.
  - by apply assign_deep.
  - deep_copier_struct.
  - deep_copier_struct.
Qed.

(** A location spec with a bucket, a CA certificate, a map and no credential, and
    a second variable to copy it into. *)
Definition example_location : val :=
  VStruct
    [("Provider", VBase (BStr "aws"));
     ("StorageType", VStruct [("ObjectStorage", VPtr (Some (1, [])))]);
     ("Config", VMap (Some 3)); ("Credential", VPtr None);
     ("Default", VBase (BBool true))].

Definition example_memory : heap :=
  [example_location;
   VStruct [("Bucket", VBase (BStr "velero")); ("Prefix", VBase (BStr ""));
            ("CACert", VSlice (Some ((2, []), 1, 2)))];
   VArray [VBase (BInt 45); VBase (BInt 46); VBase (BInt 47)];
   VDict {[ "region" := BStr "us-east-1"; "s3ForcePathStyle" := BStr "true" ]};
   zero BackupStorageLocationSpec_ty].

Definition example_contents : tree :=
  LStruct
    [("Provider", LBase (BStr "aws"));
     ("StorageType", LStruct
        [("ObjectStorage", LPtr (LStruct
            [("Bucket", LBase (BStr "velero")); ("Prefix", LBase (BStr ""));
             ("CACert", LSlice [LBase (BInt 46); LBase (BInt 47)])]))]);
     ("Config", LMap {[ "region" := BStr "us-east-1"; "s3ForcePathStyle" := BStr "true" ]});
     ("Credential", LNil); ("Default", LBase (BBool true))].

Lemma example_read :
  read example_memory BackupStorageLocationSpec_ty example_location =
    Some (example_contents, [1; 2; 3]).
Proof. vm_compute. reflexivity. Qed.

Definition example_type : api_type :=
  ApiType "BackupStorageLocationSpec" BackupStorageLocationSpec_ty
    BackupStorageLocationSpec_DeepCopyInto BackupStorageLocationSpec_DeepCopy.

Lemma example_type_in : example_type ∈ api_types.
Proof. unfold api_types, example_type. repeat constructor. Qed.

Lemma DeepCopyInto_deep_witness :
  exists v' h1 new ls',
    BackupStorageLocationSpec_DeepCopyInto (0, []) (4, []) example_memory =
      Some (tt, h1 ++ new) /\
    store (4, []) v' example_memory = Some h1 /\
    read (example_memory ++ new) BackupStorageLocationSpec_ty v' =
      Some (example_contents, ls') /\
    (forall l, l ∈ ls' -> (5 <= l)%nat) /\ NoDup ls'.
Proof.
  apply (DeepCopyInto_deep example_type example_memory (0, []) (4, [])
           example_location example_contents [1; 2; 3] example_type_in).
  - reflexivity.
  - apply example_read.
  - apply (bool_decide_unpack _). vm_compute. exact I.
  - eexists. reflexivity.
Defined.

Lemma DeepCopy_isolated_witness :
  exists q h' ls',
    BackupStorageLocationSpec_DeepCopy (Some (0, [])) example_memory = Some (q, h') /\
    (@Some addr (0, []) = None -> q = None) /\
    read h' (TPtr BackupStorageLocationSpec_ty) (VPtr q) =
      Some (LPtr example_contents, ls') /\
    (forall ws h2, Forall (fun w => w.1.1 ∈ ls') ws -> stores ws h' = Some h2 ->
       read h2 (TPtr BackupStorageLocationSpec_ty) (VPtr (Some (0, []))) =
         Some (LPtr example_contents, [0; 1; 2; 3])) /\
    (forall ws h2, Forall (fun w => w.1.1 ∈ [0; 1; 2; 3]) ws ->
       stores ws h' = Some h2 ->
       read h2 (TPtr BackupStorageLocationSpec_ty) (VPtr q) =
         Some (LPtr example_contents, ls')).
Proof.
  apply (DeepCopy_isolated example_type example_memory (Some (0, []))
           (LPtr example_contents) [0; 1; 2; 3] example_type_in).
  vm_compute. reflexivity.
Defined.

Lemma DeepCopyObject_nil_example :
  exists i new, BackupList_DeepCopyObject None [] = Some (i, [] ++ new) /\ i = None.
Proof.
  apply (DeepCopyObject_nil
           (ApiObject (ApiType "BackupList" BackupList_ty BackupList_DeepCopyInto
                         BackupList_DeepCopy) BackupList_DeepCopyObject)
           [] None LNil []).
  - unfold api_objects. repeat constructor.
  - reflexivity.
Defined.
