(* ===== verification/GoFlag.v ===== *)
(** Go's [flag] package as [main] uses it, with [strconv.ParseBool] and
    [time.ParseDuration].  The error texts of a bad flag, which the package prints,
    are left out: what matters is that it exits and with which code. *)
From stdpp Require Import base list strings gmap.
From Stdlib Require Import ZArith Ascii SpecFloat.
From S2P Require Import Prelude GoStrings.

(** ** strconv.ParseBool *)

Definition ParseBool (s : string) : option bool :=
  if bool_decide (s ∈ ["1"; "t"; "T"; "true"; "TRUE"; "True"]) then Some true
  else if bool_decide (s ∈ ["0"; "f"; "F"; "false"; "FALSE"; "False"]) then Some false
  else None.

(** ** time.ParseDuration, in nanoseconds *)

(** [leadingInt]: the digits at the start and the rest, unless they exceed 2^63. *)
Fixpoint leadingInt (x : Z) (s : string) : option (Z * string) :=
  match s with
  | String c s' =>
      match digit_val c with
      | Some d =>
          if (2 ^ 63 / 10 <? x)%Z then None
          else if (2 ^ 63 <? x * 10 + d)%Z then None
          else leadingInt (x * 10 + d) s'
      | None => Some (x, s)
      end
  | "" => Some (x, s)
  end.

(** Go's float64. *)
Definition float64 := spec_float.
Definition float_of (z : Z) : float64 := binary_normalize 53 1024 z 0 false.
Definition float_mul : float64 -> float64 -> float64 := SFmul 53 1024.
Definition float_div : float64 -> float64 -> float64 := SFdiv 53 1024.

(** The conversion [uint64(x)] of a finite, non-negative float in range. *)
Definition float_trunc (x : float64) : Z :=
  match x with
  | S754_finite false m e =>
      if (0 <=? e)%Z then Zpos m * 2 ^ e else Zpos m / 2 ^ (- e)
  | _ => 0
  end%Z.

(** [leadingFraction]: digits after a point; those beyond the range of [x] are
    skipped. *)
Fixpoint leadingFraction (x : Z) (scale : float64) (overflow : bool) (s : string)
    : Z * float64 * string :=
  match s with
  | String c s' =>
      match digit_val c with
      | Some d =>
          if overflow || ((2 ^ 63 - 1) / 10 <? x)%Z || (2 ^ 63 <? x * 10 + d)%Z
          then leadingFraction x scale true s'
          else leadingFraction (x * 10 + d) (float_mul scale (float_of 10)) false s'
      | None => (x, scale, s)
      end
  | "" => (x, scale, s)
  end.

(** The unit: everything up to the next digit or point. *)
Fixpoint leading_unit (s : string) : string * string :=
  match s with
  | String c s' =>
      if bool_decide (c = "."%char) || bool_decide (digit_val c <> None) then ("", s)
      else let (u, r) := leading_unit s' in (String c u, r)
  | "" => ("", "")
  end.

(** The two spellings of "micro", U+00B5 and U+03BC. *)
Definition micro_sign : string := String "194" (String "181" "s").
Definition mu_sign : string := String "206" (String "188" "s").

Definition unitMap (u : string) : option Z :=
  if bool_decide (u = "ns") then Some 1%Z
  else if bool_decide (u ∈ ["us"; micro_sign; mu_sign]) then Some 1000%Z
  else if bool_decide (u = "ms") then Some 1000000%Z
  else if bool_decide (u = "s") then Some 1000000000%Z
  else if bool_decide (u = "m") then Some 60000000000%Z
  else if bool_decide (u = "h") then Some 3600000000000%Z
  else None.

Definition nonempty (s : string) : bool := negb (bool_decide (s = "")).

(** One [v.f unit] term of a duration: its nanoseconds and the rest. *)
Definition duration_term (s : string) : option (Z * string) :=
  '(v, s1) ← leadingInt 0 s;
  let pre := negb (String.length s1 =? String.length s)%nat in
  let '(f, scale, s2, post) :=
    match s1 with
    | String "." s1' =>
        let '(f, scale, s2) := leadingFraction 0 (float_of 1) false s1' in
        (f, scale, s2, negb (String.length s2 =? String.length s1')%nat)
    | _ => (0%Z, float_of 1, s1, false)
    end in
  if negb pre && negb post then None
  else
    let (u, s3) := leading_unit s2 in
    if bool_decide (u = "") then None
    else
      unit ← unitMap u;
      if (2 ^ 63 / unit <? v)%Z then None
      else
        let v := (v * unit)%Z in
        let v := if (0 <? f)%Z
                 then (v + float_trunc (float_mul (float_of f) (float_div (float_of unit) scale)))%Z
                 else v in
        if (2 ^ 63 <? v)%Z then None else Some (v, s3).

(** The terms, at most one per byte of [s]. *)
Fixpoint duration_terms (fuel : nat) (d : Z) (s : string) : option Z :=
  match fuel, s with
  | _, "" => Some d
  | O, _ => None
  | S fuel, _ =>
      '(v, s) ← duration_term s;
      if (2 ^ 63 <? d + v)%Z then None else duration_terms fuel (d + v) s
  end.

Definition ParseDuration (s : string) : option Z :=
  let '(neg, s) :=
    match s with
    | String "-" s => (true, s)
    | String "+" s => (false, s)
    | _ => (false, s)
    end in
  if bool_decide (s = "0") then Some 0%Z
  else if bool_decide (s = "") then None
  else
    d ← duration_terms (String.length s) 0 s;
    if neg then Some (- d)%Z
    else if (2 ^ 63 - 1 <? d)%Z then None else Some d.

(** ** flag.FlagSet *)

(** The current value of a flag; its constructor is the type it was registered
    with.  [FvOther] is a flag of another package: whether it is boolean, and the
    texts its [Set] accepts. *)
Inductive flag_value :=
| FvString (s : string)
| FvBool (b : bool)
| FvDuration (d : Z)
| FvOther (is_bool : bool) (accepts : string -> bool).

Definition IsBoolFlag (v : flag_value) : bool :=
  match v with FvBool _ => true | FvOther b _ => b | _ => false end.

(** [Value.Set] *)
Definition flag_set (v : flag_value) (s : string) : option flag_value :=
  match v with
  | FvString _ => Some (FvString s)
  | FvBool _ => FvBool <$> ParseBool s
  | FvDuration _ => FvDuration <$> ParseDuration s
  | FvOther b ok => if ok s then Some v else None
  end.

Abbreviation flag_values := (gmap string flag_value).

(** How [FlagSet.Parse] ends: with values and the arguments it left, with the
    usage text for [-h] or [-help], or with an error. *)
Inductive parse_result :=
| Parsed (vals : flag_values) (rest : list string)
| HelpRequested
| ParseError.

(** [FlagSet.parseOne] on the name of a flag and, after a [=], its value: the
    values after it and whether it took the next argument. *)
Inductive one_result :=
| Assigned (vals : flag_values)
| AssignedNext (vals : flag_values)
| OneHelp
| OneError.

Definition set_flag (vals : flag_values) (name : string) (v : flag_value) (s : string)
    (done : flag_values -> one_result) : one_result :=
  match flag_set v s with
  | Some v => done (<[name := v]> vals)
  | None => OneError
  end.

Definition parse_one (vals : flag_values) (name : string) (value next : option string)
    : one_result :=
  match vals !! name with
  | None =>
      if bool_decide (name = "help" \/ name = "h") then OneHelp else OneError
  | Some v =>
      if IsBoolFlag v
      then set_flag vals name v (default "true" value) Assigned
      else
        match value, next with
        | Some s, _ => set_flag vals name v s Assigned
        | None, Some s => set_flag vals name v s AssignedNext
        | None, None => OneError
        end
  end.

(** The text after the dashes, cut at the first [=]. *)
Definition split_flag (s : string) : string * option string :=
  match Cut s "=" with
  | Some (name, value) => (name, Some value)
  | None => (s, None)
  end.

(** One argument: not a flag, the terminator [--], bad syntax, or a flag. *)
Inductive argument :=
| NotFlag
| Terminator
| BadSyntax
| FlagArg (name : string) (value : option string).

Definition flag_text (s : string) : argument :=
  match s with
  | "" | String "-" _ | String "=" _ => BadSyntax
  | _ => let (name, value) := split_flag s in FlagArg name value
  end.

Definition read_argument (s : string) : argument :=
  match s with
  | String "-" (String "-" "") => Terminator
  | String "-" (String "-" s) => flag_text s
  | String "-" "" => NotFlag
  | String "-" s => flag_text s
  | _ => NotFlag
  end.

(** [FlagSet.Parse] *)
Fixpoint Parse (vals : flag_values) (args : list string) : parse_result :=
  match args with
  | [] => Parsed vals []
  | arg :: args' =>
      match read_argument arg with
      | NotFlag => Parsed vals args
      | Terminator => Parsed vals args'
      | BadSyntax => ParseError
      | FlagArg name value =>
          match parse_one vals name value (head args') with
          | Assigned vals => Parse vals args'
          | AssignedNext vals =>
              match args' with _ :: args'' => Parse vals args'' | [] => ParseError end
          | OneHelp => HelpRequested
          | OneError => ParseError
          end
      end
  end.

Definition string_flag (vals : flag_values) (name : string) : string :=
  match vals !! name with Some (FvString s) => s | _ => "" end.
Definition bool_flag (vals : flag_values) (name : string) : bool :=
  match vals !! name with Some (FvBool b) => b | _ => false end.
Definition duration_flag (vals : flag_values) (name : string) : Z :=
  match vals !! name with Some (FvDuration d) => d | _ => 0%Z end.

(** ** Facts *)

Definition same_kind (v w : flag_value) : bool :=
  match v, w with
  | FvString _, FvString _ | FvBool _, FvBool _ | FvDuration _, FvDuration _ => true
  | FvOther _ _, FvOther _ _ => true
  | _, _ => false
  end.

(** Both sets register the same flags at the same types. *)
Definition same_flags (vals vals' : flag_values) : Prop :=
  forall name, match vals !! name, vals' !! name with
    | Some v, Some w => same_kind v w = true
    | None, None => True
    | _, _ => False
    end.

#[export] Instance same_flags_refl : Reflexive same_flags.
Proof. intros vals name. destruct (vals !! name) as [[]|]; done. Qed.

#[export] Instance same_flags_trans : Transitive same_flags.
Proof.
  intros v1 v2 v3 H1 H2 name. specialize (H1 name). specialize (H2 name).
  destruct (v1 !! name) as [[]|], (v2 !! name) as [[]|], (v3 !! name) as [[]|]; done.
Qed.

Lemma flag_set_kind v s w : flag_set v s = Some w -> same_kind v w = true.
Proof.
  destruct v; cbn; [by intros [= <-]|by intros (? & _ & ->)%fmap_Some..|].
  destruct (accepts s); [by intros [= <-]|done].
Qed.

Lemma set_flag_same vals name v s w :
  vals !! name = Some v -> flag_set v s = Some w -> same_flags vals (<[name := w]> vals).
Proof.
  intros Hv Hs n. destruct (decide (n = name)) as [->|Hn].
  - rewrite Hv, lookup_insert_eq. by eapply flag_set_kind.
  - rewrite lookup_insert_ne by done. apply same_flags_refl.
Qed.

Definition one_flags (r : one_result) : option flag_values :=
  match r with Assigned v | AssignedNext v => Some v | _ => None end.

Lemma parse_one_same vals name value next vals' :
  one_flags (parse_one vals name value next) = Some vals' -> same_flags vals vals'.
Proof.
  unfold parse_one. destruct (vals !! name) as [v|] eqn:Hv; [|by case_bool_decide].
  unfold set_flag.
  destruct (IsBoolFlag v); [|destruct value as [s|]; [|destruct next as [s|]; [|done]]];
    (destruct (flag_set v _) as [w|] eqn:Hs; [|done]); cbn; intros [= <-];
    by eapply set_flag_same.
Qed.

(** Parsing keeps the registered flags and their types. *)
Lemma Parse_same args vals vals' rest :
  Parse vals args = Parsed vals' rest -> same_flags vals vals'.
Proof.
  remember (length args) as n eqn:Hn. assert (length args <= n)%nat as Hle by lia. clear Hn.
  revert args vals Hle. induction n as [|n IH]; intros [|arg args] vals Hle;
    cbn in Hle |- *; try lia; try (by intros [= -> _]).
  destruct (read_argument arg) as [| | |name value]; try (by intros [= -> _]).
  pose proof (parse_one_same vals name value (head args)) as Hone.
  destruct (parse_one _ _ _ _) as [v|v| |]; [| |done|done].
  - intros H. etrans; [by apply Hone|]. eapply IH; [|done]. lia.
  - destruct args as [|a args]; [done|]. cbn in Hle.
    intros H. etrans; [by apply Hone|]. eapply (IH args); [lia|done].
Qed.

Example duration_30s : ParseDuration "30s" = Some 30000000000%Z.
Proof. reflexivity. Qed.
Example duration_compound : ParseDuration "-1h2m3.5s" = Some (-3723500000000)%Z.
Proof. vm_compute. reflexivity. Qed.
Example duration_fraction : ParseDuration ".3h" = Some 1080000000000%Z.
Proof. vm_compute. reflexivity. Qed.
Example duration_bad : ParseDuration "5" = None /\ ParseDuration "s" = None /\ ParseDuration "10000000000s" = None.
Proof. vm_compute. done. Qed.

(** ** Settings on the command line *)

(** A duration as a text: its nanoseconds. *)
Definition duration_text (d : Z) : string :=
  if (d <? 0)%Z then String "-" (FormatUint (- d) +:+ "ns") else FormatUint d +:+ "ns".

Definition value_text (v : flag_value) : string :=
  match v with
  | FvString s => s
  | FvBool b => if b then "true" else "false"
  | FvDuration d => duration_text d
  | FvOther _ _ => ""
  end.

(** [--name=value] *)
Definition setting (nv : string * flag_value) : string :=
  "--" +:+ nv.1 +:+ String "=" (value_text nv.2).

Definition flag_name (name : string) : bool :=
  match name with
  | "" | String "-" _ => false
  | _ => no_char "=" name
  end.

Lemma fmt_digits_acc fuel n acc : fmt_digits fuel n acc = fmt_digits fuel n "" +:+ acc.
Proof.
  revert n acc. induction fuel as [|f IH]; intros n acc; cbn; [done|].
  destruct (n <? 10)%Z; [done|].
  rewrite (IH _ (String _ acc)), (IH _ (String _ "")). by autorewrite with str.
Qed.

Lemma leadingInt_digits fuel n acc :
  (0 <= n <= 2 ^ 63)%Z -> (n < 2 ^ Z.of_nat fuel)%Z ->
  leadingInt 0 (fmt_digits fuel n acc) = leadingInt n acc.
Proof.
  revert n acc. induction fuel as [|f IH]; intros n acc Hn Hf.
  { cbn in *. by replace n with 0%Z by lia. }
  rewrite Nat2Z.inj_succ, Z.pow_succ_r in Hf by lia.
  pose proof (Z.mod_pos_bound n 10 ltac:(lia)) as Hm.
  pose proof (Z_div_mod_eq_full n 10) as Hdm.
  assert (n / 10 <= 2 ^ 63 / 10)%Z as Hd by (apply Z.div_le_mono; lia).
  cbn [fmt_digits]. destruct (Z.ltb_spec n 10) as [Hlt|Hge]; [|rewrite IH by lia];
    cbn [leadingInt]; rewrite digit_val_char by done;
    [rewrite Z.mod_small by lia; replace (0 * 10 + n)%Z with n by lia
    |replace (n / 10 * 10 + n mod 10)%Z with n by lia];
    repeat (rewrite (proj2 (Z.ltb_ge _ _)); [|lia]); done.
Qed.

Lemma leadingInt_FormatUint n t :
  (0 <= n <= 2 ^ 63)%Z -> leadingInt 0 (FormatUint n +:+ t) = leadingInt n t.
Proof.
  intros Hn. unfold FormatUint. rewrite <- fmt_digits_acc.
  apply leadingInt_digits; [done|]. apply log2_bound. lia.
Qed.

Lemma duration_term_ns n :
  (0 <= n <= 2 ^ 63)%Z -> duration_term (FormatUint n +:+ "ns") = Some (n, "").
Proof.
  intros Hn. destruct (FormatUint_spec n) as (_ & Hne & _); [lia|].
  unfold duration_term. rewrite leadingInt_FormatUint by done.
  change (leadingInt n "ns") with (Some (n, "ns")).
  match goal with |- (Some ?x ≫= ?f) = _ => change (f x = Some (n, "")) end.
  cbv beta iota.
  rewrite (proj2 (Nat.eqb_neq _ _)); last first.
  { destruct (FormatUint n) as [|a D] eqn:E; [done|].
    rewrite length_sapp. cbn. lia. }
  cbn -[Z.pow Z.div leading_unit].
  change (leading_unit "ns") with ("ns", ""). cbn -[Z.pow Z.div unitMap].
  change (unitMap "ns") with (Some 1%Z). cbn -[Z.pow Z.div]. rewrite Z.div_1_r.
  rewrite (proj2 (Z.ltb_ge _ _)) by lia. rewrite Z.mul_1_r.
  by rewrite (proj2 (Z.ltb_ge _ _)) by lia.
Qed.

Lemma duration_terms_ns n :
  (0 <= n <= 2 ^ 63)%Z ->
  let s := FormatUint n +:+ "ns" in duration_terms (String.length s) 0 s = Some n.
Proof.
  intros Hn s. pose proof (duration_term_ns n Hn) as Ht. fold s in Ht.
  destruct s as [|a s']; [done|]. cbn [duration_terms String.length].
  rewrite Ht. cbn -[Z.pow]. rewrite (proj2 (Z.ltb_ge _ _)) by lia.
  by destruct (String.length s').
Qed.

Lemma ns_text n : FormatUint n +:+ "ns" <> "" /\ FormatUint n +:+ "ns" <> "0".
Proof.
  destruct (FormatUint n) as [|a D]; [done|]. rewrite sapp_cons. split; [done|].
  intros [= _ H]. by destruct D.
Qed.

Lemma FormatUint_unsigned n t :
  (0 <= n)%Z ->
  match FormatUint n +:+ t with
  | String "-" s => (true, s)
  | String "+" s => (false, s)
  | _ => (false, FormatUint n +:+ t)
  end = (false, FormatUint n +:+ t).
Proof.
  intros Hn. destruct (FormatUint_spec n Hn) as (Hdig & Hne & _).
  destruct (FormatUint n) as [|a D]; [done|]. rewrite sapp_cons. cbn in Hdig. clear Hne.
  destruct a as [[] [] [] [] [] [] [] []]; done.
Qed.

(** Every int64 of nanoseconds is read back from its text. *)
Lemma ParseDuration_text d :
  (- 2 ^ 63 <= d < 2 ^ 63)%Z -> ParseDuration (duration_text d) = Some d.
Proof.
  intros Hd. unfold ParseDuration, duration_text.
  destruct (Z.ltb_spec d 0) as [Hneg|Hpos].
  - destruct (ns_text (- d)) as [H1 H2].
    rewrite bool_decide_eq_false_2, bool_decide_eq_false_2 by done.
    rewrite duration_terms_ns by lia. cbn. f_equal. lia.
  - destruct (ns_text d) as [H1 H2]. rewrite FormatUint_unsigned by done.
    rewrite bool_decide_eq_false_2, bool_decide_eq_false_2 by done.
    rewrite duration_terms_ns by lia. cbn -[Z.pow].
    by rewrite (proj2 (Z.ltb_ge _ _)) by lia.
Qed.

(** What [Set] accepts back. *)
Definition settable (v : flag_value) : Prop :=
  match v with
  | FvDuration d => (- 2 ^ 63 <= d < 2 ^ 63)%Z
  | FvOther _ _ => False
  | _ => True
  end.

Lemma flag_set_text v w :
  same_kind v w = true -> settable w -> flag_set v (value_text w) = Some w.
Proof.
  destruct v, w; cbn; try done.
  - by destruct b0.
  - intros _ Hd. by rewrite ParseDuration_text.
Qed.

Lemma read_setting nv :
  flag_name nv.1 = true -> read_argument (setting nv) = FlagArg nv.1 (Some (value_text nv.2)).
Proof.
  destruct nv as [name v]. unfold setting. cbn [fst snd]. intros Hn.
  assert (no_char "=" name = true) as Hnc.
  { revert Hn. destruct name as [|a name]; [done|].
    destruct a as [[] [] [] [] [] [] [] []]; done. }
  destruct name as [|a name]; [done|].
  assert (flag_text (String a name +:+ String "=" (value_text v)) =
          let (n, x) := split_flag (String a name +:+ String "=" (value_text v)) in FlagArg n x)
    as Ht.
  { rewrite sapp_cons. clear -Hn Hnc. destruct a as [[] [] [] [] [] [] [] []]; done. }
  unfold split_flag in Ht. rewrite Cut_at in Ht by done. exact Ht.
Qed.

(** Settings written as [--name=value] are read back as they are. *)
Lemma Parse_settings vals sets :
  Forall (fun nv => flag_name nv.1 = true /\ settable nv.2 /\
            exists v, vals !! nv.1 = Some v /\ same_kind v nv.2 = true) sets ->
  GoFlag.Parse vals (map setting sets) =
    Parsed (foldl (fun m nv => <[nv.1 := nv.2]> m) vals sets) [].
Proof.
  intros H. revert vals H.
  induction sets as [|[name w] sets IH]; intros vals H; [done|].
  apply Forall_cons in H as [(Hn & Hw & v & Hv & Hk) H]. cbn [map foldl].
  cbn [GoFlag.Parse]. rewrite read_setting by done. cbn [fst snd] in *.
  assert (parse_one vals name (Some (value_text w)) (head (map setting sets)) =
          Assigned (<[name := w]> vals)) as ->.
  { unfold parse_one. rewrite Hv. unfold set_flag. cbn [default].
    destruct (IsBoolFlag v); cbn; by rewrite flag_set_text. }
  apply IH. eapply Forall_impl; [exact H|].
  intros [name' w'] (Hn' & Hw' & v' & Hv' & Hk'). cbn [fst snd] in *. split_and!; [done..|].
  destruct (decide (name' = name)) as [->|Hne].
  - exists w. rewrite lookup_insert_eq. split; [done|].
    rewrite Hv in Hv'. injection Hv' as <-. clear -Hk Hk'. by destruct v, w, w'.
  - exists v'. by rewrite lookup_insert_ne.
Qed.
