(* ===== verification/Api.v ===== *)
(** * Api: the custom resources and the Velero types the program reads

    One Record per Go struct of [src/src/api].  String-typed enums become
    inductive types with a constructor for the empty (unset) value; the CRDs
    restrict the stored values to these.  [metav1.Time] is a number of seconds,
    an error or condition message is a structured [text], and the ObjectMeta
    keeps the fields the program reads or sets. *)

From S2P Require Import Prelude.
From stdpp Require Import gmap strings.

(** ** k8s.io/apimachinery data *)

Record NamespacedName : Set := { nn_Namespace : string; nn_Name : string }.

#[export] Instance NamespacedName_eq_dec : EqDecision NamespacedName.
Proof. solve_decision. Defined.

#[export] Instance NamespacedName_countable : Countable NamespacedName.
Proof.
  by refine (inj_countable' (fun n => (nn_Namespace n, nn_Name n))
               (fun p => {| nn_Namespace := p.1; nn_Name := p.2 |}) _); intros [].
Defined.

Record OwnerReference : Set := {
  or_Kind : string;
  or_Name : string;
  or_UID : string;
  or_Controller : bool;
}.

Record ObjectMeta : Type := {
  om_Name : string;
  om_Namespace : string;
  om_UID : string;
  om_Generation : Z;
  om_DeletionTimestamp : option Z;
  om_Labels : gmap string string;
  om_OwnerReferences : list OwnerReference;
}.

Definition new_meta (name namespace : string) : ObjectMeta :=
  {| om_Name := name; om_Namespace := namespace; om_UID := ""; om_Generation := 0;
     om_DeletionTimestamp := None; om_Labels := ∅; om_OwnerReferences := [] |}.

Inductive ConditionStatus : Set := ConditionTrue | ConditionFalse | ConditionUnknown.

Record Condition : Set := {
  cond_Type : string;
  cond_Status : ConditionStatus;
  cond_Reason : string;
  cond_Message : text;
  cond_ObservedGeneration : Z;
}.

Record LabelSelectorRequirement : Set := {
  lsr_Key : string;
  lsr_Operator : string;
  lsr_Values : list string;
}.

Record LabelSelector : Type := {
  ls_MatchLabels : gmap string string;
  ls_MatchExpressions : list LabelSelectorRequirement;
}.

#[export] Instance ConditionStatus_eq_dec : EqDecision ConditionStatus.
Proof. solve_decision. Defined.
#[export] Instance Condition_eq_dec : EqDecision Condition.
Proof. solve_decision. Defined.

(** ** snapback.uds.dev/v1alpha1: BackupImport *)

Inductive ImportPhase : Set :=
| ImportUnset
| ImportPending
| ImportImporting
| ImportImported
| ImportFailed.

#[export] Instance ImportPhase_eq_dec : EqDecision ImportPhase.
Proof. solve_decision. Defined.

Record BackupImportSpec : Set := {
  bis_BackupName : string;
  bis_StorageLocation : string;
  bis_ManifestDocID : string;
}.

Record BackupImportStatus : Set := {
  bi_Phase : ImportPhase;
  bi_Conditions : list Condition;
  bi_FilesTotal : Z;
  bi_FilesImported : Z;
  bi_BytesImported : Z;
  bi_Committed : bool;
  bi_StartedAt : option Z;
  bi_CompletedAt : option Z;
  bi_RetryCount : Z;
  bi_ObservedGeneration : Z;
  bi_LastError : text;
}.

Record BackupImport : Type := {
  bi_Meta : ObjectMeta;
  bi_Spec : BackupImportSpec;
  bi_Status : BackupImportStatus;
}.

(** ** snapback.uds.dev/v1alpha1: BackupReplication *)

Inductive ReplicationPhase : Set :=
| PhaseUnset
| PhasePending
| PhaseStaging
| PhaseTransmitting
| PhaseReplicated
| PhaseFailed
| PhaseSkipped.

#[export] Instance ReplicationPhase_eq_dec : EqDecision ReplicationPhase.
Proof. solve_decision. Defined.

Inductive BundlePhase : Set :=
| BundlePending
| BundleInProgress
| BundleCompleted
| BundleFailed
| BundleCancelled.

#[export] Instance BundlePhase_eq_dec : EqDecision BundlePhase.
Proof. solve_decision. Defined.

Record BundleStatus : Set := {
  bs_BundleID : string;
  bs_FileCount : Z;
  bs_Bytes : Z;
  bs_Phase : BundlePhase;
  bs_DistributionIDs : list string;
  bs_BytesTransferred : Z;
}.

Record BackupReplicationSpec : Set := {
  brs_BackupName : string;
  brs_PolicyName : string;
  brs_StorageLocation : string;
}.

Record BackupReplicationStatus : Set := {
  br_Phase : ReplicationPhase;
  br_Conditions : list Condition;
  br_ObjectCount : Z;
  br_TotalBytes : Z;
  br_BytesTransferred : Z;
  br_Bundles : list BundleStatus;
  br_StartedAt : option Z;
  br_CompletedAt : option Z;
  br_RetryCount : Z;
  br_ObservedGeneration : Z;
  br_LastError : text;
}.

Record BackupReplication : Type := {
  br_Meta : ObjectMeta;
  br_Spec : BackupReplicationSpec;
  br_Status : BackupReplicationStatus;
}.

(** ** snapback.uds.dev/v1alpha1: ReplicationPolicy *)

Record SecretKeyRef : Set := {
  skr_Name : string;
  skr_Key : string;
  skr_Namespace : string;
}.

Record TargetSpec : Set := {
  ts_EndpointID : string;
  ts_NodeID : string;
  ts_Addresses : list string;
  ts_RelayURL : string;
}.

Record PeatSpec : Set := {
  ps_Address : string;
  ps_OutboxRoot : string;
  ps_OutboxPath : string;
}.

Record ObjectStoreSpec : Set := {
  oss_Endpoint : string;
  oss_Region : string;
  oss_CABundleSecretRef : option SecretKeyRef;
  oss_InsecureSkipTLSVerify : bool;
  oss_CredentialsSecretRef : option SecretKeyRef;
}.

Record ReplicationPolicySpec : Type := {
  rp_Paused : bool;
  rp_BackupStorageLocations : list string;
  rp_BackupStorageLocationSelector : option LabelSelector;
  rp_BackupSelector : option LabelSelector;
  rp_Target : TargetSpec;
  rp_Priority : string;
  rp_BundleByteLimit : Z;
  rp_BundleFileLimit : Z;
  rp_MaxConcurrentBundles : Z;
  rp_StaleAfter : option Z;
  rp_Peat : PeatSpec;
  rp_ObjectStore : ObjectStoreSpec;
}.

Record ReplicationPolicyStatus : Set := {
  rps_Conditions : list Condition;
  rps_BackupsReplicated : Z;
  rps_BytesReplicated : Z;
  rps_ObservedGeneration : Z;
}.

Record ReplicationPolicy : Type := {
  rp_Meta : ObjectMeta;
  rp_Spec : ReplicationPolicySpec;
  rp_Status : ReplicationPolicyStatus;
}.

(** ** velero.io/v1 *)

Inductive BackupPhase : Set :=
| BackupPhaseUnset
| BackupPhaseNew
| BackupPhaseInProgress
| BackupPhaseFinalizing
| BackupPhaseCompleted
| BackupPhasePartiallyFailed
| BackupPhaseFailed
| BackupPhaseFailedValidation
| BackupPhaseDeleting
| BackupPhaseOther (s : string).

#[export] Instance BackupPhase_eq_dec : EqDecision BackupPhase.
Proof. solve_decision. Defined.

Record BackupSpec : Set := {
  bk_StorageLocation : string;
  bk_IncludedNamespaces : list string;
  bk_DefaultVolumesToFsBackup : option bool;
  bk_SnapshotVolumes : option bool;
}.

Record BackupStatus : Set := {
  bk_Phase : BackupPhase;
  bk_StartTimestamp : option Z;
  bk_CompletionTimestamp : option Z;
  bk_Expiration : option Z;
}.

Record Backup : Type := {
  bk_Meta : ObjectMeta;
  bk_Spec : BackupSpec;
  bk_Status : BackupStatus;
}.

Record ObjectStorageLocation : Set := {
  osl_Bucket : string;
  osl_Prefix : string;
  osl_CACert : string;
}.

Record SecretKeySelector : Set := { sks_Name : string; sks_Key : string }.

(** [StorageType] is embedded: its one field is the spec's [ObjectStorage]. *)
Record BackupStorageLocationSpec : Type := {
  bsl_Provider : string;
  bsl_ObjectStorage : option ObjectStorageLocation;
  bsl_Config : option (gmap string string);
  bsl_Credential : option SecretKeySelector;
  bsl_Default : bool;
}.

Record BackupStorageLocation : Type := {
  bsl_Meta : ObjectMeta;
  bsl_Spec : BackupStorageLocationSpec;
  bsl_Phase : string;
}.
