(* ===== verification/Effects.v ===== *)
(** * Effects: calls to the outside, programs that make them, and how to reason
    about every answer

    A function of the program that touches the outside (files, clock, HTTP,
    minio-go, the Kubernetes API) is an [io] program: a tree of [call]s, each
    continuing with the answer.  Nothing is assumed of the answers here:
    - [safe G m h Q] states that for every answer to every call, each call obeys
      the guard [G] given the history before it, and the final history and
      result satisfy [Q];
    - [run hd m w] executes [m] against a handler over a world [W], which is how
      witnesses evaluate and how properties under documented behaviour of the
      outside are stated. *)

From S2P Require Import Prelude Api.
From stdpp Require Import gmap strings.

(** ** The calls *)

Record MinioOptions : Set := {
  mo_AccessKeyID : string;
  mo_SecretAccessKey : string;
  mo_SessionToken : string;
  mo_Secure : bool;
  mo_Region : string;
  mo_BucketLookupPath : bool;
  mo_TLS : option (bool * string);   (* InsecureSkipVerify, CA certificates *)
}.

Record minio_client : Set := { mc_Endpoint : string; mc_Options : MinioOptions }.

Record minio_object : Set := {
  mo_Key : string;
  mo_Size : Z;
  mo_ETag : string;
  mo_LastModified : Z;
}.

Inductive put_match : Set := MatchAny | MatchETag (etag : string) | MatchETagExcept (etag : string).

Record PutObjectOptions : Set := { po_ContentType : string; po_Match : put_match }.

(** one step of [filepath.WalkDir]: the path and the entry or the error *)
Inductive walk_entry : Set :=
| WalkFile (path : string)
| WalkDirectory (path : string)
| WalkError (path : string) (e : error).

Inductive http_response : Set :=
| HttpBadRequest (e : error)      (* http.NewRequestWithContext fails *)
| HttpFailed (e : error)          (* http.Client.Do fails *)
| HttpReply (status : Z) (body : string).

Inductive OperationResult : Set := OperationResultNone | OperationResultCreated | OperationResultUpdated.

Inductive call : Type :=
(* os, path/filepath *)
| OsMkdirAll (path : string)
| OsCreateTemp (dir pattern : string)
| OsWrite (file data : string)
| OsClose (file : string)
| OsRename (old new : string)
| OsRemove (path : string)
| OsStat (path : string)
| OsOpen (path : string)
| OsRead (path : string)
| OsWalkDir (root : string)
| OsReadFile (path : string)
| OsGetenv (name : string)
(* time, context *)
| TimeNow
| AwaitTick
(* net/http *)
| HttpPost (url body : string)
(* minio-go, crypto/x509 *)
| X509AppendCerts (pem : string)
| MinioDefaultTransport
| MinioNew (c : minio_client)
| MinioListObjects (c : minio_client) (bucket prefix : string)
| MinioGetObject (c : minio_client) (bucket key : string)
| MinioObjectStat (c : minio_client) (bucket key : string)
| MinioObjectRead (c : minio_client) (bucket key : string)
| MinioPutObject (c : minio_client) (bucket key : string) (body : string * option error)
    (size : Z) (opts : PutObjectOptions)
| MinioStatObject (c : minio_client) (bucket key : string)
(* controller-runtime *)
| KGetBackup (n : NamespacedName)
| KGetBackupReplication (n : NamespacedName)
| KGetReplicationPolicy (n : NamespacedName)
| KGetBackupStorageLocation (n : NamespacedName)
| KGetSecret (n : NamespacedName)
| KGetBackupImport (n : NamespacedName)
| KListReplicationPolicies
| KStatusUpdateBackupReplication (br : BackupReplication)
| KStatusUpdateBackupImport (bi : BackupImport)
| KCreateOrUpdateBackupReplication (br : BackupReplication)
    (mutate : BackupReplication -> res BackupReplication)
| KCreateOrUpdateBackupImport (bi : BackupImport) (mutate : BackupImport -> res BackupImport).

Definition resp (c : call) : Type :=
  match c with
  | OsMkdirAll _ | OsWrite _ _ | OsClose _ | OsRename _ _ | OsRemove _ | OsOpen _ => option error
  | OsCreateTemp _ _ => res string            (* the file's name *)
  | OsStat _ => res bool                      (* whether it is a directory *)
  | OsRead _ | MinioObjectRead _ _ _ => string * option error
  | OsWalkDir _ => list walk_entry
  | OsReadFile _ => res string
  | OsGetenv _ => string
  | TimeNow => Z
  | AwaitTick => option error                 (* ctx.Err() when the context is done *)
  | HttpPost _ _ => http_response
  | X509AppendCerts _ => bool
  | MinioDefaultTransport | MinioNew _ | MinioGetObject _ _ _ => option error
  | MinioListObjects _ _ _ => list (res minio_object)
  | MinioObjectStat _ _ _ | MinioStatObject _ _ _ => res minio_object
  | MinioPutObject _ _ _ _ _ _ => res string  (* the new ETag *)
  | KGetBackup _ => res Backup
  | KGetBackupReplication _ | KStatusUpdateBackupReplication _ => res BackupReplication
  | KGetReplicationPolicy _ => res ReplicationPolicy
  | KGetBackupStorageLocation _ => res BackupStorageLocation
  | KGetSecret _ => res (gmap string string)  (* Secret.Data *)
  | KGetBackupImport _ | KStatusUpdateBackupImport _ => res BackupImport
  | KListReplicationPolicies => res (list ReplicationPolicy)
  | KCreateOrUpdateBackupReplication _ _ | KCreateOrUpdateBackupImport _ _ => res OperationResult
  end.

(** ** Programs *)

(** [Hang] is a loop whose fuel ran out, [Panic] a Go run-time panic. *)
Inductive io (A : Type) : Type :=
| Ret (a : A)
| Call (c : call) (k : resp c -> io A)
| Hang
| Panic (what : string).
Arguments Ret {A} a.
Arguments Call {A} c k.
Arguments Hang {A}.
Arguments Panic {A} what.

Fixpoint io_bind {A B} (f : A -> io B) (m : io A) : io B :=
  match m with
  | Ret a => f a
  | Call c k => Call c (fun r => io_bind f (k r))
  | Hang => Hang
  | Panic what => Panic what
  end.

#[export] Instance io_mret : MRet io := fun A a => Ret a.
#[export] Instance io_mbind : MBind io := fun A B f m => io_bind f m.
#[export] Instance io_fmap : FMap io := fun A B f m => io_bind (fun a => Ret (f a)) m.

Definition perform (c : call) : io (resp c) := Call c Ret.

(** Go's [if err != nil { return ..., err }] *)
Definition try {A B} (r : res A) (k : A -> io (res B)) : io (res B) :=
  match r with Ok a => k a | Er e => Ret (Er e) end.

(** ** Histories *)

Record event : Type := Ev { ev_call : call; ev_resp : resp ev_call }.

(** A history lists the events so far, the latest first. *)
Abbreviation history := (list event).

Fixpoint safe {A} (G : history -> call -> Prop) (m : io A) (h : history)
    (Q : history -> A -> Prop) : Prop :=
  match m with
  | Ret a => Q h a
  | Call c k => G h c /\ forall r, safe G (k r) (Ev c r :: h) Q
  | Hang | Panic _ => True
  end.

Definition any_call : history -> call -> Prop := fun _ _ => True.

(** the steps of a proof; [safe] is kept folded where they are used *)
Lemma safe_ret {A} G (a : A) h (Q : history -> A -> Prop) : Q h a -> safe G (Ret a) h Q.
Proof. done. Qed.

Lemma safe_call {A} (G : history -> call -> Prop) c (k : resp c -> io A) h Q :
  G h c -> (forall r, safe G (k r) (Ev c r :: h) Q) -> safe G (Call c k) h Q.
Proof. done. Qed.

Lemma safe_bind {A B} G (m : io A) (f : A -> io B) h Q :
  safe G (m ≫= f) h Q <-> safe G m h (fun h' a => safe G (f a) h' Q).
Proof.
  revert h. induction m as [a|c k IH| |]; intros h; cbn; [done| |done|done].
  split; intros [HG H]; (split; [done|]); intros r; by apply IH, H.
Qed.

Lemma safe_mono {A} (G G' : history -> call -> Prop) (m : io A) h (Q Q' : history -> A -> Prop) :
  (forall h c, G h c -> G' h c) -> (forall h a, Q h a -> Q' h a) ->
  safe G m h Q -> safe G' m h Q'.
Proof.
  intros HG HQ. revert h. induction m as [a|c k IH| |]; intros h; cbn; [auto| |done|done].
  intros [? H]. split; [auto|]. intros r. apply IH, H.
Qed.

Lemma safe_and {A} G (m : io A) h Q Q' :
  safe G m h Q -> safe G m h Q' -> safe G m h (fun h' a => Q h' a /\ Q' h' a).
Proof.
  revert h. induction m as [a|c k IH| |]; intros h; cbn; [done| |done|done].
  intros [? H] [? H']. split; [done|]. intros r. by apply IH.
Qed.

Lemma safe_post {A} G (m : io A) h (Q Q' : history -> A -> Prop) :
  safe G m h Q -> (forall h a, Q h a -> Q' h a) -> safe G m h Q'.
Proof. intros H HQ. by eapply safe_mono; [| |exact H]. Qed.

Lemma safe_guard {A} (G G' : history -> call -> Prop) (m : io A) h Q :
  safe G m h Q -> (forall h c, G h c -> G' h c) -> safe G' m h Q.
Proof. intros H HG. by eapply safe_mono; [| |exact H]. Qed.

(** [m] then [f], with what is known between them *)
Lemma safe_then {A B} G (m : io A) (f : A -> io B) h P Q :
  safe G m h P -> (forall h' a, P h' a -> safe G (f a) h' Q) -> safe G (m ≫= f) h Q.
Proof. intros Hm Hf. apply safe_bind. by eapply safe_mono; [done| |exact Hm]. Qed.

(** the history only grows *)
Definition extends (h h' : history) : Prop := exists l, h' = l ++ h.

#[export] Instance extends_preorder : PreOrder extends.
Proof.
  split; [by exists []|]. intros h1 h2 h3 [l1 ->] [l2 ->]. exists (l2 ++ l1).
  by rewrite app_assoc.
Qed.

Lemma extends_cons e h : extends h (e :: h).
Proof. by exists [e]. Qed.

Lemma extends_in e h h' : extends h h' -> e ∈ h -> e ∈ h'.
Proof. intros [l ->]. set_solver. Qed.

#[export] Hint Resolve extends_cons : core.

Lemma safe_and_any {A} G (m : io A) h Q Q' :
  safe G m h Q -> safe any_call m h Q' -> safe G m h (fun h' a => Q h' a /\ Q' h' a).
Proof.
  revert h. induction m as [a|c k IH| |]; intros h; cbn; [done| |done|done].
  intros [? H] [_ H']. split; [done|]. intros r. by apply IH.
Qed.

Lemma safe_grows {A} (m : io A) h : safe any_call m h (fun h' _ => extends h h').
Proof.
  revert h. induction m as [a|c k IH| |]; intros h; cbn; [done| |done|done].
  split; [done|]. intros r. eapply safe_mono; [done| |apply IH].
  intros h' ? H. etrans; [apply (extends_cons (Ev c r))|exact H].
Qed.

Lemma safe_extends {A} G (m : io A) h Q :
  safe G m h Q -> safe G m h (fun h' a => Q h' a /\ extends h h').
Proof. intros H. apply safe_and_any; [done|apply safe_grows]. Qed.

Lemma safe_then_extends {A B} G (m : io A) (f : A -> io B) h P Q :
  safe G m h P -> (forall h' a, P h' a -> extends h h' -> safe G (f a) h' Q) ->
  safe G (m ≫= f) h Q.
Proof.
  intros Hm Hf. eapply safe_then; [apply safe_extends, Hm|]. intros h' a [HP Hh]. by apply Hf.
Qed.

Lemma safe_guards {A} G G' (m : io A) h Q Q' :
  safe G m h Q -> safe G' m h Q' -> safe (fun h c => G h c /\ G' h c) m h Q'.
Proof.
  revert h. induction m as [a|c k IH| |]; intros h; cbn; [done| |done|done].
  intros [? H] [? H']. split; [done|]. intros r. by apply IH.
Qed.

(** every call is made after the start *)
Lemma safe_since {A} G (m : io A) h0 h Q :
  extends h0 h -> safe G m h Q -> safe (fun h' c => G h' c /\ extends h0 h') m h Q.
Proof.
  revert h. induction m as [a|c k IH| |]; intros h Hh; cbn; [done| |done|done].
  intros [HG H]. split; [done|]. intros r. apply IH, H. etrans; [exact Hh|apply extends_cons].
Qed.

(** programs whose every call is of one kind, whatever was answered *)
Definition only (P : call -> Prop) {A} (m : io A) : Prop :=
  forall h, safe (fun _ => P) m h (fun _ _ => True).

Lemma only_ret (P : call -> Prop) {A} (a : A) : only P (Ret a).
Proof. done. Qed.

Lemma only_panic (P : call -> Prop) {A} what : only P (@Panic A what).
Proof. done. Qed.

Lemma only_call (P : call -> Prop) {A} c (k : resp c -> io A) :
  P c -> (forall r, only P (k r)) -> only P (Call c k).
Proof. intros Hc Hk h. split; [done|]. intros r. apply Hk. Qed.

Lemma only_perform (P : call -> Prop) c : P c -> only P (perform c).
Proof. intros Hc. apply only_call; [done|]. intros r. apply only_ret. Qed.

Lemma only_bind (P : call -> Prop) {A B} (m : io A) (f : A -> io B) :
  only P m -> (forall a, only P (f a)) -> only P (m ≫= f).
Proof.
  intros Hm Hf h. eapply safe_then; [apply Hm|]. intros h' a _. apply Hf.
Qed.

Lemma only_try (P : call -> Prop) {A B} (r : res A) (k : A -> io (res B)) :
  (forall a, only P (k a)) -> only P (try r k).
Proof. intros Hk. destruct r; [apply Hk|apply only_ret]. Qed.

Lemma only_weaken (P P' : call -> Prop) {A} (m : io A) :
  (forall c, P c -> P' c) -> only P m -> only P' m.
Proof. intros HP Hm h. eapply safe_guard; [apply Hm|]. intros ? c. apply HP. Qed.

Lemma only_safe (P : call -> Prop) {A} G (m : io A) :
  (forall h, exists Q, safe G m h Q) -> (forall h c, G h c -> P c) -> only P m.
Proof.
  intros Hm HG h. destruct (Hm h) as [Q HQ].
  eapply safe_post; [eapply safe_guard; [apply HQ|apply HG]|done].
Qed.

(** what is known of the result besides *)
Lemma only_post (P : call -> Prop) {A} (m : io A) h Q :
  only P m -> safe any_call m h Q -> safe (fun _ => P) m h Q.
Proof.
  intros Hm HQ. eapply safe_post; [exact (safe_and_any _ _ _ _ _ (Hm h) HQ)|].
  intros h' a Ha. apply Ha.
Qed.

(** the structure of a program; what is left are the calls and the loops *)
Ltac only_steps :=
  repeat match goal with
  | |- only _ (Ret _) => apply only_ret
  | |- only _ (Panic _) => apply only_panic
  | |- only _ (perform _) => apply only_perform; try exact I
  | |- only _ (_ ≫= _) => apply only_bind; [|intros ?]
  | |- only _ (try _ _) => apply only_try; intros ?
  | |- only _ (let '_ := ?x in _) => destruct x
  | |- only _ (if ?x then _ else _) => destruct x
  | |- only _ (match ?x with _ => _ end) => destruct x
  end.

(** ** Returning

    [safe] speaks of the results there are.  [returns X m h] states that there is
    one: whatever is answered, [m] comes to a result, unless it stops (out of
    fuel, or in a panic) after a history that [X] excuses; a program that [completes]
    always comes to a result. *)

Fixpoint returns {A} (excuse : history -> Prop) (m : io A) (h : history) : Prop :=
  match m with
  | Ret _ => True
  | Call c k => forall r, returns excuse (k r) (Ev c r :: h)
  | Hang | Panic _ => excuse h
  end.

Definition completes {A} (m : io A) : Prop := forall h, returns (fun _ => False) m h.

Lemma returns_weaken {A} (X X' : history -> Prop) (m : io A) h :
  (forall h', X h' -> X' h') -> returns X m h -> returns X' m h.
Proof.
  intros HX. revert h. induction m as [a|c k IH| |]; intros h; cbn; [done| |apply HX..].
  intros H r. by apply IH.
Qed.

Lemma completes_returns {A} X (m : io A) h : completes m -> returns X m h.
Proof. intros H. by eapply returns_weaken; [|apply H]. Qed.

Lemma returns_bind {A B} X (m : io A) (f : A -> io B) h :
  returns X m h -> (forall h' a, extends h h' -> returns X (f a) h') -> returns X (m ≫= f) h.
Proof.
  revert h. induction m as [a|c k IH| |]; intros h Hm Hf; cbn; [by apply Hf| |exact Hm..].
  intros r. apply IH; [apply Hm|]. intros h' a Hh. apply Hf. etrans; [apply extends_cons|exact Hh].
Qed.

(** with what is known between the two *)
Lemma returns_then {A B} X G (m : io A) (f : A -> io B) h P :
  returns X m h -> safe G m h P ->
  (forall h' a, P h' a -> extends h h' -> returns X (f a) h') -> returns X (m ≫= f) h.
Proof.
  revert h. induction m as [a|c k IH| |]; intros h Hm Hs Hf; cbn; [by apply Hf| |exact Hm..].
  intros r. destruct Hs as [_ Hs]. apply IH; [apply Hm|apply Hs|].
  intros h' a HP Hh. apply Hf; [done|]. etrans; [apply extends_cons|exact Hh].
Qed.

Lemma completes_bind {A B} (m : io A) (f : A -> io B) :
  completes m -> (forall a, completes (f a)) -> completes (m ≫= f).
Proof. intros Hm Hf h. apply returns_bind; [apply Hm|]. intros h' a _. apply Hf. Qed.

Lemma completes_ret {A} (a : A) : completes (Ret a).
Proof. done. Qed.

Lemma completes_perform c : completes (perform c).
Proof. done. Qed.

Lemma completes_call {A} c (k : resp c -> io A) : (forall r, completes (k r)) -> completes (Call c k).
Proof. intros Hk h r. apply Hk. Qed.

Lemma completes_try {A B} (r : res A) (k : A -> io (res B)) :
  (forall a, completes (k a)) -> completes (try r k).
Proof. intros Hk. destruct r; [apply Hk|apply completes_ret]. Qed.

Create HintDb completes discriminated.
#[export] Hint Resolve completes_ret : completes.
#[export] Hint Extern 1 (completes (perform _)) => apply completes_perform : completes.

(** the structure of a program; the database [completes] has the calls known to return *)
Ltac completes_steps :=
  repeat match goal with
  | |- completes (Ret _) => apply completes_ret
  | |- completes (perform _) => apply completes_perform
  | |- completes (Call _ _) => apply completes_call; intros ?; cbn [io_bind]
  | |- completes (_ ≫= _) => apply completes_bind; [|intros ?]
  | |- completes (try _ _) => apply completes_try; intros ?
  | |- completes _ => solve [eauto 4 with completes typeclass_instances nocore]
  | |- completes (let '_ := ?x in _) => destruct x
  | |- completes (if ?x then _ else _) => destruct x
  | |- completes (match ?x with _ => _ end) => destruct x
  end.

Definition handler (W : Type) : Type := forall c : call, W -> resp c * W.

(** ** A cooperative outside

    [under E m h Q]: when every answer satisfies [E], [m] comes to a result, without
    a panic and within its fuel, and the history and the result satisfy [Q]. *)

Definition expectation : Type := forall c : call, resp c -> Prop.

Fixpoint under {A} (E : expectation) (m : io A) (h : history)
    (Q : history -> A -> Prop) : Prop :=
  match m with
  | Ret a => Q h a
  | Call c k => forall r, E c r -> under E (k r) (Ev c r :: h) Q
  | Hang | Panic _ => False
  end.

Lemma under_mono {A} E (m : io A) h (Q Q' : history -> A -> Prop) :
  under E m h Q -> (forall h' a, Q h' a -> Q' h' a) -> under E m h Q'.
Proof.
  intros H HQ. revert h H. induction m as [a|c k IH| |]; intros h; cbn; [apply HQ| |done|done].
  intros H r Hr. by apply IH, H.
Qed.

Lemma under_expect {A} (E E' : expectation) (m : io A) h Q :
  (forall c r, E' c r -> E c r) -> under E m h Q -> under E' m h Q.
Proof.
  intros HE. revert h. induction m as [a|c k IH| |]; intros h; cbn; [done|..|done|done].
  intros H r Hr. by apply IH, H, HE.
Qed.

Lemma under_then {A B} E (m : io A) (f : A -> io B) h P Q :
  under E m h P -> (forall h' a, P h' a -> under E (f a) h' Q) -> under E (m ≫= f) h Q.
Proof.
  intros Hm Hf. revert h Hm.
  induction m as [a|c k IH| |]; intros h; cbn; [apply Hf| |done|done].
  intros H r Hr. by apply IH, H.
Qed.

(** ** Running against a handler *)

Fixpoint run {W A} (hd : handler W) (m : io A) (w : W) (h : history)
  : option (A * W * history) :=
  match m with
  | Ret a => Some (a, w, h)
  | Call c k => let (r, w') := hd c w in run hd (k r) w' (Ev c r :: h)
  | Hang | Panic _ => None
  end.

Lemma run_bind {W A B} (hd : handler W) (m : io A) (f : A -> io B) w h :
  run hd (m ≫= f) w h =
    match run hd m w h with
    | Some (a, w', h') => run hd (f a) w' h'
    | None => None
    end.
Proof.
  revert w h. induction m as [a|c k IH| |]; intros w h; cbn; [done| |done|done].
  destruct (hd c w). apply IH.
Qed.

(** every call of a run obeys the guard at the history before it *)
Lemma run_guards {W A} (hd : handler W) G (m : io A) (w : W) h Q a w' h' :
  safe G m h Q -> run hd m w h = Some (a, w', h') ->
  exists l, h' = l ++ h /\ forall l1 c r l2, l = l1 ++ Ev c r :: l2 -> G (l2 ++ h) c.
Proof.
  revert w h. induction m as [b|c k IH| |]; intros w h; cbn; [| |done|done].
  { intros _ [= <- <- <-]. exists []. split; [done|]. by intros [].  }
  intros [HG H]. destruct (hd c w) as [r w1]. intros Hrun.
  destruct (IH r w1 _ (H r) Hrun) as (l & -> & Hl). exists (l ++ [Ev c r]).
  rewrite <- app_assoc. split; [done|]. intros l1 c' r' l2 E.
  destruct l2 as [|x l2 _] using rev_ind.
  - apply app_inj_tail in E as [_ E]. by apply (f_equal ev_call) in E as [= <-].
  - rewrite app_comm_cons, app_assoc in E. apply app_inj_tail in E as [-> <-].
    rewrite <- app_assoc. by apply (Hl l1 c' r').
Qed.

(** whatever holds for all answers holds of a run *)
Lemma run_safe {W A} (hd : handler W) G (m : io A) w h Q a w' h' :
  safe G m h Q -> run hd m w h = Some (a, w', h') -> Q h' a.
Proof.
  revert w h. induction m as [b|c k IH| |]; intros w h; cbn; [naive_solver| |done|done].
  intros [_ H]. destruct (hd c w) as [r w1]. apply IH, H.
Qed.

(** a program that returns whatever is answered has a run *)
Lemma run_completes {W A} (hd : handler W) (m : io A) w h :
  completes m -> exists a w' h', run hd m w h = Some (a, w', h').
Proof.
  intros H. specialize (H h). revert w h H.
  induction m as [a|c k IH| |]; intros w h; cbn; [by do 3 eexists| |done|done].
  intros H. destruct (hd c w) as [r w1]. apply IH, H.
Qed.

(** a run, of a handler without a state, as what that handler's answers lead to *)
Lemma run_under {A} (reply : forall c, resp c) (m : io A) h a w h' :
  run (fun c (w : unit) => (reply c, w)) m tt h = Some (a, w, h') ->
  under (fun c r => r = reply c) m h (fun h1 a1 => h1 = h' /\ a1 = a).
Proof.
  revert h. induction m as [b|c k IH| |]; intros h; cbn; [naive_solver|..|done|done].
  intros H r ->. by apply IH.
Qed.

(** the run against a handler that cooperates *)
Lemma under_run {W A} E (hd : handler W) (m : io A) w h Q :
  (forall c w, E c (hd c w).1) -> under E m h Q ->
  exists a w' h', run hd m w h = Some (a, w', h') /\ Q h' a.
Proof.
  intros HE. revert w h. induction m as [a|c k IH| |]; intros w h; cbn; [|..|done|done].
  - intros H. by exists a, w, h.
  - intros H. specialize (HE c w) as Hr. destruct (hd c w) as [r w1]. by apply IH, H.
Qed.

(** the ticks of the poll timer that were granted so far *)
Definition is_tick (e : event) : bool :=
  match e with
  | Ev AwaitTick None => true
  | _ => false
  end.

Definition ticks (h : history) : nat := length (List.filter is_tick h).

Lemma ticks_extends h h' : extends h h' -> ticks h <= ticks h'.
Proof.
  intros [l ->]. unfold ticks. rewrite List.filter_app, length_app. lia.
Qed.

(** ** Concrete handlers

    An outside that refuses everything, from which handlers are built by
    answering some calls. *)

Definition ext_failure (text : string) : error :=
  EExt {| ee_text := text; ee_code := ""; ee_status := 0; ee_not_found := false |}.

Definition ext_missing (text : string) : error :=
  EExt {| ee_text := text; ee_code := "NoSuchKey"; ee_status := 404; ee_not_found := true |}.

Definition unavailable : error := ext_failure "unavailable".

Definition refuse (c : call) : resp c :=
  match c return resp c with
  | OsMkdirAll _ | OsWrite _ _ | OsClose _ | OsRename _ _ | OsRemove _ | OsOpen _ => Some unavailable
  | OsCreateTemp _ _ => Er unavailable
  | OsStat _ => Er unavailable
  | OsRead _ | MinioObjectRead _ _ _ => ("", Some unavailable)
  | OsWalkDir _ => []
  | OsReadFile _ => Er unavailable
  | OsGetenv _ => ""
  | TimeNow => 0%Z
  | AwaitTick => Some unavailable
  | HttpPost _ _ => HttpFailed unavailable
  | X509AppendCerts _ => false
  | MinioDefaultTransport | MinioNew _ | MinioGetObject _ _ _ => Some unavailable
  | MinioListObjects _ _ _ => [Er unavailable]
  | MinioObjectStat _ _ _ | MinioStatObject _ _ _ => Er unavailable
  | MinioPutObject _ _ _ _ _ _ => Er unavailable
  | KGetBackup _ => Er unavailable
  | KGetBackupReplication _ | KStatusUpdateBackupReplication _ => Er unavailable
  | KGetReplicationPolicy _ => Er unavailable
  | KGetBackupStorageLocation _ => Er unavailable
  | KGetSecret _ => Er unavailable
  | KGetBackupImport _ | KStatusUpdateBackupImport _ => Er unavailable
  | KListReplicationPolicies => Er unavailable
  | KCreateOrUpdateBackupReplication _ _ | KCreateOrUpdateBackupImport _ _ => Er unavailable
  end.
