(* ===== verification/Peat.v ===== *)
(** * Peat: the client of the peat sidecar ([internal/peat])

    The data of [client.go] and the Connect/JSON client of [connect.go].  A
    [connectClient] is a value threaded through the calls because
    [SendAttachments] records distribution ids in it; its mutex protects that
    one map and is not modelled (the program uses a client from one goroutine).
    Requests are printed and replies parsed as JSON; the HTTP exchange itself is
    the [HttpPost] call. *)

From S2P Require Import Prelude GoStrings GoJson Api Effects.
From stdpp Require Import gmap strings sorting.
From Stdlib Require Import Ascii.

(** ** client.go *)

Inductive Priority : Set :=
| PriorityBulk | PriorityLow | PriorityRoutine | PriorityPriority | PriorityCritical.

Inductive DistributionStatus : Set :=
| StatusPending | StatusInProgress | StatusCompleted | StatusFailed | StatusCancelled.

#[export] Instance Priority_eq_dec : EqDecision Priority.
Proof. solve_decision. Defined.
#[export] Instance DistributionStatus_eq_dec : EqDecision DistributionStatus.
Proof. solve_decision. Defined.

Definition Terminal (s : DistributionStatus) : bool :=
  match s with
  | StatusCompleted | StatusFailed | StatusCancelled => true
  | StatusPending | StatusInProgress => false
  end.

Record FileSpec : Set := {
  fs_RootName : string;
  fs_RelativePath : string;
  fs_Size : Z;              (* uint64 *)
  fs_SHA256 : string;       (* 32 raw bytes *)
  fs_ContentType : string;
  fs_DisplayName : string;
}.

#[export] Instance FileSpec_eq_dec : EqDecision FileSpec.
Proof. solve_decision. Defined.

Record Scope : Set := { sc_AllNodes : bool; sc_NodeIDs : list string }.

Record AttachmentHandle : Set := {
  ah_FileIndex : Z;         (* uint32 *)
  ah_BlobToken : string;
  ah_DistributionID : string;
}.

Record SendResult : Set := { sr_BundleID : string; sr_Handles : list AttachmentHandle }.

Record Progress : Set := {
  pg_DistributionID : string;
  pg_Status : DistributionStatus;
  pg_BytesTransferred : Z;  (* uint64 *)
  pg_BytesTotal : Z;        (* uint64 *)
  pg_Err : string;
}.

Record NodeStatus : Set := {
  ns_NodeID : string;
  ns_EndpointAddr : string;
  ns_SyncActive : bool;
  ns_ConnectedPeers : Z;    (* uint32 *)
  ns_Phase : string;
}.

(** ** connect.go *)

Definition svcPath : string := "/peat.sidecar.v1.PeatSidecar/".

Record connectClient : Set := {
  cc_baseURL : string;
  cc_bundles : gmap string (list string);   (* bundleID -> distributionIDs *)
}.

Definition New (address : string) : connectClient :=
  let base :=
    if negb (HasPrefix address "http://") && negb (HasPrefix address "https://")
    then "http://" +:+ address else address in
  {| cc_baseURL := TrimRight base slash; cc_bundles := ∅ |}.

(** [json.Marshal] of a Go map: members in the order of their keys *)
Definition key_le (a b : string * json) : Prop := String.le a.1 b.1.
#[export] Instance key_le_dec : RelDecision key_le.
Proof. intros a b. unfold key_le. apply _. Defined.

Definition json_map (l : list (string * json)) : json := JObj (merge_sort key_le l).

Definition json_strings (l : list string) : json := JArr (map JStr l).

(** *** [call]: one unary RPC *)

Record connect_error : Set := { ce_Code : string; ce_Message : string }.

Definition get_connect_error : decoder connect_error :=
  get_struct ["code"; "message"] (fun n e j =>
    if bool_decide (n = "code")
    then let (s, ok) := get_string (ce_Code e) j in
         ({| ce_Code := s; ce_Message := ce_Message e |}, ok)
    else let (s, ok) := get_string (ce_Message e) j in
         ({| ce_Code := ce_Code e; ce_Message := s |}, ok)).

Definition rpc_error (method : string) (status : Z) (rb : string) : error :=
  let '(cerr, _) := Unmarshal get_connect_error {| ce_Code := ""; ce_Message := "" |} rb in
  if bool_decide (ce_Code cerr <> "" \/ ce_Message cerr <> "")
  then EText [FStr "peat: "; FStr method; FStr ": "; FStr (ce_Code cerr); FStr ": ";
              FStr (ce_Message cerr)]
  else EText [FStr "peat: "; FStr method; FStr ": http "; FInt status; FStr ": "; FStr rb].

(** the body of a 2xx reply, or the error of any other outcome *)
Definition post (c : connectClient) (method : string) (req : json) : io (res string) :=
  r ← perform (HttpPost (cc_baseURL c +:+ svcPath +:+ method) (print req));
  Ret match r with
  | HttpBadRequest e => Er e
  | HttpFailed e => Er (errorf [FStr "peat: "; FStr method; FStr ": "] e)
  | HttpReply status rb =>
      if bool_decide (Z.quot status 100 <> 2)%Z then Er (rpc_error method status rb) else Ok rb
  end.

(** [call] with a response to decode into, starting from its zero value *)
Definition rpc {A} (c : connectClient) (method : string) (req : json)
    (get : decoder A) (zero : A) : io (res A) :=
  r ← post c method req;
  Ret (rb ← r;
        match Unmarshal get zero rb with
        | (a, None) => Ok a
        | (_, Some e) => Er (errorf [FStr "peat: unmarshal "; FStr method; FStr ": "] e)
        end).

(** [call] with a nil response *)
Definition rpc_nil (c : connectClient) (method : string) (req : json) : io (option error) :=
  r ← post c method req;
  Ret match r with Ok _ => None | Er e => Some e end.

(** *** Node status and peering *)

Definition zero_NodeStatus : NodeStatus :=
  {| ns_NodeID := ""; ns_EndpointAddr := ""; ns_SyncActive := false;
     ns_ConnectedPeers := 0; ns_Phase := "" |}.

Definition get_NodeStatus : decoder NodeStatus :=
  get_struct ["nodeId"; "endpointAddr"; "syncActive"; "connectedPeers"; "phase"]
    (fun n r j =>
      let '{| ns_NodeID := a; ns_EndpointAddr := b; ns_SyncActive := c;
              ns_ConnectedPeers := d; ns_Phase := e |} := r in
      if bool_decide (n = "nodeId") then
        let (x, ok) := get_string a j in
        ({| ns_NodeID := x; ns_EndpointAddr := b; ns_SyncActive := c;
            ns_ConnectedPeers := d; ns_Phase := e |}, ok)
      else if bool_decide (n = "endpointAddr") then
        let (x, ok) := get_string b j in
        ({| ns_NodeID := a; ns_EndpointAddr := x; ns_SyncActive := c;
            ns_ConnectedPeers := d; ns_Phase := e |}, ok)
      else if bool_decide (n = "syncActive") then
        let (x, ok) := get_bool c j in
        ({| ns_NodeID := a; ns_EndpointAddr := b; ns_SyncActive := x;
            ns_ConnectedPeers := d; ns_Phase := e |}, ok)
      else if bool_decide (n = "connectedPeers") then
        let (x, ok) := get_uint32 d j in
        ({| ns_NodeID := a; ns_EndpointAddr := b; ns_SyncActive := c;
            ns_ConnectedPeers := x; ns_Phase := e |}, ok)
      else
        let (x, ok) := get_string e j in
        ({| ns_NodeID := a; ns_EndpointAddr := b; ns_SyncActive := c;
            ns_ConnectedPeers := d; ns_Phase := x |}, ok)).

Definition Status (c : connectClient) : io (res NodeStatus) :=
  rpc c "GetStatus" (JObj []) get_NodeStatus zero_NodeStatus.

Definition EnsurePeer (c : connectClient) (endpointID : string) (addresses : list string)
    (relayURL : string) : io (option error) :=
  let req := [("endpointId", JStr endpointID)]
    ++ (if bool_decide (addresses <> []) then [("addresses", json_strings addresses)] else [])
    ++ (if bool_decide (relayURL <> "") then [("relayUrl", JStr relayURL)] else []) in
  rpc_nil c "ConnectPeer" (json_map req).

(** *** Sending a bundle *)

Definition protoPriority (p : Priority) : string :=
  match p with
  | PriorityLow => "ATTACHMENT_PRIORITY_LOW"
  | PriorityRoutine => "ATTACHMENT_PRIORITY_ROUTINE"
  | PriorityPriority => "ATTACHMENT_PRIORITY_PRIORITY"
  | PriorityCritical => "ATTACHMENT_PRIORITY_CRITICAL"
  | PriorityBulk => "ATTACHMENT_PRIORITY_BULK"
  end.

Definition fromProtoStatus (s : string) : DistributionStatus :=
  if bool_decide (s = "DISTRIBUTION_STATUS_IN_PROGRESS") then StatusInProgress
  else if bool_decide (s = "DISTRIBUTION_STATUS_COMPLETED") then StatusCompleted
  else if bool_decide (s = "DISTRIBUTION_STATUS_FAILED") then StatusFailed
  else if bool_decide (s = "DISTRIBUTION_STATUS_CANCELLED") then StatusCancelled
  else StatusPending.

Definition parseU64 (s : string) : Z := (ParseUint s).1.

Definition file_json (f : FileSpec) : json :=
  json_map
    ([("rootName", JStr (fs_RootName f));
      ("relativePath", JStr (fs_RelativePath f));
      ("sizeBytes", JStr (FormatUint (fs_Size f)));
      ("sha256", JStr (Base64Encode (fs_SHA256 f)))]
     ++ (if bool_decide (fs_ContentType f <> "")
         then [("contentType", JStr (fs_ContentType f))] else [])
     ++ (if bool_decide (fs_DisplayName f <> "")
         then [("displayName", JStr (fs_DisplayName f))] else [])).

(** [None]: neither all nodes nor a node list *)
Definition scope_json (s : Scope) : option json :=
  if sc_AllNodes s then Some (JObj [("allNodes", JObj [])])
  else if bool_decide (sc_NodeIDs s <> [])
  then Some (JObj [("nodeList", JObj [("nodeIds", json_strings (sc_NodeIDs s))])])
  else None.

Definition send_request (bundleID : string) (files : list FileSpec) (scopeJSON : json)
    (prio : Priority) : json :=
  json_map
    ([("files", JArr (map file_json files));
      ("scope", scopeJSON);
      ("priority", JStr (protoPriority prio))]
     ++ (if bool_decide (bundleID <> "") then [("bundleId", JStr bundleID)] else [])).

Definition zero_AttachmentHandle : AttachmentHandle :=
  {| ah_FileIndex := 0; ah_BlobToken := ""; ah_DistributionID := "" |}.

Definition get_AttachmentHandle : decoder AttachmentHandle :=
  get_struct ["fileIndex"; "blobToken"; "distributionId"] (fun n r j =>
    let '{| ah_FileIndex := a; ah_BlobToken := b; ah_DistributionID := c |} := r in
    if bool_decide (n = "fileIndex") then
      let (x, ok) := get_uint32 a j in
      ({| ah_FileIndex := x; ah_BlobToken := b; ah_DistributionID := c |}, ok)
    else if bool_decide (n = "blobToken") then
      let (x, ok) := get_string b j in
      ({| ah_FileIndex := a; ah_BlobToken := x; ah_DistributionID := c |}, ok)
    else
      let (x, ok) := get_string c j in
      ({| ah_FileIndex := a; ah_BlobToken := b; ah_DistributionID := x |}, ok)).

Definition get_SendResult : decoder SendResult :=
  get_struct ["bundleId"; "handles"] (fun n r j =>
    if bool_decide (n = "bundleId") then
      let (x, ok) := get_string (sr_BundleID r) j in
      ({| sr_BundleID := x; sr_Handles := sr_Handles r |}, ok)
    else
      let (x, ok) := get_slice zero_AttachmentHandle get_AttachmentHandle (sr_Handles r) j in
      ({| sr_BundleID := sr_BundleID r; sr_Handles := x |}, ok)).

(** the client after the distribution ids of a bundle are recorded *)
Definition record_bundle (c : connectClient) (r : SendResult) : connectClient :=
  {| cc_baseURL := cc_baseURL c;
     cc_bundles := <[sr_BundleID r := map ah_DistributionID (sr_Handles r)]> (cc_bundles c) |}.

Definition SendAttachments (c : connectClient) (bundleID : string) (files : list FileSpec)
    (scope : Scope) (priority : Priority) : io (res SendResult * connectClient) :=
  match scope_json scope with
  | None => Ret (Er (EText [FStr "peat: SendAttachments requires a scope (AllNodes or NodeIDs)"]), c)
  | Some scopeJSON =>
      r ← rpc c "SendAttachments" (send_request bundleID files scopeJSON priority)
            get_SendResult {| sr_BundleID := ""; sr_Handles := [] |};
      Ret match r with
      | Er e => (Er e, c)
      | Ok r => (Ok r, record_bundle c r)
      end
  end.

(** *** Distribution progress *)

Record distribution_reply : Set := {
  dr_Status : string;
  dr_BytesTransferred : string;
  dr_BytesTotal : string;
  dr_Error : string;
}.

Definition get_distribution_reply : decoder distribution_reply :=
  get_struct ["status"; "bytesTransferred"; "bytesTotal"; "error"] (fun n r j =>
    let '{| dr_Status := a; dr_BytesTransferred := b; dr_BytesTotal := c; dr_Error := d |} := r in
    if bool_decide (n = "status") then
      let (x, ok) := get_string a j in
      ({| dr_Status := x; dr_BytesTransferred := b; dr_BytesTotal := c; dr_Error := d |}, ok)
    else if bool_decide (n = "bytesTransferred") then
      let (x, ok) := get_string b j in
      ({| dr_Status := a; dr_BytesTransferred := x; dr_BytesTotal := c; dr_Error := d |}, ok)
    else if bool_decide (n = "bytesTotal") then
      let (x, ok) := get_string c j in
      ({| dr_Status := a; dr_BytesTransferred := b; dr_BytesTotal := x; dr_Error := d |}, ok)
    else
      let (x, ok) := get_string d j in
      ({| dr_Status := a; dr_BytesTransferred := b; dr_BytesTotal := c; dr_Error := x |}, ok)).

Definition progress_of (distributionID : string) (r : distribution_reply) : Progress :=
  {| pg_DistributionID := distributionID;
     pg_Status := fromProtoStatus (dr_Status r);
     pg_BytesTransferred := parseU64 (dr_BytesTransferred r);
     pg_BytesTotal := parseU64 (dr_BytesTotal r);
     pg_Err := dr_Error r |}.

Definition GetDistribution (c : connectClient) (distributionID : string) : io (res Progress) :=
  r ← rpc c "GetAttachmentDistribution" (JObj [("distributionId", JStr distributionID)])
        get_distribution_reply
        {| dr_Status := ""; dr_BytesTransferred := ""; dr_BytesTotal := ""; dr_Error := "" |};
  Ret (r ← r; Ok (progress_of distributionID r)).

(** one round over the distributions, stopping at the first error *)
Fixpoint poll_round (c : connectClient) (dists : list string) : io (res (list Progress)) :=
  match dists with
  | [] => Ret (Ok [])
  | d :: dists' =>
      r ← GetDistribution c d;
      try r (fun p =>
        rs ← poll_round c dists';
        Ret (ps ← rs; Ok (p :: ps)))
  end.

Definition all_terminal (ps : list Progress) : bool := forallb (fun p => Terminal (pg_Status p)) ps.

(** The poll loop of [WaitBundle]; [fuel] bounds the rounds. *)
Fixpoint wait_loop (fuel : nat) (c : connectClient) (dists : list string)
  : io (list Progress * option error) :=
  match fuel with
  | O => Hang
  | S fuel' =>
      r ← poll_round c dists;
      match r with
      | Er e => Ret ([], Some e)
      | Ok progs =>
          if all_terminal progs then Ret (progs, None)
          else
            done ← perform AwaitTick;
            match done with
            | Some e => Ret (progs, Some e)
            | None => wait_loop fuel' c dists
            end
      end
  end.

Definition WaitBundle (fuel : nat) (c : connectClient) (bundleID : string)
  : io (list Progress * option error) :=
  let dists := default [] (cc_bundles c !! bundleID) in
  if bool_decide (dists = [])
  then Ret ([], Some (EText [FStr "peat: no known distributions for bundle "; FQuo bundleID;
                              FStr " (re-send to repopulate)"]))
  else wait_loop fuel c dists.

(** *** Documents *)

Definition put_document_request (collection docID jsonData : string) : json :=
  json_map [("collection", JStr collection); ("docId", JStr docID); ("jsonData", JStr jsonData)].

Definition PutDocument (c : connectClient) (collection docID jsonData : string)
  : io (option error) :=
  rpc_nil c "PutDocument" (put_document_request collection docID jsonData).

Definition get_document_reply : decoder (option string) :=
  get_struct ["jsonData"] (fun _ => get_string_ptr).

(** [None]: the document does not exist *)
Definition GetDocument (c : connectClient) (collection docID : string)
  : io (res (option string)) :=
  rpc c "GetDocument" (json_map [("collection", JStr collection); ("docId", JStr docID)])
    get_document_reply None.

Definition ListDocuments (c : connectClient) (collection : string) : io (res (list string)) :=
  rpc c "ListDocuments" (json_map [("collection", JStr collection)])
    (get_struct ["docIds"] (fun _ => get_slice "" get_string)) [].

Definition Close (c : connectClient) : io (option error) := Ret None.

(** ** The interface of the client

    The operations that the controllers use; [C] is the client's own state, which a
    send may change.  A context is the end of a poll loop, so only [WaitBundle] has
    fuel. *)

Record Client (C : Type) : Type := {
  cl_Status : C -> io (res NodeStatus);
  cl_EnsurePeer : C -> string -> list string -> string -> io (option error);
  cl_SendAttachments : C -> string -> list FileSpec -> Scope -> Priority ->
    io (res SendResult * C);
  cl_GetDistribution : C -> string -> io (res Progress);
  cl_WaitBundle : nat -> C -> string -> io (list Progress * option error);
  cl_PutDocument : C -> string -> string -> string -> io (option error);
  cl_GetDocument : C -> string -> string -> io (res (option string));
  cl_ListDocuments : C -> string -> io (res (list string));
  cl_Close : C -> io (option error);
}.

Definition as_Client : Client connectClient :=
  {| cl_Status := Status; cl_EnsurePeer := EnsurePeer; cl_SendAttachments := SendAttachments;
     cl_GetDistribution := GetDistribution; cl_WaitBundle := WaitBundle;
     cl_PutDocument := PutDocument; cl_GetDocument := GetDocument;
     cl_ListDocuments := ListDocuments; cl_Close := Close |}.

(** a reply of status 200 is a success *)
Lemma quot_200 : bool_decide (Z.quot 200 100 <> 2)%Z = false.
Proof. reflexivity. Qed.

(** ** Every RPC returns *)

Lemma completes_post c method req : completes (post c method req).
Proof. unfold post. completes_steps. Qed.
#[export] Hint Resolve completes_post : completes.

Lemma completes_rpc {A} c method req (get : decoder A) zero : completes (rpc c method req get zero).
Proof. unfold rpc. completes_steps. Qed.
#[export] Hint Resolve completes_rpc : completes.

Lemma completes_rpc_nil c method req : completes (rpc_nil c method req).
Proof. unfold rpc_nil. completes_steps. Qed.
#[export] Hint Resolve completes_rpc_nil : completes.

Lemma completes_EnsurePeer c id addrs relay : completes (EnsurePeer c id addrs relay).
Proof. apply completes_rpc_nil. Qed.

Lemma completes_SendAttachments c id files scope prio : completes (SendAttachments c id files scope prio).
Proof. unfold SendAttachments. completes_steps. Qed.

Lemma completes_GetDistribution c id : completes (GetDistribution c id).
Proof. unfold GetDistribution. completes_steps. Qed.
#[export] Hint Resolve completes_EnsurePeer completes_SendAttachments completes_GetDistribution : completes.

Lemma completes_poll_round c dists : completes (poll_round c dists).
Proof. induction dists; cbn [poll_round]; completes_steps. Qed.

Lemma completes_PutDocument c coll id data : completes (PutDocument c coll id data).
Proof. apply completes_rpc_nil. Qed.

Lemma completes_GetDocument c coll id : completes (GetDocument c coll id).
Proof. apply completes_rpc. Qed.

Lemma completes_ListDocuments c coll : completes (ListDocuments c coll).
Proof. apply completes_rpc. Qed.
#[export] Hint Resolve completes_poll_round completes_PutDocument completes_GetDocument
  completes_ListDocuments : completes.

(** [WaitBundle] runs out of fuel only after [fuel] ticks of its timer *)
Lemma returns_wait_loop fuel c dists h :
  returns (fun h' => ticks h + fuel <= ticks h') (wait_loop fuel c dists) h.
Proof.
  revert h. induction fuel as [|fuel IH]; intros h; cbn [wait_loop]; [cbn; lia|].
  apply returns_bind; [apply completes_returns, completes_poll_round|]. intros h1 [ps|e] Hh1; [|done].
  destruct (all_terminal ps); [done|]. intros [e|]; [done|].
  eapply returns_weaken; [|apply IH]. intros h' Hh'. cbn in Hh'.
  apply ticks_extends in Hh1. unfold ticks in *. cbn in Hh'. lia.
Qed.

Lemma returns_WaitBundle fuel c bundleID h :
  returns (fun h' => ticks h + fuel <= ticks h') (WaitBundle fuel c bundleID) h.
Proof. unfold WaitBundle. case_bool_decide; [done|apply returns_wait_loop]. Qed.

(** ** Sizes on the wire *)

(** A size survives the wire: every uint64 printed as the JSON string that
    the sidecar exchanges parses back to itself; and whatever a reply holds, the
    parsed count is a uint64, 0 for a malformed one and the largest uint64 for one
    out of range. *)
Lemma parseU64_roundtrip n s :
  (0 <= n <= max_uint64)%Z ->
  parseU64 (FormatUint n) = n /\
  (0 <= parseU64 s <= max_uint64)%Z /\
  match (ParseUint s).2 with
  | None => True
  | Some ErrSyntax => parseU64 s = 0%Z
  | Some ErrRange => parseU64 s = max_uint64
  end.
Proof.
  intros Hn. unfold parseU64. rewrite ParseUint_FormatUint by done.
  destruct (ParseUint_spec s) as [Hr He]. split_and!; [done|lia|lia|].
  destruct (ParseUint s).2 as [e|]; [|done]. specialize (He e eq_refl). by destruct e.
Qed.

Lemma parseU64_roundtrip_example :
  parseU64 (FormatUint 18446744073709551615) = 18446744073709551615%Z /\
  (0 <= parseU64 "99999999999999999999" <= max_uint64)%Z /\
  parseU64 "99999999999999999999" = max_uint64.
Proof.
  exact (parseU64_roundtrip 18446744073709551615 "99999999999999999999"
           ltac:(unfold max_uint64; lia)).
Defined.

(** ** Sending a bundle *)

(** Sending a bundle makes one request, which names the bundle, its files in
    order with their sizes and digests, the scope and the priority; on success
    the client knows exactly the distributions of the reply's handles, in order,
    under the bundle id of the reply, and all other bundles as before; on an
    error it knows what it knew; and a scope of neither all nodes nor some node
    makes no request at all.  Sending always comes to a result. *)
Lemma SendAttachments_outcome c bundleID files scope prio h :
  match scope_json scope with
  | None => exists e, SendAttachments c bundleID files scope prio = Ret (Er e, c)
  | Some sj =>
      completes (SendAttachments c bundleID files scope prio) /\
      safe (fun h' call => h' = h /\ call =
              HttpPost (cc_baseURL c +:+ svcPath +:+ "SendAttachments")
                (print (send_request bundleID files sj prio)))
        (SendAttachments c bundleID files scope prio) h
        (fun _ r =>
           cc_baseURL r.2 = cc_baseURL c /\
           match r.1 with
           | Ok sent =>
               cc_bundles r.2 !! sr_BundleID sent = Some (map ah_DistributionID (sr_Handles sent)) /\
               forall id, id <> sr_BundleID sent -> cc_bundles r.2 !! id = cc_bundles c !! id
           | Er _ => r.2 = c
           end)
  end.
Proof.
  destruct (scope_json scope) as [sj|] eqn:Hsj; [|unfold SendAttachments; rewrite Hsj; by eexists].
  split; [apply completes_SendAttachments|].
  unfold SendAttachments, rpc, post. rewrite Hsj. cbn [io_bind mbind io_mbind perform safe].
  split; [done|]. intros r.
  match goal with |- context [match ?m with Er _ => (Er _, c) | Ok _ => _ end] =>
    destruct m as [sent|e] end; cbn [fst snd]; [|done].
  split_and!; [done|apply lookup_insert_eq|]. intros id Hid. by apply lookup_insert_ne.
Qed.

(** the sidecar at [c]'s address accepted a bundle and answered with [sent] *)
Definition bundle_sent (c : connectClient) (h : history) (bundleID : string)
    (files : list FileSpec) (scope : Scope) (prio : Priority) (sent : SendResult) : Prop :=
  exists sj status body, scope_json scope = Some sj /\
    Ev (HttpPost (cc_baseURL c +:+ svcPath +:+ "SendAttachments")
          (print (send_request bundleID files sj prio))) (HttpReply status body) ∈ h /\
    Z.quot status 100 = 2%Z /\
    Unmarshal get_SendResult {| sr_BundleID := ""; sr_Handles := [] |} body = (sent, None).

Lemma bundle_sent_mono c h h' id files scope prio sent :
  extends h h' -> bundle_sent c h id files scope prio sent ->
  bundle_sent c h' id files scope prio sent.
Proof. unfold bundle_sent. naive_solver eauto using extends_in. Qed.

Lemma SendAttachments_sent c id files scope prio h :
  safe any_call (SendAttachments c id files scope prio) h (fun h' r =>
    cc_baseURL r.2 = cc_baseURL c /\
    forall sent, r.1 = Ok sent -> bundle_sent c h' id files scope prio sent /\
      r.2 = record_bundle c sent).
Proof.
  unfold SendAttachments, bundle_sent. destruct (scope_json scope) as [sj|]; [|done]. unfold rpc, post.
  cbn [perform mbind io_mbind io_bind safe]. split; [done|]. intros [e|e|status body]; [done..|].
  case_bool_decide as Hs; [done|]. cbn [mbind result_bind].
  destruct (Unmarshal _ _ body) as [sent [e|]] eqn:E; [done|]. split; [done|].
  intros sent' [= <-]. split; [|done]. exists sj, status, body.
  split_and!; [done|constructor|lia|done].
Qed.

(** ** Waiting for a bundle *)

Definition distribution_request (id : string) : json := JObj [("distributionId", JStr id)].

Definition distribution_call (c : connectClient) (id : string) : call :=
  HttpPost (cc_baseURL c +:+ svcPath +:+ "GetAttachmentDistribution")
    (print (distribution_request id)).

Definition success (status : Z) : Prop := (Z.quot status 100 = 2)%Z.

(** the sidecar answered with this progress *)
Definition reported (c : connectClient) (h : history) (p : Progress) : Prop :=
  exists status body reply,
    Ev (distribution_call c (pg_DistributionID p)) (HttpReply status body) ∈ h /\
    success status /\
    Unmarshal get_distribution_reply
      {| dr_Status := ""; dr_BytesTransferred := ""; dr_BytesTotal := ""; dr_Error := "" |} body
      = (reply, None) /\
    p = progress_of (pg_DistributionID p) reply.

Lemma reported_mono c h h' p : extends h h' -> reported c h p -> reported c h' p.
Proof. unfold reported. naive_solver eauto using extends_in. Qed.

(** the calls of [WaitBundle] *)
Definition wait_call (c : connectClient) (dists : list string) (call : call) : Prop :=
  call = AwaitTick \/ exists id, id ∈ dists /\ call = distribution_call c id.

Section Waiting.
#[local] Arguments safe : simpl never.
Context (c : connectClient) (dists : list string).

Abbreviation G := (fun (_ : history) call => wait_call c dists call).

Lemma GetDistribution_safe id h :
  id ∈ dists ->
  safe G (GetDistribution c id) h (fun h' r => forall p, r = Ok p ->
    pg_DistributionID p = id /\ reported c h' p).
Proof.
  intros Hid. unfold GetDistribution, rpc, post. cbn [perform mbind io_mbind io_bind].
  apply safe_call; [right; by exists id|]. intros r. apply safe_ret. intros p Hp.
  destruct r as [e|e|status body]; [done..|]. case_bool_decide as Hs; [done|].
  cbn in Hp. destruct (Unmarshal _ _ body) as [reply [e|]] eqn:E; [done|].
  injection Hp as <-. split; [done|]. exists status, body, reply.
  split_and!; [constructor|done|done|done].
Qed.

Lemma poll_round_safe l h :
  (forall id, id ∈ l -> id ∈ dists) ->
  safe G (poll_round c l) h (fun h' r => forall ps, r = Ok ps ->
    map pg_DistributionID ps = l /\ Forall (reported c h') ps).
Proof.
  revert h. induction l as [|id l IH]; intros h Hl; cbn [poll_round].
  { apply safe_ret. by intros ps [= <-]. }
  eapply safe_then; [apply GetDistribution_safe, Hl; constructor|].
  intros h1 [p|e] Hp; [|by apply safe_ret]. destruct (Hp p eq_refl) as [<- Hrep].
  eapply safe_then_extends; [apply IH; intros; apply Hl; by constructor|].
  intros h2 [ps|e] Hps Hh2; apply safe_ret; [|done]. intros ps' [= <-].
  destruct (Hps ps eq_refl) as [<- Hall]. split; [done|]. constructor; [|done].
  by eapply reported_mono.
Qed.

(** the status of a distribution will not change any more *)
Definition finished (p : Progress) : Prop :=
  pg_Status p = StatusCompleted \/ pg_Status p = StatusFailed \/ pg_Status p = StatusCancelled.

Lemma all_terminal_iff ps : all_terminal ps = true <-> Forall finished ps.
Proof.
  assert (forall p, Terminal (pg_Status p) = true <-> finished p) as H.
  { intros p. unfold finished. destruct (pg_Status p); cbn; naive_solver. }
  unfold all_terminal. induction ps as [|p ps IH]; [done|]. cbn.
  by rewrite andb_true_iff, Forall_cons, IH, H.
Qed.

(** what the loop returns *)
Definition wait_outcome (h : history) (r : list Progress * option error) : Prop :=
  match r.2 with
  | None => map pg_DistributionID r.1 = dists /\ Forall finished r.1 /\
            Forall (reported c h) r.1
  | Some e => r.1 = [] \/ (map pg_DistributionID r.1 = dists /\ ~ Forall finished r.1 /\
                           Ev AwaitTick (Some e) ∈ h)
  end.

Lemma wait_loop_safe fuel h : safe G (wait_loop fuel c dists) h wait_outcome.
Proof.
  revert h. induction fuel as [|fuel IH]; intros h; cbn [wait_loop]; [done|].
  eapply safe_then; [by apply poll_round_safe|]. intros h1 [ps|e] Hps; [|by apply safe_ret; left].
  destruct (Hps ps eq_refl) as [Hids Hall]. destruct (all_terminal ps) eqn:Ht.
  { apply safe_ret. split_and!; [done|by apply all_terminal_iff|done]. }
  apply safe_call; [by left|]. intros [e|]; cbn; [|apply IH].
  apply safe_ret. right. split; [done|]. split; [|constructor]. cbn. by rewrite <- all_terminal_iff, Ht.
Qed.
End Waiting.

Lemma WaitBundle_safe fuel c bundleID h :
  let dists := default [] (cc_bundles c !! bundleID) in
  safe (fun _ => wait_call c dists) (WaitBundle fuel c bundleID) h (fun h' r =>
    wait_outcome c dists h' r /\ (r.2 = None -> dists <> []) /\ (dists = [] -> h' = h)).
Proof.
  intros dists. unfold WaitBundle. fold dists. case_bool_decide as Hd.
  - apply safe_ret. split; [by left|done].
  - eapply safe_mono; [| |apply (wait_loop_safe c dists)]; [done|]. intros h' r Hr. by split.
Qed.

(** C36: [WaitBundle] only polls the distributions recorded for the bundle.  It
    returns without an error only when there are some, with one progress per
    distribution in order, each an answer of the sidecar about it and each completed,
    failed or cancelled; with an error it returns no progress, or that of a round in
    which some distribution was none of these and after which the context ended.  A
    bundle without recorded distributions is an error at once.  It does return,
    unless its timer ticks [fuel] times. *)
Theorem WaitBundle_outcome fuel c bundleID h :
  let dists := default [] (cc_bundles c !! bundleID) in
  safe (fun _ => wait_call c dists) (WaitBundle fuel c bundleID) h (fun h' r =>
    wait_outcome c dists h' r /\ (r.2 = None -> dists <> []) /\ (dists = [] -> h' = h)) /\
  returns (fun h' => ticks h + fuel <= ticks h') (WaitBundle fuel c bundleID) h.
Proof. split; [apply WaitBundle_safe|apply returns_WaitBundle]. Qed.

(** A sidecar that completes the second of two distributions after a tick. *)
Definition late_sidecar : handler nat := fun c n =>
  match c as c return resp c * nat with
  | AwaitTick => (None, S n)
  | HttpPost _ body =>
      (HttpReply 200 (print (JObj [("status",
         JStr (if bool_decide (n = 0 /\ body = print (distribution_request "d2"))
               then "DISTRIBUTION_STATUS_IN_PROGRESS" else "DISTRIBUTION_STATUS_COMPLETED"))])), n)
  | c => (refuse c, n)
  end.

Definition late_client : connectClient := record_bundle (New "localhost:50051")
  {| sr_BundleID := "b1-0000"; sr_Handles :=
       [{| ah_FileIndex := 0; ah_BlobToken := ""; ah_DistributionID := "d1" |};
        {| ah_FileIndex := 1; ah_BlobToken := ""; ah_DistributionID := "d2" |}] |}.

Lemma WaitBundle_outcome_witness : exists progs h,
  run late_sidecar (WaitBundle 2 late_client "b1-0000") 0 [] = Some ((progs, None), 1, h) /\
  map pg_DistributionID progs = ["d1"; "d2"] /\ Forall finished progs /\
  Forall (reported late_client h) progs.
Proof.
  destruct (WaitBundle_outcome 2 late_client "b1-0000" []) as [Hs _].
  destruct (run late_sidecar (WaitBundle 2 late_client "b1-0000") 0 []) as [[[[progs e] n] h]|] eqn:E;
    [|vm_compute in E; discriminate E].
  destruct (run_safe _ _ _ _ _ _ _ _ _ Hs E) as [Ho _].
  assert (e = None /\ n = 1) as [-> ->] by (vm_compute in E; injection E as _ <- <- _; done).
  exists progs, h. split; [reflexivity|]. exact Ho.
Defined.

(** *** Termination *)

Section WaitTermination.
Context {W : Type} (hd : handler W) (ticks : W -> nat).
(** the context has so many ticks left: it ends by a deadline or a cancellation *)
Context (Htick : forall w, match hd AwaitTick w with
                           | (Some _, _) => True
                           | (None, w') => ticks w' < ticks w
                           end).
Context (Hpost : forall url body w, ticks (hd (HttpPost url body) w).2 <= ticks w).

Lemma run_poll_round c l w h :
  exists r w' h', run hd (poll_round c l) w h = Some (r, w', h') /\ ticks w' <= ticks w.
Proof.
  revert w h. induction l as [|id l IH]; intros w h; cbn [poll_round].
  { do 3 eexists. split; [done|lia]. }
  rewrite run_bind. unfold GetDistribution, rpc, post. cbn [perform mbind io_mbind io_bind run].
  pose proof (Hpost (cc_baseURL c +:+ svcPath +:+ "GetAttachmentDistribution")
                (print (JObj [("distributionId", JStr id)])) w) as Hw.
  destruct (hd _ w) as [r w1]. cbn in Hw.
  match goal with |- context [try ?m _] => destruct m as [p|e] end; cbn [try].
  - rewrite run_bind. match goal with |- context [run hd (poll_round c l) w1 ?h1] =>
      destruct (IH w1 h1) as (r' & w2 & h2 & -> & Hw2) end.
    do 3 eexists. split; [done|lia].
  - do 3 eexists. split; [done|lia].
Qed.

(** [WaitBundle] returns: whatever the sidecar answers, when the context
    has [n] ticks left, [n + 1] rounds of polling are enough for a result. *)
Lemma WaitBundle_terminates fuel c bundleID w h :
  ticks w < fuel -> exists r w' h', run hd (WaitBundle fuel c bundleID) w h = Some (r, w', h').
Proof.
  unfold WaitBundle. case_bool_decide; [by do 3 eexists|].
  generalize (default [] (cc_bundles c !! bundleID)). intros dists.
  revert w h. induction fuel as [|fuel IH]; intros w h Hf; [lia|]. cbn [wait_loop].
  rewrite run_bind. destruct (run_poll_round c dists w h) as (r & w1 & h1 & -> & Hw1).
  destruct r as [ps|e]; [|by do 3 eexists]. destruct (all_terminal ps); [by do 3 eexists|].
  cbn. pose proof (Htick w1) as Ht. destruct (hd AwaitTick w1) as [[e|] w2]; cbn; [by do 3 eexists|].
  apply IH. lia.
Qed.
End WaitTermination.

(** a sidecar that never finishes, under a context with [n] ticks left *)
Definition busy_sidecar : handler nat := fun c n =>
  match c as c return resp c * nat with
  | AwaitTick => match n with O => (Some unavailable, O) | S n' => (None, n') end
  | HttpPost _ _ => (HttpReply 200 "{}", n)
  | c => (refuse c, n)
  end.

Definition waiting_client : connectClient :=
  {| cc_baseURL := "http://localhost:50051"; cc_bundles := {[ "b1-0000" := ["d1"; "d2"] ]} |}.

Lemma WaitBundle_terminates_example :
  exists r w' h', run busy_sidecar (WaitBundle 4 waiting_client "b1-0000") 3 [] = Some (r, w', h').
Proof.
  apply (WaitBundle_terminates busy_sidecar (fun n => n)).
  - intros [|n]; [exact I|cbn; lia].
  - intros url body n. cbn. lia.
  - lia.
Defined.
