(* ===== verification/Batching.v ===== *)
(** * Batching: packing staged files into bundles ([internal/batching])

    [Pack] is the loop of [batching.go] with its two limits and their defaults,
    on uint64 byte counts that wrap.  The theorems: nothing is lost or
    reordered, every batch respects the limits, the number of batches is the
    least possible, and appending files leaves all earlier batches but the last
    unchanged, which is what keeps bundle ids stable. *)

From S2P Require Import Prelude Peat.
From stdpp Require Import list.
From Stdlib Require Import ZifyBool.

Record Batch : Set := { b_Files : list FileSpec; b_Bytes : Z }.

Definition empty_batch : Batch := {| b_Files := []; b_Bytes := 0 |}.

(** the limits after the defaults: 64 files, 1 GiB *)
Definition file_cap (maxFiles : Z) : Z := if (maxFiles <=? 0)%Z then 64 else maxFiles.
Definition byte_cap (maxBytes : Z) : Z := if (maxBytes =? 0)%Z then 2 ^ 30 else maxBytes.

Definition add_file (cur : Batch) (f : FileSpec) : Batch :=
  {| b_Files := b_Files cur ++ [f]; b_Bytes := uint64 (b_Bytes cur + fs_Size f) |}.

Definition flush (st : list Batch * Batch) : list Batch * Batch :=
  let (batches, cur) := st in
  if bool_decide (0 < length (b_Files cur)) then (batches ++ [cur], empty_batch) else st.

Definition would_exceed (maxFiles maxBytes : Z) (cur : Batch) (f : FileSpec) : bool :=
  let wouldExceedFiles := (maxFiles <? Z.of_nat (length (b_Files cur)) + 1)%Z in
  let wouldExceedBytes :=
    bool_decide (0 < length (b_Files cur)) && (maxBytes <? uint64 (b_Bytes cur + fs_Size f))%Z in
  wouldExceedFiles || wouldExceedBytes.

Definition pack_step (maxFiles maxBytes : Z) (st : list Batch * Batch) (f : FileSpec)
  : list Batch * Batch :=
  let (batches, cur) := if would_exceed maxFiles maxBytes st.2 f then flush st else st in
  (batches, add_file cur f).

Definition Pack (files : list FileSpec) (maxFiles maxBytes : Z) : list Batch :=
  (flush (fold_left (pack_step (file_cap maxFiles) (byte_cap maxBytes)) files
            ([], empty_batch))).1.

(** ** The loop as a recursion on the files that are left *)

Definition flushed (cur : Batch) : list Batch :=
  if bool_decide (0 < length (b_Files cur)) then [cur] else [].

Fixpoint pack_from (mf mb : Z) (cur : Batch) (files : list FileSpec) : list Batch :=
  match files with
  | [] => flushed cur
  | f :: files' =>
      if would_exceed mf mb cur f
      then flushed cur ++ pack_from mf mb (add_file empty_batch f) files'
      else pack_from mf mb (add_file cur f) files'
  end.

Lemma fold_pack_from mf mb files batches cur :
  (forall f, would_exceed mf mb empty_batch f = false) ->
  (flush (fold_left (pack_step mf mb) files (batches, cur))).1
  = batches ++ pack_from mf mb cur files.
Proof.
  intros He. revert batches cur. induction files as [|f files IH]; intros batches cur; cbn.
  - unfold flushed. case_bool_decide; cbn; by rewrite ?app_nil_r.
  - assert (pack_step mf mb (batches, cur) f
            = if would_exceed mf mb cur f then (batches ++ flushed cur, add_file empty_batch f)
              else (batches, add_file cur f)) as ->.
    { unfold pack_step, flush, flushed. cbn. destruct (would_exceed mf mb cur f) eqn:E; [|done].
      case_bool_decide as Hl; [done|]. exfalso. specialize (He f).
      unfold would_exceed in E, He. rewrite bool_decide_eq_false_2 in E by done.
      apply orb_false_iff in He as [He _]. rewrite orb_false_r in E.
 cbn in He. lia. }
    destruct (would_exceed mf mb cur f); rewrite IH; [by rewrite <- app_assoc|done].
Qed.

Lemma file_cap_pos maxFiles : (1 <= file_cap maxFiles)%Z.
Proof. unfold file_cap. destruct (Z.leb_spec maxFiles 0); lia. Qed.

Lemma empty_never_exceeds mf mb f : (1 <= mf)%Z -> would_exceed mf mb empty_batch f = false.
Proof. intros H. unfold would_exceed. cbn. apply orb_false_iff. split; [lia|done].
Qed.

Lemma Pack_pack_from files maxFiles maxBytes :
  Pack files maxFiles maxBytes
  = pack_from (file_cap maxFiles) (byte_cap maxBytes) empty_batch files.
Proof.
  unfold Pack. rewrite fold_pack_from; [done|].
  intros f. apply empty_never_exceeds, file_cap_pos.
Qed.

Lemma flushed_nonempty cur : b_Files cur <> [] -> flushed cur = [cur].
Proof. unfold flushed. destruct (b_Files cur); [done|]. by rewrite bool_decide_eq_true_2 by (cbn; lia). Qed.

Lemma flushed_concat cur : concat (map b_Files (flushed cur)) = b_Files cur.
Proof.
  destruct (decide (b_Files cur = [])) as [E|E].
  - unfold flushed. by rewrite E.
  - rewrite flushed_nonempty by done. cbn. by rewrite app_nil_r.
Qed.

(** *** Nothing is lost or reordered *)

Lemma pack_from_concat mf mb cur files :
  concat (map b_Files (pack_from mf mb cur files)) = b_Files cur ++ files.
Proof.
  revert cur. induction files as [|f files IH]; intros cur; cbn.
  - by rewrite flushed_concat, app_nil_r.
  - destruct (would_exceed mf mb cur f).
    + by rewrite map_app, concat_app, flushed_concat, IH.
    + rewrite IH. cbn. by rewrite <- app_assoc.
Qed.

(** *** The limits *)

Fixpoint total_size (files : list FileSpec) : Z :=
  match files with [] => 0 | f :: files' => fs_Size f + total_size files' end%Z.

(** what one bundle may hold: one file, or files within both limits *)
Definition fits (mf mb : Z) (files : list FileSpec) : Prop :=
  (Z.of_nat (length files) <= mf)%Z /\ (length files <= 1 \/ (total_size files <= mb)%Z).

(** sizes as the stager reports them: an int64 byte count *)
Definition sizes_ok (files : list FileSpec) : Prop :=
  Forall (fun f => 0 <= fs_Size f < 2 ^ 63)%Z files.

Lemma total_size_app l k : total_size (l ++ k) = (total_size l + total_size k)%Z.
Proof. induction l as [|f l IH]; cbn; [done|]. rewrite IH. lia. Qed.

Lemma total_size_nonneg l : sizes_ok l -> (0 <= total_size l)%Z.
Proof. induction 1; cbn; lia. Qed.

Lemma fits_prefix mf mb l k : sizes_ok (l ++ k) -> fits mf mb (l ++ k) -> fits mf mb l.
Proof.
  intros [Hl Hk]%Forall_app [H1 H2]. pose proof (total_size_nonneg k Hk).
  rewrite length_app in H1, H2. rewrite total_size_app in H2. split; lia.
Qed.

Lemma fits_suffix mf mb l k : sizes_ok (l ++ k) -> fits mf mb (l ++ k) -> fits mf mb k.
Proof.
  intros [Hl Hk]%Forall_app [H1 H2]. pose proof (total_size_nonneg l Hl).
  rewrite length_app in H1, H2. rewrite total_size_app in H2. split; lia.
Qed.

(** A batch in progress: its files fit and its byte count is exact. *)
Definition batch_ok (mf mb : Z) (b : Batch) : Prop :=
  sizes_ok (b_Files b) /\ b_Bytes b = total_size (b_Files b) /\ fits mf mb (b_Files b).

Section Limits.
Context (mf mb : Z) (Hmf : (1 <= mf)%Z) (Hmb : (0 <= mb <= 2 ^ 63)%Z).

(** no wrap-around on the way: a batch of several files stays within 2^63 *)
Lemma batch_sum_bound b f :
  batch_ok mf mb b -> (0 <= fs_Size f < 2 ^ 63)%Z ->
  (0 <= b_Bytes b + fs_Size f < 2 ^ 64)%Z.
Proof.
  intros (Hs & -> & [_ Hf]) Hsz. pose proof (total_size_nonneg _ Hs).
  destruct Hf as [Hf|Hf]; [|lia].
  destruct (b_Files b) as [|g [|]]; cbn in *; [lia| |lia].
  apply Forall_cons in Hs as [? _]. lia.
Qed.

Lemma would_exceed_iff b f :
  batch_ok mf mb b -> (0 <= fs_Size f < 2 ^ 63)%Z ->
  would_exceed mf mb b f = false <-> fits mf mb (b_Files b ++ [f]).
Proof.
  intros Hb Hsz. pose proof (batch_sum_bound b f Hb Hsz) as Hsum.
  destruct Hb as (Hs & Hbytes & _). unfold would_exceed, fits.
  rewrite uint64_small, length_app, total_size_app, Hbytes by done. cbn.
  rewrite Z.add_0_r. case_bool_decide; cbn.
  - rewrite orb_false_iff, !Z.ltb_ge. lia.
  - rewrite orb_false_r, Z.ltb_ge. lia.
Qed.

Lemma add_file_ok b f :
  batch_ok mf mb b -> (0 <= fs_Size f < 2 ^ 63)%Z -> fits mf mb (b_Files b ++ [f]) ->
  batch_ok mf mb (add_file b f).
Proof.
  intros Hb Hsz Hf. pose proof (batch_sum_bound b f Hb Hsz) as Hsum.
  destruct Hb as (Hs & Hbytes & _). unfold batch_ok, add_file. cbn. split_and!; [|..|done].
  - apply Forall_app. split; [done|]. by constructor.
  - rewrite uint64_small, total_size_app by done. cbn. lia.
Qed.

Lemma empty_batch_ok : batch_ok mf mb empty_batch.
Proof. split_and!; [constructor|done|]. split; cbn; lia. Qed.

Lemma single_ok f : (0 <= fs_Size f < 2 ^ 63)%Z -> batch_ok mf mb (add_file empty_batch f).
Proof.
  intros Hf. apply add_file_ok; [apply empty_batch_ok|done|]. split; cbn; lia.
Qed.

Lemma pack_from_ok cur files :
  batch_ok mf mb cur -> sizes_ok files ->
  Forall (fun b => b_Files b <> [] /\ batch_ok mf mb b) (pack_from mf mb cur files).
Proof.
  assert (forall b, batch_ok mf mb b ->
    Forall (fun b => b_Files b <> [] /\ batch_ok mf mb b) (flushed b)) as Hfl.
  { intros b Hb. unfold flushed. case_bool_decide; constructor; [|done].
    split; [|done]. by destruct (b_Files b); cbn in *; [lia|]. }
  revert cur. induction files as [|f files IH]; intros cur Hc Hs; cbn; [by apply Hfl|].
  apply Forall_cons in Hs as [Hf Hs]. destruct (would_exceed mf mb cur f) eqn:E.
  - apply Forall_app. split; [by apply Hfl|]. apply IH; [by apply single_ok|done].
  - apply IH; [|done]. apply add_file_ok; [done..|]. by apply would_exceed_iff.
Qed.
End Limits.

(** *** Least number of batches *)

(** Dropping the first files of a partition: no more parts are needed for the
    rest, and one less when those files and the next one do not fit together. *)
Lemma trim_parts mf mb parts x r :
  concat parts = x ++ r -> sizes_ok (x ++ r) -> Forall (fits mf mb) parts -> x <> [] ->
  exists parts', concat parts' = r /\ Forall (fits mf mb) parts' /\
    length parts' <= length parts /\
    (forall f r', r = f :: r' -> ~ fits mf mb (x ++ [f]) -> length parts' < length parts).
Proof.
  revert x. induction parts as [|p parts IH]; intros x Hc Hs Hf Hx; cbn in Hc.
  { destruct x; [done|discriminate]. }
  apply Forall_cons in Hf as [Hp Hf]. apply app_eq_inv in Hc as [(k & -> & Hr)|(k & -> & Hr)].
  - (* the files dropped lie within the first part *)
    destruct k as [|g k].
    + exists parts. cbn. split_and!; [done|done|lia|lia].
    + exists ((g :: k) :: parts). cbn. split_and!; [done| |lia|].
      * constructor; [|done]. rewrite Hr, app_assoc in Hs. apply Forall_app in Hs as [Hs _].
        by eapply fits_suffix.
      * intros f r' Hrf Hnf. exfalso. apply Hnf.
        assert (g = f) as -> by (rewrite Hrf in Hr; by injection Hr).
        rewrite Hr, app_assoc in Hs. apply Forall_app in Hs as [Hs _].
        change (f :: k) with ([f] ++ k) in Hs, Hp. rewrite app_assoc in Hs, Hp.
        by eapply fits_prefix.
  - (* the first part is dropped altogether *)
    destruct k as [|g k].
    + exists parts. cbn. split_and!; [done|done|lia|lia].
    + destruct (IH (g :: k)) as (parts' & Hc' & Hf' & Hlen & _); [done| |done|done|].
      { rewrite <- app_assoc in Hs. by apply Forall_app in Hs as [_ Hs]. }
      exists parts'. cbn. split_and!; [done|done|lia|lia].
Qed.

Lemma pack_from_least mf mb cur files parts :
  (1 <= mf)%Z -> (0 <= mb <= 2 ^ 63)%Z -> batch_ok mf mb cur -> b_Files cur <> [] ->
  sizes_ok files -> Forall (fits mf mb) parts -> concat parts = b_Files cur ++ files ->
  length (pack_from mf mb cur files) <= length parts.
Proof.
  intros Hmf Hmb. revert cur parts.
  induction files as [|f files IH]; intros cur parts Hc Hne Hs Hp Hcat; cbn.
  - rewrite flushed_nonempty by done. destruct parts; cbn in *; [|lia].
    rewrite app_nil_r in Hcat. by rewrite <- Hcat in Hne.
  - apply Forall_cons in Hs as [Hf Hs]. destruct (would_exceed mf mb cur f) eqn:E.
    + destruct (trim_parts mf mb parts (b_Files cur) (f :: files))
        as (parts' & Hc' & Hp' & _ & Hlt); [done| |done|done|].
      { apply Forall_app. split; [apply Hc|by constructor]. }
      assert (length parts' < length parts) as Hl.
      { apply (Hlt f files); [done|]. intros Hfit. apply would_exceed_iff in Hfit; [|done..].
        congruence. }
      rewrite length_app, flushed_nonempty by done. cbn.
      assert (length (pack_from mf mb (add_file empty_batch f) files) <= length parts'); [|lia].
      apply IH; [by apply single_ok|done|done|done|done].
    + apply IH; [|cbn; by destruct (b_Files cur)|done|done|].
      * apply add_file_ok; [done..|]. by apply would_exceed_iff.
      * cbn. by rewrite Hcat, <- app_assoc.
Qed.

(** *** Earlier batches are stable *)

Lemma flushed_prefix cur mf mb files : 
  exists l, pack_from mf mb cur files = l /\ removelast (flushed cur) `prefix_of` l.
Proof.
  eexists; split; [done|]. unfold flushed. case_bool_decide; apply prefix_nil.
Qed.

Lemma removelast_app_cons {A} (l k : list A) :
  k <> [] -> removelast (l ++ k) = l ++ removelast k.
Proof. intros. by apply removelast_app. Qed.

Lemma pack_from_prefix mf mb cur files more :
  removelast (pack_from mf mb cur files) `prefix_of` pack_from mf mb cur (files ++ more).
Proof.
  revert cur. induction files as [|f files IH]; intros cur; cbn.
  - destruct (flushed_prefix cur mf mb more) as (l & -> & H). done.
  - destruct (would_exceed mf mb cur f); [|apply IH].
    destruct (decide (pack_from mf mb (add_file empty_batch f) files = [])) as [E|E].
    + exfalso. apply (f_equal (fun l => concat (map b_Files l))) in E.
      rewrite pack_from_concat in E. done.
    + rewrite removelast_app_cons by done. apply prefix_app, IH.
Qed.

(** ** Properties *)

Lemma Pack_concat files maxFiles maxBytes :
  concat (map b_Files (Pack files maxFiles maxBytes)) = files.
Proof. by rewrite Pack_pack_from, pack_from_concat. Qed.

(** C31: packing loses nothing, duplicates nothing and keeps the order: the files
    of the batches, one batch after the other, are the input files, for any
    limits (the defaults included) and any sizes. *)
Theorem Pack_partition files maxFiles maxBytes :
  concat (map b_Files (Pack files maxFiles maxBytes)) = files.
Proof. apply Pack_concat. Qed.

(** C32: every batch holds at least one file, at most [file_cap] files, and at
    most [byte_cap] bytes unless it is one oversized file; its [Bytes] field is
    the exact total of its files (no uint64 wrap-around), for int64 file sizes
    and a byte limit up to 2^63. *)
Theorem Pack_limits files maxFiles maxBytes :
  sizes_ok files -> (0 <= maxBytes <= 2 ^ 63)%Z ->
  Forall (fun b =>
    b_Files b <> [] /\
    (Z.of_nat (length (b_Files b)) <= file_cap maxFiles)%Z /\
    (length (b_Files b) = 1 \/ (total_size (b_Files b) <= byte_cap maxBytes)%Z) /\
    b_Bytes b = total_size (b_Files b)) (Pack files maxFiles maxBytes).
Proof.
  intros Hs Hm. rewrite Pack_pack_from.
  assert (0 <= byte_cap maxBytes <= 2 ^ 63)%Z as Hb by (unfold byte_cap; destruct (maxBytes =? 0)%Z; lia).
  eapply Forall_impl; [apply (pack_from_ok _ _ (file_cap_pos _) Hb); [|done]|].
  - apply empty_batch_ok. apply file_cap_pos.
  - cbn. intros b (Hne & _ & Hbytes & Hlen & Hfit). split_and!; [done|done| |done].
    destruct (b_Files b) as [|? [|]]; cbn in *; [done|by left|right; lia].
Qed.

(** C33: no way of cutting the file list, in order, into bundles that respect the
    limits uses fewer bundles than [Pack]. *)
Theorem Pack_least files maxFiles maxBytes parts :
  sizes_ok files -> (0 <= maxBytes <= 2 ^ 63)%Z ->
  concat parts = files -> Forall (fits (file_cap maxFiles) (byte_cap maxBytes)) parts ->
  length (Pack files maxFiles maxBytes) <= length parts.
Proof.
  intros Hs Hm Hc Hp. rewrite Pack_pack_from.
  pose proof (file_cap_pos maxFiles) as Hf.
  assert (0 <= byte_cap maxBytes <= 2 ^ 63)%Z as Hb by (unfold byte_cap; destruct (maxBytes =? 0)%Z; lia).
  destruct files as [|f files]; [change (0 <= length parts); lia|].
  cbn. rewrite empty_never_exceeds by done.
  apply Forall_cons in Hs as [Hsf Hs].
  apply pack_from_least; [done|done|by apply single_ok|done|done|done|done].
Qed.

(** Bundle indices are stable: packing a longer list starts with the same
    batches, all but the last one of the shorter list. *)
Lemma Pack_stable files more maxFiles maxBytes :
  removelast (Pack files maxFiles maxBytes) `prefix_of` Pack (files ++ more) maxFiles maxBytes.
Proof. rewrite !Pack_pack_from. apply pack_from_prefix. Qed.

(** ** Witnesses *)

Definition sample_file (n : Z) : FileSpec :=
  {| fs_RootName := "outbox"; fs_RelativePath := "k"; fs_Size := n; fs_SHA256 := "";
     fs_ContentType := ""; fs_DisplayName := "k" |}.

Lemma Pack_limits_witness :
  exists bs, Pack (map sample_file [2000; 10; 600; 600]%Z) 64 1000 = bs /\
    length bs = 3 /\ Forall (fun b => (Z.of_nat (length (b_Files b)) <= 64)%Z) bs.
Proof.
  eexists. split; [reflexivity|]. split; [reflexivity|].
  eapply Forall_impl; [apply (Pack_limits (map sample_file [2000; 10; 600; 600]%Z) 64 1000)|].
  - repeat (apply List.Forall_cons; [cbn; lia|]). apply List.Forall_nil.
  - lia.
  - cbn. intros b (_ & H & _). exact H.
Defined.

Lemma Pack_least_witness :
  length (Pack (map sample_file [600; 600; 600]%Z) 64 1000) <= 3.
Proof.
  apply (Pack_least (map sample_file [600; 600; 600]%Z) 64 1000
           [[sample_file 600]; [sample_file 600]; [sample_file 600]]).
  - repeat (apply List.Forall_cons; [cbn; lia|]). apply List.Forall_nil.
  - lia.
  - reflexivity.
  - repeat (apply List.Forall_cons; [split; cbn; lia|]). apply List.Forall_nil.
Defined.
