(* ===== verification/Manifest.v ===== *)
(** * Manifest: the replication manifest document ([internal/manifest])

    The wire form is JSON; [Parse] rejects other schema versions.  The slice of
    files is a list: a nil slice, which Go prints as [null], is written by no
    caller of [Marshal]. *)

From S2P Require Import Prelude GoStrings GoJson GoJsonFacts.
From stdpp Require Import strings.

Definition Collection : string := "snapback_replications".
Definition SchemaVersion : Z := 1.

Record FileEntry : Set := {
  fe_Key : string;
  fe_Basename : string;
  fe_SHA256 : string;       (* hex *)
  fe_Size : Z;              (* int64 *)
  fe_DistributionID : string;
  fe_BlobToken : string;
}.

#[export] Instance FileEntry_eq_dec : EqDecision FileEntry.
Proof. solve_decision. Defined.

Record Manifest : Set := {
  mf_SchemaVersion : Z;     (* int *)
  mf_BackupName : string;
  mf_StorageLocation : string;
  mf_BSLPrefix : string;
  mf_ObjectCount : Z;       (* int *)
  mf_TotalBytes : Z;        (* int64 *)
  mf_CompletedAt : string;
  mf_Complete : bool;
  mf_Files : list FileEntry;
}.

Definition DocID (storageLocation backupName : string) : string :=
  storageLocation +:+ "/" +:+ backupName.

(** ** Encoding *)

(** a string field tagged [omitempty] *)
Definition omitempty (k v : string) : list (string * json) :=
  if bool_decide (v = "") then [] else [(k, JStr v)].

Definition entry_json (e : FileEntry) : json :=
  JObj ([("key", JStr (fe_Key e)); ("basename", JStr (fe_Basename e));
         ("sha256", JStr (fe_SHA256 e)); ("size", JNum (Itoa (fe_Size e)));
         ("distributionId", JStr (fe_DistributionID e))]
        ++ omitempty "blobToken" (fe_BlobToken e)).

Definition manifest_json (m : Manifest) : json :=
  JObj ([("schemaVersion", JNum (Itoa (mf_SchemaVersion m)));
         ("backupName", JStr (mf_BackupName m));
         ("storageLocation", JStr (mf_StorageLocation m))]
        ++ omitempty "bslPrefix" (mf_BSLPrefix m)
        ++ [("objectCount", JNum (Itoa (mf_ObjectCount m)));
            ("totalBytes", JNum (Itoa (mf_TotalBytes m)))]
        ++ omitempty "completedAt" (mf_CompletedAt m)
        ++ [("complete", JBool (mf_Complete m)); ("files", JArr (map entry_json (mf_Files m)))]).

(** [json.Marshal] has no failing case for this struct *)
Definition Marshal (m : Manifest) : res string := Ok (print (manifest_json m)).

(** ** Decoding *)

Definition zero_FileEntry : FileEntry :=
  {| fe_Key := ""; fe_Basename := ""; fe_SHA256 := ""; fe_Size := 0;
     fe_DistributionID := ""; fe_BlobToken := "" |}.

Definition entry_fields : list string :=
  ["key"; "basename"; "sha256"; "size"; "distributionId"; "blobToken"].

Definition store_entry (n : string) : decoder FileEntry := fun e j =>
  let '{| fe_Key := k; fe_Basename := b; fe_SHA256 := h; fe_Size := s;
          fe_DistributionID := d; fe_BlobToken := t |} := e in
  let mk k b h s d t := {| fe_Key := k; fe_Basename := b; fe_SHA256 := h; fe_Size := s;
                           fe_DistributionID := d; fe_BlobToken := t |} in
  if bool_decide (n = "key") then field get_string k (fun x => mk x b h s d t) j
  else if bool_decide (n = "basename") then field get_string b (fun x => mk k x h s d t) j
  else if bool_decide (n = "sha256") then field get_string h (fun x => mk k b x s d t) j
  else if bool_decide (n = "size") then field get_int64 s (fun x => mk k b h x d t) j
  else if bool_decide (n = "distributionId") then field get_string d (fun x => mk k b h s x t) j
  else field get_string t (fun x => mk k b h s d x) j.

Definition get_FileEntry : decoder FileEntry := get_struct entry_fields store_entry.

Definition zero_Manifest : Manifest :=
  {| mf_SchemaVersion := 0; mf_BackupName := ""; mf_StorageLocation := ""; mf_BSLPrefix := "";
     mf_ObjectCount := 0; mf_TotalBytes := 0; mf_CompletedAt := ""; mf_Complete := false;
     mf_Files := [] |}.

Definition manifest_fields : list string :=
  ["schemaVersion"; "backupName"; "storageLocation"; "bslPrefix"; "objectCount";
   "totalBytes"; "completedAt"; "complete"; "files"].

Definition store_manifest (n : string) : decoder Manifest := fun m j =>
  let '{| mf_SchemaVersion := v; mf_BackupName := b; mf_StorageLocation := l; mf_BSLPrefix := p;
          mf_ObjectCount := c; mf_TotalBytes := t; mf_CompletedAt := a; mf_Complete := d;
          mf_Files := f |} := m in
  let mk v b l p c t a d f :=
    {| mf_SchemaVersion := v; mf_BackupName := b; mf_StorageLocation := l; mf_BSLPrefix := p;
       mf_ObjectCount := c; mf_TotalBytes := t; mf_CompletedAt := a; mf_Complete := d;
       mf_Files := f |} in
  if bool_decide (n = "schemaVersion") then field get_int64 v (fun x => mk x b l p c t a d f) j
  else if bool_decide (n = "backupName") then field get_string b (fun x => mk v x l p c t a d f) j
  else if bool_decide (n = "storageLocation")
  then field get_string l (fun x => mk v b x p c t a d f) j
  else if bool_decide (n = "bslPrefix") then field get_string p (fun x => mk v b l x c t a d f) j
  else if bool_decide (n = "objectCount") then field get_int64 c (fun x => mk v b l p x t a d f) j
  else if bool_decide (n = "totalBytes") then field get_int64 t (fun x => mk v b l p c x a d f) j
  else if bool_decide (n = "completedAt") then field get_string a (fun x => mk v b l p c t x d f) j
  else if bool_decide (n = "complete") then field get_bool d (fun x => mk v b l p c t a x f) j
  else field (get_slice zero_FileEntry get_FileEntry) f (fun x => mk v b l p c t a d x) j.

Definition get_Manifest : decoder Manifest := get_struct manifest_fields store_manifest.

Definition Parse (data : string) : res Manifest :=
  match Unmarshal get_Manifest zero_Manifest data with
  | (_, Some e) => Er (errorf [FStr "manifest: parse: "] e)
  | (m, None) =>
      if bool_decide (mf_SchemaVersion m <> SchemaVersion)
      then Er (EText [FStr "manifest: unsupported schemaVersion "; FInt (mf_SchemaVersion m);
                      FStr " (want "; FInt SchemaVersion; FStr ")"])
      else Ok m
  end.

(** ** Round trip *)

(** what a Go value of these types holds, with text that is UTF-8 *)
Definition int64_ok (n : Z) : Prop := (- 2 ^ 63 <= n < 2 ^ 63)%Z.

Definition entry_ok (e : FileEntry) : Prop :=
  valid_utf8 (fe_Key e) = true /\ valid_utf8 (fe_Basename e) = true /\
  valid_utf8 (fe_SHA256 e) = true /\ int64_ok (fe_Size e) /\
  valid_utf8 (fe_DistributionID e) = true /\ valid_utf8 (fe_BlobToken e) = true.

Definition manifest_ok (m : Manifest) : Prop :=
  int64_ok (mf_SchemaVersion m) /\ valid_utf8 (mf_BackupName m) = true /\
  valid_utf8 (mf_StorageLocation m) = true /\ valid_utf8 (mf_BSLPrefix m) = true /\
  int64_ok (mf_ObjectCount m) /\ int64_ok (mf_TotalBytes m) /\
  valid_utf8 (mf_CompletedAt m) = true /\ Forall entry_ok (mf_Files m).

(** one member after the other: its key selects the field, its value is stored *)
Ltac store_one :=
  eapply store_known;
  [reflexivity
  |cbv beta iota delta [store_entry store_manifest zero_FileEntry zero_Manifest];
   decide_fields;
   first [rewrite field_int64 by assumption; reflexivity | reflexivity]
  |].

Lemma get_entry_json e : entry_ok e -> get_FileEntry zero_FileEntry (entry_json e) = (e, true).
Proof.
  destruct e as [k b h s d t]. intros (_ & _ & _ & Hs & _). unfold int64_ok in Hs. cbn in Hs.
  unfold entry_json, omitempty. cbn [fe_Key fe_Basename fe_SHA256 fe_Size fe_DistributionID
    fe_BlobToken app]. unfold get_FileEntry, get_struct.
  repeat store_one. case_bool_decide; [by subst|]. by store_one.
Qed.

Lemma get_manifest_json m :
  manifest_ok m -> get_Manifest zero_Manifest (manifest_json m) = (m, true).
Proof.
  destruct m as [v b l p c t a d f].
  intros (Hv & _ & _ & _ & Hc & Ht & _ & Hf). cbn in Hv, Hc, Ht, Hf.
  unfold int64_ok in Hv, Hc, Ht.
  assert (forall cur : list FileEntry, cur = [] ->
    get_slice zero_FileEntry get_FileEntry cur (JArr (map entry_json f)) = (f, true)) as Hfiles.
  { intros cur ->. apply get_elems_map. eapply Forall_impl; [exact Hf|]. apply get_entry_json. }
  unfold manifest_json, omitempty.
  cbn [mf_SchemaVersion mf_BackupName mf_StorageLocation mf_BSLPrefix mf_ObjectCount
       mf_TotalBytes mf_CompletedAt mf_Complete mf_Files].
  unfold get_Manifest, get_struct.
  do 3 store_one.
  case_bool_decide; subst; [|store_one]; do 2 store_one;
  (case_bool_decide; subst; [|store_one]); store_one;
  (eapply store_known; [reflexivity| |reflexivity]);
  cbv beta iota delta [store_manifest]; decide_fields; unfold field; by rewrite Hfiles.
Qed.

Lemma entry_json_ok e : entry_ok e -> json_ok (entry_json e) /\ depth (entry_json e) = 1%Z.
Proof.
  intros (Hk & Hb & Hh & _ & Hd & Ht). unfold entry_json, omitempty.
  assert (exists n, Itoa (fe_Size e) = Itoa n) by eauto.
  case_bool_decide; cbn -[Itoa]; naive_solver.
Qed.

Lemma manifest_json_ok m :
  manifest_ok m -> json_ok (manifest_json m) /\ (depth (manifest_json m) <= 3)%Z.
Proof.
  intros (Hv & Hb & Hl & Hp & Hc & Ht & Ha & Hf).
  assert (json_ok (JArr (map entry_json (mf_Files m)))) as Hfok.
  { apply json_ok_elems. apply Forall_map. eapply Forall_impl; [exact Hf|].
    intros e He. by apply entry_json_ok. }
  assert (depth (JArr (map entry_json (mf_Files m))) <= 2)%Z as Hd.
  { clear -Hf. cbn [depth]. induction Hf as [|e l He _ IH]; cbn [map foldr]; [lia|].
    apply entry_json_ok in He as [_ He]. rewrite He. lia. }
  assert (forall n, exists n', Itoa n = Itoa n') as Hi by eauto.
  unfold manifest_json. generalize dependent (JArr (map entry_json (mf_Files m))). intros jf Hfok Hd.
  unfold omitempty. split.
  - apply json_ok_members. rewrite !Forall_app. split_and!;
      repeat case_bool_decide; repeat (apply Forall_cons; split); try apply Forall_nil;
      cbn -[Itoa]; auto.
  - cbn [depth]. repeat case_bool_decide; cbn -[Itoa]; lia.
Qed.

(** ** Properties *)

Lemma parse_marshal m :
  manifest_ok m -> mf_SchemaVersion m = SchemaVersion ->
  exists data, Marshal m = Ok data /\ Parse data = Ok m.
Proof.
  intros Hm Hv. eexists. split; [reflexivity|].
  destruct (manifest_json_ok m Hm) as [Hok Hd].
  unfold Parse, Unmarshal. rewrite parse_print by (done || (unfold max_depth; lia)).
  rewrite get_manifest_json by done. by rewrite bool_decide_eq_false_2 by naive_solver.
Qed.

(** C30: a manifest of the current schema survives the wire: what the importer
    parses is exactly what the source marshalled, file list included. *)
Theorem Parse_Marshal m :
  manifest_ok m -> mf_SchemaVersion m = SchemaVersion ->
  exists data, Marshal m = Ok data /\ Parse data = Ok m.
Proof. apply parse_marshal. Qed.

(** C39: a manifest written under any other schema version is refused by name,
    never interpreted, and whatever is accepted has the supported version. *)
Theorem Parse_version m data :
  (manifest_ok m -> mf_SchemaVersion m <> SchemaVersion -> Marshal m = Ok data ->
   Parse data = Er (EText [FStr "manifest: unsupported schemaVersion ";
                           FInt (mf_SchemaVersion m); FStr " (want "; FInt 1; FStr ")"])) /\
  (Parse data = Ok m -> mf_SchemaVersion m = SchemaVersion).
Proof.
  split.
  - intros Hm Hv Hdata.
    assert (data = print (manifest_json m)) as -> by (unfold Marshal in Hdata; congruence).
    destruct (manifest_json_ok m Hm) as [Hok Hd].
    unfold Parse, Unmarshal. rewrite parse_print by (done || (unfold max_depth; lia)).
    rewrite get_manifest_json by done. by rewrite bool_decide_eq_true_2.
  - unfold Parse. destruct (Unmarshal _ _ _) as [m' [e|]]; [done|].
    case_bool_decide as Hv; [done|]. intros H. congruence.
Qed.

(** Document ids keep backups apart: two locations without a slash (BSL names
    are DNS labels) and two backup names give the same id only when both are the
    same. *)
Lemma DocID_inj l b l' b' :
  no_char slash l = true -> no_char slash l' = true ->
  DocID l b = DocID l' b' -> l = l' /\ b = b'.
Proof.
  intros Hl Hl' H. unfold DocID in H. rewrite !sapp_cons, !sapp_nil_l in H.
  pose proof (Split_app l b slash Hl) as E. pose proof (Split_app l' b' slash Hl') as E'.
  unfold slash in E at 1. unfold slash in E' at 1. rewrite H, E' in E. injection E as <- _.
  by apply sapp_inj_l in H as [= ->].
Qed.

(** ** Witnesses *)

Definition sample_entry : FileEntry :=
  {| fe_Key := "backups/b/velero-backup.json"; fe_Basename := "velero-backup.json";
     fe_SHA256 := "00ff"; fe_Size := 13; fe_DistributionID := "d-1"; fe_BlobToken := "" |}.

Definition sample_manifest (version : Z) : Manifest :=
  {| mf_SchemaVersion := version; mf_BackupName := "nightly <1>"; mf_StorageLocation := "default";
     mf_BSLPrefix := ""; mf_ObjectCount := 1; mf_TotalBytes := 13;
     mf_CompletedAt := "2026-01-02T03:04:05Z"; mf_Complete := true; mf_Files := [sample_entry] |}.

Lemma sample_manifest_ok v : int64_ok v -> manifest_ok (sample_manifest v).
Proof.
  intros Hv. unfold manifest_ok, int64_ok in *. cbn. split_and!; try done; try lia.
  apply List.Forall_cons; [|apply List.Forall_nil]. unfold entry_ok, int64_ok. cbn.
  split_and!; done || lia.
Qed.

Lemma Parse_Marshal_witness :
  exists data, Marshal (sample_manifest 1) = Ok data /\ Parse data = Ok (sample_manifest 1).
Proof.
  apply (Parse_Marshal (sample_manifest 1)); [|reflexivity].
  apply sample_manifest_ok. unfold int64_ok. lia.
Defined.

Lemma Parse_version_witness :
  Parse (print (manifest_json (sample_manifest 2)))
  = Er (EText [FStr "manifest: unsupported schemaVersion "; FInt 2; FStr " (want "; FInt 1; FStr ")"]).
Proof.
  apply (Parse_version (sample_manifest 2) (print (manifest_json (sample_manifest 2))));
    [|done|reflexivity].
  apply sample_manifest_ok. unfold int64_ok. lia.
Defined.

Lemma DocID_inj_example : "default" = "default" /\ "b/1" = "b/1".
Proof. apply (DocID_inj "default" "b/1" "default" "b/1"); reflexivity. Defined.
