(* ===== verification/Objstore.v ===== *)
(** * Objstore: object stores and the MinIO implementation ([internal/objstore])

    [Store] is the interface of [objstore.go], a record of operations;
    [minioStore] is the implementation of [minio.go], whose operations are the
    minio-go calls with the BSL prefix put on and taken off the keys.  Closing a
    store or a reader has no effect and is left out. *)

From S2P Require Import Prelude GoStrings GoUrl Api Effects.
From stdpp Require Import strings.
From Stdlib Require Import Ascii.

(** ** objstore.go *)

Record ObjectInfo : Set := {
  oi_Key : string;
  oi_Size : Z;              (* int64 *)
  oi_ETag : string;
  oi_LastModified : Z;
}.

Definition zero_ObjectInfo : ObjectInfo :=
  {| oi_Key := ""; oi_Size := 0; oi_ETag := ""; oi_LastModified := 0 |}.

Record Config : Set := {
  cfg_Endpoint : string;
  cfg_Region : string;
  cfg_Bucket : string;
  cfg_Prefix : string;
  cfg_ForcePathStyle : bool;
  cfg_AccessKeyID : string;
  cfg_SecretAccessKey : string;
  cfg_SessionToken : string;
  cfg_CABundle : string;
  cfg_InsecureTLS : bool;
}.

(** A reader delivers bytes and then ends, or fails after them. *)
Definition Reader : Type := io (string * option error).

Record Store : Type := {
  st_List : string -> io (res (list ObjectInfo));
  st_Open : string -> io (res Reader);
  st_Put : string -> Reader -> Z -> string -> io (option error);
  st_Stat : string -> io (res (option ObjectInfo));
  st_GetLedger : string -> io (res (string * string));
  st_PutLedger : string -> string -> string -> io (res string);
}.

(** ** minio.go *)

Definition ErrLedgerConflict : error :=
  ESentinel "objstore: ledger precondition failed (concurrent write)".

Definition normalizeEndpoint (raw : string) : string * bool :=
  if bool_decide (raw = "") then ("", false)
  else
    let bare := (TrimRight raw slash, false) in
    if Contains raw "://" then
      match url_Parse raw with
      | Some (scheme, host) =>
          if bool_decide (host <> "") then (host, bool_decide (scheme = "https")) else bare
      | None => bare
      end
    else bare.

Record minioStore : Set := {
  ms_client : minio_client;
  ms_bucket : string;
  ms_prefix : string;
}.

(** the TLS transport of [New], when one is built *)
Definition tls_options (cfg : Config) (secure : bool) : io (res (option (bool * string))) :=
  if secure && (cfg_InsecureTLS cfg || bool_decide (cfg_CABundle cfg <> "")) then
    e ← perform MinioDefaultTransport;
    match e with
    | Some e => Ret (Er (errorf [FStr "objstore: build transport: "] e))
    | None =>
        if bool_decide (cfg_CABundle cfg <> "") then
          ok ← perform (X509AppendCerts (cfg_CABundle cfg));
          Ret (if (ok : bool) then Ok (Some (cfg_InsecureTLS cfg, cfg_CABundle cfg))
               else Er (EText [FStr "objstore: CABundle contained no valid certificates"]))
        else Ret (Ok (Some (cfg_InsecureTLS cfg, "")))
    end
  else Ret (Ok None).

Definition New (cfg : Config) : io (res minioStore) :=
  let (endpoint, secure) := normalizeEndpoint (cfg_Endpoint cfg) in
  if bool_decide (endpoint = "")
  then Ret (Er (EText [FStr "objstore: empty endpoint (BSL config.s3Url is not set)"]))
  else if bool_decide (cfg_Bucket cfg = "")
  then Ret (Er (EText [FStr "objstore: empty bucket"]))
  else
    tls ← tls_options cfg secure;
    try tls (fun tls =>
      let client := {| mc_Endpoint := endpoint;
        mc_Options := {| mo_AccessKeyID := cfg_AccessKeyID cfg;
                         mo_SecretAccessKey := cfg_SecretAccessKey cfg;
                         mo_SessionToken := cfg_SessionToken cfg;
                         mo_Secure := secure;
                         mo_Region := cfg_Region cfg;
                         mo_BucketLookupPath := cfg_ForcePathStyle cfg;
                         mo_TLS := tls |} |} in
      e ← perform (MinioNew client);
      Ret match e with
          | Some e => Er (errorf [FStr "objstore: init minio client: "] e)
          | None => Ok {| ms_client := client; ms_bucket := cfg_Bucket cfg;
                          ms_prefix := Trim (cfg_Prefix cfg) slash |}
          end).

Section MinioStore.
Context (s : minioStore).

Definition fullKey (rel : string) : string :=
  let rel := TrimLeft rel slash in
  if bool_decide (ms_prefix s = "") then rel
  else ms_prefix s +:+ "/" +:+ rel.

Definition relKey (full : string) : string :=
  if bool_decide (ms_prefix s = "") then full
  else TrimPrefix full (ms_prefix s +:+ "/").

Definition trim_etag (etag : string) : string := Trim etag "034".

(** the loop over the listing channel, up to its first error *)
Fixpoint list_objects (listPrefix : string) (objs : list (res minio_object))
  : res (list ObjectInfo) :=
  match objs with
  | [] => Ok []
  | Er e :: _ => Er (errorf [FStr "objstore: list "; FQuo listPrefix; FStr ": "] e)
  | Ok o :: objs' =>
      out ← list_objects listPrefix objs';
      Ok ({| oi_Key := relKey (mo_Key o); oi_Size := mo_Size o;
             oi_ETag := trim_etag (mo_ETag o); oi_LastModified := mo_LastModified o |} :: out)
  end.

Definition List (prefix : string) : io (res (list ObjectInfo)) :=
  let listPrefix := fullKey prefix in
  objs ← perform (MinioListObjects (ms_client s) (ms_bucket s) listPrefix);
  Ret (list_objects listPrefix objs).

Definition Open (key : string) : io (res Reader) :=
  e ← perform (MinioGetObject (ms_client s) (ms_bucket s) (fullKey key));
  Ret match e with
      | Some e => Er (errorf [FStr "objstore: open "; FQuo key; FStr ": "] e)
      | None => Ok (perform (MinioObjectRead (ms_client s) (ms_bucket s) (fullKey key)))
      end.

Definition Put (key : string) (r : Reader) (size : Z) (contentType : string)
  : io (option error) :=
  body ← r;
  e ← perform (MinioPutObject (ms_client s) (ms_bucket s) (fullKey key) body size
                 {| po_ContentType := contentType; po_Match := MatchAny |});
  Ret match e with
      | Er e => Some (errorf [FStr "objstore: put "; FQuo key; FStr ": "] e)
      | Ok _ => None
      end.

(** [minio.ToErrorResponse] reports the code and status the error carries *)
Definition error_response (e : error) : string * Z :=
  match e with EExt x => (ee_code x, ee_status x) | _ => ("", 0%Z) end.

Definition isNotFound (e : error) : bool :=
  let (code, status) := error_response e in
  bool_decide (code = "NoSuchKey" \/ code = "NoSuchBucket" \/ status = 404%Z).

Definition isPreconditionFailed (e : error) : bool :=
  let (code, status) := error_response e in
  bool_decide (code = "PreconditionFailed" \/ status = 412%Z).

Definition Stat (key : string) : io (res (option ObjectInfo)) :=
  r ← perform (MinioStatObject (ms_client s) (ms_bucket s) (fullKey key));
  Ret match r with
      | Er e =>
          if isNotFound e then Ok None
          else Er (errorf [FStr "objstore: stat "; FQuo key; FStr ": "] e)
      | Ok st => Ok (Some {| oi_Key := key; oi_Size := mo_Size st;
                             oi_ETag := trim_etag (mo_ETag st);
                             oi_LastModified := mo_LastModified st |})
      end.

Definition GetLedger (key : string) : io (res (string * string)) :=
  e ← perform (MinioGetObject (ms_client s) (ms_bucket s) key);
  match e with
  | Some e => Ret (Er (errorf [FStr "objstore: get ledger "; FQuo key; FStr ": "] e))
  | None =>
      st ← perform (MinioObjectStat (ms_client s) (ms_bucket s) key);
      match st with
      | Er e =>
          Ret (if isNotFound e then Ok ("", "")
               else Er (errorf [FStr "objstore: stat ledger "; FQuo key; FStr ": "] e))
      | Ok st =>
          r ← perform (MinioObjectRead (ms_client s) (ms_bucket s) key);
          Ret match r with
              | (_, Some e) => Er (errorf [FStr "objstore: read ledger "; FQuo key; FStr ": "] e)
              | (body, None) => Ok (body, trim_etag (mo_ETag st))
              end
      end
  end.

Definition PutLedger (key body etag : string) : io (res string) :=
  let opts := {| po_ContentType := "application/json";
                 po_Match := if bool_decide (etag = "") then MatchETagExcept "*"
                             else MatchETag etag |} in
  r ← perform (MinioPutObject (ms_client s) (ms_bucket s) key (body, None)
                 (Z.of_nat (String.length body)) opts);
  Ret match r with
      | Er e =>
          if isPreconditionFailed e then Er ErrLedgerConflict
          else Er (errorf [FStr "objstore: put ledger "; FQuo key; FStr ": "] e)
      | Ok etag' => Ok (trim_etag etag')
      end.

Definition as_Store : Store :=
  {| st_List := List; st_Open := Open; st_Put := Put; st_Stat := Stat;
     st_GetLedger := GetLedger; st_PutLedger := PutLedger |}.
End MinioStore.

(** ** Every operation returns *)

Lemma completes_New cfg : completes (New cfg).
Proof. unfold New, tls_options. completes_steps. Qed.

Section Completes.
Context (s : minioStore).

Lemma completes_List prefix : completes (List s prefix).
Proof. unfold List. completes_steps. Qed.

Lemma completes_Open key : completes (Open s key).
Proof. unfold Open. completes_steps. Qed.

Lemma completes_Put key (r : Reader) n ct : completes r -> completes (Put s key r n ct).
Proof. intros Hr. unfold Put. completes_steps. Qed.

Lemma completes_Stat key : completes (Stat s key).
Proof. unfold Stat. completes_steps. Qed.

Lemma completes_GetLedger key : completes (GetLedger s key).
Proof. unfold GetLedger. completes_steps. Qed.

Lemma completes_PutLedger key body etag : completes (PutLedger s key body etag).
Proof. unfold PutLedger. completes_steps. Qed.
End Completes.
#[export] Hint Resolve completes_New completes_List completes_Open completes_Put
  completes_Stat completes_GetLedger completes_PutLedger : completes.

(** ** Endpoints *)

(** [normalizeEndpoint] of a URL takes its host and port, whatever path
    follows, and is secure exactly when the scheme is [https] up to case; a bare
    [host:port] is taken as it is, without TLS. *)
Lemma normalizeEndpoint_plain sch host port path :
  forall_char is_alpha sch = true -> sch <> "" ->
  forall_char plain_char host = true -> host <> "" -> port_text port -> path_text path ->
  normalizeEndpoint (sch +:+ "://" +:+ host +:+ port +:+ path) =
    (host +:+ port, bool_decide (lower_all sch = "https")) /\
  normalizeEndpoint (host +:+ port) = (host +:+ port, false).
Proof.
  intros Hs Hne Hh Hhne Hp Hpath. unfold normalizeEndpoint.
  assert (host +:+ port <> "") as Hhp by (intros [? _]%sapp_eq_nil; done).
  split.
  - rewrite bool_decide_eq_false_2 by (intros [? _]%sapp_eq_nil; done).
    rewrite Contains_app, url_Parse_plain by done. by rewrite bool_decide_eq_true_2.
  - rewrite bool_decide_eq_false_2 by done.
    pose proof (hostport_no_slash host port Hh Hp) as Hsl.
    destruct (Contains (host +:+ port) "://") eqn:E.
    { by apply (Contains_no_char _ _ slash) in E. }
    by rewrite TrimRight_no_char.
Qed.

Lemma normalizeEndpoint_plain_example :
  normalizeEndpoint ("HTTPS" +:+ "://" +:+ "s3.example.com" +:+ ":9000" +:+ "/x") =
    ("s3.example.com" +:+ ":9000", bool_decide (lower_all "HTTPS" = "https")) /\
  normalizeEndpoint ("s3.example.com" +:+ ":9000") = ("s3.example.com" +:+ ":9000", false).
Proof.
  apply (normalizeEndpoint_plain "HTTPS" "s3.example.com" ":9000" "/x");
    [reflexivity | discriminate | reflexivity | discriminate | right; by exists "9000"
    | right; by exists "x"].
Defined.

(** ** Keys under the BSL prefix *)

Lemma fullKey_eq s key :
  fullKey s key =
    (if bool_decide (ms_prefix s = "") then "" else ms_prefix s +:+ "/") +:+ TrimLeft key slash.
Proof. unfold fullKey. case_bool_decide; [done|]. by autorewrite with str. Qed.

Lemma relKey_prefixed s r :
  relKey s ((if bool_decide (ms_prefix s = "") then "" else ms_prefix s +:+ "/") +:+ r) = r.
Proof. unfold relKey. case_bool_decide; [done|]. by rewrite TrimPrefix_app. Qed.

Lemma relKey_fullKey s key : relKey s (fullKey s key) = TrimLeft key slash.
Proof. by rewrite fullKey_eq, relKey_prefixed. Qed.

Lemma fullKey_relKey s key : fullKey s (relKey s (fullKey s key)) = fullKey s key.
Proof. by rewrite relKey_fullKey, !fullKey_eq, TrimLeft_idem. Qed.

(** Keys round-trip: the relative key of a full key is the caller's key less
    its leading slashes, and the full key of that is the same full key, so the
    key that [List] reports for an object opens, stats and puts that object. *)
Lemma key_roundtrip (s : minioStore) key :
  relKey s (fullKey s key) = TrimLeft key slash /\
  fullKey s (relKey s (fullKey s key)) = fullKey s key.
Proof. split; [apply relKey_fullKey|apply fullKey_relKey]. Qed.

(** two keys name the same object only when they differ in leading slashes *)
Lemma fullKey_inj s k1 k2 : fullKey s k1 = fullKey s k2 -> TrimLeft k1 slash = TrimLeft k2 slash.
Proof. intros H. by rewrite <- (relKey_fullKey s k1), H, relKey_fullKey. Qed.

(** ** Listing *)

(** what [List] reports of a listed object *)
Definition listed (s : minioStore) (o : minio_object) (i : ObjectInfo) : Prop :=
  i = {| oi_Key := relKey s (mo_Key o); oi_Size := mo_Size o;
         oi_ETag := trim_etag (mo_ETag o); oi_LastModified := mo_LastModified o |} /\
  forall key, mo_Key o = fullKey s key -> fullKey s (oi_Key i) = mo_Key o.

Lemma list_objects_spec s p objs :
  match list_objects s p objs with
  | Ok infos => exists os, objs = map Ok os /\ Forall2 (listed s) os infos
  | Er e => exists os e' objs', objs = map Ok os ++ Er e' :: objs' /\
              e = errorf [FStr "objstore: list "; FQuo p; FStr ": "] e'
  end.
Proof.
  induction objs as [|[o|e] objs IH]; cbn; [by exists []| |by exists [], e, objs].
  destruct (list_objects s p objs) as [infos|e]; cbn.
  - destruct IH as (os & -> & IH). exists (o :: os). split; [done|]. constructor; [|done].
    split; [done|]. intros key E. cbn. by rewrite E, fullKey_relKey.
  - destruct IH as (os & e' & objs' & -> & ->). by exists (o :: os), e', objs'.
Qed.

(** [List] makes one listing call, of the full key of the prefix in the
    store's bucket, and reports every listed object in order, with its size and
    unquoted ETag and with a key that addresses the same object when it is opened;
    the first error of the listing is an error of [List] and no partial list is
    returned. *)
Lemma List_outcome (s : minioStore) prefix h :
  safe any_call (List s prefix) h (fun h' r =>
    exists objs,
      h' = Ev (MinioListObjects (ms_client s) (ms_bucket s) (fullKey s prefix)) objs :: h /\
      match r with
      | Ok infos => exists os, objs = map Ok os /\ Forall2 (listed s) os infos
      | Er e => exists os e' objs', objs = map Ok os ++ Er e' :: objs' /\
                  e = errorf [FStr "objstore: list "; FQuo (fullKey s prefix); FStr ": "] e'
      end).
Proof. cbn. split; [done|]. intros objs. exists objs. split; [done|]. apply list_objects_spec. Qed.

(** ** The ledger object

    What S3 documents of one object under conditional puts, over the worlds of a
    handler: [view] is the object's body and ETag. *)

Definition put_matches (m : put_match) (v : option (string * string)) : bool :=
  match m, v with
  | MatchAny, _ => true
  | MatchETag etag, Some (_, e) => bool_decide (e = etag)
  | MatchETag _, None => false
  | MatchETagExcept etag, Some (_, e) => bool_decide (etag <> "*" /\ e <> etag)
  | MatchETagExcept _, None => true
  end.

Class LedgerObject {W : Type} (hd : handler W) (s : minioStore) (key : string)
    (view : W -> option (string * string)) : Prop := {
  lo_get w : hd (MinioGetObject (ms_client s) (ms_bucket s) key) w = (None, w);
  lo_stat w : exists r, hd (MinioObjectStat (ms_client s) (ms_bucket s) key) w = (r, w) /\
    match view w with
    | Some (_, etag) => exists o, r = Ok o /\ trim_etag (mo_ETag o) = etag
    | None => exists e, r = Er e /\ isNotFound e = true
    end;
  lo_read w body etag : view w = Some (body, etag) ->
    hd (MinioObjectRead (ms_client s) (ms_bucket s) key) w = ((body, None), w);
  lo_put w body size opts : exists r w',
    hd (MinioPutObject (ms_client s) (ms_bucket s) key (body, None) size opts) w = (r, w') /\
    if put_matches (po_Match opts) (view w)
    then exists etag, r = Ok etag /\ view w' = Some (body, trim_etag etag)
    else exists e, r = Er e /\ isPreconditionFailed e = true /\ view w' = view w;
  lo_etag w body etag : view w = Some (body, etag) -> etag <> "";
}.

Section LedgerObject.
Context {W : Type} (hd : handler W) (s : minioStore) (key : string)
  (view : W -> option (string * string)) `{!LedgerObject hd s key view}.

(** the version of the object: its ETag, or that it is not there *)
Definition version (w : W) : option string := snd <$> view w.

Lemma run_GetLedger w h :
  exists h', run hd (GetLedger s key) w h = Some (Ok (default ("", "") (view w)), w, h').
Proof.
  unfold GetLedger. cbn. rewrite lo_get. cbn.
  destruct (lo_stat w) as (r & -> & Hr). destruct (view w) as [[body etag]|] eqn:Hv.
  - destruct Hr as (o & -> & Ho). cbn. rewrite (lo_read w body etag) by done. cbn.
    rewrite Ho. by eexists.
  - destruct Hr as (e & -> & He). cbn. rewrite He. by eexists.
Qed.

Lemma put_condition_version etag w1 w2 :
  (default ("", "") (view w1)).2 = etag ->
  put_matches (if bool_decide (etag = "") then MatchETagExcept "*" else MatchETag etag) (view w2)
    = bool_decide (version w2 = version w1).
Proof.
  intros <-. unfold version. destruct (view w1) as [[b1 e1]|] eqn:H1; cbn.
  - pose proof (lo_etag w1 _ _ H1). rewrite bool_decide_eq_false_2 by done.
    destruct (view w2) as [[b2 e2]|]; cbn; [apply bool_decide_ext; naive_solver|].
    by rewrite bool_decide_eq_false_2.
  - destruct (view w2) as [[b2 e2]|] eqn:H2; cbn; [|done]. apply bool_decide_ext. naive_solver.
Qed.

(** C23: the ledger's compare-and-swap: [GetLedger] returns the object's body
    and version (both empty when it is not there); a later [PutLedger] with that
    version, after any changes by others, writes the new body exactly when the
    object still has the version that was read, and otherwise changes nothing
    and returns the conflict error.  No concurrent ledger update is lost. *)
Theorem ledger_no_lost_update w1 h1 body etag w1' h1' w2 h2 out :
  run hd (GetLedger s key) w1 h1 = Some (Ok (body, etag), w1', h1') ->
  (body, etag) = default ("", "") (view w1) /\
  exists r w2' h2', run hd (PutLedger s key out etag) w2 h2 = Some (r, w2', h2') /\
    if bool_decide (version w2 = version w1)
    then exists new, r = Ok new /\ view w2' = Some (out, new)
    else r = Er ErrLedgerConflict /\ view w2' = view w2.
Proof.
  intros H. destruct (run_GetLedger w1 h1) as (h' & H'). rewrite H' in H.
  injection H as Hv -> <-. split; [done|].
  assert ((default ("", "") (view w1')).2 = etag) as He by by rewrite Hv.
  unfold PutLedger. cbn.
  edestruct (lo_put w2 out) as (r & w2' & -> & Hr). cbn [po_Match] in Hr.
  rewrite (put_condition_version etag w1' w2 He) in Hr.
  do 3 eexists. split; [done|]. case_bool_decide.
  - destruct Hr as (new & -> & Hw). by exists (trim_etag new).
  - destruct Hr as (e & -> & He' & Hw). by rewrite He'.
Qed.
End LedgerObject.

(** *** An in-memory ledger object *)

Definition precondition_failed : error :=
  EExt {| ee_text := "precondition failed"; ee_code := "PreconditionFailed"; ee_status := 412;
          ee_not_found := false |}.

Definition version_of (body : string) : string := "v" +:+ HexEncode body.

Definition memory_object : handler (option string) := fun c w =>
  match c as c return resp c * option string with
  | MinioGetObject _ _ _ => (None, w)
  | MinioObjectStat _ _ _ =>
      (match w with
       | Some body => Ok {| mo_Key := ""; mo_Size := Z.of_nat (String.length body);
                            mo_ETag := version_of body; mo_LastModified := 0 |}
       | None => Er (ext_missing "no such key")
       end, w)
  | MinioObjectRead _ _ _ => ((default "" w, None), w)
  | MinioPutObject _ _ _ body _ opts =>
      if put_matches (po_Match opts) ((fun b => (b, version_of b)) <$> w)
      then (Ok (version_of body.1), Some body.1)
      else (Er precondition_failed, w)
  | c => (refuse c, w)
  end.

Lemma hex_digit_no_quote n : (n < 16)%nat -> hex_digit n <> "034"%char.
Proof. intros H. do 16 (destruct n as [|n]; [done|]). lia. Qed.

Lemma HexEncode_no_quote s : no_char "034" (HexEncode s) = true.
Proof.
  induction s as [|a s IH]; [done|]. cbn -[nat_of_ascii Nat.div Nat.modulo]. rewrite IH.
  pose proof (nat_ascii_bounded a).
  rewrite !bool_decide_eq_false_2; [done|apply hex_digit_no_quote..].
  - apply Nat.mod_upper_bound. lia.
  - apply Nat.Div0.div_lt_upper_bound. lia.
Qed.

Lemma trim_version body : trim_etag (version_of body) = version_of body.
Proof.
  unfold trim_etag, Trim, version_of. rewrite TrimLeft_id by (intros s'; done).
  apply TrimRight_no_char. rewrite no_char_app, HexEncode_no_quote. done.
Qed.

#[export] Instance memory_ledger s key :
  LedgerObject memory_object s key (fmap (fun b => (b, version_of b))).
Proof.
  split.
  - done.
  - intros [body|]; cbn; eexists; (split; [done|]); [|by eexists].
    eexists. split; [done|]. cbn. apply trim_version.
  - intros [b|] body etag; [|done]. by intros [= -> <-].
  - intros w body size opts. cbn. destruct (put_matches _ _); do 2 eexists; (split; [done|]).
    + eexists. split; [done|]. cbn. by rewrite trim_version.
    + by eexists.
  - intros [b|] body etag; [|done]. intros [= -> <-]. done.
Qed.

(** a store to evaluate with *)
Definition sample_store : minioStore :=
  {| ms_client := {| mc_Endpoint := "minio:9000";
       mc_Options := {| mo_AccessKeyID := "ak"; mo_SecretAccessKey := "sk"; mo_SessionToken := "";
                        mo_Secure := false; mo_Region := ""; mo_BucketLookupPath := true;
                        mo_TLS := None |} |};
     ms_bucket := "velero"; ms_prefix := "prod" |}.

Lemma ledger_no_lost_update_witness :
  exists r w2' h2',
    run memory_object
        (PutLedger sample_store "snapback/ledger/default.json" "{new}" (version_of "{}"))
        (Some "{other}") [] =
      Some (r, w2', h2') /\ r = Er ErrLedgerConflict /\ w2' = Some "{other}".
Proof.
  pose (view := fmap (fun b => (b, version_of b)) : option string -> option (string * string)).
  destruct (ledger_no_lost_update memory_object sample_store "snapback/ledger/default.json" view
              (Some "{}") [] "{}" (version_of "{}") (Some "{}") _ (Some "{other}") [] "{new}"
              ltac:(vm_compute; reflexivity)) as [_ (r & w' & h' & Hrun & Hr)].
  exists r, w', h'. rewrite bool_decide_eq_false_2 in Hr by (vm_compute; discriminate).
  destruct Hr as [-> Hw]. split_and!; [exact Hrun|done|].
  destruct w' as [b|]; [|discriminate Hw]. by injection Hw as ->.
Defined.

(** ** Building a store *)

(** the client options of a configuration: its keys, region and addressing *)
Definition options_of (cfg : Config) (secure : bool) (tls : option (bool * string))
  : MinioOptions :=
  {| mo_AccessKeyID := cfg_AccessKeyID cfg; mo_SecretAccessKey := cfg_SecretAccessKey cfg;
     mo_SessionToken := cfg_SessionToken cfg; mo_Secure := secure; mo_Region := cfg_Region cfg;
     mo_BucketLookupPath := cfg_ForcePathStyle cfg; mo_TLS := tls |}.

Definition slash_trimmed (p : string) : Prop :=
  (forall p', p <> String slash p') /\ (forall p', p <> p' +:+ String slash "").

(** the TLS settings a client may have *)
Definition tls_ok (cfg : Config) (secure : bool) (h : history) (tls : option (bool * string))
  : Prop :=
  match tls with
  | None => secure = false \/ (cfg_InsecureTLS cfg = false /\ cfg_CABundle cfg = "")
  | Some (insecure, ca) =>
      secure = true /\ insecure = cfg_InsecureTLS cfg /\ ca = cfg_CABundle cfg /\
      (ca <> "" -> Ev (X509AppendCerts ca) true ∈ h)
  end.

Lemma tls_options_safe cfg secure h :
  safe any_call (tls_options cfg secure) h (fun h' r =>
    match r with Ok tls => tls_ok cfg secure h' tls | Er _ => True end).
Proof.
  unfold tls_options. destruct secure; [|by left].
  destruct (cfg_InsecureTLS cfg || bool_decide (cfg_CABundle cfg <> "")) eqn:E; cbn.
  - split; [done|]. intros [e|]; [done|]. case_bool_decide; cbn.
    + split; [done|]. intros [|]; cbn; [|done]. split_and!; [done..|set_solver].
    + naive_solver.
  - right. apply orb_false_iff in E as [-> E]. rewrite bool_decide_eq_false in E.
    by apply dec_stable in E.
Qed.

(** [New] yields a store only for a non-empty endpoint and bucket; its
    client has the endpoint's host, the configuration's keys and TLS exactly for
    [https]; certificate verification is relaxed or a private CA used only over
    TLS and only as the configuration says, and only when the CA bundle was
    accepted; and the prefix it keeps has no slash at either end.  There always is
    a result. *)
Lemma New_outcome cfg h :
  completes (New cfg) /\
  safe any_call (New cfg) h (fun h' r =>
    match r with
    | Er _ => True
    | Ok ms =>
        let (host, secure) := normalizeEndpoint (cfg_Endpoint cfg) in
        host <> "" /\ cfg_Bucket cfg <> "" /\ ms_bucket ms = cfg_Bucket cfg /\
        ms_prefix ms = Trim (cfg_Prefix cfg) slash /\ slash_trimmed (ms_prefix ms) /\
        exists tls, tls_ok cfg secure h' tls /\
          ms_client ms = {| mc_Endpoint := host; mc_Options := options_of cfg secure tls |}
    end).
Proof.
  split; [apply completes_New|].
  unfold New. destruct (normalizeEndpoint (cfg_Endpoint cfg)) as [host secure].
  case_bool_decide as Hhost; [done|]. case_bool_decide as Hbucket; [done|].
  apply safe_bind. eapply safe_mono; [done| |apply tls_options_safe].
  intros h' [tls|e] Htls; [|done]. cbn. split; [done|]. intros [e|]; [done|].
  split_and!; [done..|apply Trim_ends|]. exists tls. split; [|done].
  destruct tls as [[insecure ca]|]; [|done]. cbn in *. set_solver.
Qed.

(** ** What a store promises its clients, whatever the outside answers

    [ss_reads]: the calls that change nothing; [ss_put]: the one call that a
    [Put] writes with; [ss_holds h k n]: the history shows that the store holds
    an object of [n] bytes under [k]. *)

Class StoreSpec (st : Store) : Type := {
  ss_reads : call -> Prop;
  ss_put : string -> string * option error -> Z -> string -> call;
  ss_holds : history -> string -> Z -> Prop;
  ss_holds_mono h h' k n : extends h h' -> ss_holds h k n -> ss_holds h' k n;
  ss_stat k h :
    safe (fun _ => ss_reads) (st_Stat st k) h
      (fun h' r => forall info, r = Ok (Some info) -> ss_holds h' k (oi_Size info));
  ss_put_ok k (rd : Reader) n ct h G :
    safe G rd h (fun h' body => G h' (ss_put k body n ct)) ->
    safe G (st_Put st k rd n ct) h (fun h' r => r = None -> ss_holds h' k n);
  ss_completes_stat k : completes (st_Stat st k);
  ss_completes_put k (rd : Reader) n ct : completes rd -> completes (st_Put st k rd n ct);
}.
#[export] Hint Resolve ss_completes_stat ss_completes_put : completes.

(** the evidence of a MinIO history: a stat that found it, or a put that worked *)
Definition minio_holds (s : minioStore) (h : history) (k : string) (n : Z) : Prop :=
  (exists o, Ev (MinioStatObject (ms_client s) (ms_bucket s) (fullKey s k)) (Ok o) ∈ h /\
     mo_Size o = n) \/
  (exists body opts etag,
     Ev (MinioPutObject (ms_client s) (ms_bucket s) (fullKey s k) body n opts) (Ok etag) ∈ h).

Definition minio_put (s : minioStore) (k : string) (body : string * option error) (n : Z)
    (ct : string) : call :=
  MinioPutObject (ms_client s) (ms_bucket s) (fullKey s k) body n
    {| po_ContentType := ct; po_Match := MatchAny |}.

Definition minio_reads (s : minioStore) (c : call) : Prop :=
  exists k, c = MinioStatObject (ms_client s) (ms_bucket s) (fullKey s k).

Lemma minio_stat_ok s k h :
  safe (fun _ => minio_reads s) (Stat s k) h
    (fun h' r => forall info, r = Ok (Some info) -> minio_holds s h' k (oi_Size info)).
Proof.
  cbn. split; [by eexists|]. intros [o|e] info; [|by destruct (isNotFound e)].
  intros [= <-]. left. exists o. split; [constructor|done].
Qed.

Lemma minio_put_ok s k (rd : Reader) n ct h G :
  safe G rd h (fun h' body => G h' (minio_put s k body n ct)) ->
  safe G (Put s k rd n ct) h (fun h' r => r = None -> minio_holds s h' k n).
Proof.
  intros H. unfold Put. apply safe_bind. eapply safe_mono; [done| |exact H].
  intros h' body Hg. split; [exact Hg|]. intros [etag|e]; [|done]. intros _. right.
  do 3 eexists. constructor.
Qed.

Lemma minio_holds_mono s h h' k n : extends h h' -> minio_holds s h k n -> minio_holds s h' k n.
Proof. unfold minio_holds. naive_solver eauto using extends_in. Qed.

#[export] Instance minio_spec s : StoreSpec (as_Store s) :=
  Build_StoreSpec (as_Store s) (minio_reads s) (minio_put s) (minio_holds s)
    (minio_holds_mono s) (minio_stat_ok s) (minio_put_ok s) (completes_Stat s) (completes_Put s).

(** ** The reads of a store, as its clients see them *)

Definition store_read (s : minioStore) (c : call) : Prop :=
  match c with
  | MinioListObjects cl b _ | MinioGetObject cl b _ | MinioObjectStat cl b _
  | MinioObjectRead cl b _ | MinioStatObject cl b _ => cl = ms_client s /\ b = ms_bucket s
  | _ => False
  end.

(** the objects under a prefix, as the store listed them *)
Definition listing (s : minioStore) (h : history) (prefix : string) (infos : list ObjectInfo)
  : Prop :=
  exists os, Ev (MinioListObjects (ms_client s) (ms_bucket s) (fullKey s prefix)) (map Ok os) ∈ h /\
    Forall2 (listed s) os infos.

(** the ledger's body and ETag, as the store answered; empty when it is missing *)
Definition ledger_seen (s : minioStore) (h : history) (key body etag : string) : Prop :=
  (body = "" /\ etag = "" /\ exists e,
     Ev (MinioObjectStat (ms_client s) (ms_bucket s) key) (Er e) ∈ h /\ isNotFound e = true) \/
  exists o, Ev (MinioObjectStat (ms_client s) (ms_bucket s) key) (Ok o) ∈ h /\
    etag = trim_etag (mo_ETag o) /\
    Ev (MinioObjectRead (ms_client s) (ms_bucket s) key) (body, None) ∈ h.

Lemma listing_mono s h h' p infos : extends h h' -> listing s h p infos -> listing s h' p infos.
Proof. unfold listing. naive_solver eauto using extends_in. Qed.

Lemma ledger_seen_mono s h h' k b e : extends h h' -> ledger_seen s h k b e -> ledger_seen s h' k b e.
Proof. unfold ledger_seen. naive_solver eauto using extends_in. Qed.

Lemma List_safe s prefix h :
  safe (fun _ => store_read s) (List s prefix) h
    (fun h' r => forall infos, r = Ok infos -> listing s h' prefix infos).
Proof.
  cbn. split; [done|]. intros objs infos Hr. pose proof (list_objects_spec s (fullKey s prefix) objs) as H.
  rewrite Hr in H. destruct H as (os & -> & H). exists os. split; [constructor|done].
Qed.

Lemma GetLedger_safe s key h :
  safe (fun _ => store_read s) (GetLedger s key) h
    (fun h' r => forall body etag, r = Ok (body, etag) -> ledger_seen s h' key body etag).
Proof.
  unfold GetLedger. cbn. split; [done|]. intros [e|]; [done|]. cbn. split; [done|].
  intros [o|e]; cbn.
  - split; [done|]. intros [body [e|]]; [done|]. intros ? ? [= <- <-]. right. exists o.
    split_and!; [set_solver|done|set_solver].
  - destruct (isNotFound e) eqn:He; [|done]. intros ? ? [= <- <-]. left.
    split_and!; [done|done|]. exists e. split; [constructor|done].
Qed.

(** a conditional write: the condition of a version, or that nothing is there *)
Definition ledger_put (s : minioStore) (key body etag : string) : call :=
  MinioPutObject (ms_client s) (ms_bucket s) key (body, None) (Z.of_nat (String.length body))
    {| po_ContentType := "application/json";
       po_Match := if bool_decide (etag = "") then MatchETagExcept "*" else MatchETag etag |}.

Lemma PutLedger_safe s key body etag h :
  safe (fun h' c => h' = h /\ c = ledger_put s key body etag) (PutLedger s key body etag) h
    (fun h' r => forall new, r = Ok new ->
       exists t, h' = Ev (ledger_put s key body etag) (Ok t) :: h /\ new = trim_etag t).
Proof.
  unfold PutLedger. cbn. split; [done|]. intros [t|e] new.
  - intros [= <-]. by exists t.
  - by destruct (isPreconditionFailed e).
Qed.
