(* ===== verification/Creds.v ===== *)
(** * Creds: AWS shared-credentials files ([internal/objstore/creds.go])

    The line scanner is [bufio.Scanner] with a 1 MiB buffer: a line of 2^20
    bytes or more before its newline (or the end) is an error.  A file is a map
    of sections, each a map of lower-cased keys. *)

From stdpp Require Import gmap strings.
From S2P Require Import Prelude GoStrings.
From Stdlib Require Import Ascii.

Definition newline : ascii := "010"%char.
Definition carriage_return : ascii := "013"%char.

(** the buffer limit of the scanner, [1024*1024] *)
Definition max_token : Z := 1048576.

(** [bufio.ScanLines] drops one carriage return at the end of a line. *)
Fixpoint drop_cr (line : string) : string :=
  match line with
  | "" => ""
  | String a "" => if bool_decide (a = carriage_return) then "" else line
  | String a l => String a (drop_cr l)
  end.

Definition too_long (line : string) : bool := (max_token <=? Z.of_nat (String.length line))%Z.

(** the tokens of the scanner and whether it stopped on a line that is too long *)
Fixpoint scan (lines : list string) : list string * bool :=
  match lines with
  | [] => ([], false)
  | [last] =>
      if too_long last then ([], true)
      else (if bool_decide (last = "") then [] else [drop_cr last], false)
  | l :: lines' =>
      if too_long l then ([], true)
      else let (ts, e) := scan lines' in (drop_cr l :: ts, e)
  end.

Abbreviation section := (gmap string string).
Abbreviation credentials := (gmap string (gmap string string)).

(** [sections[current][k] = v]; the current section always exists *)
Definition set_key (secs : credentials) (current k v : string) : credentials :=
  <[current := <[k := v]> (default ∅ (secs !! current))]> secs.

(** one line: the sections and the current section after it *)
Definition scan_line (st : credentials * string) (token : string) : credentials * string :=
  let (secs, current) := st in
  let line := TrimSpace token in
  if bool_decide (line = "") || HasPrefix line "#" || HasPrefix line ";" then st
  else if HasPrefix line "[" && HasSuffix line "]" then
    (* line[1 : len(line)-1] *)
    let current := TrimSpace (String.substring 1 (String.length line - 2) line) in
    (match secs !! current with
     | Some _ => secs
     | None => <[current := ∅]> secs
     end, current)
  else
    match Cut line "=" with
    | None => st
    | Some (k, v) => (set_key secs current (ToLower (TrimSpace k)) (TrimSpace v), current)
    end.

(** [kv, ok := sections[name]; ok && len(kv) > 0] *)
Definition nonempty_section (secs : credentials) (name : string) : option section :=
  match secs !! name with
  | Some kv => if bool_decide (kv = ∅) then None else Some kv
  | None => None
  end.

(** The loop over the map: the last non-empty named section met, and how many
    there are.  Go's order is random; the result does not depend on it because
    the section is used only when it is the only one. *)
Definition lone_section (secs : credentials) : option section :=
  match filter (fun '(name, kv) => name <> "" /\ kv <> ∅) (map_to_list secs) with
  | [(_, kv)] => Some kv
  | _ => None
  end.

Definition pickProfile (secs : credentials) (profile : string) : option section :=
  match nonempty_section secs profile with
  | Some kv => Some kv
  | None =>
      match nonempty_section secs "" with
      | Some kv => Some kv
      | None => lone_section secs
      end
  end.

Record aws_keys : Set := { ak_AccessKey : string; ak_SecretKey : string; ak_SessionToken : string }.

#[export] Instance aws_keys_eq_dec : EqDecision aws_keys.
Proof. solve_decision. Defined.

Definition lookup_key (kv : section) (k : string) : string := default "" (kv !! k).

Definition parse_sections (tokens : list string) : credentials :=
  (fold_left scan_line tokens ({[ "" := ∅ ]}, "")).1.

Definition ErrTooLong : error := ESentinel "bufio.Scanner: token too long".

Definition ParseAWSCredentials (body profile : string) : res aws_keys :=
  let profile := if bool_decide (profile = "") then "default" else profile in
  let (tokens, tooLong) := scan (Split body newline) in
  if tooLong then Er (errorf [FStr "objstore: scan credentials: "] ErrTooLong)
  else
    match pickProfile (parse_sections tokens) profile with
    | None => Er (EText [FStr "objstore: credentials profile "; FQuo profile; FStr " not found"])
    | Some kv =>
        let accessKey := lookup_key kv "aws_access_key_id" in
        let secretKey := lookup_key kv "aws_secret_access_key" in
        let sessionToken := lookup_key kv "aws_session_token" in
        if bool_decide (accessKey = "" \/ secretKey = "")
        then Er (EText [FStr "objstore: credentials profile "; FQuo profile;
                        FStr " missing access key id or secret access key"])
        else Ok {| ak_AccessKey := accessKey; ak_SecretKey := secretKey;
                   ak_SessionToken := sessionToken |}
    end.

(** ** Picking a profile *)

Definition named_section (secs : credentials) (name : string) (kv : section) : Prop :=
  secs !! name = Some kv /\ kv <> ∅.

Lemma nonempty_section_iff secs name kv :
  nonempty_section secs name = Some kv <-> named_section secs name kv.
Proof.
  unfold nonempty_section, named_section. destruct (secs !! name) as [kv'|]; [|naive_solver].
  case_bool_decide; naive_solver.
Qed.

Lemma nonempty_section_none secs name :
  nonempty_section secs name = None <-> forall kv, ~ named_section secs name kv.
Proof.
  split.
  - intros H kv. rewrite <- nonempty_section_iff. congruence.
  - intros H. destruct (nonempty_section secs name) as [kv|] eqn:E; [|done].
    apply nonempty_section_iff in E. by destruct (H kv).
Qed.

Definition lone (secs : credentials) (kv : section) : Prop :=
  exists name, name <> "" /\ named_section secs name kv /\
    forall name' kv', name' <> "" -> named_section secs name' kv' -> name' = name.

Lemma lone_section_iff secs kv : lone_section secs = Some kv <-> lone secs kv.
Proof.
  unfold lone_section. set (l := filter _ (map_to_list secs)).
  assert (forall n k, (n, k) ∈ l <-> n <> "" /\ named_section secs n k) as Hl.
  { intros n k. unfold l, named_section. rewrite list_elem_of_filter, elem_of_map_to_list. naive_solver. }
  assert (NoDup l.*1) as Hnd.
  { eapply sublist_NoDup; [apply (NoDup_fst_map_to_list secs)|]. apply fmap_sublist, sublist_filter. }
  split.
  - destruct l as [|[n k] [|x l']]; [done| |by destruct x]. intros [= ->].
    exists n. destruct (proj1 (Hl n kv)) as [? ?]; [constructor|]. split_and!; [done..|].
    intros n' k' Hn' Hk'. assert ((n', k') ∈ [(n, kv)]) as Hin by by apply Hl.
    apply list_elem_of_singleton in Hin. congruence.
  - intros (n & Hn & Hkv & Huniq). assert ((n, kv) ∈ l) as Hin by by apply Hl.
    assert (forall x, x ∈ l -> x.1 = n) as Hall.
    { intros [n' k'] [? ?]%Hl. by eapply Huniq. }
    destruct l as [|[n1 k1] [|[n2 k2] l']]; [by apply elem_of_nil in Hin| |].
    + apply list_elem_of_singleton in Hin. congruence.
    + exfalso. apply NoDup_cons in Hnd as [Hnot _]. apply Hnot. cbn.
      pose proof (Hall (n1, k1) ltac:(constructor)) as H1.
      pose proof (Hall (n2, k2) ltac:(do 2 constructor)) as H2. cbn in H1, H2. subst. constructor.
Qed.

(** The profile used is the requested section when it has keys; else the keys
    before any header when there are some; else the only named section that has
    keys, when there is exactly one; otherwise none, whatever order Go's map
    iteration takes. *)
Lemma pickProfile_spec secs profile kv :
  pickProfile secs profile = Some kv <->
    named_section secs profile kv \/
    ((forall k, ~ named_section secs profile k) /\ named_section secs "" kv) \/
    ((forall k, ~ named_section secs profile k) /\ (forall k, ~ named_section secs "" k) /\
     lone secs kv).
Proof.
  unfold pickProfile. rewrite <- !nonempty_section_none, <- !nonempty_section_iff, <- lone_section_iff.
  destruct (nonempty_section secs profile), (nonempty_section secs ""); naive_solver.
Qed.

(** ** Files as they are written *)

(** the lines of a file with one profile *)
Definition credential_lines (profile : string) (k : aws_keys) : list string :=
  ["[" +:+ profile +:+ "]"; "aws_access_key_id = " +:+ ak_AccessKey k;
   "aws_secret_access_key = " +:+ ak_SecretKey k]
  ++ (if bool_decide (ak_SessionToken k = "") then []
      else ["aws_session_token = " +:+ ak_SessionToken k])
  ++ [""].

Definition credential_file (profile : string) (k : aws_keys) : string :=
  Join (credential_lines profile k) newline.

Definition key_text (s : string) : Prop :=
  all_solid s = true /\ (Z.of_nat (String.length s) < 1000000)%Z.

Definition keys_ok (k : aws_keys) : Prop :=
  ak_AccessKey k <> "" /\ ak_SecretKey k <> "" /\ key_text (ak_AccessKey k) /\
  key_text (ak_SecretKey k) /\ key_text (ak_SessionToken k).

Lemma drop_cr_none s : no_char carriage_return s = true -> drop_cr s = s.
Proof.
  induction s as [|a s IH]; [done|]. cbn. rewrite andb_true_iff, negb_true_iff.
  intros [Ha Hs]. rewrite IH by done. destruct s; [by rewrite Ha|done].
Qed.

(** lines without a carriage return and short enough are the tokens *)
Definition plain_line (l : string) : Prop :=
  no_char carriage_return l = true /\ no_char newline l = true /\ too_long l = false.

Lemma scan_plain ls : Forall plain_line ls -> scan (ls ++ [""]) = (ls, false).
Proof.
  induction 1 as [|l ls (Hcr & _ & Hlen) _ IH]; [done|]. cbn [app scan]. rewrite Hlen.
  destruct (ls ++ [""]) as [|x xs] eqn:E; [by destruct ls|]. rewrite IH. by rewrite drop_cr_none.
Qed.

(** a [key = value] line *)
Lemma scan_line_key secs current line a p v key :
  line = String a p +:+ "= " +:+ v -> solid a = true -> a <> "#"%char -> a <> ";"%char -> a <> "["%char ->
  no_char "=" (String a p) = true -> key = ToLower (TrimSpace (String a p)) ->
  v <> "" -> all_solid v = true ->
  scan_line (secs, current) line = (set_key secs current key v, current).
Proof.
  intros -> Ha H1 H2 H3 Heq -> Hv Hs. unfold scan_line.
  assert (String a p +:+ "= " +:+ v = String a (p +:+ "= ") +:+ v) as E
    by by rewrite !sapp_cons, sapp_assoc.
  rewrite TrimSpace_solid by (rewrite E; by apply solid_text_app). rewrite E.
  rewrite bool_decide_eq_false_2 by by rewrite sapp_cons.
  assert (forall c, a <> c -> HasPrefix (String a (p +:+ "= ") +:+ v) (String c "") = false) as Hpre.
  { intros c Hc. rewrite sapp_cons. unfold HasPrefix. cbn. by rewrite bool_decide_eq_false_2. }
  rewrite !Hpre by done. cbn [orb andb]. rewrite <- E.
  change ("= " +:+ v) with (String "=" (String " " v)). rewrite Cut_at by done.
  by rewrite (TrimSpace_space_solid v) by by apply all_solid_text.
Qed.

Lemma substring_prefix s t : String.substring 0 (String.length s) (s +:+ t) = s.
Proof. induction s as [|a s IH]; [by destruct t|]. rewrite sapp_cons. cbn. by rewrite IH. Qed.

Lemma HasSuffix_app s t : HasSuffix (s +:+ t) t = true.
Proof.
  induction s as [|a s IH].
  - rewrite sapp_nil_l. destruct t; cbn; by rewrite bool_decide_eq_true_2.
  - rewrite sapp_cons. cbn. by rewrite IH, orb_true_r.
Qed.

(** a [[name]] line *)
Lemma scan_line_header secs current name :
  name <> "" -> all_solid name = true ->
  scan_line (secs, current) ("[" +:+ name +:+ "]") =
    (match secs !! name with Some _ => secs | None => <[name := ∅]> secs end, name).
Proof.
  intros Hne Hs. unfold scan_line.
  rewrite TrimSpace_solid.
  2:{ split; [by exists "["%char, (name +:+ "]")|]. exists ("[" +:+ name), "]"%char. done. }
  rewrite bool_decide_eq_false_2 by done.
  change (HasPrefix ("[" +:+ name +:+ "]") "#") with false.
  change (HasPrefix ("[" +:+ name +:+ "]") ";") with false.
  change (HasPrefix ("[" +:+ name +:+ "]") "[") with true. cbn [orb].
  rewrite <- sapp_assoc, HasSuffix_app. cbn [andb]. rewrite sapp_assoc.
  assert (String.substring 1 (String.length ("[" +:+ name +:+ "]") - 2) ("[" +:+ name +:+ "]") = name)
    as ->.
  { rewrite !length_sapp. cbn [String.length]. replace (1 + (String.length name + 1) - 2)
      with (String.length name) by lia. exact (substring_prefix name "]"). }
  by rewrite TrimSpace_solid by by apply all_solid_text.
Qed.

(** *** One profile, read back *)

Lemma set_key_insert (base : credentials) name (m : section) k v :
  set_key (<[name := m]> base) name k v = <[name := <[k := v]> m]> base.
Proof. unfold set_key. rewrite lookup_insert_eq. cbn. by rewrite insert_insert_eq. Qed.

(** the section a profile's lines make *)
Definition profile_section (k : aws_keys) : section :=
  (if bool_decide (ak_SessionToken k = "") then id
   else <["aws_session_token" := ak_SessionToken k]>)
  (<["aws_secret_access_key" := ak_SecretKey k]>
    (<["aws_access_key_id" := ak_AccessKey k]> ∅)).

Definition profile_sections (name : string) (k : aws_keys) : credentials :=
  <[name := profile_section k]> {[ "" := ∅ ]}.

Lemma parse_profile name k :
  name <> "" -> all_solid name = true -> keys_ok k ->
  parse_sections (removelast (credential_lines name k)) = profile_sections name k.
Proof.
  intros Hne Hn (Ha & Hs & [Hka _] & [Hks _] & [Hkt _]).
  unfold credential_lines, parse_sections, profile_sections, profile_section.
  destruct (bool_decide (ak_SessionToken k = "")) eqn:Ht; cbn [app removelast fold_left];
    rewrite scan_line_header, lookup_singleton_ne by done.
  all: rewrite (scan_line_key _ _ _ "a" "ws_access_key_id " _ "aws_access_key_id") by done.
  all: rewrite set_key_insert.
  all: rewrite (scan_line_key _ _ _ "a" "ws_secret_access_key " _ "aws_secret_access_key") by done.
  all: rewrite set_key_insert.
  1: done.
  apply bool_decide_eq_false in Ht.
  rewrite (scan_line_key _ _ _ "a" "ws_session_token " _ "aws_session_token") by done.
  by rewrite set_key_insert.
Qed.

Lemma pick_only name k profile :
  name <> "" -> profile_section k <> ∅ ->
  pickProfile (profile_sections name k) profile = Some (profile_section k).
Proof.
  intros Hne Hk.
  assert (forall n kv, named_section (profile_sections name k) n kv <->
    n = name /\ kv = profile_section k) as Hsec.
  { intros n kv. unfold named_section, profile_sections. destruct (decide (n = name)) as [->|Hn].
    - rewrite lookup_insert_eq. naive_solver.
    - rewrite lookup_insert_ne by done. rewrite lookup_singleton_Some. naive_solver. }
  unfold pickProfile. destruct (nonempty_section _ profile) as [kv|] eqn:E.
  { apply nonempty_section_iff, Hsec in E as [_ ->]. done. }
  destruct (nonempty_section _ "") as [kv|] eqn:E2.
  { apply nonempty_section_iff, Hsec in E2 as [E2 _]. by symmetry in E2. }
  apply lone_section_iff. exists name. split_and!; [done|by apply Hsec|].
  intros n kv _ [-> _]%Hsec. done.
Qed.

Lemma plain_line_app p v :
  no_char carriage_return p = true -> no_char newline p = true ->
  (Z.of_nat (String.length p) < 40000)%Z -> key_text v -> plain_line (p +:+ v).
Proof.
  intros Hcr Hnl Hp [Hv Hlen]. unfold plain_line. rewrite !no_char_app, Hcr, Hnl.
  rewrite !all_solid_no_char by done. split_and!; [done|done|]. unfold too_long, max_token.
  apply Z.leb_gt. rewrite length_sapp. lia.
Qed.

Lemma credential_lines_plain name k :
  key_text name -> keys_ok k -> Forall plain_line (removelast (credential_lines name k)).
Proof.
  intros [Hn Hlen] (_ & _ & Hka & Hks & Hkt).
  assert (plain_line ("[" +:+ name +:+ "]")) as Hhead.
  { unfold plain_line. rewrite !no_char_app, !(all_solid_no_char name) by done.
    split_and!; [done|done|]. unfold too_long, max_token. apply Z.leb_gt.
    rewrite !length_sapp. cbn [String.length]. lia. }
  unfold credential_lines. destruct (bool_decide _); cbn [app removelast];
    repeat (apply List.Forall_cons; [first [exact Hhead | by apply plain_line_app]|]);
    apply List.Forall_nil.
Qed.

(** C38: a file with one profile is read back exactly: whatever profile is asked
    for (the profile itself, another name, or none), the keys and the session token
    returned are those written, for any names and keys of printable ASCII without
    spaces. *)
Theorem credentials_roundtrip name k profile :
  name <> "" -> key_text name -> keys_ok k ->
  ParseAWSCredentials (credential_file name k) profile = Ok k.
Proof.
  intros Hne Hn Hk. pose proof (credential_lines_plain name k Hn Hk) as Hplain.
  assert (credential_lines name k = removelast (credential_lines name k) ++ [""]) as Hlast.
  { unfold credential_lines. by destruct (bool_decide _). }
  unfold ParseAWSCredentials, credential_file.
  rewrite Split_Join.
  - rewrite Hlast at 1. rewrite scan_plain by done. rewrite parse_profile by (try done; apply Hn).
    pose proof Hk as (Ha & Hs & _).
    rewrite pick_only; [|done|].
    + assert (profile_section k !! "aws_access_key_id" = Some (ak_AccessKey k) /\
              profile_section k !! "aws_secret_access_key" = Some (ak_SecretKey k) /\
              default "" (profile_section k !! "aws_session_token") = ak_SessionToken k)
        as (E1 & E2 & E3).
      { unfold profile_section. case_bool_decide as Ht; cbn.
        - rewrite lookup_insert_ne, lookup_insert_eq, lookup_insert_eq by done.
          rewrite !lookup_insert_ne, lookup_empty by done. by rewrite Ht.
        - rewrite !lookup_insert_eq. rewrite !lookup_insert_ne, lookup_insert_eq by done. done. }
      unfold lookup_key. rewrite E1, E2, E3. cbn.
      rewrite bool_decide_eq_false_2 by naive_solver. by destruct k.
    + unfold profile_section. case_bool_decide; cbn; apply insert_non_empty.
  - unfold credential_lines. done.
  - rewrite Hlast. apply Forall_app. split; [|by apply Forall_singleton].
    eapply Forall_impl; [exact Hplain|]. by intros l (_ & ? & _).
Qed.

Definition sample_keys : aws_keys :=
  {| ak_AccessKey := "AKIA"; ak_SecretKey := "a=b/c+d"; ak_SessionToken := "" |}.

Lemma credentials_roundtrip_witness :
  ParseAWSCredentials (credential_file "velero" sample_keys) "default" = Ok sample_keys.
Proof.
  apply (credentials_roundtrip "velero" sample_keys "default");
    unfold keys_ok, key_text; cbn; repeat split; (discriminate || reflexivity || lia).
Defined.
