(* ===== verification/Staging.v ===== *)
(** * Staging: streaming store objects into the peat outbox ([internal/staging])

    [StageObject] is the sequence of file-system calls of the Go function; the
    deferred removal of the temporary file runs on every path after it was
    created.  Copying through [io.MultiWriter] is one read of the object's bytes
    and one write of them. *)

From S2P Require Import Prelude GoStrings GoPath GoCrypto Api Effects Peat Objstore.
From Stdlib Require Import Ascii.

Record Stager : Set := { sg_RootName : string; sg_RootPath : string }.

Definition New (rootName rootPath : string) : Stager :=
  {| sg_RootName := rootName; sg_RootPath := rootPath |}.

Definition safeRelPath (key : string) : res string :=
  if bool_decide (key = "") then Er (EText [FStr "staging: empty object key"])
  else if HasPrefix key "/"
  then Er (EText [FStr "staging: key must be relative: "; FQuo key])
  else
    let clean := Clean key in
    if bool_decide (clean = "." \/ clean = "..") || HasPrefix clean "../"
    then Er (EText [FStr "staging: key escapes root: "; FQuo key])
    else Ok clean.

Section Stager.
Context (s : Stager).

Definition dst_path (rel : string) : string := PathJoin [sg_RootPath s; rel].

Definition file_spec (rel : string) (n : Z) (sum : string) : FileSpec :=
  {| fs_RootName := sg_RootName s; fs_RelativePath := rel; fs_Size := uint64 n;
     fs_SHA256 := sum; fs_ContentType := ""; fs_DisplayName := Base rel |}.

Definition stage_error (what key : string) (e : error) : res FileSpec :=
  Er (errorf [FStr "staging: "; FStr what; FStr " "; FQuo key; FStr ": "] e).

(** from the temporary file on; its deferred removal is [StageObject]'s *)
Definition fill_and_rename (key rel dst tmpName : string) (rc : Reader) : io (res FileSpec) :=
  '(data, rerr) ← rc;
  werr ← perform (OsWrite tmpName data);
  match (match werr with Some e => Some e | None => rerr end) with
  | Some e =>
      _ ← perform (OsClose tmpName);
      Ret (stage_error "copy" key e)
  | None =>
      e ← perform (OsClose tmpName);
      match e with
      | Some e => Ret (stage_error "close" key e)
      | None =>
          e ← perform (OsRename tmpName dst);
          match e with
          | Some e => Ret (stage_error "rename" key e)
          | None => Ret (Ok (file_spec rel (Z.of_nat (String.length data)) (sha256 data)))
          end
      end
  end.

Definition StageObject (store : Store) (key : string) : io (res FileSpec) :=
  match safeRelPath key with
  | Er e => Ret (Er e)
  | Ok rel =>
      let dst := dst_path rel in
      e ← perform (OsMkdirAll (Dir dst));
      match e with
      | Some e => Ret (stage_error "mkdir for" key e)
      | None =>
          rc ← st_Open store key;
          match rc with
          | Er e => Ret (stage_error "open" key e)
          | Ok rc =>
              tmp ← perform (OsCreateTemp (Dir dst) ".staging-*");
              match tmp with
              | Er e => Ret (stage_error "temp for" key e)
              | Ok tmpName =>
                  r ← fill_and_rename key rel dst tmpName rc;
                  _ ← perform (OsRemove tmpName);
                  Ret r
              end
          end
      end
  end.

Definition Release (relPath : string) : io (option error) :=
  match safeRelPath relPath with
  | Er e => Ret (Some e)
  | Ok rel => perform (OsRemove (dst_path rel))
  end.
End Stager.

(** ** Which keys are staged, and where *)

(** what the checks of [safeRelPath] decide *)
Lemma safeRelPath_relative key :
  key <> "" -> HasPrefix key "/" = false ->
  safeRelPath key =
    match walk key with
    | Some (x :: st) => Ok (Join (x :: st) slash)
    | _ => Er (EText [FStr "staging: key escapes root: "; FQuo key])
    end.
Proof.
  intros Hne Hr. unfold safeRelPath. rewrite bool_decide_eq_false_2 by done. rewrite Hr.
  destruct (walk key) as [[|x st]|] eqn:Hw.
  - by rewrite clean_at_root.
  - destruct (clean_rel key (x :: st) Hr Hw ltac:(done)) as [-> Hp].
    destruct (proper_Join_not_special (x :: st) Hp ltac:(done)) as (_ & Hd & Hdd & Hp').
    rewrite bool_decide_eq_false_2 by naive_solver. by rewrite Hp'.
  - destruct (clean_escapes key Hr Hw) as [r [->| ->]]; [done|].
    rewrite (proj2 (HasPrefix_iff _ "../")) by by exists r. by rewrite orb_true_r.
Qed.

Lemma safeRelPath_Ok key rel :
  safeRelPath key = Ok rel ->
  exists st, walk key = Some st /\ st <> [] /\ rel = Join st slash /\ Forall proper st.
Proof.
  intros H.
  assert (key <> "") as Hne by (intros ->; done).
  assert (HasPrefix key "/" = false) as Hr.
  { destruct (HasPrefix key "/") eqn:E; [|done]. unfold safeRelPath in H. rewrite E in H.
    by rewrite bool_decide_eq_false_2 in H. }
  rewrite safeRelPath_relative in H by done.
  destruct (walk key) as [[|x st]|] eqn:Hw; [done| |done]. injection H as <-.
  exists (x :: st). split_and!; [done..|].
  by apply (clean_rel key (x :: st)).
Qed.

(** C28: [safeRelPath] accepts exactly the non-empty relative keys whose
    components, followed from the outbox root with [..] going up, never leave
    the root and do not end at the root itself; it returns the path of the
    directories entered.  So no accepted key names a file outside the root. *)
Theorem safeRelPath_iff key rel :
  safeRelPath key = Ok rel <->
  key <> "" /\ HasPrefix key "/" = false /\
  exists st, walk key = Some st /\ st <> [] /\ rel = Join st slash.
Proof.
  split.
  - intros H. pose proof (safeRelPath_Ok key rel H) as (st & Hw & Hne & -> & _).
    split_and!; [by intros ->| |by exists st].
    destruct (HasPrefix key "/") eqn:E; [|done]. unfold safeRelPath in H. rewrite E in H.
    destruct (bool_decide (key = "")); done.
  - intros (Hne & Hr & st & Hw & Hst & ->). rewrite safeRelPath_relative, Hw by done.
    by destruct st.
Qed.

(** C29: the staged path of a key lies strictly below an absolute outbox root:
    it is the cleaned root, a slash and the returned relative path, which has no
    empty, [.] or [..] component; and staging that relative path again (as
    [Release] does) names the same file. *)
Theorem staged_below_root (s : Stager) key rel :
  HasPrefix (sg_RootPath s) "/" = true -> safeRelPath key = Ok rel ->
  dst_path s rel = (if bool_decide (Clean (sg_RootPath s) = "/") then ""
                    else Clean (sg_RootPath s)) +:+ "/" +:+ rel /\
  Forall proper (Split rel slash) /\
  safeRelPath rel = Ok rel.
Proof.
  intros Hr H. destruct (safeRelPath_Ok key rel H) as (st & Hw & Hne & -> & Hp).
  pose proof (proper_Join_not_special st Hp Hne) as (He & _).
  split_and!.
  - by apply PathJoin_below.
  - rewrite Split_Join; [done..|]. by apply proper_slash_free.
  - rewrite safeRelPath_relative, walk_Join by (try done; by apply proper_no_slash_prefix).
    by destruct st.
Qed.

Lemma staged_below_root_witness :
  dst_path (New "outbox" "/var/lib/peat/") "kopia/p1" = "/var/lib/peat" +:+ "/" +:+ "kopia/p1" /\
  Forall proper (Split "kopia/p1" slash) /\ safeRelPath "kopia/p1" = Ok "kopia/p1".
Proof.
  exact (staged_below_root (New "outbox" "/var/lib/peat/") "kopia/x/..//p1" "kopia/p1"
           ltac:(vm_compute; reflexivity) ltac:(vm_compute; reflexivity)).
Defined.

(** ** What staging an object does, whatever the outside answers *)

(** the temporary file an event created; the target an event renamed a file to *)
Definition created (e : event) : option string :=
  match e with
  | Ev c r =>
      match c return resp c -> option string with
      | OsCreateTemp _ _ => fun r => match r with Ok f => Some f | Er _ => None end
      | _ => fun _ => None
      end r
  end.

Definition renamed (e : event) : option string :=
  match e with
  | Ev c r =>
      match c return resp c -> option string with
      | OsRename _ new => fun r => match r with None => Some new | Some _ => None end
      | _ => fun _ => None
      end r
  end.

Section Staged.
Context (s : Stager) (ms : minioStore) (key rel : string).

Abbreviation dst := (dst_path s rel).
Abbreviation object := (fullKey ms key).

(** the temporary file was created in the destination's directory *)
Definition is_temp (h : history) (f : string) : Prop :=
  Ev (OsCreateTemp (Dir dst) ".staging-*") (Ok f) ∈ h.

(** the calls that may be made after a history *)
Definition stage_call (h : history) (c : call) : Prop :=
  match c with
  | OsMkdirAll p => p = Dir dst
  | MinioGetObject cl b k | MinioObjectRead cl b k =>
      cl = ms_client ms /\ b = ms_bucket ms /\ k = object
  | OsCreateTemp d _ => d = Dir dst
  | OsWrite f data =>
      is_temp h f /\
      exists e h0, h = Ev (MinioObjectRead (ms_client ms) (ms_bucket ms) object) (data, e) :: h0
  | OsClose f | OsRemove f => is_temp h f
  | OsRename f d =>
      d = dst /\ is_temp h f /\
      exists data h0,
        h = Ev (OsClose f) None :: Ev (OsWrite f data) None ::
            Ev (MinioObjectRead (ms_client ms) (ms_bucket ms) object) (data, None) :: h0
  | _ => False
  end.

(** the history of a success: the bytes read were written to the temporary
    file, which was closed, renamed and cleaned up *)
Definition staged_history (h : history) (data : string) (h' : history) : Prop :=
  exists tmp r,
    h' = Ev (OsRemove tmp) r :: Ev (OsRename tmp dst) None :: Ev (OsClose tmp) None ::
         Ev (OsWrite tmp data) None ::
         Ev (MinioObjectRead (ms_client ms) (ms_bucket ms) object) (data, None) ::
         Ev (OsCreateTemp (Dir dst) ".staging-*") (Ok tmp) ::
         Ev (MinioGetObject (ms_client ms) (ms_bucket ms) object) None ::
         Ev (OsMkdirAll (Dir dst)) None :: h.

(** on a failure: no rename succeeded, and a temporary file that was created
    was removed by the last call *)
Definition unstaged_history (h h' : history) : Prop :=
  exists l, h' = l ++ h /\ omap renamed l = [] /\
    match omap created l with
    | [] => True
    | tmp :: _ => exists r l', l = Ev (OsRemove tmp) r :: l'
    end.

Definition stage_outcome (h h' : history) (r : res FileSpec) : Prop :=
  match r with
  | Ok spec =>
      exists data, staged_history h data h' /\
        spec = file_spec s rel (Z.of_nat (String.length data)) (sha256 data)
  | Er _ => unstaged_history h h'
  end.
End Staged.

Lemma stage_spec s ms key rel h :
  safeRelPath key = Ok rel ->
  safe (stage_call s ms key rel) (StageObject s (as_Store ms) key) h (stage_outcome s ms key rel h).
Proof.
  intros Hrel. unfold StageObject. rewrite Hrel. cbn. split; [done|].
  intros [e|]; cbn; [by eexists [_]|]. split; [done|].
  intros [e|]; cbn; [by eexists [_; _]|]. split; [done|].
  intros [tmp|e]; cbn; [|by eexists [_; _; _]]. split; [done|].
  intros [data rerr]. cbn. unfold is_temp. split; [split; [set_solver|by eexists _, _]|].
  intros werr. destruct (match werr with Some e => Some e | None => rerr end) as [e|] eqn:E; cbn.
  { split; [set_solver|]. intros cerr. split; [set_solver|]. intros r.
    eexists [_; _; _; _; _; _; _]. split_and!; [done..|by eexists _, _]. }
  destruct werr; [done|]. subst rerr. split; [set_solver|].
  intros [e|]; cbn.
  { split; [set_solver|]. intros r.
    eexists [_; _; _; _; _; _; _]. split_and!; [done..|by eexists _, _]. }
  split; [split_and!; [done|set_solver|by eauto]|].
  intros [e|]; cbn.
  { split; [set_solver|]. intros r.
    eexists [_; _; _; _; _; _; _; _]. split_and!; [done..|by eexists _, _]. }
  split; [set_solver|]. intros r. exists data. split; [|done]. by exists tmp, r.
Qed.

(** the object's bytes [data] were read, written to a file of the outbox and put in
    place at the key's path; [spec] describes them *)
Definition staged_bytes (s : Stager) (ms : minioStore) (h : history) (key data : string)
    (spec : FileSpec) : Prop :=
  exists rel tmp, safeRelPath key = Ok rel /\
    Ev (MinioObjectRead (ms_client ms) (ms_bucket ms) (fullKey ms key)) (data, None) ∈ h /\
    Ev (OsWrite tmp data) None ∈ h /\ Ev (OsClose tmp) None ∈ h /\
    Ev (OsRename tmp (dst_path s rel)) None ∈ h /\
    spec = file_spec s rel (Z.of_nat (String.length data)) (sha256 data).

Definition staged_file (s : Stager) (ms : minioStore) (h : history) (key : string)
    (spec : FileSpec) : Prop :=
  exists data, staged_bytes s ms h key data spec.

Lemma staged_file_mono s ms h h' key spec :
  extends h h' -> staged_file s ms h key spec -> staged_file s ms h' key spec.
Proof. unfold staged_file, staged_bytes. naive_solver eauto 10 using extends_in. Qed.

Lemma StageObject_staged s ms key h :
  safe any_call (StageObject s (as_Store ms) key) h
    (fun h' r => forall spec, r = Ok spec -> staged_file s ms h' key spec).
Proof.
  destruct (safeRelPath key) as [rel|e] eqn:E.
  - eapply safe_mono; [| |by apply (stage_spec s ms key rel)]; [done|]. intros h' r Hr spec ->.
    destruct Hr as (data & (tmp & r & ->) & ->). exists data, rel, tmp.
    split_and!; [done|set_solver..|done].
  - unfold StageObject. by rewrite E.
Qed.

Lemma completes_StageObject s ms key : completes (StageObject s (as_Store ms) key).
Proof.
  unfold StageObject. destruct (safeRelPath key) as [rel|e]; [|apply completes_ret].
  apply completes_bind; [apply completes_perform|]. intros [e|]; [apply completes_ret|].
  cbn [as_Store st_Open]. unfold Open. cbn [perform mbind io_mbind io_bind].
  apply completes_call. intros [e|]; cbn [io_bind]; [apply completes_ret|].
  unfold fill_and_rename. completes_steps.
Qed.
#[export] Hint Resolve completes_StageObject : completes.

(** C26: staging touches only its own files: a rejected key makes no call at all;
    for an accepted one, whatever the outside answers, the only calls are the
    mkdir of the destination's directory, the download of that one object, and
    write, close, remove and rename of the temporary file it created there.  The
    rename goes to the destination and is made only when the bytes read without
    an error were written without an error and the file closed without one, in
    that order, immediately before. *)
Theorem StageObject_calls (s : Stager) (ms : minioStore) key h :
  match safeRelPath key with
  | Ok rel =>
      safe (stage_call s ms key rel) (StageObject s (as_Store ms) key) h (fun _ _ => True)
  | Er e => StageObject s (as_Store ms) key = Ret (Er e)
  end.
Proof.
  destruct (safeRelPath key) as [rel|e] eqn:E.
  - eapply safe_mono; [| |apply stage_spec; exact E]; done.
  - unfold StageObject. by rewrite E.
Qed.

(** C27: the outcome of staging, whatever the outside answers: a success reports
    the root name, the cleaned relative path and the size and SHA-256 of exactly
    the bytes that were read, written, closed and renamed into place; on an
    error no rename happened; and on every path a temporary file that was created
    is removed by the last call.  Staging always comes to an outcome. *)
Theorem StageObject_outcome (s : Stager) (ms : minioStore) key rel h :
  safeRelPath key = Ok rel ->
  completes (StageObject s (as_Store ms) key) /\
  safe any_call (StageObject s (as_Store ms) key) h (stage_outcome s ms key rel h).
Proof.
  intros E. split; [apply completes_StageObject|]. eapply safe_mono; [| |apply stage_spec; exact E]; done.
Qed.

Lemma StageObject_outcome_witness :
  completes (StageObject (New "outbox" "/outbox") (as_Store sample_store) "kopia/./p1") /\
  safe any_call (StageObject (New "outbox" "/outbox") (as_Store sample_store) "kopia/./p1") []
    (stage_outcome (New "outbox" "/outbox") sample_store "kopia/./p1" "kopia/p1" []).
Proof.
  apply (StageObject_outcome (New "outbox" "/outbox") sample_store "kopia/./p1" "kopia/p1" []).
  vm_compute. reflexivity.
Defined.

(** two keys of the store that are staged in one file, the second over the first *)
Lemma staged_keys_collide :
  safeRelPath "kopia//p1" = Ok "kopia/p1" /\ safeRelPath "kopia/p1" = Ok "kopia/p1".
Proof. split; vm_compute; reflexivity. Qed.

(** [Release] removes exactly the file that staging the key put in place:
    one remove call, on the same path, and none for a rejected key. *)
Lemma Release_removes_staged (s : Stager) key rel :
  safeRelPath key = Ok rel ->
  Release s rel = perform (OsRemove (dst_path s rel)) /\
  Release s key = perform (OsRemove (dst_path s rel)).
Proof.
  intros E. unfold Release. rewrite E. destruct (safeRelPath_Ok key rel E) as (st & _ & Hne & -> & Hp).
  pose proof (proper_Join_not_special st Hp Hne) as (He & _).
  rewrite safeRelPath_relative, walk_Join by (try done; by apply proper_no_slash_prefix).
  by destruct st.
Qed.
