(* ===== verification/Importer.v ===== *)
(** * Importer: rebuilding a backup on the destination ([internal/importer])

    [Import] makes one pass over a manifest: it checks each landed inbox file
    and puts it into the destination store, the discovery objects last.  The
    inbox index is built on the first use of the fallback locator and passed
    from file to file, as the [idx] pointer of the Go code is. *)

From S2P Require Import Prelude GoStrings GoPath GoCrypto Api Effects Manifest Objstore.
From stdpp Require Import gmap strings.

Definition veleroDiscoveryObject : string := "velero-backup.json".

Definition errNotLanded : error := ESentinel "inbox file not fully landed".

Record Result : Set := {
  rs_FilesImported : Z;     (* int *)
  rs_BytesImported : Z;     (* int64 *)
  rs_Pending : Z;           (* int *)
  rs_Committed : bool;
}.

#[export] Instance Result_eq_dec : EqDecision Result.
Proof. solve_decision. Defined.

Definition zero_Result : Result :=
  {| rs_FilesImported := 0; rs_BytesImported := 0; rs_Pending := 0; rs_Committed := false |}.

(** ** The inbox *)

(** the index: basename -> candidate paths; [None] while it is not built *)
Abbreviation inboxIndex := (gmap string (list string)).

Definition fileExists (p : string) : io bool :=
  st ← perform (OsStat p);
  Ret match st with Ok isDir => negb isDir | Er _ => false end.

Definition hashFile (p : string) : io (res (string * Z)) :=
  e ← perform (OsOpen p);
  match e with
  | Some e => Ret (Er e)
  | None =>
      '(data, e) ← perform (OsRead p);
      Ret match e with
          | Some e => Er e
          | None => Ok (HexEncode (sha256 data), Z.of_nat (String.length data))
          end
  end.

Definition IsNotExist (e : error) : bool :=
  match e with EExt x => ee_not_found x | _ => false end.

(** the callback of [WalkDir], up to its first error *)
Fixpoint index_walk (idx : inboxIndex) (entries : list walk_entry) : res inboxIndex :=
  match entries with
  | [] => Ok idx
  | WalkError _ e :: entries' => if IsNotExist e then index_walk idx entries' else Er e
  | WalkDirectory _ :: entries' => index_walk idx entries'
  | WalkFile p :: entries' =>
      let b := Base p in
      index_walk (<[b := default [] (idx !! b) ++ [p]]> idx) entries'
  end.

Definition newInboxIndex (root : string) : io (res inboxIndex) :=
  entries ← perform (OsWalkDir root);
  Ret match index_walk ∅ entries with
      | Er e => Er (errorf [FStr "scan inbox "; FQuo root; FStr ": "] e)
      | Ok idx => Ok idx
      end.

(** the first candidate whose size and digest are the entry's *)
Fixpoint find_candidate (e : FileEntry) (cands : list string) : io (option string) :=
  match cands with
  | [] => Ret None
  | cand :: cands' =>
      r ← hashFile cand;
      match r with
      | Ok (sum, n) =>
          if bool_decide (n = fe_Size e /\ sum = fe_SHA256 e) then Ret (Some cand)
          else find_candidate e cands'
      | Er _ => find_candidate e cands'
      end
  end.

Definition verify (p : string) (e : FileEntry) : io (option error) :=
  r ← hashFile p;
  Ret match r with
      | Er err => Some (errorf [FStr "hash inbox "; FQuo p; FStr ": "] err)
      | Ok (sum, n) =>
          if bool_decide (n <> fe_Size e)
          then Some (EWrap [] errNotLanded [FStr ": "; FQuo p; FStr " size "; FInt n;
                                            FStr " != manifest "; FInt (fe_Size e)])
          else if bool_decide (sum <> fe_SHA256 e)
          then Some (EText [FStr "sha256 mismatch for "; FQuo (fe_Key e); FStr ": inbox ";
                            FStr sum; FStr " != manifest "; FStr (fe_SHA256 e)])
          else None
      end.

Section Importer.
Context (InboxRoot : string) (store : Store).

Definition primary_path (e : FileEntry) : string :=
  PathJoin [InboxRoot; fe_DistributionID e; fe_Basename e].

Definition get_index (idx : option inboxIndex) : io (res inboxIndex) :=
  match idx with
  | Some i => Ret (Ok i)
  | None => newInboxIndex InboxRoot
  end.

(** the path of an entry's bytes, if they are there, and the index after it *)
Definition locate (e : FileEntry) (idx : option inboxIndex)
  : io (res (option string) * option inboxIndex) :=
  found ← (if bool_decide (fe_DistributionID e <> "") then fileExists (primary_path e)
           else Ret false);
  if (found : bool) then Ret (Ok (Some (primary_path e)), idx)
  else
    built ← get_index idx;
    match built with
    | Er err => Ret (Er err, idx)
    | Ok i =>
        cand ← find_candidate e (default [] (i !! fe_Basename e));
        Ret (Ok cand, Some i)
    end.

Definition put_from (src : string) (e : FileEntry) : io (res (bool * Z)) :=
  err ← perform (OsOpen src);
  match err with
  | Some err => Ret (Er (errorf [FStr "open inbox "; FQuo src; FStr ": "] err))
  | None =>
      err ← st_Put store (fe_Key e) (perform (OsRead src)) (fe_Size e) "";
      Ret match err with
          | Some err => Er (errorf [FStr "put dest "; FQuo (fe_Key e); FStr ": "] err)
          | None => Ok (true, fe_Size e)
          end
  end.

(** whether the object is there now, and the bytes written *)
Definition importOne (e : FileEntry) (idx : option inboxIndex)
  : io (res (bool * Z) * option inboxIndex) :=
  st ← st_Stat store (fe_Key e);
  match st with
  | Er serr => Ret (Er (errorf [FStr "stat dest "; FQuo (fe_Key e); FStr ": "] serr), idx)
  | Ok info =>
      if (match info with
          | Some info => bool_decide (oi_Size info = fe_Size e)
          | None => false
          end)
      then Ret (Ok (true, 0%Z), idx)
      else
        '(src, idx) ← locate e idx;
        match src with
        | Er lerr => Ret (Er lerr, idx)
        | Ok None => Ret (Ok (false, 0%Z), idx)
        | Ok (Some src) =>
            verr ← verify src e;
            match verr with
            | Some verr =>
                Ret (if Is verr "inbox file not fully landed" then Ok (false, 0%Z) else Er verr,
                     idx)
            | None =>
                r ← put_from src e;
                Ret (r, idx)
            end
        end
  end.

Definition count_imported (res : Result) (n : Z) : Result :=
  {| rs_FilesImported := int64 (rs_FilesImported res + 1);
     rs_BytesImported := int64 (rs_BytesImported res + n);
     rs_Pending := rs_Pending res; rs_Committed := rs_Committed res |}.

Definition count_pending (res : Result) : Result :=
  {| rs_FilesImported := rs_FilesImported res; rs_BytesImported := rs_BytesImported res;
     rs_Pending := int64 (rs_Pending res + 1); rs_Committed := rs_Committed res |}.

Definition commit_result (res : Result) : Result :=
  {| rs_FilesImported := rs_FilesImported res; rs_BytesImported := rs_BytesImported res;
     rs_Pending := rs_Pending res; rs_Committed := bool_decide (rs_Pending res = 0%Z) |}.

Definition is_discovery (e : FileEntry) : bool :=
  bool_decide (Base (fe_Key e) = veleroDiscoveryObject).

(** Go's [return res, err] *)
Abbreviation outcome := (Result * option error)%type.

(** the first loop: data files, discovery objects deferred to [commit] *)
Fixpoint data_loop (files : list FileEntry) (idx : option inboxIndex) (res : Result)
    (commit : list FileEntry)
  : io (outcome * option inboxIndex * list FileEntry) :=
  match files with
  | [] => Ret (res, None, idx, commit)
  | e :: files' =>
      if is_discovery e then data_loop files' idx res (commit ++ [e])
      else
        '(r, idx) ← importOne e idx;
        match r with
        | Er err => Ret (res, Some err, idx, commit)
        | Ok (false, _) => data_loop files' idx (count_pending res) commit
        | Ok (true, n) => data_loop files' idx (count_imported res n) commit
        end
  end.

(** the commit phase *)
Fixpoint commit_loop (commit : list FileEntry) (idx : option inboxIndex) (res : Result)
  : io outcome :=
  match commit with
  | [] => Ret (commit_result res, None)
  | e :: commit' =>
      '(r, idx) ← importOne e idx;
      match r with
      | Er err => Ret (res, Some err)
      | Ok (false, _) => Ret (count_pending res, None)
      | Ok (true, n) => commit_loop commit' idx (count_imported res n)
      end
  end.

Definition Import (m : Manifest) : io outcome :=
  '(res, err, idx, commit) ← data_loop (mf_Files m) None zero_Result [];
  match err with
  | Some err => Ret (res, Some err)
  | None =>
      if bool_decide (rs_Pending res > 0)%Z then Ret (res, None)
      else commit_loop commit idx res
  end.
End Importer.

(** ** An import pass returns *)

Lemma completes_hashFile p : completes (hashFile p).
Proof. unfold hashFile. completes_steps. Qed.
#[export] Hint Resolve completes_hashFile : completes.

Lemma completes_verify p e : completes (verify p e).
Proof. unfold verify. completes_steps. Qed.

Lemma completes_find_candidate e cands : completes (find_candidate e cands).
Proof. induction cands; cbn [find_candidate]; completes_steps. Qed.
#[export] Hint Resolve completes_verify completes_find_candidate : completes.

Lemma completes_locate root e idx : completes (locate root e idx).
Proof. unfold locate, fileExists, get_index, newInboxIndex. completes_steps. Qed.
#[export] Hint Resolve completes_locate : completes.

Section Completes.
Context (root : string) (store : Store) `{!StoreSpec store}.

Lemma completes_put_from src e : completes (put_from store src e).
Proof. unfold put_from. completes_steps. Qed.
Hint Resolve completes_put_from : completes.

Lemma completes_importOne e idx : completes (importOne root store e idx).
Proof. unfold importOne. completes_steps. Qed.
Hint Resolve completes_importOne : completes.

Lemma completes_data_loop files idx res commit : completes (data_loop root store files idx res commit).
Proof.
  revert idx res commit. induction files; intros idx res commit; cbn [data_loop]; completes_steps.
Qed.

Lemma completes_commit_loop commit idx res : completes (commit_loop root store commit idx res).
Proof. revert idx res. induction commit; intros idx res; cbn [commit_loop]; completes_steps. Qed.
Hint Resolve completes_data_loop completes_commit_loop : completes.

Lemma completes_Import m : completes (Import root store m).
Proof. unfold Import. completes_steps. Qed.
End Completes.
#[export] Hint Resolve completes_Import : completes.

(** ** What an import pass does, whatever the outside answers

    Proved for every store that meets [StoreSpec]. *)

Section ImportSafety.
#[local] Arguments safe : simpl never.
Context (root : string) (store : Store) `{!StoreSpec store} (files : list FileEntry).

(** a path the pass may look at: an entry's own, or one found below the root *)
Definition inbox_path (h : history) (p : string) : Prop :=
  (exists e, e ∈ files /\ p = primary_path root e) \/
  (exists entries, Ev (OsWalkDir root) entries ∈ h /\ WalkFile p ∈ entries).

(** the file was read to its end and has the entry's size and digest *)
Definition verified (h : history) (p : string) (e : FileEntry) : Prop :=
  exists data, Ev (OsRead p) (data, None) ∈ h /\
    Z.of_nat (String.length data) = fe_Size e /\ HexEncode (sha256 data) = fe_SHA256 e.

Definition present (h : history) (e : FileEntry) : Prop :=
  ss_holds h (fe_Key e) (fe_Size e).

Definition data_file (e : FileEntry) : Prop := e ∈ files /\ is_discovery e = false.

Definition inbox_read (h : history) (c : call) : Prop :=
  match c with
  | OsStat p | OsOpen p | OsRead p => inbox_path h p
  | OsWalkDir p => p = root
  | _ => False
  end.

(** a write: an entry's key and size, from a verified file, by the bytes of the
    read just made; a discovery object only after every data file *)
Definition import_put (h : history) (c : call) : Prop :=
  exists e src body h0,
    e ∈ files /\ c = ss_put (fe_Key e) body (fe_Size e) "" /\
    verified h src e /\ h = Ev (OsRead src) body :: h0 /\
    (is_discovery e = true -> forall d, data_file d -> present h d).

Definition import_call (h : history) (c : call) : Prop :=
  ss_reads c \/ inbox_read h c \/ import_put h c.

Lemma verified_mono h h' p e : extends h h' -> verified h p e -> verified h' p e.
Proof. unfold verified. naive_solver eauto using extends_in. Qed.

Lemma present_mono h h' e : extends h h' -> present h e -> present h' e.
Proof. apply ss_holds_mono. Qed.

Lemma inbox_path_mono h h' p : extends h h' -> inbox_path h p -> inbox_path h' p.
Proof. unfold inbox_path. naive_solver eauto using extends_in. Qed.

Hint Resolve verified_mono present_mono inbox_path_mono : core.

(** the index holds only paths the walk found *)
Definition index_ok (h : history) (i : inboxIndex) : Prop :=
  forall b ps p, i !! b = Some ps -> p ∈ ps -> inbox_path h p.

Definition opt_index_ok (h : history) (i : option inboxIndex) : Prop :=
  match i with Some i => index_ok h i | None => True end.

Lemma opt_index_ok_mono h h' i : extends h h' -> opt_index_ok h i -> opt_index_ok h' i.
Proof. destruct i as [i|]; [|done]. unfold index_ok; cbn. unfold index_ok. eauto. Qed.

Lemma index_walk_ok h all entries i i' :
  Ev (OsWalkDir root) all ∈ h -> (forall x, x ∈ entries -> x ∈ all) ->
  index_ok h i -> index_walk i entries = Ok i' -> index_ok h i'.
Proof.
  intros Hall. revert i. induction entries as [|x entries IH]; intros i Hsub Hi; cbn.
  - by intros [= ->].
  - assert (forall y, y ∈ entries -> y ∈ all) as Hsub' by set_solver.
    destruct x as [p|p|p e]; [|by apply IH|destruct (IsNotExist e); [by apply IH|done]].
    apply IH; [done|]. intros b ps q Hb Hq.
    destruct (decide (b = Base p)) as [->|Hne].
    + rewrite lookup_insert_eq in Hb. injection Hb as <-.
      apply elem_of_app in Hq as [Hq|Hq].
      * destruct (i !! Base p) as [l|] eqn:E; [by eapply Hi|set_solver].
      * apply list_elem_of_singleton in Hq as ->. right. exists all. split; [done|].
        apply Hsub. constructor.
    + rewrite lookup_insert_ne in Hb by done. by eapply Hi.
Qed.

Lemma safe_inbox {A} c (k : resp c -> io A) h Q :
  inbox_read h c -> (forall r, safe import_call (k r) (Ev c r :: h) Q) ->
  safe import_call (Call c k) h Q.
Proof. intros Hc Hk. apply safe_call; [by right; left|done]. Qed.

Lemma get_index_safe h idx :
  opt_index_ok h idx ->
  safe import_call (get_index root idx) h (fun h' r => forall i, r = Ok i -> index_ok h' i).
Proof.
  destruct idx as [i|]; cbn; [by intros ? ? [= <-]|]. intros _.
  apply safe_inbox; [done|]. intros entries. apply safe_ret. intros i.
  destruct (index_walk ∅ entries) as [i'|] eqn:E; [|done]. intros [= <-].
  eapply index_walk_ok; [constructor|done| |exact E].
  intros b ps p H. by rewrite lookup_empty in H.
Qed.

Lemma hashFile_safe h p :
  inbox_path h p ->
  safe import_call (hashFile p) h (fun h' r => forall sum n, r = Ok (sum, n) ->
    exists data, Ev (OsRead p) (data, None) ∈ h' /\ sum = HexEncode (sha256 data) /\
      n = Z.of_nat (String.length data)).
Proof.
  intros Hp. apply safe_inbox; [done|]. intros [e|]; cbn; [done|].
  apply safe_inbox; [cbn; eauto|]. intros [data [e|]]; cbn; [done|].
  apply safe_ret. intros sum n [= <- <-]. exists data. split; [constructor|done].
Qed.

Lemma verify_safe h p e :
  inbox_path h p ->
  safe import_call (verify p e) h (fun h' r => r = None -> verified h' p e).
Proof.
  intros Hp. eapply safe_then; [by apply hashFile_safe|].
  intros h' [[sum n]|err] H; apply safe_ret; [|done].
  case_bool_decide as Hn; [done|]. case_bool_decide as Hs; [done|]. intros _.
  destruct (H sum n eq_refl) as (data & Hin & -> & ->). exists data.
  naive_solver.
Qed.

Lemma find_candidate_safe h e cands :
  (forall p, p ∈ cands -> inbox_path h p) ->
  safe import_call (find_candidate e cands) h
    (fun h' r => forall src, r = Some src -> inbox_path h' src).
Proof.
  revert h. induction cands as [|c cands IH]; intros h Hc; cbn [find_candidate]; [done|].
  eapply safe_then_extends; [apply hashFile_safe, Hc; constructor|].
  intros h' r _ Hh.
  assert (safe import_call (find_candidate e cands) h'
    (fun h' r => forall src, r = Some src -> inbox_path h' src)).
  { apply IH. intros p Hp. eapply inbox_path_mono; [done|]. apply Hc. by constructor. }
  destruct r as [[sum n]|err]; [|done]. case_bool_decide; [|done].
  apply safe_ret. intros src [= <-]. eapply inbox_path_mono; [done|]. apply Hc. constructor.
Qed.

Lemma locate_safe h e idx :
  e ∈ files -> opt_index_ok h idx ->
  safe import_call (locate root e idx) h (fun h' r =>
    opt_index_ok h' r.2 /\ forall src, r.1 = Ok (Some src) -> inbox_path h' src).
Proof.
  intros He Hidx. assert (inbox_path h (primary_path root e)) as Hp by (left; eauto).
  unfold locate. eapply (safe_then_extends _ _ _ _ (fun _ _ => True)).
  { case_bool_decide; [|done]. by apply safe_inbox. }
  intros h1 found _ Hh1. assert (opt_index_ok h1 idx) by by eapply opt_index_ok_mono.
  destruct found.
  { apply safe_ret. split; [done|]. intros src [= <-]. eauto. }
  eapply safe_then_extends; [by apply get_index_safe|]. intros h2 [i|err] Hi Hh2.
  2:{ apply safe_ret. split; [by apply (opt_index_ok_mono h1)|done]. }
  specialize (Hi i eq_refl).
  eapply safe_then_extends.
  { apply find_candidate_safe. intros p Hin. destruct (i !! fe_Basename e) as [ps|] eqn:E.
    - by eapply Hi. - set_solver. }
  intros h3 cand Hc Hh3. apply safe_ret. split.
  - by apply (opt_index_ok_mono h2 h3 (Some i)).
  - intros src [= ->]. by apply Hc.
Qed.

(** a discovery object may be written once every data file is there *)
Definition may_write (h : history) (e : FileEntry) : Prop :=
  is_discovery e = true -> forall d, data_file d -> present h d.

Lemma may_write_mono h h' e : extends h h' -> may_write h e -> may_write h' e.
Proof. unfold may_write. eauto. Qed.

Hint Resolve may_write_mono opt_index_ok_mono extends_cons : core.

Lemma put_from_safe h src e :
  e ∈ files -> inbox_path h src -> verified h src e -> may_write h e ->
  safe import_call (put_from store src e) h (fun h' r => forall n, r = Ok (true, n) -> present h' e).
Proof.
  intros He Hp Hv Hw. unfold put_from. apply safe_inbox; [done|]. intros [err|]; cbn.
  { by apply safe_ret. }
  set (h1 := _ :: h). assert (extends h h1) by apply extends_cons.
  eapply safe_then.
  - apply (ss_put_ok _ _ _ _ h1 import_call). apply safe_inbox; [cbn; eauto|].
    intros body. apply safe_ret. right. right. exists e, src, body, h1.
    assert (extends h (Ev (OsRead src) body :: h1)) by (by etrans).
    split_and!; [done..|by apply (verified_mono h)|done|]. by apply (may_write_mono h).
  - intros h2 [err|] Hput; apply safe_ret; [done|]. intros n [= <-]. by apply Hput.
Qed.

Lemma importOne_safe h e idx :
  e ∈ files -> opt_index_ok h idx -> may_write h e ->
  safe import_call (importOne root store e idx) h (fun h' r =>
    opt_index_ok h' r.2 /\ forall n, r.1 = Ok (true, n) -> present h' e).
Proof.
  intros He Hidx Hw. unfold importOne.
  eapply safe_then_extends.
  { eapply safe_mono; [| |apply (ss_stat (fe_Key e))]; [intros ? ?; by left|].
    intros ? ? H. exact H. }
  intros h1 st Hst Hh1. destruct st as [info|serr].
  2:{ apply safe_ret. split; [by apply (opt_index_ok_mono h)|done]. }
  destruct (match info with Some i => bool_decide _ | None => false end) eqn:Hd.
  { apply safe_ret. split; [eauto|]. intros n _. destruct info as [info|]; [|done].
    apply bool_decide_eq_true in Hd. unfold present. rewrite <- Hd. by apply Hst. }
  eapply safe_then_extends; [apply locate_safe; [done|by apply (opt_index_ok_mono h)]|].
  intros h2 [src idx2] [Hidx2 Hsrc] Hh2. cbn in Hidx2, Hsrc.
  destruct src as [[src|]|lerr]; [|by apply safe_ret..].
  specialize (Hsrc src eq_refl).
  eapply safe_then_extends; [by apply verify_safe|].
  intros h3 [verr|] Hv Hh3.
  { apply safe_ret. split; [eauto|]. by destruct (Is _ _). }
  specialize (Hv eq_refl).
  assert (extends h h3) as Hh by (etrans; [exact Hh1|by etrans]).
  eapply safe_then_extends.
  { apply put_from_safe; [done|by apply (inbox_path_mono h2)|done|by apply (may_write_mono h)]. }
  intros h4 r Hr Hh4. apply safe_ret. split; [|done]. by apply (opt_index_ok_mono h2); [etrans|].
Qed.

(** *** The loops *)

Definition data_files (l : list FileEntry) : list FileEntry :=
  List.filter (fun e => negb (is_discovery e)) l.

Definition discovery_files (l : list FileEntry) : list FileEntry :=
  List.filter is_discovery l.

(** the counter after [n] of the files: so many are pending, and when none is
    the data files among them are there *)
Definition data_counted (h : history) (done : list FileEntry) (res : Result) : Prop :=
  (0 <= rs_Pending res <= Z.of_nat (length done))%Z /\ rs_Committed res = false /\
  (rs_Pending res = 0%Z -> forall d, d ∈ data_files done -> present h d).

Lemma data_counted_mono h h' l res : extends h h' -> data_counted h l res -> data_counted h' l res.
Proof. unfold data_counted. intros ? (? & ? & ?). split; [done|]. split; [done|]. eauto. Qed.

Lemma data_files_app l e :
  data_files (l ++ [e]) = data_files l ++ (if is_discovery e then [] else [e]).
Proof.
  unfold data_files. induction l as [|x l IH]; cbn; [by destruct (is_discovery e)|].
  rewrite IH. by destruct (is_discovery x).
Qed.

Lemma counted_discovery h l e res :
  is_discovery e = true -> data_counted h l res -> data_counted h (l ++ [e]) res.
Proof.
  intros He (? & ? & H). unfold data_counted. rewrite length_app, data_files_app, He, app_nil_r.
  split_and!; [cbn; lia|lia|done|done].
Qed.

Lemma counted_pending h l e res :
  (Z.of_nat (length (l ++ [e])) < 2 ^ 63)%Z -> is_discovery e = false ->
  data_counted h l res -> data_counted h (l ++ [e]) (count_pending res).
Proof.
  intros Hlen He (? & ? & H). unfold data_counted. rewrite length_app in *. cbn in *.
  rewrite int64_small by lia. split_and!; [lia|lia|done|lia].
Qed.

Lemma counted_imported h l e res n :
  is_discovery e = false -> present h e ->
  data_counted h l res -> data_counted h (l ++ [e]) (count_imported res n).
Proof.
  intros He Hp (? & ? & H). unfold data_counted. rewrite length_app, data_files_app, He. cbn.
  split_and!; [lia|lia|done|]. intros Hz d [Hd| ->%list_elem_of_singleton]%elem_of_app; [|done].
  by apply H.
Qed.

Lemma data_loop_safe l l0 h idx res commit :
  files = l0 ++ l -> (Z.of_nat (length files) < 2 ^ 63)%Z ->
  opt_index_ok h idx -> data_counted h l0 res ->
  safe import_call (data_loop root store l idx res commit) h (fun h' r =>
    let '(res', err, idx', commit') := r in
    opt_index_ok h' idx' /\ rs_Committed res' = false /\
    (err = None -> commit' = commit ++ discovery_files l /\ data_counted h' files res')).
Proof.
  revert l0 h idx res commit.
  induction l as [|e l IH]; intros l0 h idx res commit Hf Hlen Hidx Hc; cbn [data_loop].
  { apply safe_ret. rewrite app_nil_r in *. subst l0. split_and!; [done|apply Hc|done]. }
  assert (files = (l0 ++ [e]) ++ l) as Hf' by by rewrite <- app_assoc.
  destruct (is_discovery e) eqn:He.
  { eapply safe_mono; [done| |apply (IH (l0 ++ [e])); [done..|by apply counted_discovery]].
    intros h' [[[res' err] idx'] commit'] (? & ? & H). split_and!; [done..|].
    intros ->. destruct (H eq_refl) as [-> ?]. unfold discovery_files. cbn. rewrite He.
    by rewrite <- app_assoc. }
  assert (e ∈ files) as Hin by (rewrite Hf; set_solver).
  eapply safe_then_extends.
  { apply importOne_safe; [done|done|]. unfold may_write. by rewrite He. }
  intros h1 [r idx1] [Hidx1 Hr] Hh1. cbn in Hidx1, Hr.
  apply (data_counted_mono h h1) in Hc; [|done].
  assert (Z.of_nat (length (l0 ++ [e])) < 2 ^ 63)%Z by (rewrite Hf', length_app in Hlen; lia).
  unfold discovery_files. cbn. rewrite He.
  destruct r as [[[] n]|err]; [..|by apply safe_ret; split_and!; [|apply Hc|]].
  - apply (IH (l0 ++ [e])); [done..|]. apply counted_imported; [done| |done]. by apply (Hr n).
  - apply (IH (l0 ++ [e])); [done..|]. by apply counted_pending.
Qed.

Lemma commit_loop_safe l h idx res :
  (forall e, e ∈ l -> e ∈ files) -> opt_index_ok h idx ->
  rs_Committed res = false -> (forall d, data_file d -> present h d) ->
  safe import_call (commit_loop root store l idx res) h (fun h' r =>
    rs_Committed r.1 = true -> r.2 = None /\ forall d, d ∈ l -> present h' d).
Proof.
  revert h idx res. induction l as [|e l IH]; intros h idx res Hin Hidx Hc Hd; cbn [commit_loop].
  { apply safe_ret. intros _. split; [done|]. set_solver. }
  eapply safe_then_extends.
  { apply importOne_safe; [apply Hin; constructor|done|by intros _]. }
  intros h1 [r idx1] [Hidx1 Hr] Hh1. cbn in Hidx1, Hr.
  destruct r as [[[] n]|err]; [|apply safe_ret; cbn; congruence..].
  specialize (Hr n eq_refl).
  eapply safe_mono; [done| |apply safe_extends, IH].
  - intros h2 [res2 err2] [H Hh2] Hcom. destruct (H Hcom) as [? Hall]. split; [done|].
    intros d [->|Hdl]%elem_of_cons; [|by apply Hall]. by apply (present_mono h1).
  - intros x Hx. apply Hin. by constructor.
  - done.
  - done.
  - intros d Hd'. apply (present_mono h); [done|by apply Hd].
Qed.

Lemma Import_safe h m :
  files = mf_Files m -> (Z.of_nat (length files) < 2 ^ 63)%Z ->
  safe import_call (Import root store m) h (fun h' r =>
    rs_Committed r.1 = true -> r.2 = None /\ forall e, e ∈ files -> present h' e).
Proof.
  intros Hf Hlen. unfold Import.
  eapply safe_then_extends.
  { apply (data_loop_safe (mf_Files m) []); [by rewrite <- Hf|done..|].
    unfold data_counted. cbn. split; [lia|]. split; [done|]. set_solver. }
  intros h1 [[[res err] idx] commit] (Hidx & Hc & H) Hh1.
  destruct err as [err|]; [apply safe_ret; cbn; congruence|].
  destruct (H eq_refl) as [-> (Hp & _ & Hd)]. cbn [app].
  case_bool_decide as Hz; [apply safe_ret; cbn; congruence|].
  assert (forall d, data_file d -> present h1 d) as Hall.
  { intros d [Hin Hnd]. apply Hd; [lia|]. apply list_elem_of_In, filter_In.
    rewrite Hnd. split; [by apply list_elem_of_In|done]. }
  eapply safe_mono; [done| |apply safe_extends, commit_loop_safe; try done].
  - intros h2 [res2 err2] [H2 Hh2] Hcom. destruct (H2 Hcom) as [? Hin2]. split; [done|].
    intros e He. destruct (is_discovery e) eqn:Hdisc.
    + apply Hin2, list_elem_of_In, filter_In. rewrite <- Hf.
      split; [by apply list_elem_of_In|done].
    + apply (present_mono h1); [done|]. by apply Hall.
  - intros e He. rewrite Hf. apply list_elem_of_In. apply list_elem_of_In, filter_In in He.
    apply He.
Qed.
End ImportSafety.

(** C16: every write of an import pass, whatever the outside answers, to any store
    that meets [StoreSpec], is of an entry of the manifest under its key and
    declared size, from an inbox file that was read and found to have the declared
    size and SHA-256; and a discovery object ([velero-backup.json]) is written
    only after every data file is known to be in the store.  All other calls read:
    stats of the store, the walk of the inbox root, and files the manifest or the
    walk names. *)
Theorem Import_writes (root : string) (store : Store) `{!StoreSpec store} (m : Manifest) h :
  (Z.of_nat (length (mf_Files m)) < 2 ^ 63)%Z ->
  safe (import_call root store (mf_Files m)) (Import root store m) h (fun _ _ => True).
Proof. intros H. eapply safe_mono; [| |by apply (Import_safe root store (mf_Files m))]; done. Qed.

(** C18: a pass reports [Committed] only without an error and when every file of
    the manifest, discovery objects included, is known to be in the store with its
    declared size: the store answered a stat or accepted a put of it.  A pass
    always comes to a result. *)
Theorem Import_committed (root : string) (store : Store) `{!StoreSpec store} (m : Manifest) h :
  (Z.of_nat (length (mf_Files m)) < 2 ^ 63)%Z ->
  completes (Import root store m) /\
  safe any_call (Import root store m) h (fun h' r =>
    rs_Committed r.1 = true -> r.2 = None /\
    forall e, e ∈ mf_Files m -> present store h' e).
Proof.
  intros H. split; [by apply completes_Import|].
  eapply safe_mono; [| |by apply (Import_safe root store (mf_Files m))]; done.
Qed.

(** a manifest without files commits at once, without a discovery object *)
Lemma Import_empty (root : string) (store : Store) (m : Manifest) :
  mf_Files m = [] -> Import root store m = Ret (commit_result zero_Result, None).
Proof. intros Hf. unfold Import. by rewrite Hf. Qed.

Definition sample_entry (key dist data : string) : FileEntry :=
  {| fe_Key := key; fe_Basename := Base key; fe_SHA256 := HexEncode (sha256 data);
     fe_Size := Z.of_nat (String.length data); fe_DistributionID := dist; fe_BlobToken := "" |}.

Definition sample_manifest : Manifest :=
  {| mf_SchemaVersion := 1; mf_BackupName := "b1"; mf_StorageLocation := "default";
     mf_BSLPrefix := "prod"; mf_ObjectCount := 2; mf_TotalBytes := 9; mf_CompletedAt := "";
     mf_Complete := true;
     mf_Files := [sample_entry "backups/b1/velero-backup.json" "d2" "{}";
                  sample_entry "kopia/p1" "d1" "payload"] |}.

Lemma Import_writes_witness :
  safe (import_call "/inbox" (as_Store sample_store) (mf_Files sample_manifest))
    (Import "/inbox" (as_Store sample_store) sample_manifest) [] (fun _ _ => True).
Proof. apply (Import_writes "/inbox" (as_Store sample_store) sample_manifest). cbn. lia. Defined.

Lemma Import_committed_witness :
  completes (Import "/inbox" (as_Store sample_store) sample_manifest) /\
  safe any_call (Import "/inbox" (as_Store sample_store) sample_manifest) [] (fun h' r =>
    rs_Committed r.1 = true -> r.2 = None /\
    forall e, e ∈ mf_Files sample_manifest -> present (as_Store sample_store) h' e).
Proof. apply (Import_committed "/inbox" (as_Store sample_store) sample_manifest). cbn. lia. Defined.

(** ** Data files and discovery objects of a list, by the names of their objects *)

Section Names.
Context {name : string -> string}.

Abbreviation obj e := (name (fe_Key e)).

Lemma split_files l e : e ∈ l <-> e ∈ data_files l ++ discovery_files l.
Proof.
  rewrite elem_of_app. unfold data_files, discovery_files.
  rewrite !list_elem_of_In, !filter_In. destruct (is_discovery e); naive_solver.
Qed.

Lemma length_split l : length (data_files l) + length (discovery_files l) = length l.
Proof.
  induction l as [|e l IH]; [done|]. unfold data_files, discovery_files in *. cbn.
  destruct (is_discovery e); cbn in *; lia.
Qed.

Lemma NoDup_names_sub f l :
  NoDup (map (fun e => obj e) l) -> NoDup (map (fun e => obj e) (List.filter f l)).
Proof.
  induction l as [|e l IH]; [done|]. cbn. intros [Hnot Hnd]%NoDup_cons.
  destruct (f e); cbn; [|by apply IH]. apply NoDup_cons. split; [|by apply IH].
  intros (d & E & Hd)%list_elem_of_fmap. apply Hnot. rewrite E.
  apply (list_elem_of_fmap_2 (fun e => obj e)). apply list_elem_of_In in Hd.
  apply filter_In in Hd as [Hd _]. by apply list_elem_of_In.
Qed.

Lemma names_inj l d e :
  NoDup (map (fun e => obj e) l) -> d ∈ l -> e ∈ l -> obj d = obj e -> d = e.
Proof.
  induction l as [|x l IH]; [set_solver|]. cbn.
  intros [Hnot Hnd]%NoDup_cons [->|Hd]%elem_of_cons [->|He]%elem_of_cons E; [done| | |by apply IH].
  - destruct Hnot. rewrite E. by apply (list_elem_of_fmap_2 (fun e => obj e)).
  - destruct Hnot. rewrite <- E. by apply (list_elem_of_fmap_2 (fun e => obj e)).
Qed.

Lemma kinds_disjoint l e1 e2 :
  NoDup (map (fun e => obj e) l) -> e1 ∈ data_files l -> e2 ∈ discovery_files l ->
  obj e1 <> obj e2.
Proof.
  intros Hnd H1 H2 E. assert (e1 = e2) as ->.
  { apply (names_inj l); [done|apply split_files; set_solver..|done]. }
  unfold data_files, discovery_files in H1, H2. rewrite list_elem_of_In in H1, H2.
  apply filter_In in H1 as [_ H1], H2 as [_ H2]. by rewrite H2 in H1.
Qed.
End Names.

(** ** An import over files that have landed

    [ImportWorld]: a file system and a store that behave as documented, over the
    worlds of a handler.  [files] are the files' bytes, [objs] the objects' bytes,
    and [name] the name of a key's object. *)

Class ImportWorld {W : Type} (hd : handler W) (store : Store)
    (files objs : W -> gmap string string) (name : string -> string) : Prop := {
  iw_stat k w h : exists info h', run hd (st_Stat store k) w h = Some (Ok info, w, h') /\
    oi_Size <$> info = (fun d => Z.of_nat (String.length d)) <$> objs w !! name k;
  iw_os_stat p w data : files w !! p = Some data -> hd (OsStat p) w = (Ok false, w);
  iw_open p w data : files w !! p = Some data -> hd (OsOpen p) w = (None, w);
  iw_read p w data : files w !! p = Some data -> hd (OsRead p) w = ((data, None), w);
  iw_put k p w h data ct : files w !! p = Some data -> exists w' h',
    run hd (st_Put store k (perform (OsRead p)) (Z.of_nat (String.length data)) ct) w h =
      Some (None, w', h') /\
    objs w' = <[name k := data]> (objs w) /\ files w' = files w;
}.

Section ImportWorld.
Context {W : Type} (hd : handler W) (root : string) (store : Store)
  (files objs : W -> gmap string string) (name : string -> string)
  `{HW : !ImportWorld hd store files objs name}.

Abbreviation obj e := (name (fe_Key e)).

(** the object is there at its declared size *)
Definition there (w : W) (e : FileEntry) : Prop :=
  exists data, objs w !! obj e = Some data /\ Z.of_nat (String.length data) = fe_Size e.

(** the file has landed where peat puts it, with the declared size and digest *)
Definition landed (w : W) (e : FileEntry) : Prop :=
  exists data, fe_DistributionID e <> "" /\ files w !! primary_path root e = Some data /\
    Z.of_nat (String.length data) = fe_Size e /\ HexEncode (sha256 data) = fe_SHA256 e.

Lemma run_importOne_there w e idx h :
  there w e -> exists h', run hd (importOne root store e idx) w h = Some ((Ok (true, 0%Z), idx), w, h').
Proof.
  intros (data & Hd & Hn). destruct (iw_stat (fe_Key e) w h) as (info & h' & Hrun & Hinfo).
  exists h'. unfold importOne. rewrite run_bind, Hrun. rewrite Hd in Hinfo.
  destruct info as [info|]; [|done]. injection Hinfo as Hinfo.
  rewrite bool_decide_eq_true_2 by congruence. done.
Qed.

Lemma run_locate_primary w e idx h data :
  fe_DistributionID e <> "" -> files w !! primary_path root e = Some data ->
  exists h', run hd (locate root e idx) w h =
    Some ((Ok (Some (primary_path root e)), idx), w, h').
Proof.
  intros Hdist Hf. unfold locate. rewrite bool_decide_eq_true_2 by done.
  rewrite run_bind. cbn. rewrite (iw_os_stat _ _ data) by done. cbn. by eexists.
Qed.

Lemma run_verify_ok w p e h data :
  files w !! p = Some data ->
  Z.of_nat (String.length data) = fe_Size e -> HexEncode (sha256 data) = fe_SHA256 e ->
  exists h', run hd (verify p e) w h = Some (None, w, h').
Proof.
  intros Hf Hn Hs. unfold verify. rewrite run_bind. unfold hashFile. cbn.
  rewrite (iw_open _ _ data) by done. cbn. rewrite (iw_read _ _ data) by done. cbn.
  rewrite !bool_decide_eq_false_2 by congruence. by eexists.
Qed.

Lemma not_there_stat w e info :
  ~ there w e ->
  oi_Size <$> info = (fun d => Z.of_nat (String.length d)) <$> objs w !! obj e ->
  match info with Some i => bool_decide (oi_Size i = fe_Size e) | None => false end = false.
Proof.
  intros Hnot Hinfo. destruct info as [info|]; [|done]. apply bool_decide_eq_false. intros Heq.
  apply Hnot. destruct (objs w !! obj e) as [d|] eqn:Ho; [|done]. exists d. split; [done|].
  cbn in Hinfo. congruence.
Qed.

Lemma run_importOne_landed w e idx h :
  ~ there w e -> landed w e -> exists w' h',
    run hd (importOne root store e idx) w h = Some ((Ok (true, fe_Size e), idx), w', h') /\
    exists data, files w !! primary_path root e = Some data /\
      Z.of_nat (String.length data) = fe_Size e /\
      objs w' = <[obj e := data]> (objs w) /\ files w' = files w.
Proof.
  intros Hnot (data & Hdist & Hf & Hn & Hs).
  destruct (iw_stat (fe_Key e) w h) as (info & h1 & Hrun & Hinfo).
  unfold importOne. rewrite run_bind, Hrun, (not_there_stat w e info), run_bind by done.
  destruct (run_locate_primary w e idx h1 data Hdist Hf) as [h2 ->].
  rewrite run_bind. destruct (run_verify_ok w _ e h2 data Hf Hn Hs) as [h3 ->].
  rewrite run_bind. unfold put_from. cbn [run perform mbind io_mbind io_bind].
  rewrite (iw_open _ _ data) by done. rewrite run_bind, <- Hn.
  edestruct (iw_put (fe_Key e) (primary_path root e) w) as (w' & h' & -> & Ho & Hf'); [done|].
  cbn. do 2 eexists. split; [done|]. exists data. done.
Qed.

(** what a file's import does to the world, when it can be imported *)
Definition imported (w w' : W) (e : FileEntry) (n : Z) : Prop :=
  files w' = files w /\ there w' e /\ (forall k, k <> obj e -> objs w' !! k = objs w !! k) /\
  (there w e -> w' = w /\ n = 0%Z) /\
  (~ there w e -> objs w' !! obj e = files w !! primary_path root e).

Lemma run_importOne_ready w e idx h :
  there w e \/ landed w e -> exists n w' h',
    run hd (importOne root store e idx) w h = Some ((Ok (true, n), idx), w', h') /\
    imported w w' e n.
Proof.
  intros H. assert (Decision (there w e)) as [Ht|Ht].
  { unfold there. destruct (objs w !! obj e) as [d|].
    - destruct (decide (Z.of_nat (String.length d) = fe_Size e)); [left; eauto|right; naive_solver].
    - right. naive_solver. }
  - destruct (run_importOne_there w e idx h Ht) as [h' Hrun]. exists 0%Z, w, h'.
    split; [done|]. by unfold imported.
  - destruct H as [?|Hl]; [done|].
    destruct (run_importOne_landed w e idx h Ht Hl) as (w' & h' & Hrun & data & Hf & Hn & Ho & Hfs).
    exists (fe_Size e), w', h'. split; [done|]. unfold imported, there. rewrite Ho, Hfs.
    rewrite lookup_insert_eq. split_and!; [done|by exists data| |done|done].
    intros k Hk. by rewrite lookup_insert_ne.
Qed.

Definition ready (w : W) (e : FileEntry) : Prop := there w e \/ landed w e.

Lemma there_same w w' e : objs w' !! obj e = objs w !! obj e -> there w' e <-> there w e.
Proof. unfold there. by intros ->. Qed.

Lemma ready_after w w' e e0 n :
  imported w w' e0 n -> obj e <> obj e0 -> ready w e -> ready w' e.
Proof.
  intros (Hf & _ & Ho & _) Hne [Ht|Hl]; [left|right].
  - apply (there_same w); [by apply Ho|done].
  - unfold landed. by rewrite Hf.
Qed.

(** the same for a list of files *)
Definition all_imported (w w' : W) (l : list FileEntry) : Prop :=
  files w' = files w /\ (forall e, e ∈ l -> there w' e) /\
  (forall k, k ∉ map (fun e => obj e) l -> objs w' !! k = objs w !! k) /\
  ((forall e, e ∈ l -> there w e) -> w' = w) /\
  (forall e, e ∈ l -> ~ there w e -> objs w' !! obj e = files w !! primary_path root e).

Lemma all_imported_nil w : all_imported w w [].
Proof. unfold all_imported. split_and!; [done|set_solver|done|done|set_solver]. Qed.

Lemma all_imported_cons w w1 w2 e n l :
  obj e ∉ map (fun e => obj e) l -> imported w w1 e n -> all_imported w1 w2 l ->
  all_imported w w2 (e :: l).
Proof.
  intros Hnot (Hf1 & Ht1 & Ho1 & Hs1 & Hw1) (Hf2 & Ht2 & Ho2 & Hs2 & Hw2).
  assert (forall d, d ∈ l -> obj d <> obj e) as Hne.
  { intros d Hd E. apply Hnot. rewrite <- E. by apply (list_elem_of_fmap_2 (fun e => obj e)). }
  assert (forall d, d ∈ l -> there w1 d <-> there w d) as Hsame.
  { intros d Hd. apply there_same. by apply Ho1, Hne. }
  unfold all_imported. split_and!; [congruence| | | |].
  - intros d [->|Hd]%elem_of_cons; [|by apply Ht2]. eapply there_same; [|exact Ht1]. by apply Ho2.
  - intros k Hk. cbn in Hk. rewrite Ho2, Ho1 by set_solver. done.
  - intros Hall. destruct Hs1 as [-> _]; [apply Hall; constructor|].
    apply Hs2. intros d Hd. apply Hall. by constructor.
  - intros d [->|Hd]%elem_of_cons Hnt; [rewrite Ho2 by done; by apply Hw1|].
    rewrite <- Hf1. apply Hw2; [done|]. by rewrite Hsame.
Qed.

(** the counters after [n] more files *)
Definition counted (w : W) (l : list FileEntry) (res res' : Result) : Prop :=
  rs_Pending res' = rs_Pending res /\
  rs_FilesImported res' = (rs_FilesImported res + Z.of_nat (length l))%Z /\
  (rs_BytesImported res = 0%Z -> (forall e, e ∈ l -> there w e) -> rs_BytesImported res' = 0%Z).

Definition room (res : Result) (l : list FileEntry) : Prop :=
  (0 <= rs_FilesImported res /\ rs_FilesImported res + Z.of_nat (length l) < 2 ^ 63)%Z.

Lemma counted_cons w w1 e n l res res' :
  room res (e :: l) -> obj e ∉ map (fun e => obj e) l -> imported w w1 e n ->
  counted w1 l (count_imported res n) res' -> counted w (e :: l) res res'.
Proof.
  intros [? Hroom] Hnot (Hf1 & Ht1 & Ho1 & Hs1 & Hw1) (Hp & Hfi & Hb). cbn in *.
  unfold counted. rewrite int64_small in Hfi by lia. split_and!; [done|cbn; lia|].
  intros Hz Hall. destruct Hs1 as [-> ->]; [apply Hall; constructor|].
  apply Hb; [by rewrite Hz|]. intros d Hd. apply Hall. by constructor.
Qed.

Lemma run_data_loop l w idx res commit h :
  NoDup (map (fun e => obj e) l) -> room res l ->
  (forall e, e ∈ l -> ready w e) -> exists res' w' h',
    run hd (data_loop root store l idx res commit) w h =
      Some ((res', None, idx, commit ++ discovery_files l), w', h') /\
    all_imported w w' (data_files l) /\ counted w (data_files l) res res'.
Proof.
  revert w res commit h. induction l as [|e l IH]; intros w res commit h Hnd Hroom Hr.
  { exists res, w, h. cbn. rewrite app_nil_r. split_and!; [done|apply all_imported_nil|].
    unfold counted. cbn. split_and!; [done|lia|done]. }
  cbn in Hnd. apply NoDup_cons in Hnd as [Hnot Hnd].
  assert (forall d, d ∈ data_files l -> d ∈ l) as Hsub.
  { intros d Hd. apply list_elem_of_In in Hd. apply filter_In in Hd.
    apply list_elem_of_In. apply Hd. }
  assert (obj e ∉ map (fun e => obj e) (data_files l)) as Hnot'.
  { intros (d & E & Hd)%list_elem_of_fmap. apply Hnot. rewrite E.
    by apply (list_elem_of_fmap_2 (fun e => obj e)), Hsub. }
  cbn [data_loop]. unfold data_files, discovery_files. cbn [List.filter].
  destruct (is_discovery e) eqn:He; cbn [negb].
  - destruct (IH w res (commit ++ [e]) h) as (res' & w' & h' & Hrun & ? & ?); [done| | |].
    { unfold room in *. cbn in Hroom. lia. }
    { intros d Hd. apply Hr. by constructor. }
    exists res', w', h'. by rewrite Hrun, <- app_assoc.
  - rewrite run_bind.
    destruct (run_importOne_ready w e idx h (Hr e ltac:(constructor))) as (n & w1 & h1 & -> & Hi).
    destruct (IH w1 (count_imported res n) commit h1) as (res' & w' & h' & Hrun & Hai & Hc); [done| | |].
    { unfold room in *. cbn in *. rewrite int64_small; lia. }
    { intros d Hd. eapply ready_after; [exact Hi| |apply Hr; by constructor].
      intros E. apply Hnot. rewrite <- E. by apply (list_elem_of_fmap_2 (fun e => obj e)). }
    exists res', w', h'. split_and!; [done|by eapply all_imported_cons|].
    eapply counted_cons; [|done|done|done]. unfold room in *. cbn in *.
    pose proof (List.filter_length_le (fun e => negb (is_discovery e)) l). unfold data_files. lia.
Qed.

Lemma run_commit_loop l w idx res h :
  NoDup (map (fun e => obj e) l) -> room res l ->
  (forall e, e ∈ l -> ready w e) -> exists res' w' h',
    run hd (commit_loop root store l idx res) w h = Some ((commit_result res', None), w', h') /\
    all_imported w w' l /\ counted w l res res'.
Proof.
  revert w res h. induction l as [|e l IH]; intros w res h Hnd Hroom Hr.
  { exists res, w, h. split_and!; [done|apply all_imported_nil|].
    unfold counted. cbn. split_and!; [done|lia|done]. }
  cbn in Hnd. apply NoDup_cons in Hnd as [Hnot Hnd]. cbn [commit_loop]. rewrite run_bind.
  destruct (run_importOne_ready w e idx h (Hr e ltac:(constructor))) as (n & w1 & h1 & -> & Hi).
  destruct (IH w1 (count_imported res n) h1) as (res' & w' & h' & Hrun & Hai & Hc); [done| | |].
  { unfold room in *. cbn in *. rewrite int64_small; lia. }
  { intros d Hd. eapply ready_after; [exact Hi| |apply Hr; by constructor].
    intros E. apply Hnot. rewrite <- E. by apply (list_elem_of_fmap_2 (fun e => obj e)). }
  exists res', w', h'. split_and!; [done|by eapply all_imported_cons|by eapply counted_cons].
Qed.

Lemma all_imported_app w w1 w2 l1 l2 :
  (forall e1 e2, e1 ∈ l1 -> e2 ∈ l2 -> obj e1 <> obj e2) ->
  all_imported w w1 l1 -> all_imported w1 w2 l2 -> all_imported w w2 (l1 ++ l2).
Proof.
  intros Hdis (Hf1 & Ht1 & Ho1 & Hs1 & Hw1) (Hf2 & Ht2 & Ho2 & Hs2 & Hw2).
  assert (forall d, d ∈ l1 -> objs w2 !! obj d = objs w1 !! obj d) as H1.
  { intros d Hd. apply Ho2. intros (x & E & Hx)%list_elem_of_fmap. by apply (Hdis d x). }
  assert (forall d, d ∈ l2 -> there w1 d <-> there w d) as H2.
  { intros d Hd. apply there_same, Ho1. intros (x & E & Hx)%list_elem_of_fmap.
    by apply (Hdis x d). }
  unfold all_imported. split_and!; [congruence| | | |].
  - intros d [Hd|Hd]%elem_of_app; [|by apply Ht2]. eapply there_same; [by apply H1|by apply Ht1].
  - intros k Hk. rewrite map_app in Hk. rewrite Ho2, Ho1 by set_solver. done.
  - intros Hall. rewrite Hs2; [apply Hs1; set_solver|]. intros d Hd. apply H2; set_solver.
  - intros d [Hd|Hd]%elem_of_app Hnt; [rewrite H1 by done; by apply Hw1|].
    rewrite <- Hf1. apply Hw2; [done|]. by rewrite H2.
Qed.

(** the data files, then the discovery objects, are the files *)
Lemma all_imported_split w w' l :
  all_imported w w' (data_files l ++ discovery_files l) -> all_imported w w' l.
Proof.
  intros (? & Ht & Ho & Hs & Hw). unfold all_imported. split_and!; [done| | | |].
  - intros e He%split_files. by apply Ht.
  - intros k Hk. apply Ho. intros (x & -> & Hx%split_files)%list_elem_of_fmap. apply Hk.
    by apply (list_elem_of_fmap_2 (fun e => obj e)).
  - intros Hall. apply Hs. intros e He%split_files. by apply Hall.
  - intros e He%split_files. by apply Hw.
Qed.

Lemma there_unaffected w w' l d :
  (forall e, e ∈ l -> obj e <> obj d) -> all_imported w w' l -> there w' d <-> there w d.
Proof.
  intros Hdis (_ & _ & Ho & _). apply there_same, Ho.
  intros (x & E & Hx)%list_elem_of_fmap. by apply (Hdis x).
Qed.

(** A pass over files that are all landed or already stored runs to the end
    and commits: it reports every file imported and no error, leaves every
    object in the store at its declared size, puts the landed bytes of each
    object that was missing, and touches no other object.  When everything was
    already stored the pass changes nothing and writes no byte, so repeating an
    import is free. *)
Lemma run_Import m w h :
  NoDup (map (fun e => obj e) (mf_Files m)) ->
  (Z.of_nat (length (mf_Files m)) < 2 ^ 63)%Z ->
  (forall e, e ∈ mf_Files m -> ready w e) ->
  exists res w' h', run hd (Import root store m) w h = Some ((res, None), w', h') /\
    rs_Committed res = true /\ rs_Pending res = 0%Z /\
    rs_FilesImported res = Z.of_nat (length (mf_Files m)) /\
    all_imported w w' (mf_Files m) /\
    ((forall e, e ∈ mf_Files m -> there w e) -> rs_BytesImported res = 0%Z).
Proof.
  intros Hnd Hlen Hr. set (l := mf_Files m) in *. pose proof (length_split l) as Hl.
  destruct (run_data_loop l w None zero_Result [] h) as (r1 & w1 & h1 & Hrun1 & Ha1 & Hp1 & Hf1 & Hb1);
    [done|unfold room; cbn; lia|done|].
  cbn in Hp1, Hf1.
  assert (forall d, d ∈ discovery_files l -> there w1 d <-> there w d) as Hsame.
  { intros d Hd. eapply there_unaffected; [|exact Ha1]. intros e He.
    by apply (kinds_disjoint l). }
  destruct (run_commit_loop (discovery_files l) w1 None r1 h1)
    as (r2 & w2 & h2 & Hrun2 & Ha2 & Hp2 & Hf2 & Hb2).
  { by apply NoDup_names_sub. }
  { unfold room. lia. }
  { intros d Hd. destruct (Hr d) as [Ht|Ht]; [apply split_files; set_solver|left|right].
    - by apply Hsame.
    - unfold landed. destruct Ha1 as [-> _]. exact Ht. }
  exists (commit_result r2), w2, h2. unfold Import. rewrite run_bind. fold l. rewrite Hrun1.
  rewrite bool_decide_eq_false_2 by lia. cbn [app]. rewrite Hrun2.
  split_and!; [done|cbn; apply bool_decide_eq_true; lia|cbn; lia|cbn; lia| |].
  - eapply all_imported_split, all_imported_app; [|exact Ha1|exact Ha2].
    intros e1 e2. by apply kinds_disjoint.
  - intros Hall. apply Hb2; [apply Hb1; [done|]|]; intros d Hd.
    + apply Hall, split_files. set_solver.
    + apply Hsame; [done|]. apply Hall, split_files. set_solver.
Qed.

Definition corrupt (e : FileEntry) (data : string) : error :=
  EText [FStr "sha256 mismatch for "; FQuo (fe_Key e); FStr ": inbox ";
         FStr (HexEncode (sha256 data)); FStr " != manifest "; FStr (fe_SHA256 e)].

Lemma run_verify w p e h data :
  files w !! p = Some data -> exists verr h', run hd (verify p e) w h = Some (verr, w, h') /\
    if bool_decide (Z.of_nat (String.length data) <> fe_Size e)
    then exists err, verr = Some err /\ Is err "inbox file not fully landed" = true
    else if bool_decide (HexEncode (sha256 data) <> fe_SHA256 e)
    then verr = Some (corrupt e data) else verr = None.
Proof.
  intros Hf. unfold verify. rewrite run_bind. unfold hashFile. cbn.
  rewrite (iw_open _ _ data) by done. cbn. rewrite (iw_read _ _ data) by done. cbn.
  do 2 eexists. split; [done|]. case_bool_decide; [|by case_bool_decide].
  eexists. split; [done|]. cbn. by apply bool_decide_eq_true.
Qed.
End ImportWorld.

(** *** An in-memory inbox and bucket *)

Definition memory_world : handler (gmap string string * gmap string string) := fun c w =>
  match c as c return resp c * (gmap string string * gmap string string) with
  | OsStat p => (match w.1 !! p with Some _ => Ok false | None => Er (ext_missing p) end, w)
  | OsOpen p => (match w.1 !! p with Some _ => None | None => Some (ext_missing p) end, w)
  | OsRead p => ((default "" (w.1 !! p), None), w)
  | MinioStatObject _ _ k =>
      (match w.2 !! k with
       | Some d => Ok {| mo_Key := k; mo_Size := Z.of_nat (String.length d);
                         mo_ETag := version_of d; mo_LastModified := 0 |}
       | None => Er (ext_missing k)
       end, w)
  | MinioPutObject _ _ k body _ _ =>
      match body.2 with
      | None => (Ok (version_of body.1), (w.1, <[k := body.1]> w.2))
      | Some e => (Er e, w)
      end
  | c => (refuse c, w)
  end.

#[export] Instance memory_import_world s :
  ImportWorld memory_world (as_Store s) fst snd (fullKey s).
Proof.
  split.
  - intros k [f o] h. cbn. unfold Stat. cbn. destruct (o !! fullKey s k) as [d|] eqn:E;
      (do 2 eexists; split; [reflexivity|done]).
  - intros p [f o] data H. cbn in *. by rewrite H.
  - intros p [f o] data H. cbn in *. by rewrite H.
  - intros p [f o] data H. cbn in *. by rewrite H.
  - intros k p [f o] h data ct H. cbn in *. rewrite H. do 2 eexists. split; [reflexivity|done].
Qed.

Definition sample_world : gmap string string * gmap string string :=
  (<["/inbox/d1/p1" := "payload"]> (<["/inbox/d2/velero-backup.json" := "{}"]> ∅), ∅).

Lemma run_Import_example :
  exists res w' h',
    run memory_world (Import "/inbox" (as_Store sample_store) sample_manifest) sample_world [] =
      Some ((res, None), w', h') /\
    rs_Committed res = true /\ rs_Pending res = 0%Z /\ rs_FilesImported res = 2%Z /\
    all_imported "/inbox" fst snd (fullKey sample_store) sample_world w' (mf_Files sample_manifest) /\
    ((forall e, e ∈ mf_Files sample_manifest ->
        there snd (fullKey sample_store) sample_world e) -> rs_BytesImported res = 0%Z).
Proof.
  apply (run_Import memory_world "/inbox" (as_Store sample_store) fst snd
           (fullKey sample_store) sample_manifest sample_world []).
  - apply (bool_decide_unpack _). vm_compute. exact I.
  - cbn. lia.
  - intros e [->|[->|[]%elem_of_nil]%elem_of_cons]%elem_of_cons; right;
      eexists; (split; [discriminate|split; [reflexivity|split; vm_compute; reflexivity]]).
Defined.
