(* ===== verification/ImportRefinement.v ===== *)
(** * ImportRefinement: an import pass against a reference

    [Importer] models the pass call by call.  Here a file system and a store that
    behave as documented are added ([InboxWorld]), the absent and the half-written
    file included, and the pass is shown to compute a plain function of the inbox
    and the store ([import_ref]): what is stored is skipped, what has landed and
    checks is put, what has not is pending, and a wrong digest stops the pass. *)

From stdpp Require Import gmap strings.
From S2P Require Import Prelude GoStrings GoPath GoCrypto Api Effects Manifest Objstore.
From S2P Require Import Importer.

(** ** The walk of the inbox *)

Definition walked_file (x : walk_entry) : option string :=
  match x with WalkFile p => Some p | _ => None end.

(** the files a walk found, in its order *)
Definition found (es : list walk_entry) : list string := omap walked_file es.

(** the only error of the walk is that the inbox is not there yet *)
Definition walk_clean (es : list walk_entry) : Prop :=
  Forall (fun x => match x with WalkError _ e => IsNotExist e = true | _ => True end) es.

Definition with_base (b : string) (p : string) : bool := bool_decide (Base p = b).

Definition indexes (i : inboxIndex) (ps : list string) : Prop :=
  forall b, default [] (i !! b) = List.filter (with_base b) ps.

Lemma index_walk_found es i ps :
  walk_clean es -> indexes i ps ->
  exists i', index_walk i es = Ok i' /\ indexes i' (ps ++ found es).
Proof.
  intros Hc. revert i ps. induction Hc as [|x es Hx _ IH]; intros i ps Hi; cbn [index_walk].
  { exists i. by rewrite app_nil_r. }
  destruct x as [p|p|p e]; [|by apply IH|rewrite Hx; by apply IH].
  destruct (IH (<[Base p := default [] (i !! Base p) ++ [p]]> i) (ps ++ [p])) as (i' & Hw & Hi').
  - intros b. rewrite List.filter_app. cbn. unfold with_base at 2.
    case_bool_decide as Hb; [subst b; by rewrite lookup_insert_eq; cbn; rewrite Hi|].
    by rewrite lookup_insert_ne, Hi, app_nil_r.
  - exists i'. split; [done|]. by rewrite <- app_assoc in Hi'.
Qed.

(** ** The reference pass

    [fs] is the inbox, [o] the objects of the store, [walk fs] the files a walk of
    the inbox finds. *)

Definition size_of (data : string) : Z := Z.of_nat (String.length data).

(** the bytes the manifest declares *)
Definition matches (e : FileEntry) (data : string) : bool :=
  bool_decide (size_of data = fe_Size e /\ HexEncode (sha256 data) = fe_SHA256 e).

Inductive verdict : Set :=
| Stored                    (* the object is there at its size *)
| Landed (data : string)    (* the file is there and checks *)
| Absent                    (* no file, or not all of it *)
| Corrupt (e : error).      (* all of it, with another digest *)

Section Reference.
Context (root : string) (name : string -> string)
  (walk : gmap string string -> list string) (fs : gmap string string).

Abbreviation obj e := (name (fe_Key e)).

Definition holds_match (e : FileEntry) (p : string) : bool :=
  match fs !! p with Some data => matches e data | None => false end.

(** peat's place for the file, else a file of that basename with the right bytes *)
Definition source (e : FileEntry) : option string :=
  if bool_decide (fe_DistributionID e <> "" /\ is_Some (fs !! primary_path root e))
  then Some (primary_path root e)
  else List.find (holds_match e) (List.filter (with_base (fe_Basename e)) (walk fs)).

Definition stored (o : gmap string string) (e : FileEntry) : bool :=
  match o !! obj e with Some data => bool_decide (size_of data = fe_Size e) | None => false end.

Definition check (e : FileEntry) (data : string) : verdict :=
  if bool_decide (size_of data <> fe_Size e) then Absent
  else if bool_decide (HexEncode (sha256 data) <> fe_SHA256 e) then Corrupt (corrupt e data)
  else Landed data.

Definition judge (o : gmap string string) (e : FileEntry) : verdict :=
  if stored o e then Stored
  else match source e with
       | None => Absent
       | Some p => check e (default "" (fs !! p))
       end.

(** the answer of [importOne] and the store after it *)
Definition settle (o : gmap string string) (e : FileEntry)
  : res (bool * Z) * gmap string string :=
  match judge o e with
  | Stored => (Ok (true, 0%Z), o)
  | Landed data => (Ok (true, fe_Size e), <[obj e := data]> o)
  | Absent => (Ok (false, 0%Z), o)
  | Corrupt err => (Er err, o)
  end.

Fixpoint data_ref (l : list FileEntry) (res : Result) (o : gmap string string)
  : Result * option error * gmap string string :=
  match l with
  | [] => (res, None, o)
  | e :: l' =>
      let (r, o1) := settle o e in
      match r with
      | Er err => (res, Some err, o1)
      | Ok (false, _) => data_ref l' (count_pending res) o1
      | Ok (true, n) => data_ref l' (count_imported res n) o1
      end
  end.

Fixpoint commit_ref (l : list FileEntry) (res : Result) (o : gmap string string)
  : Result * option error * gmap string string :=
  match l with
  | [] => (commit_result res, None, o)
  | e :: l' =>
      let (r, o1) := settle o e in
      match r with
      | Er err => (res, Some err, o1)
      | Ok (false, _) => (count_pending res, None, o1)
      | Ok (true, n) => commit_ref l' (count_imported res n) o1
      end
  end.

(** the data files in order; then, when none of them is pending, the discovery
    objects *)
Definition import_ref (m : Manifest) (o : gmap string string)
  : Result * option error * gmap string string :=
  let '(res, err, o1) := data_ref (data_files (mf_Files m)) zero_Result o in
  match err with
  | Some err => (res, Some err, o1)
  | None =>
      if bool_decide (rs_Pending res > 0)%Z then (res, None, o1)
      else commit_ref (discovery_files (mf_Files m)) res o1
  end.
End Reference.

(** ** The world of a pass

    [ImportWorld] tells what is answered of files and objects that are there.
    Besides: an absent file has no regular stat, and the walk of the inbox finds
    existing files, depending on the inbox only.  [rest] is what else there is in
    the world: a put leaves it as it was. *)

Class InboxWorld {W R : Type} (hd : handler W) (root : string) (store : Store)
    (files objs : W -> gmap string string) (name : string -> string)
    (walk : gmap string string -> list string) (rest : W -> R) : Prop := {
  xw_import :: ImportWorld hd store files objs name;
  xw_absent p w : files w !! p = None -> exists r, hd (OsStat p) w = (r, w) /\ r <> Ok false;
  xw_walk w : exists es, hd (OsWalkDir root) w = (es, w) /\ walk_clean es /\ found es = walk (files w);
  xw_walked fs p : p ∈ walk fs -> is_Some (fs !! p);
  xw_rest k p w h data ct w' h' : files w !! p = Some data ->
    run hd (st_Put store k (perform (OsRead p)) (size_of data) ct) w h = Some (None, w', h') ->
    rest w' = rest w;
}.

Section Refinement.
Context {W R : Type} (hd : handler W) (root : string) (store : Store)
  (files objs : W -> gmap string string) (name : string -> string)
  (walk : gmap string string -> list string) (rest : W -> R)
  `{HW : !InboxWorld hd root store files objs name walk rest}.

(** the world after a step: another store, the rest as it was *)
Definition same_but (w w' : W) (o : gmap string string) : Prop :=
  files w' = files w /\ objs w' = o /\ rest w' = rest w.

(** a built index is the inbox's *)
Definition idx_of (fs : gmap string string) (idx : option inboxIndex) : Prop :=
  match idx with Some i => indexes i (walk fs) | None => True end.

Lemma run_hashFile w p data h :
  files w !! p = Some data -> exists h',
    run hd (hashFile p) w h = Some (Ok (HexEncode (sha256 data), size_of data), w, h').
Proof.
  intros Hf. unfold hashFile. cbn. rewrite (iw_open _ _ data) by done. cbn.
  rewrite (iw_read _ _ data) by done. by eexists.
Qed.

Lemma run_find_candidate w e cands h :
  (forall p, p ∈ cands -> is_Some (files w !! p)) -> exists h',
    run hd (find_candidate e cands) w h = Some (List.find (holds_match (files w) e) cands, w, h').
Proof.
  revert h. induction cands as [|p cands IH]; intros h Hc; cbn [find_candidate]; [by eexists|].
  destruct (Hc p) as [data Hp]; [constructor|]. rewrite run_bind.
  destruct (run_hashFile w p data h Hp) as [h1 ->]. cbn [List.find].
  unfold holds_match at 1. rewrite Hp. unfold matches.
  case_bool_decide; [by eexists|]. apply IH. intros q Hq. apply Hc. by constructor.
Qed.

Lemma run_fileExists w p h : exists h',
  run hd (fileExists p) w h = Some (bool_decide (is_Some (files w !! p)), w, h').
Proof.
  unfold fileExists. cbn. destruct (files w !! p) as [data|] eqn:Hp.
  - rewrite (iw_os_stat _ _ data) by done. by eexists.
  - destruct (xw_absent (R := R) p w Hp) as (r & -> & Hr). eexists. destruct r as [[]|]; done.
Qed.

Lemma run_get_index w idx h :
  idx_of (files w) idx -> exists i h',
    run hd (get_index root idx) w h = Some (Ok i, w, h') /\ indexes i (walk (files w)).
Proof.
  destruct idx as [i|]; intros Hi; [by exists i, h|]. cbn.
  destruct (xw_walk (R := R) w) as (es & -> & Hc & Hes).
  destruct (index_walk_found es ∅ [] Hc) as (i & Hw & Hi'); [done|].
  exists i. cbn. rewrite Hw. eexists. split; [done|]. by rewrite <- Hes.
Qed.

Lemma run_locate w e idx h :
  idx_of (files w) idx -> exists idx' h',
    run hd (locate root e idx) w h = Some ((Ok (source root walk (files w) e), idx'), w, h') /\
    idx_of (files w) idx'.
Proof.
  intros Hidx. unfold locate. rewrite run_bind.
  assert (exists h1, run hd (if bool_decide (fe_DistributionID e <> "")
      then fileExists (primary_path root e) else Ret false) w h =
    Some (bool_decide (fe_DistributionID e <> "" /\ is_Some (files w !! primary_path root e)), w, h1))
    as [h1 ->].
  { rewrite bool_decide_and. case_bool_decide; [apply run_fileExists|by eexists]. }
  unfold source. case_bool_decide; [by do 2 eexists|]. rewrite run_bind.
  destruct (run_get_index w idx h1 Hidx) as (i & h2 & -> & Hi). rewrite run_bind, Hi.
  destruct (run_find_candidate w e (List.filter (with_base (fe_Basename e)) (walk (files w))) h2)
    as [h3 ->].
  { intros p [Hp _]%list_elem_of_In%filter_In. eapply xw_walked. by apply list_elem_of_In. }
  by exists (Some i), h3.
Qed.

(** a source is a file of the inbox *)
Lemma source_there w e p : source root walk (files w) e = Some p -> is_Some (files w !! p).
Proof.
  unfold source. case_bool_decide as Hd; [intros [= <-]; apply Hd|].
  intros [_ Hm]%List.find_some. unfold holds_match in Hm. by destruct (files w !! p).
Qed.

Lemma stat_stored w e info :
  oi_Size <$> info = size_of <$> objs w !! name (fe_Key e) ->
  match info with Some i => bool_decide (oi_Size i = fe_Size e) | None => false end =
    stored name (objs w) e.
Proof.
  unfold stored. intros H. destruct info, (objs w !! _); try done. cbn in H. by injection H as ->.
Qed.

Lemma run_importOne w e idx h r o :
  idx_of (files w) idx -> settle root name walk (files w) (objs w) e = (r, o) ->
  exists idx' w' h', run hd (importOne root store e idx) w h = Some ((r, idx'), w', h') /\
    same_but w w' o /\ idx_of (files w) idx'.
Proof.
  intros Hidx Hr. destruct (iw_stat (fe_Key e) w h) as (info & h1 & Hrun & Hinfo).
  unfold importOne. rewrite run_bind, Hrun, (stat_stored w e info) by done.
  unfold settle, judge in Hr.
  destruct (stored name (objs w) e); [injection Hr as <- <-; by exists idx, w, h1|].
  rewrite run_bind. destruct (run_locate w e idx h1 Hidx) as (idx' & h2 & -> & Hidx').
  destruct (source _ _ _ e) as [p|] eqn:Hp; [|injection Hr as <- <-; by exists idx', w, h2].
  destruct (source_there w e p Hp) as [data Hf]. rewrite Hf in Hr. cbn in Hr. rewrite run_bind.
  destruct (run_verify hd store files objs name w p e h2 data Hf) as (verr & h3 & -> & Hv).
  unfold check in Hr. fold (size_of data) in Hv. case_bool_decide.
  { destruct Hv as (err & -> & Hland). rewrite Hland. injection Hr as <- <-. by exists idx', w, h3. }
  case_bool_decide; subst verr; [injection Hr as <- <-; by exists idx', w, h3|].
  rewrite run_bind. unfold put_from. cbn [run perform mbind io_mbind io_bind].
  rewrite (iw_open _ _ data) by done. rewrite run_bind.
  destruct (iw_put (fe_Key e) p w (Ev (OsOpen p) None :: h3) data "" Hf) as (w' & h' & Hput & Ho & Hfs).
  rename select (size_of data = fe_Size e) into Hn. rewrite <- Hn in *. unfold size_of at 1. rewrite Hput. injection Hr as <- <-.
  exists idx', w', h'. split; [done|]. split; [|done]. split_and!; [done..|].
  by eapply xw_rest.
Qed.

Lemma same_but_refl w : same_but w w (objs w).
Proof. done. Qed.

Lemma same_but_trans w w1 w2 o1 o2 : same_but w w1 o1 -> same_but w1 w2 o2 -> same_but w w2 o2.
Proof. intros (? & ? & ?) (? & ? & ?). unfold same_but. split_and!; congruence. Qed.

Lemma run_data_ref l w idx res commit h out o :
  idx_of (files w) idx ->
  data_ref root name walk (files w) (data_files l) res (objs w) = (out, o) ->
  exists idx' commit' w' h',
    run hd (data_loop root store l idx res commit) w h = Some ((out, idx', commit'), w', h') /\
    same_but w w' o /\ idx_of (files w) idx' /\
    (out.2 = None -> commit' = commit ++ discovery_files l).
Proof.
  revert w idx res commit h. induction l as [|e l IH]; intros w idx res commit h Hidx Hd.
  { injection Hd as <- <-. exists idx, commit, w, h. by rewrite app_nil_r. }
  cbn [data_loop]. unfold data_files, discovery_files in *. cbn [List.filter] in *.
  destruct (is_discovery e); cbn [negb] in *.
  { destruct (IH w idx res (commit ++ [e]) h Hidx Hd) as (idx' & commit' & w' & h' & ? & ? & ? & Hc).
    exists idx', commit', w', h'. split_and!; [done..|]. intros Ho. by rewrite Hc, <- app_assoc. }
  cbn [data_ref] in Hd. destruct (settle _ _ _ _ _ e) as [r o1] eqn:Hs. rewrite run_bind.
  destruct (run_importOne w e idx h r o1 Hidx Hs) as (idx1 & w1 & h1 & -> & Hsame & Hidx1).
  destruct r as [[[] n]|err].
  3:{ injection Hd as <- <-. by exists idx1, commit, w1, h1. }
  all: destruct Hsame as (Hf & <- & Hre); rewrite <- Hf in Hd, Hidx1.
  all: destruct (IH w1 idx1 _ commit h1 Hidx1 Hd) as (idx' & commit' & w' & h' & ? & Hw & ? & ?).
  all: exists idx', commit', w', h'; rewrite <- Hf; split_and!; [done| |done..].
  all: eapply same_but_trans; [|exact Hw]; done.
Qed.

Lemma run_commit_ref l w idx res h out o :
  idx_of (files w) idx ->
  commit_ref root name walk (files w) l res (objs w) = (out, o) ->
  exists w' h', run hd (commit_loop root store l idx res) w h = Some (out, w', h') /\
    same_but w w' o.
Proof.
  revert w idx res h. induction l as [|e l IH]; intros w idx res h Hidx Hd.
  { injection Hd as <- <-. by exists w, h. }
  cbn [commit_loop commit_ref] in *. destruct (settle _ _ _ _ _ e) as [r o1] eqn:Hs. rewrite run_bind.
  destruct (run_importOne w e idx h r o1 Hidx Hs) as (idx1 & w1 & h1 & -> & Hsame & Hidx1).
  destruct r as [[[] n]|err]; [|injection Hd as <- <-; by exists w1, h1..].
  destruct Hsame as (Hf & <- & Hre). rewrite <- Hf in Hd, Hidx1.
  destruct (IH w1 idx1 _ h1 Hidx1 Hd) as (w' & h' & ? & Hw). exists w', h'. split; [done|].
  by eapply same_but_trans.
Qed.

Lemma run_import_ref m w h out o :
  import_ref root name walk (files w) m (objs w) = (out, o) ->
  exists w' h', run hd (Import root store m) w h = Some (out, w', h') /\ same_but w w' o.
Proof.
  unfold import_ref, Import. intros Hi.
  destruct (data_ref _ _ _ _ _ _ _) as [[res err] o1] eqn:Hd. rewrite run_bind.
  destruct (run_data_ref (mf_Files m) w None zero_Result [] h _ _ I Hd)
    as (idx & commit & w1 & h1 & -> & Hsame & Hidx & Hc).
  destruct err as [err|]; [injection Hi as <- <-; by exists w1, h1|].
  case_bool_decide; [injection Hi as <- <-; by exists w1, h1|].
  rewrite (Hc eq_refl). cbn [app]. destruct Hsame as (Hf & <- & Hre). rewrite <- Hf in Hi, Hidx.
  destruct (run_commit_ref _ w1 idx res h1 _ _ Hidx Hi) as (w' & h' & ? & Hw).
  exists w', h'. split; [done|]. by eapply same_but_trans.
Qed.

(** the bytes of the files that had landed are what a pass puts *)
Lemma import_ref_landed m w out o :
  NoDup (map (fun e => name (fe_Key e)) (mf_Files m)) ->
  (Z.of_nat (length (mf_Files m)) < 2 ^ 63)%Z ->
  (forall e, e ∈ mf_Files m -> Importer.ready root files objs name w e) ->
  import_ref root name walk (files w) m (objs w) = (out, o) ->
  forall e, e ∈ mf_Files m -> ~ there objs name w e ->
    o !! name (fe_Key e) = files w !! primary_path root e.
Proof.
  intros Hnd Hlen Hr Hi e He Hnt.
  destruct (run_import_ref m w [] out o Hi) as (w' & h' & Hrun & _ & <- & _).
  destruct (run_Import hd root store files objs name m w [] Hnd Hlen Hr)
    as (res & w2 & h2 & Hrun2 & _ & _ & _ & (_ & _ & _ & _ & Hw) & _).
  rewrite Hrun in Hrun2. injection Hrun2 as -> -> ->. by apply Hw.
Qed.

(** C9: an import pass computes [import_ref]: from any inbox and store the run
    comes to exactly the counters and the error of the reference, and leaves
    exactly its store, the inbox and the rest of the world as they were.  So an
    object of the declared size is skipped; else the file at peat's place, or
    without one a file of the inbox with the same basename and the declared bytes,
    is put when its size and digest are the declared ones, is pending when its size
    is not, and stops the pass when only its digest is not. *)
Theorem Import_refines m w h :
  let '(out, o) := import_ref root name walk (files w) m (objs w) in
  exists w' h', run hd (Import root store m) w h = Some (out, w', h') /\ same_but w w' o.
Proof. destruct (import_ref _ _ _ _ m _) as [out o] eqn:E. by apply run_import_ref. Qed.
End Refinement.

(** *** The inbox in memory, with its walk *)

Definition paths (fs : gmap string string) : list string := (map_to_list fs).*1.

Definition inbox_memory : handler (gmap string string * gmap string string) := fun c w =>
  match c as c return resp c * (gmap string string * gmap string string) with
  | OsWalkDir _ => (WalkFile <$> paths w.1, w)
  | c => memory_world c w
  end.

Lemma found_files ps : found (WalkFile <$> ps) = ps.
Proof. induction ps as [|p ps IH]; [done|]. unfold found in *. cbn. by rewrite IH. Qed.

Lemma walk_files_clean ps : walk_clean (WalkFile <$> ps).
Proof. by apply Forall_fmap, Forall_forall. Qed.

Lemma paths_there fs p : p ∈ paths fs -> is_Some (fs !! p).
Proof.
  intros ([k d] & -> & Hin)%list_elem_of_fmap. apply elem_of_map_to_list in Hin. by eexists.
Qed.

#[export] Instance inbox_memory_world s root :
  InboxWorld inbox_memory root (as_Store s) fst snd (fullKey s) paths (fun _ => tt).
Proof.
  split.
  - destruct (memory_import_world s) as [_ Hstat Hopen Hread _].
    split; [|exact Hstat|exact Hopen|exact Hread|].
    + intros k [f o] h. cbn. unfold Stat. cbn. destruct (o !! fullKey s k) as [d|] eqn:E;
        (do 2 eexists; split; [reflexivity|done]).
    + intros k p [f o] h data ct H. cbn in *. rewrite H. do 2 eexists. split; [reflexivity|done].
  - intros p w H. cbn. rewrite H. by eexists.
  - intros w. eexists. split; [reflexivity|]. split; [apply walk_files_clean|apply found_files].
  - apply paths_there.
  - done.
Qed.

(** a file found by its content, and one that is still arriving *)
Definition partial_world : gmap string string * gmap string string :=
  (<["/inbox/other/p1" := "payload"]> (<["/inbox/d2/velero-backup.json" := "{"]> ∅), ∅).

Lemma Import_refines_witness : exists w' h',
  run inbox_memory (Import "/inbox" (as_Store sample_store) sample_manifest) partial_world [] =
    Some (({| rs_FilesImported := 1; rs_BytesImported := 7; rs_Pending := 1; rs_Committed := false |},
           None), w', h') /\
  same_but fst snd (fun _ => tt) partial_world w' {["prod/kopia/p1" := "payload"]}.
Proof.
  exact (Import_refines inbox_memory "/inbox" (as_Store sample_store) fst snd (fullKey sample_store)
           paths (fun _ => tt) sample_manifest partial_world []).
Defined.

(** ** What a reference pass does to the store *)

Section Pass.
Context (root : string) (name : string -> string)
  (walk : gmap string string -> list string) (fs : gmap string string).

Abbreviation obj e := (name (fe_Key e)).
Abbreviation names l := (map (fun e => name (fe_Key e)) l).

(** over the files [l]: only their objects change, none that is stored, and none
    but to the declared bytes *)
Definition advance (l : list FileEntry) (o o' : gmap string string) : Prop :=
  (forall k, k ∉ names l -> o' !! k = o !! k) /\
  (forall e, e ∈ l -> stored name o e = true -> o' !! obj e = o !! obj e) /\
  (forall e, e ∈ l -> o' !! obj e = o !! obj e \/
     exists data, o' !! obj e = Some data /\ matches e data = true).

Lemma advance_refl l o : advance l o o.
Proof. split_and!; [done|done|]. intros e _. by left. Qed.

Lemma stored_same o o' e : o' !! obj e = o !! obj e -> stored name o' e = stored name o e.
Proof. unfold stored. by intros ->. Qed.

Lemma in_names e l : e ∈ l -> obj e ∈ names l.
Proof. apply (list_elem_of_fmap_2 (fun e => obj e)). Qed.

Lemma advance_app l1 l2 o o1 o2 :
  (forall e1 e2, e1 ∈ l1 -> e2 ∈ l2 -> obj e1 <> obj e2) ->
  advance l1 o o1 -> advance l2 o1 o2 -> advance (l1 ++ l2) o o2.
Proof.
  intros Hdis (Hk1 & Hs1 & Hm1) (Hk2 & Hs2 & Hm2).
  assert (forall e, e ∈ l1 -> o2 !! obj e = o1 !! obj e) as H1.
  { intros e He. apply Hk2. intros (d & E & Hd)%list_elem_of_fmap. by eapply Hdis. }
  assert (forall e, e ∈ l2 -> o1 !! obj e = o !! obj e) as H2.
  { intros e He. apply Hk1. intros (d & E & Hd)%list_elem_of_fmap. by eapply (Hdis d e). }
  split_and!.
  - intros k Hk. rewrite map_app in Hk. rewrite Hk2, Hk1; [done|..]; intros Hin; apply Hk;
      apply elem_of_app; auto.
  - intros e [He|He]%elem_of_app Hst; [rewrite H1 by done; by apply Hs1|].
    rewrite Hs2; [by apply H2|done|]. rewrite (stored_same o); [done|by apply H2].
  - intros e [He|He]%elem_of_app.
    + rewrite H1 by done. by apply Hm1.
    + rewrite <- (H2 e) by done. by apply Hm2.
Qed.

Lemma advance_iff l l' o o' : (forall e, e ∈ l <-> e ∈ l') -> advance l o o' -> advance l' o o'.
Proof.
  intros Hl (Hk & Hs & Hm). split_and!.
  - intros k Hn. apply Hk. intros (e & -> & He)%list_elem_of_fmap. by apply Hn, in_names, Hl.
  - intros e He. by apply Hs, Hl.
  - intros e He. by apply Hm, Hl.
Qed.

Lemma stored_advance l o o' e :
  e ∈ l -> advance l o o' -> stored name o e = true -> stored name o' e = true.
Proof. intros He (_ & Hs & _) Hst. by rewrite (stored_same o) by by apply Hs. Qed.

Lemma settle_advance o e r o1 :
  settle root name walk fs o e = (r, o1) ->
  advance [e] o o1 /\ forall n, r = Ok (true, n) -> stored name o1 e = true.
Proof.
  unfold settle, judge. destruct (stored name o e) eqn:Hst.
  { intros [= <- <-]. split; [apply advance_refl|done]. }
  destruct (source _ _ _ _) as [p|]; [|intros [= <- <-]; split; [apply advance_refl|done]].
  unfold check. case_bool_decide as Hn; [intros [= <- <-]; split; [apply advance_refl|done]|].
  case_bool_decide as Hs; [intros [= <- <-]; split; [apply advance_refl|done]|].
  intros [= <- <-]. split.
  - unfold advance. split_and!.
    + intros k Hk. rewrite lookup_insert_ne; [done|]. set_solver.
    + intros d ->%list_elem_of_singleton. congruence.
    + intros d ->%list_elem_of_singleton. right. rewrite lookup_insert_eq. eexists. split; [done|].
      unfold matches. apply bool_decide_eq_true. done.
  - intros n _. unfold stored. rewrite lookup_insert_eq. by apply bool_decide_eq_true.
Qed.

Lemma cons_disjoint e l d x :
  NoDup (names (e :: l)) -> d ∈ [e] -> x ∈ l -> obj d <> obj x.
Proof.
  cbn. intros [Hnot _]%NoDup_cons ->%list_elem_of_singleton Hx E. apply Hnot. rewrite E.
  by apply in_names.
Qed.

(** the head of the list stays stored while the tail is worked through *)
Lemma stored_after e l o o' :
  NoDup (names (e :: l)) -> advance l o o' -> stored name o e = true -> stored name o' e = true.
Proof.
  cbn. intros [Hnot _]%NoDup_cons (Hk & _) Hst. rewrite (stored_same o); [done|]. by apply Hk.
Qed.

Definition pending_room (res : Result) (l : list FileEntry) : Prop :=
  (0 <= rs_Pending res /\ rs_Pending res + Z.of_nat (length l) < 2 ^ 63)%Z.

Lemma data_ref_spec l res o res' err o' :
  NoDup (names l) -> pending_room res l ->
  data_ref root name walk fs l res o = (res', err, o') ->
  advance l o o' /\ rs_Committed res' = rs_Committed res /\
  (rs_Pending res <= rs_Pending res')%Z /\
  (err = None -> rs_Pending res' = rs_Pending res -> forall e, e ∈ l -> stored name o' e = true).
Proof.
  revert res o. induction l as [|e l IH]; intros res o Hnd [Hp Hroom] Hd.
  { injection Hd as <- <- <-. split_and!; [apply advance_refl|done|done|set_solver]. }
  cbn [data_ref] in Hd. destruct (settle _ _ _ _ _ e) as [r o1] eqn:Hs.
  apply settle_advance in Hs as [Ha Hst]. cbn [length] in Hroom.
  pose proof (fun d x => cons_disjoint e l d x Hnd) as Hdis.
  assert (NoDup (names l)) as Hnd' by (cbn in Hnd; by apply NoDup_cons in Hnd as [_ ?]).
  assert (advance l o1 o1) as Hrefl by apply advance_refl.
  destruct r as [[[] n]|er].
  - apply IH in Hd as (Ha' & Hc & Hle & Hall); [|done|unfold pending_room; cbn; lia].
    split_and!; [by eapply (advance_app [e])|done|done|].
    intros He Hq x [->|Hx]%elem_of_cons; [|by apply Hall].
    eapply stored_after; [done..|]. by eapply Hst.
  - apply IH in Hd as (Ha' & Hc & Hle & Hall); [|done|].
    + cbn in Hle. rewrite int64_small in Hle by lia.
      split_and!; [by eapply (advance_app [e])|done|lia|]. intros _ Hq. lia.
    + unfold pending_room. cbn. rewrite int64_small; lia.
  - injection Hd as <- <- <-. split_and!; [by eapply (advance_app [e])|done|done|done].
Qed.

Lemma commit_ref_spec l res o res' err o' :
  NoDup (names l) -> rs_Committed res = false ->
  commit_ref root name walk fs l res o = (res', err, o') ->
  advance l o o' /\
  (rs_Committed res' = true -> err = None /\ forall e, e ∈ l -> stored name o' e = true).
Proof.
  revert res o. induction l as [|e l IH]; intros res o Hnd Hc Hd.
  { injection Hd as <- <- <-. split; [apply advance_refl|]. set_solver. }
  cbn [commit_ref] in Hd. destruct (settle _ _ _ _ _ e) as [r o1] eqn:Hs.
  apply settle_advance in Hs as [Ha Hst].
  pose proof (fun d x => cons_disjoint e l d x Hnd) as Hdis.
  assert (NoDup (names l)) as Hnd' by (cbn in Hnd; by apply NoDup_cons in Hnd as [_ ?]).
  assert (advance l o1 o1) as Hrefl by apply advance_refl.
  destruct r as [[[] n]|er].
  - apply IH in Hd as (Ha' & Hall); [|done..]. split; [by eapply (advance_app [e])|].
    intros [-> Hin]%Hall. split; [done|]. intros x [->|Hx]%elem_of_cons; [|by apply Hin].
    eapply stored_after; [done..|]. by eapply Hst.
  - injection Hd as <- <- <-. split; [by eapply (advance_app [e])|]. cbn. congruence.
  - injection Hd as <- <- <-. split; [by eapply (advance_app [e])|]. cbn. congruence.
Qed.

(** a discovery object shows only when the backup's data is there *)
Definition visible_complete (l : list FileEntry) (o : gmap string string) : Prop :=
  forall d e, d ∈ discovery_files l -> stored name o d = true ->
    e ∈ data_files l -> stored name o e = true.

Lemma import_ref_spec m o res err o' :
  NoDup (names (mf_Files m)) -> (Z.of_nat (length (mf_Files m)) < 2 ^ 63)%Z ->
  import_ref root name walk fs m o = (res, err, o') ->
  advance (mf_Files m) o o' /\
  (visible_complete (mf_Files m) o -> visible_complete (mf_Files m) o') /\
  (rs_Committed res = true -> err = None /\ forall e, e ∈ mf_Files m -> stored name o' e = true).
Proof.
  intros Hnd Hlen. set (l := mf_Files m) in *. unfold import_ref. fold l.
  destruct (data_ref _ _ _ _ _ _ _) as [[r1 err1] o1] eqn:Hd.
  pose proof (length_split l) as Hl.
  assert (forall e1 e2, e1 ∈ data_files l -> e2 ∈ discovery_files l -> obj e1 <> obj e2) as Hdis.
  { intros e1 e2. by apply kinds_disjoint. }
  assert (forall e, e ∈ data_files l ++ discovery_files l <-> e ∈ l) as Hiff.
  { intros e. symmetry. apply split_files. }
  apply data_ref_spec in Hd as (Ha & Hc & Hle & Hall);
    [|by apply NoDup_names_sub|unfold pending_room; cbn; lia].
  cbn in Hc, Hle, Hall.
  assert (advance l o o1) as Hl1.
  { eapply advance_iff; [exact Hiff|]. eapply advance_app; [done|exact Ha|apply advance_refl]. }
  assert (visible_complete l o -> visible_complete l o1) as Hv1.
  { intros Hv d e Hd' Hsd He. eapply stored_advance; [done|exact Ha|].
    apply (Hv d e Hd'); [|done]. destruct Ha as (Hk & _).
    rewrite <- Hsd. apply stored_same. symmetry. apply Hk.
    intros (x & E & Hx)%list_elem_of_fmap. by apply (Hdis x d). }
  destruct err1 as [err1|]; [intros [= <- <- <-]; split_and!; [done..|congruence]|].
  case_bool_decide as Hp; [intros [= <- <- <-]; split_and!; [done..|congruence]|].
  specialize (Hall eq_refl ltac:(lia)). intros Hd.
  apply commit_ref_spec in Hd as (Ha2 & Hall2); [|by apply NoDup_names_sub|done].
  assert (forall e, e ∈ data_files l -> stored name o' e = true) as Hdata.
  { intros e He. rewrite <- (Hall e He). apply stored_same. destruct Ha2 as (Hk & _). apply Hk.
    intros (x & E & Hx)%list_elem_of_fmap. by apply (Hdis e x). }
  split_and!.
  - eapply advance_iff; [exact Hiff|]. by eapply advance_app.
  - intros _ d e _ _. apply Hdata.
  - intros [-> Hin]%Hall2. split; [done|]. intros e [He|He]%Hiff%elem_of_app; auto.
Qed.

(** ** A pass that can finish *)

(** the object is stored, or the inbox has a source of its bytes *)
Definition available (o : gmap string string) (e : FileEntry) : Prop :=
  match judge root name walk fs o e with Stored | Landed _ => True | _ => False end.

Lemma available_same o o' e : o' !! obj e = o !! obj e -> available o e -> available o' e.
Proof. intros Ho. unfold available, judge. by rewrite (stored_same o o' e Ho). Qed.

Lemma settle_available o e r o1 :
  settle root name walk fs o e = (r, o1) -> available o e -> exists n, r = Ok (true, n).
Proof. unfold settle, available. destruct (judge _ _ _ _ _ _); naive_solver. Qed.

Lemma available_after e l o o1 d :
  NoDup (names (e :: l)) -> advance [e] o o1 -> d ∈ l -> available o d -> available o1 d.
Proof.
  intros Hnd (Hk & _) Hd. apply available_same, Hk. intros Hin.
  apply (cons_disjoint e l e d Hnd); [by apply list_elem_of_singleton|done|].
  cbn in Hin. by apply list_elem_of_singleton in Hin.
Qed.

Lemma data_ref_available l res o res' err o' :
  NoDup (names l) -> (forall e, e ∈ l -> available o e) ->
  data_ref root name walk fs l res o = (res', err, o') ->
  err = None /\ rs_Pending res' = rs_Pending res.
Proof.
  revert res o. induction l as [|e l IH]; intros res o Hnd Hav Hd; [by injection Hd as <- <- <-|].
  cbn [data_ref] in Hd. destruct (settle _ _ _ _ _ e) as [r o1] eqn:Hs.
  destruct (settle_available _ _ _ _ Hs (Hav e ltac:(constructor))) as [n ->].
  apply settle_advance in Hs as [Ha _]. apply IH in Hd; [done|by apply NoDup_cons in Hnd as [_ ?]|].
  intros d Hd'. eapply available_after; [done..|]. apply Hav. by constructor.
Qed.

Lemma commit_ref_available l res o res' err o' :
  NoDup (names l) -> (forall e, e ∈ l -> available o e) -> rs_Pending res = 0%Z ->
  commit_ref root name walk fs l res o = (res', err, o') ->
  err = None /\ rs_Committed res' = true.
Proof.
  revert res o. induction l as [|e l IH]; intros res o Hnd Hav Hp Hd.
  { injection Hd as <- <- <-. split; [done|]. by apply bool_decide_eq_true. }
  cbn [commit_ref] in Hd. destruct (settle _ _ _ _ _ e) as [r o1] eqn:Hs.
  destruct (settle_available _ _ _ _ Hs (Hav e ltac:(constructor))) as [n ->].
  apply settle_advance in Hs as [Ha _]. apply IH in Hd; [done|by apply NoDup_cons in Hnd as [_ ?]| |done].
  intros d Hd'. eapply available_after; [done..|]. apply Hav. by constructor.
Qed.

Lemma import_ref_available m o res err o' :
  NoDup (names (mf_Files m)) -> (Z.of_nat (length (mf_Files m)) < 2 ^ 63)%Z ->
  (forall e, e ∈ mf_Files m -> available o e) ->
  import_ref root name walk fs m o = (res, err, o') -> err = None /\ rs_Committed res = true.
Proof.
  intros Hnd Hlen Hav. set (l := mf_Files m) in *. unfold import_ref. fold l.
  destruct (data_ref _ _ _ _ _ _ _) as [[r1 err1] o1] eqn:Hd. pose proof (length_split l) as Hl.
  pose proof Hd as (Ha & _)%data_ref_spec;
    [|by apply NoDup_names_sub|unfold pending_room; cbn; lia].
  apply data_ref_available in Hd as [-> Hp];
    [|by apply NoDup_names_sub|intros e He; apply Hav, split_files, elem_of_app; auto].
  rewrite Hp. cbn. apply commit_ref_available; [by apply NoDup_names_sub| |done].
  intros e He. apply (available_same o); [|apply Hav, split_files, elem_of_app; auto].
  destruct Ha as (Hk & _). apply Hk. intros (x & E & Hx)%list_elem_of_fmap.
  by apply (kinds_disjoint (name := name) l x e).
Qed.
End Pass.

(** a landed file is available *)
Lemma landed_available {W} root (files : W -> gmap string string) name walk w o e :
  landed root files w e -> available root name walk (files w) o e.
Proof.
  intros (data & Hd & Hf & Hn & Hs). unfold available, judge. destruct (stored _ _ _); [done|].
  unfold source. rewrite bool_decide_eq_true_2 by (split; [done|by rewrite Hf]). rewrite Hf. cbn.
  unfold check, size_of. by rewrite !bool_decide_eq_false_2 by congruence.
Qed.
