(* ===== verification/ImportFaithful.v ===== *)
(** * ImportFaithful: the bytes that reach the store

    [importOne] hashes an inbox file and then opens it again for [Store.Put]
    (src/internal/importer/importer.go), while peat may be writing the inbox.  The
    bytes stored are those verified when a file, once it has an entry's size and
    digest, is not rewritten; [unverified_bytes_stored] is a run of the code where
    it is. *)

From stdpp Require Import gmap strings.
From S2P Require Import Prelude GoStrings GoCrypto Api Effects Manifest Objstore Importer.

(** the bytes an entry declares *)
Definition declared (e : FileEntry) (data : string) : Prop :=
  Z.of_nat (String.length data) = fe_Size e /\ HexEncode (sha256 data) = fe_SHA256 e.

(** a file that was read to its end with the bytes of an entry of the manifest
    reads the same ever after *)
Definition settled_inbox (files : list FileEntry) (h : history) : Prop :=
  forall l1 l2 p r data e, h = l1 ++ Ev (OsRead p) r :: l2 ->
    Ev (OsRead p) (data, None) ∈ l2 -> e ∈ files -> declared e data -> r = (data, None).

(** what an event read *)
Definition read_answer (x : event) : option (string * option error) :=
  match ev_call x as c return resp c -> option (string * option error) with
  | OsRead _ => Some
  | _ => fun _ => None
  end (ev_resp x).

Lemma settled_const files a h :
  Forall (fun x => default a (read_answer x) = a) h -> settled_inbox files h.
Proof.
  rewrite Forall_forall. intros Hh l1 l2 p r data e -> Hin _ _.
  transitivity a; [|symmetry].
  - apply (Hh (Ev (OsRead p) r)). set_solver.
  - apply (Hh (Ev (OsRead p) (data, None))). set_solver.
Qed.

Section Faithful.
Context (root : string) (store : Store) `{!StoreSpec store} (files : list FileEntry).

(** a write of the very bytes an entry declares *)
Definition faithful_put (c : call) : Prop :=
  exists e data, e ∈ files /\ declared e data /\ c = ss_put (fe_Key e) (data, None) (fe_Size e) "".

Definition faithful_call (h : history) (c : call) : Prop :=
  ss_reads c \/ inbox_read root files h c \/ (settled_inbox files h -> faithful_put c).

Lemma read_again p body h data e :
  settled_inbox files (Ev (OsRead p) body :: h) ->
  Ev (OsRead p) (data, None) ∈ Ev (OsRead p) body :: h ->
  e ∈ files -> declared e data -> body = (data, None).
Proof.
  intros Hs [E|Hin]%elem_of_cons He Hd; [by apply (f_equal read_answer) in E as [= <-]|].
  by apply (Hs [] h p body data e).
Qed.

Lemma import_put_faithful h c :
  import_put store files h c -> settled_inbox files h -> faithful_put c.
Proof.
  intros (e & src & body & h0 & He & -> & (data & Hread & Hdata) & -> & _) Hs.
  exists e, data. split; [done|]. split; [done|].
  by rewrite (read_again src body h0 data e).
Qed.
End Faithful.

(** C17: an import pass writes to the store exactly the bytes the manifest declares.
    Call by call, whatever else the outside answers and whatever happens to the
    inbox between two calls: provided that a file once read with the size and the
    digest of an entry keeps these bytes, the body of every write is a whole file,
    of the declared size and SHA-256 of the entry it is written for. *)
Theorem Import_faithful (root : string) (store : Store) `{!StoreSpec store} (m : Manifest) h :
  (Z.of_nat (length (mf_Files m)) < 2 ^ 63)%Z ->
  safe (faithful_call root store (mf_Files m)) (Import root store m) h (fun _ _ => True).
Proof.
  intros Hlen. eapply safe_mono; [| |by apply (Import_safe root store (mf_Files m))]; [|done].
  intros h' c [?|[?|Hput]]; [by left|by right; left|].
  right. right. by apply import_put_faithful.
Qed.

(** ** An inbox that changes under the importer *)

(** [memory_world], but a file is overwritten as soon as it was read *)
Definition racing_world : handler (gmap string string * gmap string string) := fun c w =>
  let (r, w') := memory_world c w in
  (r, match c with OsRead p => (<[p := "PAYLOAD"]> w'.1, w'.2) | _ => w' end).

Definition racing_manifest : Manifest :=
  {| mf_SchemaVersion := 1; mf_BackupName := "b1"; mf_StorageLocation := "default";
     mf_BSLPrefix := "prod"; mf_ObjectCount := 1; mf_TotalBytes := 7; mf_CompletedAt := "";
     mf_Complete := true; mf_Files := [sample_entry "kopia/p1" "d1" "payload"] |}.

(** the pass verifies one text, stores another and reports the backup committed *)
Lemma unverified_bytes_stored :
  (fun '(r, w', _) => (rs_Committed r.1, r.2, snd w' !! fullKey sample_store "kopia/p1")) <$>
    run racing_world (Import "/inbox" (as_Store sample_store) racing_manifest) sample_world [] =
  Some (true, None, Some "PAYLOAD").
Proof. vm_compute. reflexivity. Qed.

(** in an inbox that keeps what it has, the same pass, and its history is settled *)
Lemma Import_faithful_witness :
  safe (faithful_call "/inbox" (as_Store sample_store) (mf_Files racing_manifest))
    (Import "/inbox" (as_Store sample_store) racing_manifest) [] (fun _ _ => True) /\
  settled_inbox (mf_Files racing_manifest)
    [Ev (OsRead "/inbox/d1/p1") ("payload", None); Ev (OsOpen "/inbox/d1/p1") None;
     Ev (OsRead "/inbox/d1/p1") ("payload", None)].
Proof.
  split; [apply (Import_faithful "/inbox" (as_Store sample_store) racing_manifest); cbn; lia|].
  apply (settled_const _ ("payload", None)). repeat constructor.
Defined.
