(* ===== verification/Ledger.v ===== *)
(** * Ledger: which repository objects were already shipped

    [ledgerEntry], [ledgerKey], [enumerateDelta] and [commitLedger] of
    [internal/controller/backupreplication_controller.go].  The ledger is a Go
    map decoded from JSON; [None] is the nil map, which the document [null]
    decodes to and whose assignment panics. *)

From S2P Require Import Prelude GoStrings GoJson GoJsonFacts Api Effects Objstore Peat.
From stdpp Require Import gmap strings sorting.

Record ledgerEntry : Set := { le_ETag : string; le_Size : Z (* int64 *) }.

#[export] Instance ledgerEntry_eq_dec : EqDecision ledgerEntry.
Proof. solve_decision. Defined.

Definition zero_ledgerEntry : ledgerEntry := {| le_ETag := ""; le_Size := 0 |}.

Abbreviation ledger := (gmap string ledgerEntry).

Definition ledgerKey (bsl : string) : string := "snapback/ledger/" +:+ bsl +:+ ".json".

(** ** JSON *)

Definition get_ledgerEntry : decoder ledgerEntry :=
  get_struct ["etag"; "size"] (fun n e j =>
    if bool_decide (n = "etag")
    then field get_string (le_ETag e) (fun x => {| le_ETag := x; le_Size := le_Size e |}) j
    else field get_int64 (le_Size e) (fun x => {| le_ETag := le_ETag e; le_Size := x |}) j).

(** into a Go map that may be nil *)
Definition get_ledger : decoder (option ledger) := fun cur j =>
  match j with
  | JNull => (None, true)
  | _ => let (m, ok) := get_map zero_ledgerEntry get_ledgerEntry (default ∅ cur) j in (Some m, ok)
  end.

(** the ledger of a body: an empty body is an empty ledger *)
Definition parse_ledger (body : string) : option ledger * option error :=
  if bool_decide (body = "") then (Some ∅, None) else Unmarshal get_ledger (Some ∅) body.

Definition ledgerEntry_json (e : ledgerEntry) : json :=
  JObj [("etag", JStr (le_ETag e)); ("size", JNum (Itoa (le_Size e)))].

Definition ledger_json (m : ledger) : json :=
  json_map (map (fun '(k, e) => (k, ledgerEntry_json e)) (map_to_list m)).

(** ** enumerateDelta *)

(** [ledger[o.Key]; seen && e.ETag == o.ETag] *)
Definition already_shipped (m : option ledger) (o : ObjectInfo) : bool :=
  match default ∅ m !! oi_Key o with
  | Some e => bool_decide (le_ETag e = oi_ETag o)
  | None => false
  end.

(** the loop over the repository prefixes *)
Fixpoint list_repos (store : Store) (m : option ledger) (prefixes : list string)
    (keys : list string) : io (res (list string)) :=
  match prefixes with
  | [] => Ret (Ok keys)
  | prefix :: prefixes' =>
      objs ← st_List store prefix;
      match objs with
      | Er e => Ret (Er (errorf [FStr "list "; FStr prefix; FStr ": "] e))
      | Ok objs =>
          list_repos store m prefixes'
            (keys ++ map oi_Key (List.filter (fun o => negb (already_shipped m o)) objs))
      end
  end.

Definition backup_prefix (backupName : string) : string := "backups/" +:+ backupName +:+ "/".

Definition enumerateDelta (store : Store) (spec : BackupReplicationSpec)
  : io (res (list string)) :=
  r ← st_GetLedger store (ledgerKey (brs_StorageLocation spec));
  match r with
  | Er e => Ret (Er (errorf [FStr "load ledger: "] e))
  | Ok (body, _) =>
      match parse_ledger body with
      | (_, Some e) => Ret (Er (errorf [FStr "parse ledger: "] e))
      | (m, None) =>
          metaObjs ← st_List store (backup_prefix (brs_BackupName spec));
          match metaObjs with
          | Er e => Ret (Er (errorf [FStr "list backup metadata: "] e))
          | Ok metaObjs =>
              list_repos store m ["kopia/"; "restic/"] (map oi_Key metaObjs)
          end
      end
  end.

(** ** commitLedger *)

Definition add_keys (m : ledger) (keys : list string) : ledger :=
  fold_left (fun m k => <[k := zero_ledgerEntry]> m) keys m.

(** the assignments to the map; [None] is a panic *)
Definition record_keys (m : option ledger) (keys : list string) : option (option ledger) :=
  match m, keys with
  | Some m, _ => Some (Some (add_keys m keys))
  | None, [] => Some None
  | None, _ :: _ => None
  end.

(** [json.Marshal] of the map *)
Definition print_ledger (m : option ledger) : string :=
  match m with None => print JNull | Some m => print (ledger_json m) end.

Definition commitLedger (store : Store) (spec : BackupReplicationSpec) (keys : list string)
  : io (option error) :=
  let key := ledgerKey (brs_StorageLocation spec) in
  r ← st_GetLedger store key;
  match r with
  | Er e => Ret (Some e)
  | Ok (body, etag) =>
      match parse_ledger body with
      | (_, Some e) => Ret (Some e)
      | (m, None) =>
          match record_keys m keys with
          | None => Panic "assignment to entry in nil map"
          | Some m =>
              r ← st_PutLedger store key (print_ledger m) etag;
              Ret match r with Er e => Some e | Ok _ => None end
          end
      end
  end.

(** ** Enumerating returns; committing does, but for the nil map *)

Lemma completes_list_repos ms m prefixes keys :
  completes (list_repos (as_Store ms) m prefixes keys).
Proof.
  revert keys. induction prefixes; intros keys; cbn [list_repos as_Store st_List]; completes_steps.
Qed.
#[export] Hint Resolve completes_list_repos : completes.

Lemma completes_enumerateDelta ms spec : completes (enumerateDelta (as_Store ms) spec).
Proof. unfold enumerateDelta. cbn [as_Store st_GetLedger st_List]. completes_steps. Qed.
#[export] Hint Resolve completes_enumerateDelta : completes.

(** the ledger read from the store is a document that decodes to the nil map *)
Definition nil_ledger (ms : minioStore) (key : string) (h : history) : Prop :=
  exists body etag, ledger_seen ms h key body etag /\ parse_ledger body = (None, None).

Lemma returns_commitLedger ms spec keys h :
  returns (nil_ledger ms (ledgerKey (brs_StorageLocation spec)))
    (commitLedger (as_Store ms) spec keys) h.
Proof.
  unfold commitLedger. cbn [as_Store st_GetLedger st_PutLedger].
  eapply returns_then; [apply completes_returns, completes_GetLedger|apply GetLedger_safe|].
  intros h1 [[body etag]|e] Hseen _; [|done]. specialize (Hseen body etag eq_refl).
  destruct (parse_ledger body) as [m [e|]] eqn:Hp; [done|].
  destruct m as [m|]; cbn [record_keys]; [apply completes_returns; completes_steps|].
  destruct keys as [|k keys]; [apply completes_returns; completes_steps|]. by exists body, etag.
Qed.

(** ** The ledger document round-trips *)

Lemma fold_insert_list {A} (l : list (string * A)) (m : gmap string A) :
  NoDup l.*1 -> fold_left (fun m '(k, a) => <[k := a]> m) l m = list_to_map l ∪ m.
Proof.
  revert m. induction l as [|[k a] l IH]; intros m; cbn; [by rewrite (left_id_L ∅ (∪))|].
  intros [Hk Hl]%NoDup_cons. rewrite IH by done.
  rewrite <- insert_union_r, insert_union_l; [done|]. by apply not_elem_of_list_to_map_1.
Qed.

Lemma get_map_members {A} (zero : A) (get : decoder A) (enc : A -> json) l m :
  Forall (fun kv => get zero (enc kv.2) = (kv.2, true)) l ->
  get_map zero get m (JObj (map (fun '(k, a) => (k, enc a)) l)) =
    (fold_left (fun m '(k, a) => <[k := a]> m) l m, true).
Proof.
  unfold get_map. intros H. revert m. induction H as [|[k a] l Ha _ IH]; intros m; [done|].
  cbn in Ha |- *. rewrite Ha. apply IH.
Qed.

(** what a Go value of the ledger's types holds, with keys and ETags in UTF-8 *)
Definition ledgerEntry_ok (e : ledgerEntry) : Prop :=
  valid_utf8 (le_ETag e) = true /\ (- 2 ^ 63 <= le_Size e < 2 ^ 63)%Z.

Definition ledger_ok (m : ledger) : Prop :=
  map_Forall (fun k e => valid_utf8 k = true /\ ledgerEntry_ok e) m.

Lemma get_ledgerEntry_json e :
  ledgerEntry_ok e -> get_ledgerEntry zero_ledgerEntry (ledgerEntry_json e) = (e, true).
Proof.
  destruct e as [t n]. intros [_ Hn]. cbn in Hn. unfold ledgerEntry_json, get_ledgerEntry, get_struct.
  cbn [le_ETag le_Size].
  eapply store_known; [reflexivity|decide_fields; reflexivity|].
  eapply store_known; [reflexivity|decide_fields; by rewrite field_int64|reflexivity].
Qed.

(** the members of the printed object are the map's, in some order *)
Lemma ledger_json_members m :
  exists l, l ≡ₚ map_to_list m /\
    ledger_json m = JObj (map (fun '(k, e) => (k, ledgerEntry_json e)) l).
Proof.
  unfold ledger_json, json_map.
  pose proof (merge_sort_Permutation key_le
    (map (fun '(k, e) => (k, ledgerEntry_json e)) (map_to_list m))) as Hp.
  apply Permutation_map_inv in Hp as (l & -> & Hl). by exists l.
Qed.

Lemma get_ledger_json m : ledger_ok m -> get_ledger (Some ∅) (ledger_json m) = (Some m, true).
Proof.
  intros Hm. destruct (ledger_json_members m) as (l & Hl & ->). unfold get_ledger. cbn [from_option id].
  assert (Forall (fun kv => get_ledgerEntry zero_ledgerEntry (ledgerEntry_json kv.2) = (kv.2, true)) l).
  { rewrite Hl. apply Forall_forall. intros [k e] He%elem_of_map_to_list.
    apply get_ledgerEntry_json. by apply (Hm k e). }
  rewrite (get_map_members _ _ ledgerEntry_json) by done.
  assert (NoDup l.*1) as Hnd by (rewrite Hl; apply NoDup_fst_map_to_list).
  rewrite fold_insert_list, map_union_empty by done.
  by rewrite (list_to_map_proper l (map_to_list m)), list_to_map_to_list.
Qed.

Lemma ledger_json_ok m :
  ledger_ok m -> json_ok (ledger_json m) /\ (depth (ledger_json m) <= 2)%Z.
Proof.
  intros Hm. destruct (ledger_json_members m) as (l & Hl & ->).
  assert (Forall (fun kv => valid_utf8 kv.1 = true /\ ledgerEntry_ok kv.2) l) as Hok.
  { rewrite Hl. apply Forall_forall. intros [k e] He%elem_of_map_to_list. by apply (Hm k e). }
  split.
  - apply json_ok_members, Forall_map. eapply Forall_impl; [exact Hok|].
    intros [k e] [Hk [Ht _]]. cbn -[Itoa]. split; [done|]. naive_solver.
  - cbn [depth]. clear -l. induction l as [|[k e] l IH]; cbn -[Itoa] in *; lia.
Qed.

Lemma parse_print_ledger m :
  ledger_ok m -> parse_ledger (print_ledger (Some m)) = (Some m, None).
Proof.
  intros Hm. destruct (ledger_json_ok m Hm) as [Hok Hd].
  unfold parse_ledger, print_ledger. rewrite bool_decide_eq_false_2.
  2:{ intros E. apply print_pos in Hok. by rewrite E in Hok. }
  unfold Unmarshal. rewrite parse_print by (done || (unfold max_depth; lia)).
  by rewrite get_ledger_json.
Qed.

(** C37: the ledger survives its document: what [commitLedger] writes, the next
    [enumerateDelta] and [commitLedger] read back as the same map, whatever order
    the JSON object lists its keys in; a missing ledger (an empty body) is an
    empty map. *)
Theorem ledger_roundtrip m :
  ledger_ok m -> parse_ledger (print_ledger (Some m)) = (Some m, None) /\
                 parse_ledger "" = (Some ∅, None).
Proof. intros Hm. split; [by apply parse_print_ledger|done]. Qed.

Lemma ledger_roundtrip_witness :
  parse_ledger (print_ledger (Some {[ "kopia/p1" := zero_ledgerEntry ]})) =
    (Some {[ "kopia/p1" := zero_ledgerEntry ]}, None) /\
  parse_ledger "" = (Some ∅, None).
Proof.
  apply (ledger_roundtrip {[ "kopia/p1" := zero_ledgerEntry ]}).
  intros k e [<- <-]%lookup_singleton_Some. split; [reflexivity|]. split; [reflexivity|].
  cbn. lia.
Defined.

(** ** What is shipped again *)

Lemma lookup_add_keys m keys k :
  add_keys m keys !! k = if bool_decide (k ∈ keys) then Some zero_ledgerEntry else m !! k.
Proof.
  unfold add_keys. revert m. induction keys as [|k' keys IH]; intros m; [done|]. cbn. rewrite IH.
  destruct (decide (k = k')) as [->|Hne].
  - rewrite lookup_insert_eq, (bool_decide_eq_true_2 (k' ∈ k' :: keys)) by constructor.
    by case_bool_decide.
  - rewrite lookup_insert_ne by done. by rewrite (bool_decide_ext (k ∈ keys) (k ∈ k' :: keys))
      by set_solver.
Qed.

(** What a committed ledger does to the next delta: an object whose key was
    just recorded counts as shipped exactly when its listing has an empty ETag,
    because the entry is recorded with an empty ETag; every other object counts as
    it did.  So an object with an ETag, as S3 reports one, is shipped again for
    every backup. *)
Lemma committed_then_listed m keys o :
  already_shipped (Some (add_keys m keys)) o =
    if bool_decide (oi_Key o ∈ keys) then bool_decide (oi_ETag o = "")
    else already_shipped (Some m) o.
Proof.
  unfold already_shipped. cbn [from_option id]. rewrite lookup_add_keys.
  case_bool_decide; [|done]. cbn. apply bool_decide_ext. naive_solver.
Qed.

(** ** The delta *)

(** the keys of the objects that the ledger does not have with the ETag listed; the
    nil map has none *)
Definition unrecorded (m : option ledger) (infos : list ObjectInfo) : list string :=
  oi_Key <$> filter (fun o => le_ETag <$> default ∅ m !! oi_Key o <> Some (oi_ETag o)) infos.

Lemma already_shipped_iff m o :
  already_shipped m o = true <-> le_ETag <$> default ∅ m !! oi_Key o = Some (oi_ETag o).
Proof.
  unfold already_shipped. destruct (default ∅ m !! oi_Key o) as [e|]; cbn; [|done].
  rewrite bool_decide_eq_true. split; congruence.
Qed.

Lemma unrecorded_filter m infos :
  map oi_Key (List.filter (fun o => negb (already_shipped m o)) infos) = unrecorded m infos.
Proof.
  unfold unrecorded. induction infos as [|o infos IH]; [done|]. cbn [List.filter].
  rewrite filter_cons. pose proof (already_shipped_iff m o) as Ho.
  destruct (already_shipped m o); cbn [negb].
  - rewrite decide_False by (intros Hn; by apply Hn, Ho). exact IH.
  - rewrite decide_True by (intros E; by apply Ho in E). cbn. by rewrite IH.
Qed.

Section Delta.
#[local] Arguments safe : simpl never.
Context (ms : minioStore).

(** the ledger was read as the map [m] *)
Definition ledger_read (h : history) (key : string) (m : option ledger) : Prop :=
  exists body etag, ledger_seen ms h key body etag /\ parse_ledger body = (m, None).

(** the keys of a backup's delta, as the store listed it and by the ledger read: all
    objects of its own and, of the two repositories, those unrecorded *)
Definition delta (h : history) (spec : BackupReplicationSpec) (keys : list string) : Prop :=
  exists m metas kopia restic,
    ledger_read h (ledgerKey (brs_StorageLocation spec)) m /\
    listing ms h (backup_prefix (brs_BackupName spec)) metas /\
    listing ms h "kopia/" kopia /\ listing ms h "restic/" restic /\
    keys = (oi_Key <$> metas) ++ unrecorded m kopia ++ unrecorded m restic.

Lemma delta_mono h h' spec keys : extends h h' -> delta h spec keys -> delta h' spec keys.
Proof.
  intros Hh (m & metas & kopia & restic & (body & etag & Hs & Hp) & H1 & H2 & H3 & ->).
  exists m, metas, kopia, restic. split_and!; [|by eapply listing_mono..|done].
  exists body, etag. split; [by eapply ledger_seen_mono|done].
Qed.

Lemma list_repos_safe m prefixes keys h :
  safe (fun _ => store_read ms) (list_repos (as_Store ms) m prefixes keys) h (fun h' r =>
    forall ks, r = Ok ks -> exists infoss,
      Forall2 (listing ms h') prefixes infoss /\
      ks = keys ++ concat (map (unrecorded m) infoss)).
Proof.
  revert keys h. induction prefixes as [|p ps IH]; intros keys h; cbn [list_repos].
  { apply safe_ret. intros ks [= <-]. exists []. by rewrite app_nil_r. }
  eapply safe_then; [apply List_safe|]. intros h1 [infos|e] Hl; [|by apply safe_ret].
  eapply safe_post; [apply safe_extends, IH|]. intros h2 r [H Hh2] ks Hks.
  destruct (H ks Hks) as (infoss & Hf & ->). exists (infos :: infoss). split.
  - constructor; [|done]. apply (listing_mono ms h1); [done|by apply Hl].
  - cbn. by rewrite <- app_assoc, unrecorded_filter.
Qed.

Lemma enumerateDelta_safe spec h :
  safe (fun _ => store_read ms) (enumerateDelta (as_Store ms) spec) h (fun h' r =>
    forall keys, r = Ok keys -> delta h' spec keys).
Proof.
  unfold enumerateDelta. eapply safe_then_extends; [apply GetLedger_safe|].
  intros h1 [[body etag]|e] Hl Hh1; [|by apply safe_ret].
  destruct (parse_ledger body) as [m [e|]] eqn:Hm; [by apply safe_ret|].
  eapply safe_then_extends; [apply List_safe|].
  intros h2 [metas|e] Hmeta Hh2; [|by apply safe_ret].
  eapply safe_post; [apply safe_extends, list_repos_safe|].
  intros h3 r [H Hh3] keys Hk. destruct (H keys Hk) as (infoss & Hf & ->).
  inversion_clear Hf as [|? kopia ? l Hkopia Hf']. inversion_clear Hf' as [|? restic ? l' Hrestic Hf].
  inversion_clear Hf. exists m, metas, kopia, restic. cbn. rewrite app_nil_r.
  split_and!; [|by apply (listing_mono ms h2), Hmeta|done|done|done].
  exists body, etag. split; [|done]. apply (ledger_seen_mono ms h1); [by etrans|by apply Hl].
Qed.

(** C25: the delta of a backup, whatever the store answers: only reads of the
    store are made; on success the keys are, in order, all objects listed under
    the backup's own prefix, then the kopia and then the restic objects whose key
    the ledger read from the store does not have, or has with another ETag than the
    one listed ([unrecorded]); a ledger or listing that cannot be read is an error, never an empty delta.  There always
    is a result. *)
Theorem enumerateDelta_outcome spec h :
  completes (enumerateDelta (as_Store ms) spec) /\
  safe (fun _ => store_read ms) (enumerateDelta (as_Store ms) spec) h (fun h' r =>
    forall keys, r = Ok keys -> delta h' spec keys).
Proof. split; [apply completes_enumerateDelta|apply enumerateDelta_safe]. Qed.
End Delta.

(** A backup of one object, and a repository with a blob the ledger has, one it has
    with another ETag, and one it does not have. *)
Definition listed_objects (prefix : string) : list minio_object :=
  let object key tag := {| mo_Key := key; mo_Size := 1; mo_ETag := tag; mo_LastModified := 0 |} in
  if bool_decide (prefix = "prod/backups/b1/") then [object "prod/backups/b1/meta" "e"]
  else if bool_decide (prefix = "prod/kopia/")
  then [object "prod/kopia/p1" "e1"; object "prod/kopia/p2" "e2"; object "prod/kopia/p3" "e3"]
  else [].

Definition listing_store : handler unit := fun c w =>
  match c as c return resp c * unit with
  | MinioGetObject _ _ _ => (None, w)
  | MinioObjectStat _ _ key =>
      (Ok {| mo_Key := key; mo_Size := 1; mo_ETag := "v1"; mo_LastModified := 0 |}, w)
  | MinioObjectRead _ _ _ =>
      ((print_ledger (Some (<["kopia/p1" := {| le_ETag := "e1"; le_Size := 1 |}]>
          {[ "kopia/p2" := zero_ledgerEntry ]})), None), w)
  | MinioListObjects _ _ prefix => (map Ok (listed_objects prefix), w)
  | c => (refuse c, w)
  end.

Lemma enumerateDelta_outcome_witness :
  let spec := {| brs_BackupName := "b1"; brs_PolicyName := "p"; brs_StorageLocation := "default" |} in
  exists keys h, run listing_store (enumerateDelta (as_Store sample_store) spec) tt [] =
      Some (Ok keys, tt, h) /\
    keys = ["backups/b1/meta"; "kopia/p2"; "kopia/p3"] /\ delta sample_store h spec keys.
Proof.
  intros spec. destruct (enumerateDelta_outcome sample_store spec []) as [_ Hs].
  destruct (run listing_store (enumerateDelta (as_Store sample_store) spec) tt [])
    as [[[r w] h]|] eqn:E; [|vm_compute in E; discriminate E].
  pose proof (run_safe _ _ _ _ _ _ _ _ _ Hs E) as Hd. destruct w.
  assert (r = Ok ["backups/b1/meta"; "kopia/p2"; "kopia/p3"]) as ->.
  { vm_compute in E. injection E as <- _. reflexivity. }
  exists ["backups/b1/meta"; "kopia/p2"; "kopia/p3"], h.
  split; [reflexivity|]. split; [reflexivity|]. apply Hd. reflexivity.
Defined.

(** ** Committing *)

Section Commit.
#[local] Arguments safe : simpl never.
Context (ms : minioStore) (key : string) (keys : list string).

(** [m'] has an entry, without an ETag or a size, for each of the keys, and every
    other entry of [m] *)
Definition records (m m' : ledger) : Prop := forall k,
  m' !! k = if decide (k ∈ keys) then Some {| le_ETag := ""; le_Size := 0 |} else m !! k.

(** the write that records the keys in the ledger just read, on the condition
    that the ledger still has the version that was read; its document is read back
    as that map *)
Definition commit_put (h : history) (c : call) : Prop :=
  exists body etag m m', ledger_seen ms h key body etag /\ parse_ledger body = (Some m, None) /\
    records m m' /\ (ledger_ok m' -> parse_ledger (print_ledger (Some m')) = (Some m', None)) /\
    c = ledger_put ms key (print_ledger (Some m')) etag.

Definition commit_call (h : history) (c : call) : Prop := store_read ms c \/ commit_put h c.

Definition committed (h : history) : Prop :=
  exists h0 c r, extends h0 h /\ commit_put h0 c /\ Ev c r ∈ h /\
    match c return resp c -> Prop with
    | MinioPutObject _ _ _ _ _ _ => fun r => exists t, r = Ok t
    | _ => fun _ => False
    end r.

Lemma committed_mono h h' : extends h h' -> committed h -> committed h'.
Proof.
  intros Hh (h0 & c & r & Hext & Hput & Hin & Hr). exists h0, c, r.
  split_and!; [by etrans|done|by eapply extends_in|done].
Qed.
End Commit.

Lemma add_keys_records m keys : records keys m (add_keys m keys).
Proof. intros k. rewrite lookup_add_keys. by case_bool_decide; case_decide. Qed.

Lemma add_keys_put ms key keys h body etag m :
  ledger_seen ms h key body etag -> parse_ledger body = (Some m, None) ->
  commit_put ms key keys h (ledger_put ms key (print_ledger (Some (add_keys m keys))) etag).
Proof.
  intros Hs Hm. exists body, etag, m, (add_keys m keys).
  split_and!; [done|done|apply add_keys_records|apply parse_print_ledger|done].
Qed.

Lemma commitLedger_safe ms spec keys h :
  keys <> [] ->
  safe (commit_call ms (ledgerKey (brs_StorageLocation spec)) keys)
    (commitLedger (as_Store ms) spec keys) h
    (fun h' r => r = None -> committed ms (ledgerKey (brs_StorageLocation spec)) keys h').
Proof.
  intros Hkeys. unfold commitLedger. set (key := ledgerKey _).
  eapply safe_then; [eapply safe_guard; [apply GetLedger_safe|intros ??; by left]|].
  intros h1 [[body etag]|e] Hl; [|by apply safe_ret].
  destruct (parse_ledger body) as [m [e|]] eqn:Hm; [by apply safe_ret|].
  destruct m as [m|]; cbn [record_keys]; [|by destruct keys].
  assert (commit_put ms key keys h1 (ledger_put ms key (print_ledger (Some (add_keys m keys))) etag))
    as Hput by (apply (add_keys_put _ _ _ _ body); [by apply Hl|done]).
  eapply safe_then.
  { eapply safe_guard; [apply PutLedger_safe|]. intros h' c [-> ->]. by right. }
  intros h2 [new|e] Hn; apply safe_ret; [|done]. intros _.
  destruct (Hn new eq_refl) as (t & -> & _).
  exists h1, (ledger_put ms key (print_ledger (Some (add_keys m keys))) etag), (Ok t).
  split_and!; [done|done|constructor|by exists t].
Qed.

(** C24: committing the ledger, whatever the store answers: the only write is one
    conditional put, on the version that was read, of the ledger just read with an
    entry for each shipped key and every other entry as it was ([records]), in a
    document that reads back so; the commit reports success only when that put was
    accepted; an unreadable ledger, or a conflict with a concurrent writer, is an
    error and nothing is written.  The commit always comes to a result, but for the panic on a ledger document that decodes to the
    nil map. *)
Theorem commitLedger_outcome ms spec keys h :
  keys <> [] ->
  returns (nil_ledger ms (ledgerKey (brs_StorageLocation spec)))
    (commitLedger (as_Store ms) spec keys) h /\
  safe (commit_call ms (ledgerKey (brs_StorageLocation spec)) keys)
    (commitLedger (as_Store ms) spec keys) h
    (fun h' r => r = None -> committed ms (ledgerKey (brs_StorageLocation spec)) keys h').
Proof. intros Hk. split; [apply returns_commitLedger|by apply commitLedger_safe]. Qed.

Lemma commitLedger_outcome_witness :
  returns (nil_ledger sample_store "snapback/ledger/default.json")
    (commitLedger (as_Store sample_store)
       {| brs_BackupName := "b1"; brs_PolicyName := "p"; brs_StorageLocation := "default" |}
       ["kopia/p1"]) [] /\
  safe (commit_call sample_store "snapback/ledger/default.json" ["kopia/p1"])
    (commitLedger (as_Store sample_store)
       {| brs_BackupName := "b1"; brs_PolicyName := "p"; brs_StorageLocation := "default" |}
       ["kopia/p1"]) []
    (fun h' r => r = None ->
       committed sample_store "snapback/ledger/default.json" ["kopia/p1"] h').
Proof.
  apply (commitLedger_outcome sample_store
           {| brs_BackupName := "b1"; brs_PolicyName := "p"; brs_StorageLocation := "default" |}
           ["kopia/p1"] []).
  discriminate.
Defined.

(** the document [null] is a ledger to [enumerateDelta], and panics the commit *)
Lemma null_ledger_panics key keys :
  parse_ledger "null" = (None, None) /\ record_keys (parse_ledger "null").1 (key :: keys) = None.
Proof. split; vm_compute; reflexivity. Qed.
