(* ===== verification/LedgerPool.v ===== *)
(** * LedgerPool: commits that run at the same time

    Replication reconcilers of several managers commit to the ledger of one
    location.  A pool of [Ledger.commitLedger] programs runs interleaved, call by
    call, against one ledger object; the theorems hold of every interleaving. *)

From stdpp Require Import base list strings gmap relations.
From Stdlib Require Import Ascii.
From S2P Require Import Prelude GoStrings GoJson GoJsonFacts Api Effects Objstore Peat Ledger.

(** ** Interleaving *)

(** One call of a program and its answer. *)
Definition io_step {W A} (hd : handler W) (m : io A) (w : W) : option (io A * W) :=
  match m with
  | Call c k => let (r, w') := hd c w in Some (k r, w')
  | _ => None
  end.

Lemma io_step_call {W A} (hd : handler W) c (k : resp c -> io A) w :
  is_Some (io_step hd (Call c k) w).
Proof. cbn. destruct (hd c w). by eexists. Qed.

Inductive pool_step {W A} (hd : handler W) : W * list (io A) -> W * list (io A) -> Prop :=
| PoolStep i m m' w w' ts :
    ts !! i = Some m -> io_step hd m w = Some (m', w') ->
    pool_step hd (w, ts) (w', <[i := m']> ts).

(** A schedule names the program that makes each call. *)
Fixpoint run_schedule {W A} (hd : handler W) (sched : list nat) (p : W * list (io A))
    : option (W * list (io A)) :=
  match sched with
  | [] => Some p
  | i :: sched =>
      m ← p.2 !! i;
      '(m', w') ← io_step hd m p.1;
      run_schedule hd sched (w', <[i := m']> p.2)
  end.

Lemma run_schedule_steps {W A} (hd : handler W) sched (p p' : W * list (io A)) :
  run_schedule hd sched p = Some p' -> nsteps (pool_step hd) (length sched) p p'.
Proof.
  revert p. induction sched as [|i sched IH]; intros [w ts]; cbn; [intros [= ->]; constructor|].
  destruct (ts !! i) as [m|] eqn:Hi; [|done]. cbn.
  destruct (io_step hd m w) as [[m' w']|] eqn:Hs; [|done]. cbn.
  intros H. econstructor; [by econstructor|by apply IH].
Qed.

(** ** The parts of a commit *)

Section commit.
Context (ms : minioStore) (loc : string).

Definition key : string := ledgerKey loc.

(** [commitLedger] after its [GetLedger] *)
Definition commit_with (keys : list string) (r : res (string * string)) : io (option error) :=
  match r with
  | Er e => Ret (Some e)
  | Ok (body, etag) =>
      match parse_ledger body with
      | (_, Some e) => Ret (Some e)
      | (m, None) =>
          match record_keys m keys with
          | None => Panic "assignment to entry in nil map"
          | Some m =>
              r ← PutLedger ms key (print_ledger m) etag;
              Ret match r with Er e => Some e | Ok _ => None end
          end
      end
  end.

(** what is left after the object was opened, and after its version was read *)
Definition after_open : io (res (string * string)) :=
  st ← perform (MinioObjectStat (ms_client ms) (ms_bucket ms) key);
  match st with
  | Er e =>
      Ret (if isNotFound e then Ok ("", "")
           else Er (errorf [FStr "objstore: stat ledger "; FQuo key; FStr ": "] e))
  | Ok st =>
      r ← perform (MinioObjectRead (ms_client ms) (ms_bucket ms) key);
      Ret match r with
          | (_, Some e) => Er (errorf [FStr "objstore: read ledger "; FQuo key; FStr ": "] e)
          | (body, None) => Ok (body, trim_etag (mo_ETag st))
          end
  end.

Definition after_stat (etag : string) : io (res (string * string)) :=
  r ← perform (MinioObjectRead (ms_client ms) (ms_bucket ms) key);
  Ret match r with
      | (_, Some e) => Er (errorf [FStr "objstore: read ledger "; FQuo key; FStr ": "] e)
      | (body, None) => Ok (body, etag)
      end.

Definition commit_of (c : BackupReplicationSpec * list string) : io (option error) :=
  commitLedger (as_Store ms) c.1 c.2.

Lemma commit_of_parts c :
  brs_StorageLocation c.1 = loc -> commit_of c = GetLedger ms key ≫= commit_with c.2.
Proof.
  intros H. unfold commit_of, commitLedger, commit_with, key. rewrite H. reflexivity.
Qed.
End commit.

(** ** The object's contents *)

(** The version of the object is a digest of its contents. *)
Class ContentVersion {W} (view : W -> option (string * string)) (ver : string -> string) : Prop := {
  cv_ver w body etag : view w = Some (body, etag) -> etag = ver body;
  cv_inj : Inj (=) (=) ver;
  cv_nonempty body : ver body <> "";
}.

(** The keys that a ledger object records. *)
Definition ledger_keys (v : option (string * string)) : gset string :=
  match v with
  | Some (body, _) => match parse_ledger body with (Some m, None) => dom m | _ => ∅ end
  | None => ∅
  end.

(** There is no ledger yet, or it is one that a commit wrote. *)
Definition good_view (v : option (string * string)) : Prop :=
  match v with
  | Some (body, _) => exists m, ledger_ok m /\ body = print_ledger (Some m)
  | None => True
  end.

Definition valid_commit (loc : string) (c : BackupReplicationSpec * list string) : Prop :=
  brs_StorageLocation c.1 = loc /\ Forall (fun k => valid_utf8 k = true) c.2.

Lemma ledger_keys_print m etag :
  ledger_ok m -> ledger_keys (Some (print_ledger (Some m), etag)) = dom m.
Proof. intros Hm. unfold ledger_keys. by rewrite parse_print_ledger. Qed.

Lemma add_keys_ok m keys :
  ledger_ok m -> Forall (fun k => valid_utf8 k = true) keys -> ledger_ok (add_keys m keys).
Proof.
  intros Hm Hk k e. rewrite lookup_add_keys. case_bool_decide as Hin; [|apply Hm].
  intros [= <-]. split; [by eapply Forall_forall in Hk|]. split; [done|]. cbn. lia.
Qed.

Lemma dom_add_keys m keys : dom (add_keys m keys) = dom m ∪ list_to_set keys.
Proof.
  apply set_eq. intros k. rewrite elem_of_union, elem_of_list_to_set, !elem_of_dom.
  rewrite lookup_add_keys. case_bool_decide; [|naive_solver]. split; [by right|by eexists].
Qed.

(** ** The stages of a commit *)

Section pool.
Context {W : Type} (hd : handler W) (ms : minioStore) (loc : string)
  (view : W -> option (string * string)) (ver : string -> string)
  `{!LedgerObject hd ms (key loc) view} `{!ContentVersion view ver}.

(** What a commit that read version [ver (print_ledger (Some m))] may rely on: the
    ledger still has its keys, and the version, unless [won], somebody's commit
    having succeeded. *)
Definition read_version (w : W) (won : Prop) (m : ledger) : Prop :=
  ledger_ok m /\ dom m ⊆ ledger_keys (view w) /\
  (version view w = Some (ver (print_ledger (Some m))) \/ won).

(** [stage c w won n p]: [p] is what is left of the commit [c] when [n] calls at
    most remain, in the world [w]. *)
Inductive stage (c : BackupReplicationSpec * list string) (w : W) (won : Prop)
    : nat -> io (option error) -> Prop :=
| StageStart : stage c w won 4 (commit_of ms c)
| StageOpen : stage c w won 3 (after_open ms loc ≫= commit_with ms loc c.2)
| StageStat m :
    view w <> None -> read_version w won m ->
    stage c w won 2
      (after_stat ms loc (ver (print_ledger (Some m))) ≫= commit_with ms loc c.2)
| StageRead m m' :
    read_version w won m -> ledger_ok m' -> dom m ⊆ dom m' ->
    dom m' ⊆ ledger_keys (view w) ->
    stage c w won 1
      (commit_with ms loc c.2 (Ok (print_ledger (Some m'), ver (print_ledger (Some m)))))
| StageNone :
    (view w = None \/ won) -> stage c w won 2 (commit_with ms loc c.2 (Ok ("", "")))
| StageDone n : won -> stage c w won n (Ret None)
| StageConflict n : won -> stage c w won n (Ret (Some ErrLedgerConflict)).

(** What other commits may do to the world in between. *)
Definition later (w w' : W) (won won' : Prop) : Prop :=
  (won -> won') /\ ledger_keys (view w) ⊆ ledger_keys (view w') /\
  (view w <> None -> view w' <> None) /\ (view w' = view w \/ won').

Lemma read_version_later w w' (won won' : Prop) m :
  later w w' won won' -> read_version w won m -> read_version w' won' m.
Proof.
  intros (Hw & Hk & _ & Hv) (Hm & Hd & Hver). split_and!; [done|set_solver|].
  destruct Hv as [Hv|Hv]; [|by right]. unfold version. rewrite Hv.
  destruct Hver; [by left|right; auto].
Qed.

Lemma stage_later c w w' (won won' : Prop) n p :
  later w w' won won' -> stage c w won n p -> stage c w' won' n p.
Proof.
  intros Hl. pose proof Hl as (Hw & Hk & Hn & Hv).
  destruct 1 as [| |m Hne Hm|m m' Hm Hm' Hd Hd'|Hnone|n Hwon|n Hwon]; try constructor; auto.
  - by eapply read_version_later.
  - eapply read_version_later; eauto.
  - etrans; [exact Hd'|exact Hk].
  - destruct Hv as [Hv|]; [|by right]. rewrite Hv. destruct Hnone; [by left|right; auto].
Qed.

(** The object after a commit's put: the ledger's keys and the commit's. *)
Definition stored (w w' : W) (keys : list string) : Prop :=
  view w' <> None /\ good_view (view w') /\
  ledger_keys (view w') = ledger_keys (view w) ∪ list_to_set keys.

(** The put of the ledger [m'] with the commit's keys, on the condition [cond]. *)
Lemma commit_with_put keys m' etag :
  ledger_ok m' ->
  commit_with ms loc keys (Ok (print_ledger (Some m'), etag)) =
    (r ← PutLedger ms (key loc) (print_ledger (Some (add_keys m' keys))) etag;
     Ret match r with Er e => Some e | Ok _ => None end).
Proof. intros Hm. unfold commit_with. by rewrite parse_print_ledger. Qed.

Lemma put_step w m' keys etag p w' :
  ledger_ok m' -> Forall (fun k => valid_utf8 k = true) keys ->
  io_step hd
    (r ← PutLedger ms (key loc) (print_ledger (Some (add_keys m' keys))) etag;
     Ret match r with Er e => Some e | Ok _ => None end) w = Some (p, w') ->
  if put_matches (if bool_decide (etag = "") then MatchETagExcept "*" else MatchETag etag) (view w)
  then p = Ret None /\ view w' <> None /\ good_view (view w') /\
       ledger_keys (view w') = dom m' ∪ list_to_set keys
  else p = Ret (Some ErrLedgerConflict) /\ view w' = view w.
Proof.
  intros Hm Hk. unfold PutLedger. cbn -[Z.of_nat String.length print_ledger].
  set (opts := {| po_ContentType := _ |}).
  set (body := print_ledger (Some (add_keys m' keys))).
  destruct (lo_put (hd := hd) (s := ms) (key := key loc) (view := view) w body
              (Z.of_nat (String.length body)) opts) as (r & w1 & Hr & Hput).
  rewrite Hr. intros [= <- <-]. cbn [opts po_Match] in Hput.
  destruct (put_matches _ (view w)).
  - destruct Hput as (etag' & -> & Hv). rewrite Hv. split_and!; [done|done| |].
    + exists (add_keys m' keys). split; [by apply add_keys_ok|done].
    + subst body. rewrite ledger_keys_print by by apply add_keys_ok. apply dom_add_keys.
  - destruct Hput as (e & -> & He & Hv). cbn. by rewrite He.
Qed.

(** Of a good ledger object, the version that was read is the present one only
    when the contents are. *)
Lemma present_version w m :
  good_view (view w) -> ledger_ok m ->
  put_matches (MatchETag (ver (print_ledger (Some m)))) (view w) = true ->
  ledger_keys (view w) = dom m.
Proof.
  intros Hg Hm. destruct (view w) as [[body etag]|] eqn:Hv; [|done]. cbn [put_matches].
  intros ->%bool_decide_eq_true. pose proof (cv_ver _ _ _ Hv) as He.
  pose proof (cv_inj (view := view) _ _ He) as <-. by apply ledger_keys_print.
Qed.

Lemma ver_is_put m :
  (if bool_decide (ver (print_ledger (Some m)) = "") then MatchETagExcept "*"
   else MatchETag (ver (print_ledger (Some m)))) = MatchETag (ver (print_ledger (Some m))).
Proof. rewrite bool_decide_eq_false_2; [done|]. apply cv_nonempty. Qed.

(** One call of a commit: it only reads, or fails because somebody succeeded, or
    it succeeds and adds exactly its keys. *)
Lemma own_step c w won n p p' w' :
  valid_commit loc c -> good_view (view w) ->
  stage c w won n p -> io_step hd p w = Some (p', w') ->
  exists n', n = S n' /\
    ((view w' = view w /\ stage c w won n' p' /\ p' <> Ret None) \/
     (p' = Ret None /\ stored w w' c.2)).
Proof.
  intros [Hloc Hkeys] Hg.
  destruct 1 as [| |m Hne Hm|m m' Hm Hm' Hd Hd'|Hnone|n Hwon|n Hwon].
  - rewrite (commit_of_parts ms loc) by done. unfold GetLedger. cbn.
    rewrite (lo_get (hd := hd) (view := view)). intros [= <- <-]. exists 3. split; [done|]. left.
    split_and!; [done|apply StageOpen|done].
  - cbn. destruct (lo_stat (hd := hd) (s := ms) (key := key loc) (view := view) w)
      as (r & Hr & Hv).
    rewrite Hr. intros [= <- <-].
    destruct (view w) as [[body etag]|] eqn:Ew.
    + exists 2. split; [done|]. left. destruct Hv as (o & -> & Ho). split_and!; [done| |done].
      destruct Hg as (m & Hm & ->). cbn. rewrite Ho. rewrite (cv_ver _ _ _ Ew).
      apply (StageStat c w won m); [by rewrite Ew|].
      split_and!; [done|by rewrite Ew, ledger_keys_print|left].
      unfold version. rewrite Ew. cbn. by rewrite (cv_ver _ _ _ Ew).
    + exists 2. split; [done|]. left. destruct Hv as (e & -> & He). split_and!; [done| |].
      * cbn. rewrite He. apply StageNone. by left.
      * cbn. rewrite He. cbn. unfold PutLedger. by cbn.
  - cbn. destruct (view w) as [[body etag]|] eqn:Ew; [|done].
    rewrite (lo_read (hd := hd) (view := view) w body etag) by done. intros [= <- <-].
    exists 1. split; [done|]. left. destruct Hg as (m' & Hm' & ->).
    pose proof Hm as (Hok & Hd & Hv). rewrite Ew, ledger_keys_print in Hd by done.
    split_and!; [done|apply StageRead; try done|].
    + by rewrite Ew, ledger_keys_print.
    + change (commit_with ms loc c.2
        (Ok (print_ledger (Some m'), ver (print_ledger (Some m)))) <> Ret None).
      by rewrite commit_with_put.
  - rewrite commit_with_put by done. destruct Hm as (Hok & Hd0 & Hv).
    intros Hs%put_step; [|done..]. rewrite ver_is_put in Hs. exists 0. split; [done|].
    destruct (put_matches _ (view w)) eqn:Hp.
    + right. destruct Hs as (-> & Hne & Hg' & Hk'). split; [done|]. split_and!; [done..|].
      rewrite Hk'. pose proof (present_version _ _ Hg Hok Hp). set_solver.
    + left. destruct Hs as (-> & Hview). split_and!; [done| |done]. apply StageConflict.
      destruct Hv as [Hv|]; [|done]. unfold version in Hv.
      destruct (view w) as [[body etag]|]; [|done]. injection Hv as ->.
      cbn in Hp. by rewrite bool_decide_eq_true_2 in Hp.
  - change (Ok ("", "")) with (Ok (E := error) ("", "")).
    assert (commit_with ms loc c.2 (Ok ("", "")) =
      (r ← PutLedger ms (key loc) (print_ledger (Some (add_keys ∅ c.2))) "";
       Ret match r with Er e => Some e | Ok _ => None end)) as -> by done.
    intros Hs%put_step; [|by apply map_Forall_empty|done]. exists 1. split; [done|].
    rewrite bool_decide_eq_true_2 in Hs by done.
    destruct (put_matches _ (view w)) eqn:Hp.
    + right. destruct Hs as (-> & Hne & Hg' & Hk'). split; [done|]. split_and!; [done..|].
      rewrite Hk'. destruct (view w) as [[body etag]|]; [|done].
      cbn in Hp. by apply bool_decide_eq_true in Hp as [? _].
    + left. destruct Hs as (-> & Hview). split_and!; [done| |done]. apply StageConflict.
      destruct Hnone as [Hn|]; [|done]. by rewrite Hn in Hp.
  - done.
  - done.
Qed.

(** ** The pool *)

Context (cs : list (BackupReplicationSpec * list string)).

Definition succeeded (ts : list (io (option error))) (i : nat) : Prop :=
  ts !! i = Some (Ret None).

Definition somebody (ts : list (io (option error))) : Prop := exists i, succeeded ts i.

(** The keys of the commits that have succeeded. *)
Definition committed_key (ts : list (io (option error))) (k : string) : Prop :=
  exists i c, cs !! i = Some c /\ succeeded ts i /\ k ∈ c.2.

(** [n] calls at most are still to be made. *)
Record pool_inv (K0 : gset string) (n : nat) (w : W) (ts : list (io (option error))) : Prop := {
  pi_good : good_view (view w);
  pi_keys k : k ∈ ledger_keys (view w) <-> k ∈ K0 \/ committed_key ts k;
  pi_stages : exists ns, n = sum_list ns /\
    Forall2 (fun n cp => stage cp.1 w (somebody ts) n cp.2) ns (zip cs ts);
  pi_length : length ts = length cs;
}.

Lemma somebody_insert ts i m m' :
  ts !! i = Some m -> m <> Ret None -> somebody ts -> somebody (<[i := m']> ts).
Proof.
  intros Hi Hm [j Hj]. exists j. unfold succeeded. rewrite list_lookup_insert_ne; [done|].
  intros ->. unfold succeeded in Hj. congruence.
Qed.

Lemma committed_key_insert ts i c m m' k :
  ts !! i = Some m -> m <> Ret None -> cs !! i = Some c ->
  committed_key (<[i := m']> ts) k <->
  committed_key ts k \/ (m' = Ret None /\ k ∈ c.2).
Proof.
  intros Hi Hm Hc. pose proof (lookup_lt_Some _ _ _ Hi) as Hlt.
  unfold committed_key, succeeded. split.
  - intros (j & c' & Hj & Ht & Hk). destruct (decide (i = j)) as [->|Hne].
    + rewrite list_lookup_insert_eq in Ht by done. injection Ht as ->.
      right. rewrite Hc in Hj. by injection Hj as ->.
    + rewrite list_lookup_insert_ne in Ht by done. left. by exists j, c'.
  - intros [(j & c' & Hj & Ht & Hk)|[-> Hk]].
    + exists j, c'. split_and!; [done| |done]. rewrite list_lookup_insert_ne; [done|congruence].
    + exists i, c. split_and!; [done| |done]. by rewrite list_lookup_insert_eq.
Qed.

Lemma sum_list_insert (ns : list nat) i a b :
  ns !! i = Some a -> (sum_list (<[i := b]> ns) + a = sum_list ns + b)%nat.
Proof.
  revert i. induction ns as [|x ns IH]; intros [|i] Hi; [done..| |].
  - injection Hi as ->. cbn. unfold id. lia.
  - specialize (IH i Hi).
    change (x + sum_list (<[i := b]> ns) + a = x + sum_list ns + b)%nat. lia.
Qed.

Lemma pool_step_inv K0 n w ts w' ts' :
  Forall (valid_commit loc) cs ->
  pool_inv K0 n w ts -> pool_step hd (w, ts) (w', ts') ->
  exists n', n = S n' /\ pool_inv K0 n' w' ts'.
Proof.
  intros Hcs [Hg Hk (ns & -> & Hst) Hlen] Hstep.
  inversion_clear Hstep as [i m m' ? ? ? Hi Hio].
  destruct (lookup_lt_is_Some_2 cs i) as [c Hc].
  { rewrite <- Hlen. by eapply lookup_lt_Some. }
  assert (zip cs ts !! i = Some (c, m)) as Hz by (apply lookup_zip_Some; done).
  destruct (Forall2_lookup_r _ _ _ _ _ Hst Hz) as (a & Ha & Hsta). cbn in Hsta.
  assert (m <> Ret None) as Hm by by intros ->.
  assert (valid_commit loc c) as Hv by by eapply Forall_lookup_1.
  destruct (own_step _ _ _ _ _ _ _ Hv Hg Hsta Hio) as (a' & -> & Hown).
  pose proof (sum_list_insert ns i (S a') a' Ha) as Hsum.
  exists (sum_list (<[i := a']> ns)). split; [lia|].
  assert (later w w' (somebody ts) (somebody (<[i := m']> ts)) /\
          stage c w' (somebody (<[i := m']> ts)) a' m' /\ good_view (view w') /\
          forall k, k ∈ ledger_keys (view w') <->
            k ∈ ledger_keys (view w) \/ (m' = Ret None /\ k ∈ c.2)) as (Hl & Hs' & Hg' & Hk').
  { destruct Hown as [(Hview & Hs' & Hne)|(-> & Hne & Hg' & Hk')].
    - assert (later w w' (somebody ts) (somebody (<[i := m']> ts))) as Hl.
      { split_and!; [by eapply somebody_insert|by rewrite Hview|by rewrite Hview|by left]. }
      split_and!; [done|by eapply stage_later|by rewrite Hview|].
      intros k. rewrite Hview. naive_solver.
    - assert (somebody (<[i := Ret None]> ts)) as Hsome.
      { exists i. unfold succeeded. rewrite list_lookup_insert_eq; [done|].
        by eapply lookup_lt_Some. }
      split_and!; [|by constructor|done|].
      + split_and!; [done|rewrite Hk'; set_solver|done|by right].
      + intros k. rewrite Hk'. set_solver. }
  split.
  - done.
  - intros k. rewrite Hk', Hk, (committed_key_insert ts i c m m' k) by done. naive_solver.
  - exists (<[i := a']> ns). split; [done|].
    assert (zip cs (<[i := m']> ts) = <[i := (c, m')]> (zip cs ts)) as ->.
    { rewrite insert_zip_with. by rewrite (list_insert_id cs). }
    apply Forall2_insert; [|done].
    eapply Forall2_impl; [exact Hst|]. intros b [c' p] Hb. by eapply stage_later.
  - by rewrite length_insert.
Qed.

Definition pool_start : list (io (option error)) := map (commit_of ms) cs.

Lemma pool_start_inv w :
  good_view (view w) -> pool_inv (ledger_keys (view w)) (4 * length cs) w pool_start.
Proof.
  intros Hg. split; [done| | |by unfold pool_start; rewrite length_map].
  - intros k. split; [by left|]. intros [?|(i & c & Hc & Hs & _)]; [done|].
    unfold succeeded, pool_start in Hs. rewrite list_lookup_fmap, Hc in Hs. done.
  - exists (replicate (length cs) 4). split.
    + induction cs as [|? ? IH]; cbn; [done|lia].
    + unfold pool_start. generalize (somebody (map (commit_of ms) cs)). intros won.
      induction cs as [|c cs' IH]; cbn; constructor; [apply StageStart|done].
Qed.

Lemma pool_run_inv K0 k n w ts w' ts' :
  Forall (valid_commit loc) cs ->
  pool_inv K0 n w ts -> nsteps (pool_step hd) k (w, ts) (w', ts') ->
  exists n', n = (k + n')%nat /\ pool_inv K0 n' w' ts'.
Proof.
  intros Hcs. revert n w ts. induction k as [|k IH]; intros n w ts Hinv Hrun.
  - inversion Hrun; subst. by exists n.
  - inversion Hrun as [|? ? [w1 ts1] ? Hstep Hrest]; subst.
    destruct (pool_step_inv _ _ _ _ _ _ Hcs Hinv Hstep) as (n1 & -> & Hinv1).
    destruct (IH _ _ _ Hinv1 Hrest) as (n2 & -> & Hinv2). by exists n2.
Qed.

(** In a pool that satisfies the invariant a program has a call to make, or has
    succeeded, or has failed because of a conflict with one that succeeded. *)
Lemma pool_inv_outcome K0 n w ts i p :
  Forall (valid_commit loc) cs -> pool_inv K0 n w ts -> ts !! i = Some p ->
  is_Some (io_step hd p w) \/ p = Ret None \/
  (p = Ret (Some ErrLedgerConflict) /\ somebody ts).
Proof.
  intros Hcs [_ _ (ns & _ & Hst) Hlen] Hi.
  destruct (lookup_lt_is_Some_2 cs i) as [c Hc].
  { rewrite <- Hlen. by eapply lookup_lt_Some. }
  assert (zip cs ts !! i = Some (c, p)) as Hz by (apply lookup_zip_Some; done).
  destruct (Forall2_lookup_r _ _ _ _ _ Hst Hz) as (a & Ha & Hsta). cbn in Hsta.
  destruct Hsta as [| |m Hne Hm|m m' Hm Hm' Hd Hd'|Hnone|n' Hwon|n' Hwon]; [..|auto|auto];
    left.
  - rewrite (commit_of_parts ms loc) by (eapply Forall_lookup_1 in Hcs; [apply Hcs|done]).
    apply io_step_call.
  - apply io_step_call.
  - apply io_step_call.
  - rewrite commit_with_put by done. apply io_step_call.
  - apply io_step_call.
Qed.

(** C11: commits to one ledger that run at the same time lose nothing, however
    their calls interleave: at any moment the ledger records exactly the keys it
    had at the start and those of the commits that have succeeded so far; and a
    commit that has come to its end has succeeded, or has failed because of a
    conflict with one that did. *)
Theorem concurrent_commits w0 w ts k i p :
  Forall (valid_commit loc) cs -> good_view (view w0) ->
  rtc (pool_step hd) (w0, pool_start) (w, ts) ->
  (k ∈ ledger_keys (view w) <->
     k ∈ ledger_keys (view w0) \/ exists j c, cs !! j = Some c /\ ts !! j = Some (Ret None) /\ k ∈ c.2) /\
  (ts !! i = Some p -> io_step hd p w = None ->
     p = Ret None \/ (p = Ret (Some ErrLedgerConflict) /\ exists j, ts !! j = Some (Ret None))).
Proof.
  intros Hcs Hg [n Hrun]%rtc_nsteps.
  destruct (pool_run_inv _ _ _ _ _ _ _ Hcs (pool_start_inv w0 Hg) Hrun) as (n' & _ & Hinv).
  split; [apply (pi_keys _ _ _ _ Hinv)|]. intros Hi Hstop.
  destruct (pool_inv_outcome _ _ _ _ _ _ Hcs Hinv Hi) as [[? Hs]|H]; [congruence|exact H].
Qed.

(** C12: commits that run at the same time all come to their end, and one of them
    at least succeeds: no interleaving of [n] commits makes more than [4 * n]
    calls, and when none is left to make, every commit has succeeded or failed
    with a conflict, and some commit has succeeded, if there was any. *)
Theorem commits_progress w0 n w ts :
  Forall (valid_commit loc) cs -> good_view (view w0) ->
  nsteps (pool_step hd) n (w0, pool_start) (w, ts) ->
  (n <= 4 * length cs)%nat /\
  ((forall w' ts', ~ pool_step hd (w, ts) (w', ts')) -> cs <> [] ->
     Forall (fun p => p = Ret None \/ p = Ret (Some ErrLedgerConflict)) ts /\
     exists j, ts !! j = Some (Ret None)).
Proof.
  intros Hcs Hg Hrun.
  destruct (pool_run_inv _ _ _ _ _ _ _ Hcs (pool_start_inv w0 Hg) Hrun) as (n' & Hn & Hinv).
  split; [lia|]. intros Hstop Hne.
  assert (forall i p, ts !! i = Some p ->
    p = Ret None \/ (p = Ret (Some ErrLedgerConflict) /\ somebody ts)) as Hall.
  { intros i p Hi. destruct (pool_inv_outcome _ _ _ _ _ _ Hcs Hinv Hi) as [[[p' w'] Hs]|H];
      [|exact H].
    exfalso. by eapply Hstop, PoolStep. }
  split.
  - apply Forall_lookup. intros i p Hi. destruct (Hall i p Hi) as [|[]]; auto.
  - destruct (lookup_lt_is_Some_2 ts 0) as [p Hp].
    { rewrite (pi_length _ _ _ _ Hinv). destruct cs; [done|]. cbn. lia. }
    destruct (Hall 0 p Hp) as [->|[_ Hs]]; [by exists 0|exact Hs].
Qed.

End pool.

(** ** Two commits at the same time *)

Definition memory_view : option string -> option (string * string) :=
  fmap (fun b => (b, version_of b)).

Lemma hex_digit_inj n m :
  (n < 16)%nat -> (m < 16)%nat -> hex_digit n = hex_digit m -> n = m.
Proof.
  intros Hn Hm.
  do 16 (destruct n as [|n]; [do 16 (destruct m as [|m]; [done|]); lia|]). lia.
Qed.

Lemma string_cons_inj a b s t : String a s = String b t -> a = b /\ s = t.
Proof. by intros [= -> ->]. Qed.

Lemma HexEncode_inj s t : HexEncode s = HexEncode t -> s = t.
Proof.
  revert t. induction s as [|a s IH]; intros [|b t]; [done..|].
  intros [H1 [H2 H]%string_cons_inj]%string_cons_inj.
  pose proof (nat_ascii_bounded a). pose proof (nat_ascii_bounded b).
  apply hex_digit_inj in H1; [|apply Nat.Div0.div_lt_upper_bound; lia..].
  apply hex_digit_inj in H2; [|by apply Nat.mod_upper_bound..].
  f_equal; [|by apply IH]. rewrite <- (ascii_nat_embedding a), <- (ascii_nat_embedding b).
  f_equal. rewrite (Nat.div_mod_eq (nat_of_ascii a) 16), (Nat.div_mod_eq (nat_of_ascii b) 16).
  congruence.
Qed.

#[export] Instance memory_version : ContentVersion memory_view version_of.
Proof.
  split.
  - intros [b|] body etag; [|done]. by intros [= -> <-].
  - intros s t [= H]. by apply HexEncode_inj.
  - done.
Qed.

Definition demo_spec : BackupReplicationSpec :=
  {| brs_BackupName := "b1"; brs_PolicyName := "p"; brs_StorageLocation := "default" |}.

Definition demo_commits : list (BackupReplicationSpec * list string) :=
  [(demo_spec, ["kopia/p1"; "kopia/p2"]); (demo_spec, ["kopia/p3"])].

(** Both read that there is no ledger; the second put is refused. *)
Definition demo_run := run_schedule memory_object [0; 1; 0; 1; 0; 1]
  (None, pool_start sample_store demo_commits).

Lemma demo_valid : Forall (valid_commit "default") demo_commits.
Proof. repeat (apply Forall_cons; split); [..|apply Forall_nil]; repeat constructor. Qed.

Lemma demo_steps w ts :
  demo_run = Some (w, ts) ->
  nsteps (pool_step memory_object) 6 (None, pool_start sample_store demo_commits) (w, ts).
Proof. apply (run_schedule_steps memory_object [0; 1; 0; 1; 0; 1]). Qed.

(** What the schedule leaves. *)
Definition demo_ledger : option string := match demo_run with Some (w, _) => w | None => None end.
Definition demo_pool : list (io (option error)) :=
  match demo_run with Some (_, ts) => ts | None => [] end.

Lemma demo_run_eq : demo_run = Some (demo_ledger, demo_pool).
Proof. vm_compute. reflexivity. Qed.

Lemma concurrent_commits_witness :
  ("kopia/p1" ∈ ledger_keys (memory_view demo_ledger) <->
     "kopia/p1" ∈ ledger_keys (memory_view None) \/
     exists j c, demo_commits !! j = Some c /\ demo_pool !! j = Some (Ret None) /\ "kopia/p1" ∈ c.2) /\
  (demo_pool !! 1 = Some (Ret (Some ErrLedgerConflict)) ->
   io_step memory_object (Ret (A := option error) (Some ErrLedgerConflict)) demo_ledger = None ->
     Ret (Some ErrLedgerConflict) = Ret None \/
     (Ret (Some ErrLedgerConflict) = Ret (A := option error) (Some ErrLedgerConflict) /\
      exists j, demo_pool !! j = Some (Ret None))).
Proof.
  apply (concurrent_commits memory_object sample_store "default" memory_view version_of
           demo_commits None demo_ledger demo_pool).
  - exact demo_valid.
  - exact I.
  - eapply rtc_nsteps_2, demo_steps, demo_run_eq.
Defined.

Lemma commits_progress_witness :
  (6 <= 4 * length demo_commits)%nat /\
  ((forall w' ts', ~ pool_step memory_object (demo_ledger, demo_pool) (w', ts')) ->
   demo_commits <> [] ->
     Forall (fun p => p = Ret None \/ p = Ret (Some ErrLedgerConflict)) demo_pool /\
     exists j, demo_pool !! j = Some (Ret None)).
Proof.
  apply (commits_progress memory_object sample_store "default" memory_view version_of
           demo_commits None 6 demo_ledger demo_pool).
  - exact demo_valid.
  - exact I.
  - apply demo_steps, demo_run_eq.
Defined.
