(* ===== verification/Kube.v ===== *)
(** * Kube: what the reconcilers share

    The result of a reconcile, the not-found tests, and [ApiMachinery]: the
    library functions of apimachinery and controller-runtime that the
    reconcilers call, as the operations of a type class.  The laws a property
    relies on are hypotheses of that property. *)

From S2P Require Import Prelude Api Effects.
From stdpp Require Import gmap strings.

(** ** ctrl.Result and errors *)

(** [RequeueAfter] in seconds; 0 is no requeue *)
Record ctrl_Result : Set := { RequeueAfter : Z }.

Definition no_requeue : ctrl_Result := {| RequeueAfter := 0 |}.

(** what a [Reconcile] returns *)
Definition reconciled : Type := ctrl_Result * option error.

Definition done : reconciled := (no_requeue, None).
Definition failed (e : error) : reconciled := (no_requeue, Some e).

Definition requeueAfterTransient : Z := 30.

Definition requeue : reconciled := ({| RequeueAfter := requeueAfterTransient |}, None).

Definition IsNotFound (e : error) : bool :=
  match e with EExt x => ee_not_found x | _ => false end.

Definition IgnoreNotFound (e : error) : option error := if IsNotFound e then None else Some e.

Definition being_deleted (m : ObjectMeta) : bool := bool_decide (om_DeletionTimestamp m <> None).

(** ** Library functions *)

Class ApiMachinery : Type := {
  (* k8s.io/apimachinery/pkg/api/meta *)
  SetStatusCondition : list Condition -> Condition -> list Condition;
  (* LabelSelectorAsSelector followed by Matches *)
  selector_matches : LabelSelector -> gmap string string -> res bool;
  (* controllerutil.SetControllerReference(owner, object, scheme), on the metadata *)
  SetControllerReference : ObjectMeta -> ObjectMeta -> res ObjectMeta;
}.

Definition ready (status : ConditionStatus) (reason : string) (message : text) (generation : Z)
  : Condition :=
  {| cond_Type := "Ready"; cond_Status := status; cond_Reason := reason;
     cond_Message := message; cond_ObservedGeneration := generation |}.

(** ** An implementation of the class, for concrete evaluations

    [SetStatusCondition] replaces the condition of the same type or appends; a
    selector matches when every match label is there; the owner reference is
    appended unless another controller owns the object. *)

Fixpoint set_condition (l : list Condition) (c : Condition) : list Condition :=
  match l with
  | [] => [c]
  | d :: l' => if bool_decide (cond_Type d = cond_Type c) then c :: l' else d :: set_condition l' c
  end.

Definition match_labels (s : LabelSelector) (labels : gmap string string) : res bool :=
  Ok (bool_decide (map_Forall (fun k v => labels !! k = Some v) (ls_MatchLabels s))).

Definition own (owner obj : ObjectMeta) : res ObjectMeta :=
  let ref := {| or_Kind := "Backup"; or_Name := om_Name owner; or_UID := om_UID owner;
                or_Controller := true |} in
  Ok {| om_Name := om_Name obj; om_Namespace := om_Namespace obj; om_UID := om_UID obj;
        om_Generation := om_Generation obj; om_DeletionTimestamp := om_DeletionTimestamp obj;
        om_Labels := om_Labels obj; om_OwnerReferences := [ref] |}.

Definition sample_machinery : ApiMachinery :=
  {| SetStatusCondition := set_condition; selector_matches := match_labels;
     SetControllerReference := own |}.
