(* ===== verification/BackupController.v ===== *)
(** * BackupController: one BackupReplication per completed backup
      ([internal/controller/backup_controller.go]) *)

From S2P Require Import Prelude Api Effects Kube.
From stdpp Require Import gmap strings.

Section BackupReconciler.
Context `{M : ApiMachinery}.

Definition matchesBSL (p : ReplicationPolicy) (bsl : string) : bool :=
  bool_decide (rp_BackupStorageLocations (rp_Spec p) = [])
  || existsb (String.eqb bsl) (rp_BackupStorageLocations (rp_Spec p)).

Definition matchesBackup (p : ReplicationPolicy) (backup : Backup) : res bool :=
  match rp_BackupSelector (rp_Spec p) with
  | None => Ok true
  | Some s => selector_matches s (om_Labels (bk_Meta backup))
  end.

(** the loop of [matchPolicy] over the listed policies *)
Fixpoint first_match (policies : list ReplicationPolicy) (backup : Backup)
  : res (option ReplicationPolicy) :=
  match policies with
  | [] => Ok None
  | p :: policies' =>
      if rp_Paused (rp_Spec p) then first_match policies' backup
      else if negb (matchesBSL p (bk_StorageLocation (bk_Spec backup)))
      then first_match policies' backup
      else
        ok ← matchesBackup p backup;
        if (ok : bool) then Ok (Some p) else first_match policies' backup
  end.

Definition matchPolicy (backup : Backup) : io (res (option ReplicationPolicy)) :=
  r ← perform KListReplicationPolicies;
  Ret (policies ← r; first_match policies backup).

Definition zero_BackupReplicationStatus : BackupReplicationStatus :=
  {| br_Phase := PhaseUnset; br_Conditions := []; br_ObjectCount := 0; br_TotalBytes := 0;
     br_BytesTransferred := 0; br_Bundles := []; br_StartedAt := None; br_CompletedAt := None;
     br_RetryCount := 0; br_ObservedGeneration := 0; br_LastError := [] |}.

(** the object handed to [CreateOrUpdate] *)
Definition new_replication (backup : Backup) : BackupReplication :=
  {| br_Meta := new_meta (om_Name (bk_Meta backup)) (om_Namespace (bk_Meta backup));
     br_Spec := {| brs_BackupName := ""; brs_PolicyName := ""; brs_StorageLocation := "" |};
     br_Status := zero_BackupReplicationStatus |}.

(** its mutate function *)
Definition mutate_replication (backup : Backup) (policy : ReplicationPolicy)
    (br : BackupReplication) : res BackupReplication :=
  meta ← SetControllerReference (bk_Meta backup) (br_Meta br);
  Ok {| br_Meta := meta;
        br_Spec := {| brs_BackupName := om_Name (bk_Meta backup);
                      brs_PolicyName := om_Name (rp_Meta policy);
                      brs_StorageLocation := bk_StorageLocation (bk_Spec backup) |};
        br_Status := br_Status br |}.

Definition Reconcile (req : NamespacedName) : io reconciled :=
  b ← perform (KGetBackup req);
  match b with
  | Er e => Ret (no_requeue, IgnoreNotFound e)
  | Ok backup =>
      if bool_decide (bk_Phase (bk_Status backup) <> BackupPhaseCompleted) then Ret done
      else
        p ← matchPolicy backup;
        match p with
        | Er e => Ret (failed e)
        | Ok None => Ret done
        | Ok (Some policy) =>
            r ← perform (KCreateOrUpdateBackupReplication (new_replication backup)
                           (mutate_replication backup policy));
            Ret match r with Er e => failed e | Ok _ => done end
        end
  end.
End BackupReconciler.

(** ** Which policy a backup gets *)

Section Policies.
Context `{M : ApiMachinery}.

(** what a policy's selector says of a backup's labels; no selector selects all *)
Definition selector_says (b : bool) (backup : Backup) (p : ReplicationPolicy) : Prop :=
  match rp_BackupSelector (rp_Spec p) with
  | None => b = true
  | Some s => selector_matches s (om_Labels (bk_Meta backup)) = Ok b
  end.

(** a policy takes a backup: not paused, its location list is empty or names the
    backup's location, and it has no selector or one that matches the labels *)
Definition takes (backup : Backup) (p : ReplicationPolicy) : Prop :=
  rp_Paused (rp_Spec p) = false /\
  (rp_BackupStorageLocations (rp_Spec p) = [] \/
   bk_StorageLocation (bk_Spec backup) ∈ rp_BackupStorageLocations (rp_Spec p)) /\
  selector_says true backup p.

(** a policy is passed over *)
Definition passes (backup : Backup) (p : ReplicationPolicy) : Prop :=
  rp_Paused (rp_Spec p) = true \/
  (rp_BackupStorageLocations (rp_Spec p) <> [] /\
   bk_StorageLocation (bk_Spec backup) ∉ rp_BackupStorageLocations (rp_Spec p)) \/
  selector_says false backup p.

(** the policy is the first, of those listed, that takes the backup *)
Definition chosen (policies : list ReplicationPolicy) (backup : Backup) (p : ReplicationPolicy)
  : Prop :=
  exists before after, policies = before ++ p :: after /\
    Forall (passes backup) before /\ takes backup p.

Lemma selector_says_iff b backup p : selector_says b backup p <-> matchesBackup p backup = Ok b.
Proof.
  unfold selector_says, matchesBackup. destruct (rp_BackupSelector _); [done|].
  split; [by intros ->|by intros [= <-]].
Qed.

Lemma matchesBSL_iff p bsl :
  matchesBSL p bsl = true <->
  rp_BackupStorageLocations (rp_Spec p) = [] \/ bsl ∈ rp_BackupStorageLocations (rp_Spec p).
Proof.
  unfold matchesBSL. rewrite orb_true_iff, bool_decide_eq_true, existsb_exists.
  setoid_rewrite String.eqb_eq. setoid_rewrite <- list_elem_of_In. naive_solver.
Qed.

Lemma takes_or_passes backup p :
  takes backup p \/ passes backup p \/ exists e, matchesBackup p backup = Er e.
Proof.
  unfold takes, passes. rewrite !selector_says_iff. destruct (rp_Paused (rp_Spec p)); [naive_solver|].
  destruct (matchesBSL p (bk_StorageLocation (bk_Spec backup))) eqn:Hb.
  - apply matchesBSL_iff in Hb. destruct (matchesBackup p backup) as [[]|e]; naive_solver.
  - assert (~ (rp_BackupStorageLocations (rp_Spec p) = [] \/
      bk_StorageLocation (bk_Spec backup) ∈ rp_BackupStorageLocations (rp_Spec p))) as Hnb.
    { rewrite <- matchesBSL_iff. congruence. }
    naive_solver.
Qed.

Lemma first_match_takes backup p ps :
  takes backup p -> first_match (p :: ps) backup = Ok (Some p).
Proof. intros (Hp & Hb%matchesBSL_iff & Hs%selector_says_iff). cbn. by rewrite Hp, Hb, Hs. Qed.

Lemma first_match_passes backup p ps :
  passes backup p -> first_match (p :: ps) backup = first_match ps backup.
Proof.
  intros Hp. cbn. destruct (rp_Paused (rp_Spec p)) eqn:Hpaused; [done|].
  destruct (matchesBSL p (bk_StorageLocation (bk_Spec backup))) eqn:Hb; cbn; [|done].
  apply matchesBSL_iff in Hb. destruct Hp as [?|[?|Hs%selector_says_iff]]; [congruence|naive_solver|].
  by rewrite Hs.
Qed.

Lemma takes_not_passes backup p : takes backup p -> passes backup p -> False.
Proof.
  unfold takes, passes. rewrite !selector_says_iff.
  intros (? & ? & ?) [?|[?|?]]; [congruence|naive_solver|congruence].
Qed.

Lemma first_match_error backup p ps e :
  ~ passes backup p -> matchesBackup p backup = Er e -> first_match (p :: ps) backup = Er e.
Proof.
  unfold passes. rewrite selector_says_iff. intros Hnp He. cbn. destruct (rp_Paused (rp_Spec p)) eqn:Hpaused; [naive_solver|].
  destruct (matchesBSL p (bk_StorageLocation (bk_Spec backup))) eqn:Hb; cbn; [by rewrite He|].
  exfalso. apply Hnp. right. left. apply not_true_iff_false in Hb. rewrite matchesBSL_iff in Hb.
  naive_solver.
Qed.

Lemma passes_dec backup p : passes backup p \/ ~ passes backup p.
Proof.
  unfold passes. rewrite selector_says_iff. destruct (rp_Paused (rp_Spec p)), (matchesBackup p backup) as [[]|],
    (decide (rp_BackupStorageLocations (rp_Spec p) = [])),
    (decide (bk_StorageLocation (bk_Spec backup) ∈ rp_BackupStorageLocations (rp_Spec p)));
    naive_solver.
Qed.

Lemma first_match_sound policies backup :
  match first_match policies backup with
  | Ok (Some p) => chosen policies backup p
  | Ok None => Forall (passes backup) policies
  | Er e => exists before p after, policies = before ++ p :: after /\
              Forall (passes backup) before /\ ~ passes backup p /\ matchesBackup p backup = Er e
  end.
Proof.
  induction policies as [|p ps IH]; [constructor|].
  destruct (passes_dec backup p) as [Hp|Hnp].
  - rewrite first_match_passes by done.
    destruct (first_match ps backup) as [[q|]|e]; [|by constructor|];
      [destruct IH as (b & a & -> & ? & ?); exists (p :: b), a
      |destruct IH as (b & q & a & -> & ? & ? & ?); exists (p :: b), q, a];
      (split_and!; [done|by constructor|..]; done).
  - destruct (takes_or_passes backup p) as [Ht|[?|[e He]]]; [|done|].
    + rewrite first_match_takes by done. by exists [], ps.
    + rewrite (first_match_error _ _ _ e) by done. by exists [], p, ps.
Qed.

Lemma first_match_chosen policies p backup :
  chosen policies backup p -> first_match policies backup = Ok (Some p).
Proof.
  intros (before & after & -> & Hb & Ht). induction Hb as [|q before Hq _ IH]; cbn [app].
  - by apply first_match_takes.
  - rewrite first_match_passes by done. by apply IH.
Qed.

(** The policy of a backup is the first, in the API's order, that is not
    paused, covers its storage location and selects its labels, every policy
    before it being passed over; there is none exactly when all are passed over;
    and a selector error stops the search only at a policy that is neither. *)
Lemma first_match_spec policies backup :
  (forall p, first_match policies backup = Ok (Some p) <->
     chosen policies backup p) /\
  (first_match policies backup = Ok None <-> Forall (passes backup) policies) /\
  (forall e, first_match policies backup = Er e -> exists before p after,
     policies = before ++ p :: after /\ Forall (passes backup) before /\
     ~ passes backup p /\ matchesBackup p backup = Er e).
Proof.
  pose proof (first_match_sound policies backup) as Hs. split_and!.
  - intros p. split; [intros E; by rewrite E in Hs|].
    apply first_match_chosen.
  - split; [intros E; by rewrite E in Hs|]. intros Hall. clear Hs.
    induction Hall as [|p ps Hp _ IH]; [done|]. by rewrite first_match_passes.
  - intros e E. by rewrite E in Hs.
Qed.

(** *** The reconciler *)

#[local] Arguments safe : simpl never.

(** what is asked of the API server for a backup and its policy *)
Definition ensures (backup : Backup) (policy : ReplicationPolicy) (c : call) : Prop :=
  exists obj mutate, c = KCreateOrUpdateBackupReplication obj mutate /\
    om_Name (br_Meta obj) = om_Name (bk_Meta backup) /\
    om_Namespace (br_Meta obj) = om_Namespace (bk_Meta backup) /\
    forall br br', mutate br = Ok br' ->
      br_Spec br' = {| brs_BackupName := om_Name (bk_Meta backup);
                       brs_PolicyName := om_Name (rp_Meta policy);
                       brs_StorageLocation := bk_StorageLocation (bk_Spec backup) |} /\
      SetControllerReference (bk_Meta backup) (br_Meta br) = Ok (br_Meta br') /\
      br_Status br' = br_Status br.

Lemma mutate_ensures backup policy :
  ensures backup policy
    (KCreateOrUpdateBackupReplication (new_replication backup) (mutate_replication backup policy)).
Proof.
  do 2 eexists. split_and!; [done..|]. intros br br'. unfold mutate_replication.
  destruct (SetControllerReference _ _) as [meta|e]; cbn; [|done]. by intros [= <-].
Qed.

Lemma completes_Reconcile req : completes (Reconcile req).
Proof. unfold Reconcile, matchPolicy. completes_steps. Qed.

(** a replication is asked for only on this evidence *)
Definition creates (req : NamespacedName) (h : history) (c : call) : Prop :=
  exists backup policies policy,
    Ev (KGetBackup req) (Ok backup) ∈ h /\
    bk_Phase (bk_Status backup) = BackupPhaseCompleted /\
    Ev KListReplicationPolicies (Ok policies) ∈ h /\
    chosen policies backup policy /\ ensures backup policy c.

(** nothing is left to do: the backup is gone, not completed or passed over by all
    policies, or its replication was accepted *)
Definition backup_settled (req : NamespacedName) (h : history) : Prop :=
  (exists e, Ev (KGetBackup req) (Er e) ∈ h /\ IsNotFound e = true) \/
  exists backup, Ev (KGetBackup req) (Ok backup) ∈ h /\
    (bk_Phase (bk_Status backup) <> BackupPhaseCompleted \/
     exists policies, Ev KListReplicationPolicies (Ok policies) ∈ h /\
       (Forall (passes backup) policies \/
        exists policy obj mutate op, chosen policies backup policy /\
          ensures backup policy (KCreateOrUpdateBackupReplication obj mutate) /\
          Ev (KCreateOrUpdateBackupReplication obj mutate) (Ok op) ∈ h)).

Lemma Reconcile_creates req h :
  safe (fun h' c => c = KGetBackup req \/ c = KListReplicationPolicies \/ creates req h' c)
    (Reconcile req) h (fun h' r => r.1 = no_requeue /\ (r.2 = None -> backup_settled req h')).
Proof.
  unfold Reconcile, matchPolicy. apply safe_call; [by left|].
  intros [backup|e]; cbn [io_bind].
  2:{ apply safe_ret. split; [done|]. unfold IgnoreNotFound. cbn.
      destruct (IsNotFound e) eqn:He; [|done]. intros _. left. exists e. split; [constructor|done]. }
  case_bool_decide as Hph.
  { apply safe_ret. split; [done|]. intros _. right. exists backup. split; [constructor|by left]. }
  cbn [mbind io_mbind io_bind perform]. apply safe_call; [by right; left|].
  set (h1 := _ :: h). assert (Ev (KGetBackup req) (Ok backup) ∈ h1) as Hb by constructor.
  intros [policies|e]; cbn [io_bind mbind result_bind]; [|by apply safe_ret].
  set (h2 := _ :: h1). assert (Ev KListReplicationPolicies (Ok policies) ∈ h2) as Hl by constructor.
  pose proof (first_match_sound policies backup) as Hf.
  destruct (first_match policies backup) as [[policy|]|e]; [| |by apply safe_ret].
  - apply safe_call.
    + right. right. exists backup, policies, policy.
      split; [by constructor|]. split; [by destruct (bk_Phase _); try done; destruct Hph|].
      split; [done|]. split; [exact Hf|apply mutate_ensures].
    + intros [op|e]; apply safe_ret; [|done]. split; [done|]. intros _. right. exists backup.
      split; [by constructor; constructor|]. right. exists policies. split; [by constructor|].
      right. exists policy. do 2 eexists. exists op.
      split; [exact Hf|]. split; [apply mutate_ensures|constructor].
  - apply safe_ret. split; [done|]. intros _. right. exists backup. split; [by constructor|].
    right. exists policies. split; [done|by left].
Qed.

(** C35: a replication is created, or updated, only for a backup that the API
    server just reported Completed and only under the first of the policies listed
    that takes it ([chosen]: not paused, of the backup's storage location or of any,
    and without a selector or with one that matches the backup's labels, where all
    policies before it are passed over); the object has the backup's name and
    namespace, and the mutation sets exactly the backup, policy and location of the
    spec and the controller reference.  Nothing else is written.  The pass always
    comes to a result, and one without an error leaves nothing undone
    ([backup_settled]). *)
Theorem Reconcile_ensures req h :
  completes (Reconcile req) /\
  safe (fun h' c =>
      c = KGetBackup req \/ c = KListReplicationPolicies \/
      exists backup policies policy,
        Ev (KGetBackup req) (Ok backup) ∈ h' /\
        bk_Phase (bk_Status backup) = BackupPhaseCompleted /\
        Ev KListReplicationPolicies (Ok policies) ∈ h' /\
        chosen policies backup policy /\ ensures backup policy c)
    (Reconcile req) h
    (fun h' r => r.1 = no_requeue /\ (r.2 = None -> backup_settled req h')).
Proof. split; [apply completes_Reconcile|apply Reconcile_creates]. Qed.
End Policies.

(** ** A backup and three policies

    The first is paused, the second has another location, the third selects the
    backup by a label, the fourth would take it too. *)

Definition some_policy (name : string) (paused : bool) (locations : list string)
    (selector : option LabelSelector) : ReplicationPolicy :=
  {| rp_Meta := new_meta name "";
     rp_Spec := {| rp_Paused := paused; rp_BackupStorageLocations := locations;
       rp_BackupStorageLocationSelector := None; rp_BackupSelector := selector;
       rp_Target := {| ts_EndpointID := "e1"; ts_NodeID := ""; ts_Addresses := [];
                       ts_RelayURL := "" |};
       rp_Priority := "Bulk"; rp_BundleByteLimit := 0; rp_BundleFileLimit := 0;
       rp_MaxConcurrentBundles := 0; rp_StaleAfter := None;
       rp_Peat := {| ps_Address := ""; ps_OutboxRoot := ""; ps_OutboxPath := "" |};
       rp_ObjectStore := {| oss_Endpoint := ""; oss_Region := ""; oss_CABundleSecretRef := None;
         oss_InsecureSkipTLSVerify := false; oss_CredentialsSecretRef := None |} |};
     rp_Status := {| rps_Conditions := []; rps_BackupsReplicated := 0; rps_BytesReplicated := 0;
                     rps_ObservedGeneration := 0 |} |}.

Definition some_policies : list ReplicationPolicy :=
  [some_policy "paused" true [] None; some_policy "elsewhere" false ["archive"] None;
   some_policy "gold" false ["default"]
     (Some {| ls_MatchLabels := {[ "tier" := "gold" ]}; ls_MatchExpressions := [] |});
   some_policy "all" false [] None].

Definition gold_backup : Backup :=
  {| bk_Meta := {| om_Name := "b1"; om_Namespace := "velero"; om_UID := "u1"; om_Generation := 1;
       om_DeletionTimestamp := None; om_Labels := {[ "tier" := "gold" ]}; om_OwnerReferences := [] |};
     bk_Spec := {| bk_StorageLocation := "default"; bk_IncludedNamespaces := [];
                   bk_DefaultVolumesToFsBackup := None; bk_SnapshotVolumes := None |};
     bk_Status := {| bk_Phase := BackupPhaseCompleted; bk_StartTimestamp := None;
                     bk_CompletionTimestamp := None; bk_Expiration := None |} |}.

Definition backup_server : handler unit := fun c w =>
  match c as c return resp c * unit with
  | KGetBackup _ => (Ok gold_backup, w)
  | KListReplicationPolicies => (Ok some_policies, w)
  | KCreateOrUpdateBackupReplication _ _ => (Ok OperationResultCreated, w)
  | c => (refuse c, w)
  end.

Definition gold_request : NamespacedName := {| nn_Namespace := "velero"; nn_Name := "b1" |}.

(** the policy that the object is given *)
Definition policy_given (x : event) : option string :=
  match ev_call x with
  | KCreateOrUpdateBackupReplication obj mutate =>
      match mutate obj with Ok br => Some (brs_PolicyName (br_Spec br)) | Er _ => None end
  | _ => None
  end.

Lemma Reconcile_ensures_witness : exists h,
  run backup_server (Reconcile (M := sample_machinery) gold_request) tt [] = Some (done, tt, h) /\
  omap policy_given h = ["gold"] /\ backup_settled (M := sample_machinery) gold_request h.
Proof.
  destruct (Reconcile_ensures (M := sample_machinery) gold_request []) as [_ Hs].
  destruct (run backup_server (Reconcile (M := sample_machinery) gold_request) tt [])
    as [[[r w] h]|] eqn:E; [|vm_compute in E; discriminate E].
  destruct (run_safe _ _ _ _ _ _ _ _ _ Hs E) as [Hr Hd]. exists h. destruct w.
  assert (r = done) as -> by (vm_compute in E; injection E as <- _; reflexivity).
  split; [reflexivity|]. split; [|exact (Hd eq_refl)].
  vm_compute in E. injection E as <-. vm_compute. reflexivity.
Defined.
