(* ===== verification/ReplicationController.v ===== *)
(** * ReplicationController: the per-backup replication state machine
      ([internal/controller/backupreplication_controller.go])

    [br] is threaded through as the in-memory object; a successful status update
    replaces it by the API server's answer.  [fuel] bounds the poll rounds of
    each [WaitBundle]. *)

From S2P Require Import Prelude GoStrings GoPath GoJson GoTime Api Effects Peat.
From S2P Require Import Batching Manifest Objstore Creds Staging Ledger Kube.
From stdpp Require Import gmap strings.

(** ** Changes to the object *)

Definition with_status (br : BackupReplication) (s : BackupReplicationStatus) : BackupReplication :=
  {| br_Meta := br_Meta br; br_Spec := br_Spec br; br_Status := s |}.

Definition setPhase (br : BackupReplication) (p : ReplicationPhase) : BackupReplication :=
  let s := br_Status br in
  with_status br
    {| br_Phase := p; br_Conditions := br_Conditions s; br_ObjectCount := br_ObjectCount s;
       br_TotalBytes := br_TotalBytes s; br_BytesTransferred := br_BytesTransferred s;
       br_Bundles := br_Bundles s; br_StartedAt := br_StartedAt s;
       br_CompletedAt := br_CompletedAt s; br_RetryCount := br_RetryCount s;
       br_ObservedGeneration := om_Generation (br_Meta br); br_LastError := br_LastError s |}.

Definition set_times (br : BackupReplication) (started completed : option Z) : BackupReplication :=
  let s := br_Status br in
  with_status br
    {| br_Phase := br_Phase s; br_Conditions := br_Conditions s;
       br_ObjectCount := br_ObjectCount s; br_TotalBytes := br_TotalBytes s;
       br_BytesTransferred := br_BytesTransferred s; br_Bundles := br_Bundles s;
       br_StartedAt := started; br_CompletedAt := completed; br_RetryCount := br_RetryCount s;
       br_ObservedGeneration := br_ObservedGeneration s; br_LastError := br_LastError s |}.

Definition set_counts (br : BackupReplication) (objects bytes : Z) (bundles : list BundleStatus)
  : BackupReplication :=
  let s := br_Status br in
  with_status br
    {| br_Phase := br_Phase s; br_Conditions := br_Conditions s; br_ObjectCount := objects;
       br_TotalBytes := bytes; br_BytesTransferred := br_BytesTransferred s;
       br_Bundles := bundles; br_StartedAt := br_StartedAt s;
       br_CompletedAt := br_CompletedAt s; br_RetryCount := br_RetryCount s;
       br_ObservedGeneration := br_ObservedGeneration s; br_LastError := br_LastError s |}.

Definition set_error (br : BackupReplication) (msg : text) (retries : Z) : BackupReplication :=
  let s := br_Status br in
  with_status br
    {| br_Phase := br_Phase s; br_Conditions := br_Conditions s;
       br_ObjectCount := br_ObjectCount s; br_TotalBytes := br_TotalBytes s;
       br_BytesTransferred := br_BytesTransferred s; br_Bundles := br_Bundles s;
       br_StartedAt := br_StartedAt s; br_CompletedAt := br_CompletedAt s;
       br_RetryCount := retries; br_ObservedGeneration := br_ObservedGeneration s;
       br_LastError := msg |}.

(** ** Small functions *)

Definition mapPriority (p : string) : Priority :=
  if bool_decide (p = "Low") then PriorityLow
  else if bool_decide (p = "Routine") then PriorityRoutine
  else if bool_decide (p = "Priority") then PriorityPriority
  else if bool_decide (p = "Critical") then PriorityCritical
  else PriorityBulk.

(** the loop of [summarize]: bytes, ids, allCompleted, anyFailed *)
Definition summarize_step (st : Z * list string * bool * bool) (p : Progress)
  : Z * list string * bool * bool :=
  let '(bytes, ids, allCompleted, anyFailed) := st in
  (int64 (bytes + int64 (pg_BytesTransferred p)), ids ++ [pg_DistributionID p],
   allCompleted && bool_decide (pg_Status p = StatusCompleted),
   anyFailed || bool_decide (pg_Status p = StatusFailed \/ pg_Status p = StatusCancelled)).

Definition summarize (progs : list Progress) : BundlePhase * Z * list string :=
  let '(bytes, ids, allCompleted, anyFailed) :=
    fold_left summarize_step progs (0%Z, [], true, false) in
  if (anyFailed : bool) then (BundleFailed, bytes, ids)
  else if (allCompleted : bool) && bool_decide (progs <> [])
  then (BundleCompleted, bytes, ids)
  else (BundleInProgress, bytes, ids).

(** ** Object-store access *)

Definition getSecretKey (ns name key : string) : io (res string) :=
  s ← perform (KGetSecret {| nn_Namespace := ns; nn_Name := name |});
  Ret match s with
      | Er e => Er (errorf [FStr "get secret "; FStr ns; FStr "/"; FStr name; FStr ": "] e)
      | Ok data =>
          match data !! key with
          | None => Er (EText [FStr "secret "; FStr ns; FStr "/"; FStr name;
                               FStr " missing key "; FQuo key])
          | Some v => Ok v
          end
      end.

(** the configuration before credentials: the BSL's, then the policy's overrides *)
Definition base_config (osl : ObjectStorageLocation) (config : option (gmap string string))
    (os : ObjectStoreSpec) : Config :=
  let c k := default "" (m ← config; m !! k) in
  let override o d := if bool_decide (o <> "") then o else d in
  {| cfg_Endpoint := override (oss_Endpoint os) (c "s3Url");
     cfg_Region := override (oss_Region os) (c "region");
     cfg_Bucket := osl_Bucket osl; cfg_Prefix := osl_Prefix osl;
     cfg_ForcePathStyle := bool_decide (c "s3ForcePathStyle" = "true");
     cfg_AccessKeyID := ""; cfg_SecretAccessKey := ""; cfg_SessionToken := "";
     cfg_CABundle := ""; cfg_InsecureTLS := oss_InsecureSkipTLSVerify os |}.

Definition set_keys (cfg : Config) (k : aws_keys) : Config :=
  {| cfg_Endpoint := cfg_Endpoint cfg; cfg_Region := cfg_Region cfg;
     cfg_Bucket := cfg_Bucket cfg; cfg_Prefix := cfg_Prefix cfg;
     cfg_ForcePathStyle := cfg_ForcePathStyle cfg; cfg_AccessKeyID := ak_AccessKey k;
     cfg_SecretAccessKey := ak_SecretKey k; cfg_SessionToken := ak_SessionToken k;
     cfg_CABundle := cfg_CABundle cfg; cfg_InsecureTLS := cfg_InsecureTLS cfg |}.

(** the credentials file: the policy's secret wins, else the BSL's, else none *)
Definition credential_bytes (ns : string) (policyRef : option SecretKeyRef)
    (bslRef : option SecretKeySelector) : io (res string) :=
  let bsl := match bslRef with
             | Some c => getSecretKey ns (sks_Name c) (sks_Key c)
             | None => Ret (Ok "")
             end in
  match policyRef with
  | Some ref =>
      if bool_decide (skr_Name ref <> "") then
        getSecretKey (if bool_decide (skr_Namespace ref = "") then ns else skr_Namespace ref)
          (skr_Name ref) (skr_Key ref)
      else bsl
  | None => bsl
  end.

Definition resolveStore (br : BackupReplication) (policy : ReplicationPolicy) : io (res Config) :=
  let ns := om_Namespace (br_Meta br) in
  let location := brs_StorageLocation (br_Spec br) in
  r ← perform (KGetBackupStorageLocation {| nn_Namespace := ns; nn_Name := location |});
  match r with
  | Er e => Ret (Er (errorf [FStr "get BSL "; FQuo location; FStr ": "] e))
  | Ok bsl =>
      let spec := bsl_Spec bsl in
      let name := om_Name (bsl_Meta bsl) in
      match bsl_ObjectStorage spec with
      | None => Ret (Er (EText [FStr "BSL "; FQuo name; FStr " has no objectStorage"]))
      | Some osl =>
          let os := rp_ObjectStore (rp_Spec policy) in
          let cfg := base_config osl (bsl_Config spec) os in
          b ← credential_bytes ns (oss_CredentialsSecretRef os) (bsl_Credential spec);
          Ret match b with
              | Er e => Er e
              | Ok credBytes =>
                  if bool_decide (credBytes = "") then Ok cfg
                  else
                    let profile := default "" (m ← bsl_Config spec; m !! "profile") in
                    match ParseAWSCredentials credBytes profile with
                    | Er e => Er (errorf [FStr "BSL "; FQuo name; FStr " credentials: "] e)
                    | Ok keys => Ok (set_keys cfg keys)
                    end
              end
      end
  end.

(** ** Staging and sending *)

(** the staging loop: the specs and the running uint64 total *)
Fixpoint stage_all (stager : Stager) (store : Store) (keys : list string)
    (specs : list FileSpec) (total : Z) : io (res (list FileSpec * Z)) :=
  match keys with
  | [] => Ret (Ok (specs, total))
  | k :: keys' =>
      r ← StageObject stager store k;
      match r with
      | Er serr => Ret (Er serr)
      | Ok fs => stage_all stager store keys' (specs ++ [fs]) (uint64 (total + fs_Size fs))
      end
  end.

Definition manifest_entry (f : FileSpec) (h : AttachmentHandle) : FileEntry :=
  {| fe_Key := fs_RelativePath f; fe_Basename := Base (fs_RelativePath f);
     fe_SHA256 := HexEncode (fs_SHA256 f); fe_Size := int64 (fs_Size f);
     fe_DistributionID := ah_DistributionID h; fe_BlobToken := ah_BlobToken h |}.

(** the entries of a bundle's handles; an index past the files is skipped *)
Definition bundle_entries (files : list FileSpec) (handles : list AttachmentHandle)
  : list FileEntry :=
  omap (fun h => f ← files !! Z.to_nat (ah_FileIndex h); Some (manifest_entry f h)) handles.

Definition bundle_id (name : string) (i : Z) : string := name +:+ "-" +:+ fmt_04d i.

Record send_state : Set := {
  ss_Statuses : list BundleStatus;
  ss_Entries : list FileEntry;
  ss_AllDone : bool;
}.

Definition empty_send_state : send_state :=
  {| ss_Statuses := []; ss_Entries := []; ss_AllDone := true |}.

Definition bundle_status (bundleID : string) (b : Batch) (progs : list Progress) : BundleStatus :=
  let '(phase, bytes, ids) := summarize progs in
  {| bs_BundleID := bundleID; bs_FileCount := int32 (Z.of_nat (length (b_Files b)));
     bs_Bytes := int64 (b_Bytes b); bs_Phase := phase; bs_DistributionIDs := ids;
     bs_BytesTransferred := bytes |}.

Definition bundle_done (st : send_state) (b : Batch) (handles : list AttachmentHandle)
    (bs : BundleStatus) : send_state :=
  {| ss_Statuses := ss_Statuses st ++ [bs];
     ss_Entries := ss_Entries st ++ bundle_entries (b_Files b) handles;
     ss_AllDone := ss_AllDone st && bool_decide (bs_Phase bs = BundleCompleted) |}.

(** the loop over the batches; a failure carries its condition reason *)
Fixpoint send_all (fuel : nat) (name : string) (prio : Priority) (i : Z) (batches : list Batch)
    (pc : connectClient) (st : send_state)
  : io (result (string * error) (send_state * connectClient)) :=
  match batches with
  | [] => Ret (Ok (st, pc))
  | b :: batches' =>
      let bundleID := bundle_id name i in
      '(r, pc) ← SendAttachments pc bundleID (b_Files b)
                   {| sc_AllNodes := true; sc_NodeIDs := [] |} prio;
      match r with
      | Er e => Ret (Er ("SendFailed", e))
      | Ok sent =>
          '(progs, e) ← WaitBundle fuel pc bundleID;
          match e with
          | Some e => Ret (Er ("WaitFailed", e))
          | None =>
              send_all fuel name prio (i + 1) batches' pc
                (bundle_done st b (sr_Handles sent) (bundle_status bundleID b progs))
          end
      end
  end.

Definition replication_manifest (spec : BackupReplicationSpec) (bslPrefix : string)
    (entries : list FileEntry) (total completedAt : Z) : Manifest :=
  {| mf_SchemaVersion := SchemaVersion; mf_BackupName := brs_BackupName spec;
     mf_StorageLocation := brs_StorageLocation spec; mf_BSLPrefix := bslPrefix;
     mf_ObjectCount := Z.of_nat (length entries); mf_TotalBytes := total;
     mf_CompletedAt := RFC3339_UTC completedAt; mf_Complete := true; mf_Files := entries |}.

Definition emitManifest (pc : connectClient) (br : BackupReplication) (bslPrefix : string)
    (entries : list FileEntry) (total completedAt : Z) : io (option error) :=
  match Marshal (replication_manifest (br_Spec br) bslPrefix entries total completedAt) with
  | Er e => Ret (Some (errorf [FStr "marshal manifest: "] e))
  | Ok data =>
      let docID := DocID (brs_StorageLocation (br_Spec br)) (brs_BackupName (br_Spec br)) in
      e ← PutDocument pc Collection docID data;
      Ret match e with
          | Some e => Some (errorf [FStr "put manifest "; FQuo docID; FStr ": "] e)
          | None => None
          end
  end.

(** ** The reconciler *)

Section Reconciler.
Context `{M : ApiMachinery} (fuel : nat).

Definition set_ready (br : BackupReplication) (status : ConditionStatus) (reason : string)
    (message : text) : BackupReplication :=
  let s := br_Status br in
  with_status br
    {| br_Phase := br_Phase s;
       br_Conditions := SetStatusCondition (br_Conditions s)
                          (ready status reason message (om_Generation (br_Meta br)));
       br_ObjectCount := br_ObjectCount s; br_TotalBytes := br_TotalBytes s;
       br_BytesTransferred := br_BytesTransferred s; br_Bundles := br_Bundles s;
       br_StartedAt := br_StartedAt s; br_CompletedAt := br_CompletedAt s;
       br_RetryCount := br_RetryCount s; br_ObservedGeneration := br_ObservedGeneration s;
       br_LastError := br_LastError s |}.

Definition update (br : BackupReplication) (after : ctrl_Result) : io reconciled :=
  r ← perform (KStatusUpdateBackupReplication br);
  Ret match r with Er e => failed e | Ok _ => (after, None) end.

(** [return result, r.Status().Update(ctx, br)]: the result stays with an error *)
Definition return_update (br : BackupReplication) (result : ctrl_Result) : io reconciled :=
  r ← perform (KStatusUpdateBackupReplication br);
  Ret (result, match r with Er e => Some e | Ok _ => None end).

Definition degrade (br : BackupReplication) (reason : string) (msg : text) : io reconciled :=
  let br := set_error br msg (br_RetryCount (br_Status br)) in
  update (set_ready br ConditionFalse reason msg) requeue.1.

Definition transientErr (br : BackupReplication) (reason : string) (cause : error)
  : io reconciled :=
  let br := set_error br (Error cause) (int32 (br_RetryCount (br_Status br) + 1)) in
  update (set_ready br ConditionFalse reason (Error cause)) requeue.1.

(** step 6: all bundles completed *)
Definition finish (br : BackupReplication) (store : Store) (pc : connectClient)
    (bslPrefix : string) (keys : list string) (entries : list FileEntry) (total : Z)
  : io reconciled :=
  now ← perform TimeNow;
  let br := set_times br (br_StartedAt (br_Status br)) (Some now) in
  e ← emitManifest pc br bslPrefix entries (int64 total) now;
  match e with
  | Some e => transientErr br "ManifestEmitFailed" e
  | None =>
      e ← commitLedger store (br_Spec br) keys;
      match e with
      | Some e => transientErr br "LedgerCommitFailed" e
      | None =>
          return_update
            (set_ready (setPhase br PhaseReplicated) ConditionTrue "Replicated"
               [FStr "all bundles transmitted to destination peer"]) no_requeue
      end
  end.

(** step 5: hand the bundles to peat *)
Definition transmit (br : BackupReplication) (spec : ReplicationPolicySpec) (store : Store)
    (bslPrefix : string) (keys : list string) (batches : list Batch) (total : Z)
  : io reconciled :=
  let pc := Peat.New (ps_Address (rp_Peat spec)) in
  let target := rp_Target spec in
  e ← EnsurePeer pc (ts_EndpointID target) (ts_Addresses target) (ts_RelayURL target);
  match e with
  | Some e => transientErr br "PeerConnectFailed" e
  | None =>
      r ← send_all fuel (om_Name (br_Meta br)) (mapPriority (rp_Priority spec)) 0 batches pc
            empty_send_state;
      match r with
      | Er (reason, e) => transientErr br reason e
      | Ok (st, pc) =>
          let br := set_counts br (br_ObjectCount (br_Status br)) (br_TotalBytes (br_Status br))
                      (ss_Statuses st) in
          if ss_AllDone st then finish br store pc bslPrefix keys (ss_Entries st) total
          else return_update br requeue.1
      end
  end.

(** steps 3 and 4: stage and batch *)
Definition stage_and_send (br : BackupReplication) (spec : ReplicationPolicySpec)
    (store : Store) (bslPrefix : string) (keys : list string) : io reconciled :=
  let stager := Staging.New (ps_OutboxRoot (rp_Peat spec)) (ps_OutboxPath (rp_Peat spec)) in
  r ← stage_all stager store keys [] 0;
  match r with
  | Er serr => transientErr br "StageFailed" serr
  | Ok (specs, total) =>
      let batches := Pack specs (rp_BundleFileLimit spec) (uint64 (rp_BundleByteLimit spec)) in
      let br := set_counts br (Z.of_nat (length specs)) (int64 total)
                  (br_Bundles (br_Status br)) in
      u ← perform (KStatusUpdateBackupReplication (setPhase br PhaseTransmitting));
      match u with
      | Er e => Ret (failed e)
      | Ok br => transmit br spec store bslPrefix keys batches total
      end
  end.

Definition start (br : BackupReplication) : io BackupReplication :=
  match br_StartedAt (br_Status br) with
  | Some _ => Ret br
  | None =>
      now ← perform TimeNow;
      Ret (set_times br (Some now) (br_CompletedAt (br_Status br)))
  end.

Definition replicate (br : BackupReplication) (policy : ReplicationPolicy) : io reconciled :=
  br ← start br;
  let br := setPhase br PhaseStaging in
  cfg ← resolveStore br policy;
  match cfg with
  | Er e => degrade br "ResolveStoreFailed" (Error e)
  | Ok cfg =>
      store ← Objstore.New cfg;
      match store with
      | Er e => degrade br "StoreInitFailed" (Error e)
      | Ok ms =>
          let store := as_Store ms in
          keys ← enumerateDelta store (br_Spec br);
          match keys with
          | Er e => transientErr br "EnumerateFailed" e
          | Ok [] =>
              return_update
                (set_ready (setPhase br PhaseSkipped) ConditionFalse "NothingToReplicate"
                   [FStr "no replicable objects found for backup (snapshot-only?)"]) no_requeue
          | Ok keys => stage_and_send br (rp_Spec policy) store (cfg_Prefix cfg) keys
          end
      end
  end.

Definition terminal_phase (p : ReplicationPhase) : bool :=
  match p with PhaseReplicated | PhaseFailed | PhaseSkipped => true | _ => false end.

Definition Reconcile (req : NamespacedName) : io reconciled :=
  b ← perform (KGetBackupReplication req);
  match b with
  | Er e => Ret (no_requeue, IgnoreNotFound e)
  | Ok br =>
      if being_deleted (br_Meta br) then Ret done
      else if terminal_phase (br_Phase (br_Status br)) then Ret done
      else
        let name := brs_PolicyName (br_Spec br) in
        p ← perform (KGetReplicationPolicy {| nn_Namespace := ""; nn_Name := name |});
        match p with
        | Er e =>
            if IsNotFound e then
              degrade br "PolicyNotFound"
                [FStr "ReplicationPolicy "; FQuo name; FStr " not found"]
            else Ret (failed e)
        | Ok policy =>
            if rp_Paused (rp_Spec policy) then Ret requeue else replicate br policy
        end
  end.
End Reconciler.

(** ** Bundles *)

(** the sum of the progresses' bytes, unwrapped *)
Definition sum_bytes (progs : list Progress) : Z :=
  foldr (fun p n => pg_BytesTransferred p + n)%Z 0%Z progs.

Lemma summarize_fold progs b ids c f :
  fold_left summarize_step progs (int64 b, ids, c, f) =
    (int64 (b + sum_bytes progs), ids ++ map pg_DistributionID progs,
     c && forallb (fun p => bool_decide (pg_Status p = StatusCompleted)) progs,
     f || existsb (fun p => bool_decide (pg_Status p = StatusFailed \/ pg_Status p = StatusCancelled))
            progs).
Proof.
  revert b ids c f. induction progs as [|p progs IH]; intros b ids c f; cbn.
  - by rewrite Z.add_0_r, app_nil_r, andb_true_r, orb_false_r.
  - rewrite int64_add_l, int64_add_r, IH. by rewrite <- Z.add_assoc, <- app_assoc, andb_assoc, orb_assoc.
Qed.

Lemma summarize_facts progs :
  exists phase, summarize progs = (phase, int64 (sum_bytes progs), map pg_DistributionID progs) /\
    (phase = BundleFailed <->
       exists p, p ∈ progs /\ (pg_Status p = StatusFailed \/ pg_Status p = StatusCancelled)) /\
    (phase = BundleCompleted <->
       progs <> [] /\ forall p, p ∈ progs -> pg_Status p = StatusCompleted) /\
    phase <> BundlePending /\ phase <> BundleCancelled.
Proof.
  unfold summarize. change 0%Z with (int64 0). rewrite summarize_fold. cbn [app andb orb].
  rewrite Z.add_0_l.
  destruct (existsb _ progs) eqn:Hf.
  - apply existsb_exists in Hf as (p & Hin & Hp). apply bool_decide_eq_true in Hp.
    rewrite <- list_elem_of_In in Hin. eexists. split; [done|].
    split_and!; [split; [by exists p|done]| |done|done].
    split; [done|]. intros [_ Hall]. rewrite (Hall p Hin) in Hp. naive_solver.
  - assert (forall p, p ∈ progs -> ~ (pg_Status p = StatusFailed \/ pg_Status p = StatusCancelled))
      as Hnf.
    { intros p Hin Hp. enough (existsb (fun p => bool_decide (pg_Status p = StatusFailed \/
        pg_Status p = StatusCancelled)) progs = true) by congruence.
      apply existsb_exists. exists p. rewrite <- list_elem_of_In. by rewrite bool_decide_eq_true. }
    destruct (forallb _ progs) eqn:Hc; cbn [andb].
    + rewrite forallb_forall in Hc. setoid_rewrite <- list_elem_of_In in Hc.
      setoid_rewrite bool_decide_eq_true in Hc.
      case_bool_decide; (eexists; split; [done|]); split_and!; naive_solver.
    + eexists. split; [done|]. split_and!; [split; [done|naive_solver]| |done|done].
      split; [done|]. intros [_ Hall].
      enough (forallb (fun p => bool_decide (pg_Status p = StatusCompleted)) progs = true)
        by congruence.
      apply forallb_forall. intros p Hp. apply bool_decide_eq_true, Hall.
      by apply list_elem_of_In.
Qed.

(** A bundle's summary lists its distributions in order and the int64 sum of
    their bytes; it is Failed when any distribution failed or was cancelled,
    Completed exactly when there are some and all completed, and in progress
    otherwise, so a bundle of no known distribution never counts as done. *)
Lemma summarize_spec progs :
  exists phase, summarize progs = (phase, int64 (sum_bytes progs), map pg_DistributionID progs) /\
    (phase = BundleFailed <->
       exists p, p ∈ progs /\ (pg_Status p = StatusFailed \/ pg_Status p = StatusCancelled)) /\
    (phase = BundleCompleted <->
       progs <> [] /\ forall p, p ∈ progs -> pg_Status p = StatusCompleted) /\
    phase <> BundlePending /\ phase <> BundleCancelled.
Proof. apply summarize_facts. Qed.

Lemma parse_uint_zeros n s : parse_uint_loop (zeros n +:+ s) 0 = parse_uint_loop s 0.
Proof. induction n as [|n IH]; [done|]. cbn [zeros]. rewrite sapp_cons. exact IH. Qed.

(** Bundle ids are distinct: two bundles of one backup have the same id only
    when they are the same bundle, past 9999 bundles too, where the padding ends. *)
Lemma bundle_id_inj name i j :
  (0 <= i <= max_uint64)%Z -> (0 <= j <= max_uint64)%Z ->
  bundle_id name i = bundle_id name j -> i = j.
Proof.
  intros Hi Hj H. apply sapp_inj_l, sapp_inj_l in H. unfold fmt_04d in H.
  apply (f_equal (fun s => parse_uint_loop s 0)) in H. rewrite !parse_uint_zeros in H.
  pose proof (ParseUint_FormatUint i Hi) as Ei. pose proof (ParseUint_FormatUint j Hj) as Ej.
  unfold ParseUint in Ei, Ej.
  destruct (FormatUint_spec i) as (_ & Hni & _); [lia|].
  destruct (FormatUint_spec j) as (_ & Hnj & _); [lia|].
  rewrite bool_decide_eq_false_2 in Ei, Ej by done. congruence.
Qed.

Lemma bundle_id_inj_example :
  bundle_id "b1" 12345 = "b1-12345" /\ bundle_id "b1" 7 = "b1-0007" /\
  (bundle_id "b1" 12345 = bundle_id "b1" 12345 -> 12345%Z = 12345%Z).
Proof.
  split_and!; [reflexivity|reflexivity|].
  apply (bundle_id_inj "b1" 12345 12345); unfold max_uint64; lia.
Defined.

Lemma bundle_entries_in_order files handles :
  map ah_FileIndex handles = map Z.of_nat (seq 0 (length files)) ->
  bundle_entries files handles = zip_with manifest_entry files handles.
Proof.
  enough (forall pre rest handles,
    map ah_FileIndex handles = map Z.of_nat (seq (length pre) (length rest)) ->
    bundle_entries (pre ++ rest) handles = zip_with manifest_entry rest handles) as H
    by apply (H []).
  clear files handles. intros pre rest. revert pre.
  induction rest as [|f rest IH]; intros pre [|h handles]; cbn; [done..|].
  intros [= Hi Hr]. rewrite Hi, Nat2Z.id, lookup_app_r, Nat.sub_diag by lia. cbn. f_equal.
  replace (pre ++ f :: rest) with ((pre ++ [f]) ++ rest) by by rewrite <- app_assoc.
  apply IH. rewrite length_app. cbn. by rewrite Nat.add_comm.
Qed.

(** The manifest entries of a bundle are faithful: each is one of the bundle's
    files, under its key and basename, with the hex of its digest, its size and
    the distribution and token of a handle that names it; and when the sidecar
    returns one handle per file in request order, every file has its entry, in
    order. *)
Lemma bundle_entries_faithful files handles :
  (forall e, e ∈ bundle_entries files handles -> exists f h,
     h ∈ handles /\ files !! Z.to_nat (ah_FileIndex h) = Some f /\ e = manifest_entry f h) /\
  (map ah_FileIndex handles = map Z.of_nat (seq 0 (length files)) ->
     bundle_entries files handles = zip_with manifest_entry files handles).
Proof.
  split.
  - intros e He. apply list_elem_of_omap in He as (h & Hh & He).
    destruct (files !! Z.to_nat (ah_FileIndex h)) as [f|] eqn:Hf; [|done]. cbn in He.
    exists f, h. by injection He as ->.
  - apply bundle_entries_in_order.
Qed.

(** ** What a reconcile pass does, whatever the outside answers *)

(** calls that neither read nor write a replication, nor write the source store *)
Definition quiet (c : call) : Prop :=
  match c with
  | KGetBackupReplication _ | KStatusUpdateBackupReplication _
  | KCreateOrUpdateBackupReplication _ _ | MinioPutObject _ _ _ _ _ _ => False
  | _ => True
  end.

Lemma getSecretKey_quiet ns name key : only quiet (getSecretKey ns name key).
Proof. unfold getSecretKey. only_steps. Qed.

Lemma resolveStore_quiet br policy : only quiet (resolveStore br policy).
Proof.
  unfold resolveStore, credential_bytes. only_steps; apply getSecretKey_quiet.
Qed.

Lemma New_quiet cfg : only quiet (Objstore.New cfg).
Proof. unfold Objstore.New, tls_options. only_steps. Qed.

Lemma store_read_quiet s c : store_read s c -> quiet c.
Proof. by destruct c. Qed.

Lemma enumerateDelta_quiet ms spec : only quiet (enumerateDelta (as_Store ms) spec).
Proof.
  eapply only_safe; [intros h; eexists; apply enumerateDelta_safe|]. intros h c.
  apply store_read_quiet.
Qed.

Lemma StageObject_quiet s ms key : only quiet (StageObject s (as_Store ms) key).
Proof.
  destruct (safeRelPath key) as [rel|e] eqn:E.
  - eapply only_safe; [intros h; eexists; by apply stage_spec|]. by intros h [].
  - unfold StageObject. rewrite E. apply only_ret.
Qed.

Lemma stage_all_quiet s ms keys specs total :
  only quiet (stage_all s (as_Store ms) keys specs total).
Proof.
  revert specs total. induction keys as [|k keys IH]; intros specs total; cbn [stage_all];
    only_steps; [apply StageObject_quiet|apply IH].
Qed.

Lemma rpc_nil_quiet c method req : only quiet (rpc_nil c method req).
Proof. unfold rpc_nil, post. only_steps. Qed.

Lemma SendAttachments_quiet c id files scope prio :
  only quiet (SendAttachments c id files scope prio).
Proof. unfold SendAttachments, rpc, post. only_steps. Qed.

Lemma WaitBundle_quiet fuel c id : only quiet (WaitBundle fuel c id).
Proof.
  eapply only_safe; [intros h; eexists; apply WaitBundle_safe|]. by intros h call [->|(d & _ & ->)].
Qed.

Lemma send_all_quiet fuel name prio i batches pc st :
  only quiet (send_all fuel name prio i batches pc st).
Proof.
  revert i pc st. induction batches as [|b batches IH]; intros i pc st; cbn [send_all]; only_steps;
    [apply SendAttachments_quiet|apply WaitBundle_quiet|apply IH].
Qed.

Lemma emitManifest_quiet pc br prefix entries total t :
  only quiet (emitManifest pc br prefix entries total t).
Proof. unfold emitManifest. only_steps. apply rpc_nil_quiet. Qed.

(** *** What is known when a bundle, or the manifest, is done *)

Section Known.
#[local] Arguments safe : simpl never.

(** the sidecar at [c]'s address reported every distribution of the bundle
    completed *)
Definition bundle_confirmed (c : connectClient) (h : history) (bs : BundleStatus) : Prop :=
  bs_Phase bs = BundleCompleted /\ bs_DistributionIDs bs <> [] /\
  forall id, id ∈ bs_DistributionIDs bs -> exists p,
    pg_DistributionID p = id /\ pg_Status p = StatusCompleted /\ reported c h p.

Lemma reported_base c c' h p : cc_baseURL c' = cc_baseURL c -> reported c h p -> reported c' h p.
Proof. unfold reported, distribution_call. by intros ->. Qed.

Lemma bundle_confirmed_mono c h h' bs :
  extends h h' -> bundle_confirmed c h bs -> bundle_confirmed c h' bs.
Proof.
  intros Hh (Hp & Hne & H). split_and!; [done..|]. intros id Hid.
  destruct (H id Hid) as (p & ? & ? & ?). exists p. split_and!; [done..|by eapply reported_mono].
Qed.

Lemma bundle_status_confirmed c h id b progs :
  Forall (reported c h) progs -> bs_Phase (bundle_status id b progs) = BundleCompleted ->
  bundle_confirmed c h (bundle_status id b progs).
Proof.
  unfold bundle_status. destruct (summarize_facts progs) as (phase & -> & _ & Hc & _). cbn.
  intros Hrep ->. destruct Hc as [Hc _]. destruct (Hc eq_refl) as [Hne Hall].
  split_and!; [done|by destruct progs|].
  intros id' (p & -> & Hp)%list_elem_of_fmap. exists p. split_and!; [done|by apply Hall|].
  rewrite Forall_forall in Hrep. by apply Hrep.
Qed.

Lemma bundle_status_ids id b progs :
  bs_BundleID (bundle_status id b progs) = id /\
  bs_DistributionIDs (bundle_status id b progs) = map pg_DistributionID progs.
Proof. unfold bundle_status. by destruct (summarize_facts progs) as (phase & -> & _). Qed.

Section Bundles.
Context (c : connectClient) (name : string) (prio : Priority).

(** the [i]-th bundle: the sidecar accepted its files, the status is of that bundle
    and confirmed, and the entries are those of the handles it answered *)
Definition bundle_shipped (h : history) (i : Z) (b : Batch) (bs : BundleStatus)
    (entries : list FileEntry) : Prop :=
  exists sent,
    bundle_sent c h (bundle_id name i) (b_Files b) {| sc_AllNodes := true; sc_NodeIDs := [] |}
      prio sent /\
    entries = bundle_entries (b_Files b) (sr_Handles sent) /\
    bs_BundleID bs = bundle_id name i /\
    (sr_BundleID sent = bundle_id name i ->
     bs_DistributionIDs bs = map ah_DistributionID (sr_Handles sent)) /\
    bundle_confirmed c h bs.

Inductive bundles_shipped (h : history)
  : Z -> list Batch -> list BundleStatus -> list FileEntry -> Prop :=
| shipped_nil i : bundles_shipped h i [] [] []
| shipped_cons i b bs entries batches statuses entries' :
    bundle_shipped h i b bs entries -> bundles_shipped h (i + 1) batches statuses entries' ->
    bundles_shipped h i (b :: batches) (bs :: statuses) (entries ++ entries').

Lemma bundle_shipped_mono h h' i b bs entries :
  extends h h' -> bundle_shipped h i b bs entries -> bundle_shipped h' i b bs entries.
Proof.
  intros Hh (sent & H & ? & ? & ? & Hc). exists sent.
  split_and!; [by eapply bundle_sent_mono|done..|by eapply bundle_confirmed_mono].
Qed.

Lemma bundles_shipped_mono h h' i batches statuses entries :
  extends h h' -> bundles_shipped h i batches statuses entries ->
  bundles_shipped h' i batches statuses entries.
Proof. intros Hh. induction 1; constructor; [by eapply bundle_shipped_mono|done]. Qed.

Lemma send_all_shipped fuel batches : forall h i pc st,
  cc_baseURL pc = cc_baseURL c ->
  safe any_call (send_all fuel name prio i batches pc st) h (fun h' r => forall st' pc',
    r = Ok (st', pc') -> cc_baseURL pc' = cc_baseURL c /\
    (ss_AllDone st' = true -> ss_AllDone st = true /\ exists statuses entries,
       ss_Statuses st' = ss_Statuses st ++ statuses /\
       ss_Entries st' = ss_Entries st ++ entries /\
       bundles_shipped h' i batches statuses entries)).
Proof.
  induction batches as [|b batches IH]; intros h i pc st Hpc; cbn [send_all].
  { apply safe_ret. intros st' pc' [= <- <-]. split; [done|]. intros Hd. split; [done|].
    exists [], []. rewrite !app_nil_r. split_and!; [done..|constructor]. }
  eapply safe_then_extends; [apply SendAttachments_sent|]. intros h1 [r pc1] [Hpc1 Hsent] Hh1.
  cbn in Hpc1, Hsent. destruct r as [sent|e]; [|by apply safe_ret].
  destruct (Hsent sent eq_refl) as [Hs ->]. clear Hsent.
  eapply safe_then_extends; [eapply safe_guard; [apply WaitBundle_safe|done]|].
  intros h2 [progs e] [Hw _] Hh2. destruct e as [e|]; [by apply safe_ret|].
  destruct Hw as (Hids & _ & Hrep). cbn [fst] in Hids, Hrep.
  set (bs := bundle_status (bundle_id name i) b progs).
  eapply safe_post; [apply safe_extends, IH; by rewrite <- Hpc|].
  intros h3 r [Hr Hh3] st' pc' Hst'. destruct (Hr st' pc' Hst') as [Hpc' Hdone].
  split; [done|]. intros Hd. destruct (Hdone Hd) as (Hd' & statuses & entries & -> & -> & Hall).
  cbn in Hd'. apply andb_true_iff in Hd' as [Hd' Hph%bool_decide_eq_true]. split; [done|].
  exists (bs :: statuses), (bundle_entries (b_Files b) (sr_Handles sent) ++ entries). cbn.
  rewrite <- !app_assoc. split_and!; [done..|]. constructor; [|done].
  destruct (bundle_status_ids (bundle_id name i) b progs) as [Hbid Hdids].
  apply (bundle_shipped_mono h2); [done|]. exists sent. split_and!; [|done|done| |].
  - unfold bundle_sent in *. rewrite <- Hpc. by eapply bundle_sent_mono.
  - intros E. unfold bs. rewrite Hdids, Hids. cbn. by rewrite <- E, lookup_insert_eq.
  - apply bundle_status_confirmed; [|done]. eapply Forall_impl; [exact Hrep|].
    intros p. by apply reported_base.
Qed.
End Bundles.

(** every key was staged, and the total is that of the files *)
Lemma stage_all_staged s ms keys : forall specs total h, uint64 total = total ->
  safe any_call (stage_all s (as_Store ms) keys specs total) h (fun h' r => forall specs' total',
    r = Ok (specs', total') -> exists new, specs' = specs ++ new /\
      Forall2 (staged_file s ms h') keys new /\ total' = uint64 (total + total_size new)).
Proof.
  induction keys as [|k keys IH]; intros specs total h Ht; cbn [stage_all].
  { apply safe_ret. intros ? ? [= <- <-]. exists []. rewrite app_nil_r. cbn.
    by rewrite Z.add_0_r, Ht. }
  eapply safe_then; [apply StageObject_staged|]. intros h1 [f|e] Hf; [|by apply safe_ret].
  specialize (Hf f eq_refl).
  eapply safe_post; [apply safe_extends, IH; apply uint64_small, uint64_range|].
  intros h2 r [Hr Hh2] specs' total' E. destruct (Hr specs' total' E) as (new & -> & Hnew & ->).
  exists (f :: new). rewrite <- app_assoc. split; [done|]. split.
  - constructor; [by eapply staged_file_mono|done].
  - cbn. rewrite uint64_add_l. f_equal. lia.
Qed.

(** the sidecar accepted a manifest under its backup's document id *)
Definition manifest_published (c : connectClient) (m : Manifest) (h : history) : Prop :=
  exists status body,
    Ev (HttpPost (cc_baseURL c +:+ svcPath +:+ "PutDocument")
          (print (put_document_request Collection (DocID (mf_StorageLocation m) (mf_BackupName m))
                    (print (manifest_json m))))) (HttpReply status body) ∈ h /\ success status.

Lemma manifest_published_mono c m h h' :
  extends h h' -> manifest_published c m h -> manifest_published c m h'.
Proof. unfold manifest_published. naive_solver eauto using extends_in. Qed.

Lemma emitManifest_published c pc br prefix entries total t h :
  cc_baseURL pc = cc_baseURL c ->
  safe any_call (emitManifest pc br prefix entries total t) h (fun h' e => e = None ->
    manifest_published c (replication_manifest (br_Spec br) prefix entries total t) h').
Proof.
  intros Hpc. unfold emitManifest, Marshal, PutDocument, rpc_nil, post.
  cbn [io_bind mbind io_mbind perform]. apply safe_call; [done|]. intros r. apply safe_ret.
  intros He. destruct r as [e|e|status body]; [done..|]. case_bool_decide as Hs; [done|].
  unfold manifest_published. rewrite <- Hpc. do 2 eexists. split; [constructor|].
  unfold success. lia.
Qed.
End Known.

(** *** The whole pass *)

Section ReconcileSafety.
#[local] Arguments safe : simpl never.
Context `{M : ApiMachinery} (fuel : nat).

(** the API server answered an object in this phase *)
Definition answered (h : history) (p : ReplicationPhase) : Prop :=
  exists br, br_Phase (br_Status br) = p /\
    ((exists n, Ev (KGetBackupReplication n) (Ok br) ∈ h) \/
     (exists br', Ev (KStatusUpdateBackupReplication br') (Ok br) ∈ h)).

(** the policy's sidecar, outbox and bundles *)
Definition sidecar (p : ReplicationPolicySpec) : connectClient := Peat.New (ps_Address (rp_Peat p)).

Definition outbox (p : ReplicationPolicySpec) : Stager :=
  Staging.New (ps_OutboxRoot (rp_Peat p)) (ps_OutboxPath (rp_Peat p)).

Definition bundles (p : ReplicationPolicySpec) (specs : list FileSpec) : list Batch :=
  Pack specs (rp_BundleFileLimit p) (uint64 (rp_BundleByteLimit p)).

(** the object [br] and its policy were read, and the keys are its delta *)
Definition enumerated (h : history) (br : BackupReplication) (p : ReplicationPolicySpec)
    (ms : minioStore) (keys : list string) : Prop :=
  (exists n, Ev (KGetBackupReplication n) (Ok br) ∈ h) /\
  (exists policy, rp_Spec policy = p /\
     Ev (KGetReplicationPolicy {| nn_Namespace := ""; nn_Name := brs_PolicyName (br_Spec br) |})
       (Ok policy) ∈ h) /\
  delta ms h (br_Spec br) keys /\ keys <> [].

(** every key of the delta was staged, and then the status update accepted *)
Definition staged (h : history) (p : ReplicationPolicySpec) (ms : minioStore)
    (keys : list string) (specs : list FileSpec) (br0 br : BackupReplication) : Prop :=
  exists br1, enumerated h br0 p ms keys /\
    Forall2 (staged_file (outbox p) ms h) keys specs /\ br_Spec br1 = br_Spec br0 /\
    Ev (KStatusUpdateBackupReplication br1) (Ok br) ∈ h.

(** the backup's storage location was read, and has the prefix *)
Definition located (h : history) (spec : BackupReplicationSpec) (prefix : string) : Prop :=
  exists ns bsl osl,
    Ev (KGetBackupStorageLocation {| nn_Namespace := ns; nn_Name := brs_StorageLocation spec |})
      (Ok bsl) ∈ h /\
    bsl_ObjectStorage (bsl_Spec bsl) = Some osl /\ osl_Prefix osl = prefix.

(** all that must have happened before a backup is called replicated *)
Definition shipped (h : history) (br : BackupReplication) : Prop :=
  exists p ms keys specs br0 br1 entries prefix t,
    staged h p ms keys specs br0 br1 /\ br_Spec br = br_Spec br1 /\ br_Meta br = br_Meta br1 /\
    located h (br_Spec br0) prefix /\
    bundles_shipped (sidecar p) (om_Name (br_Meta br)) (mapPriority (rp_Priority p)) h 0
      (bundles p specs) (br_Bundles (br_Status br)) entries /\
    manifest_published (sidecar p)
      (replication_manifest (br_Spec br) prefix entries (int64 (uint64 (total_size specs))) t) h /\
    committed ms (ledgerKey (brs_StorageLocation (br_Spec br))) keys h.

(** the writes a pass may make after a history *)
Definition reconcile_call (h : history) (c : call) : Prop :=
  match c with
  | KStatusUpdateBackupReplication br =>
      match br_Phase (br_Status br) with
      | PhaseStaging | PhaseTransmitting | PhaseSkipped => True
      | PhaseReplicated => shipped h br \/ answered h PhaseReplicated
      | p => answered h p
      end
  | MinioPutObject _ _ _ _ _ _ =>
      (* the ledger, and only after the manifest *)
      exists c' ms m keys, manifest_published c' m h /\
        commit_put ms (ledgerKey (mf_StorageLocation m)) keys h c
  | _ => True
  end.

Lemma quiet_reconcile h c : quiet c -> reconcile_call h c.
Proof. by destruct c. Qed.

Lemma only_reconcile {A B} (m : io A) (f : A -> io B) h Q :
  only quiet m -> (forall h' a, extends h h' -> safe reconcile_call (f a) h' Q) ->
  safe reconcile_call (m ≫= f) h Q.
Proof.
  intros Hm Hf. eapply safe_then_extends.
  - eapply safe_guard; [apply Hm|]. apply quiet_reconcile.
  - intros h' a _ Hh. by apply Hf.
Qed.

Lemma answered_mono h h' p : extends h h' -> answered h p -> answered h' p.
Proof. unfold answered. naive_solver eauto using extends_in. Qed.

(** the phase of the object in hand may be written back *)
Definition writable (h : history) (p : ReplicationPhase) : Prop :=
  p = PhaseStaging \/ p = PhaseTransmitting \/ p = PhaseSkipped \/ answered h p.

Lemma writable_mono h h' p : extends h h' -> writable h p -> writable h' p.
Proof. unfold writable. naive_solver eauto using answered_mono. Qed.

Lemma update_safe br r h (K : res BackupReplication -> reconciled) :
  (writable h (br_Phase (br_Status br)) \/
   (br_Phase (br_Status br) = PhaseReplicated /\ shipped h br)) ->
  r = perform (KStatusUpdateBackupReplication br) ->
  safe reconcile_call (x ← r; Ret (K x)) h (fun _ _ => True).
Proof.
  intros Hw ->. apply safe_call; [|done]. cbn.
  destruct Hw as [[->|[->|[->|Ha]]]|[-> Hs]]; [done..| |by left].
  destruct (br_Phase (br_Status br)); try done. by right.
Qed.

Lemma degrade_safe br reason msg h :
  writable h (br_Phase (br_Status br)) ->
  safe reconcile_call (degrade br reason msg) h (fun _ _ => True).
Proof. intros Hw. eapply update_safe; [|done]. by left. Qed.

Lemma transientErr_safe br reason e h :
  writable h (br_Phase (br_Status br)) ->
  safe reconcile_call (transientErr br reason e) h (fun _ _ => True).
Proof. intros Hw. eapply update_safe; [|done]. by left. Qed.

Lemma return_update_safe br result h :
  (writable h (br_Phase (br_Status br)) \/
   (br_Phase (br_Status br) = PhaseReplicated /\ shipped h br)) ->
  safe reconcile_call (return_update br result) h (fun _ _ => True).
Proof. intros Hw. by eapply update_safe. Qed.

Lemma enumerated_mono h h' br p ms keys :
  extends h h' -> enumerated h br p ms keys -> enumerated h' br p ms keys.
Proof.
  intros Hh ([n Hn] & (policy & ? & Hp) & Hd & ?).
  split_and!; [exists n|exists policy|by eapply delta_mono|done]; eauto using extends_in.
Qed.

Lemma staged_files_mono s ms h h' keys specs :
  extends h h' -> Forall2 (staged_file s ms h) keys specs -> Forall2 (staged_file s ms h') keys specs.
Proof. intros Hh H. eapply Forall2_impl; [exact H|]. intros k f. by apply staged_file_mono. Qed.

Lemma staged_mono h h' p ms keys specs br0 br :
  extends h h' -> staged h p ms keys specs br0 br -> staged h' p ms keys specs br0 br.
Proof.
  intros Hh (br1 & He & Hf & Hs & Hev). exists br1.
  split_and!; [by eapply enumerated_mono|by eapply staged_files_mono|done|by eapply extends_in].
Qed.

Lemma located_mono h h' spec prefix : extends h h' -> located h spec prefix -> located h' spec prefix.
Proof. unfold located. naive_solver eauto using extends_in. Qed.

Lemma resolveStore_located br policy h :
  safe any_call (resolveStore br policy) h (fun h' r => forall cfg, r = Ok cfg ->
    located h' (br_Spec br) (cfg_Prefix cfg)).
Proof.
  unfold resolveStore. apply safe_call; [done|]. intros [bsl|e]; [|by apply safe_ret].
  cbn [io_bind]. destruct (bsl_ObjectStorage (bsl_Spec bsl)) as [osl|] eqn:Ho; [|by apply safe_ret].
  eapply safe_then_extends; [apply safe_grows|]. intros h1 b _ Hh1. apply safe_ret. intros cfg Hc.
  apply (located_mono (Ev (KGetBackupStorageLocation {| nn_Namespace := om_Namespace (br_Meta br);
    nn_Name := brs_StorageLocation (br_Spec br) |}) (Ok bsl) :: h)); [done|].
  exists (om_Namespace (br_Meta br)), bsl, osl. split; [constructor|]. split; [done|].
  destruct b as [b|e]; [|done]. case_bool_decide; [by injection Hc as <-|].
  destruct (ParseAWSCredentials _ _); [by injection Hc as <-|done].
Qed.

Section Finishing.
Context (p : ReplicationPolicySpec) (ms : minioStore) (keys : list string) (specs : list FileSpec)
  (br0 br1 : BackupReplication) (prefix : string).

Lemma finish_safe br entries pc h :
  located h (br_Spec br0) prefix -> staged h p ms keys specs br0 br1 -> br_Spec br = br_Spec br1 -> br_Meta br = br_Meta br1 ->
  cc_baseURL pc = cc_baseURL (sidecar p) -> writable h (br_Phase (br_Status br)) ->
  bundles_shipped (sidecar p) (om_Name (br_Meta br)) (mapPriority (rp_Priority p)) h 0
    (bundles p specs) (br_Bundles (br_Status br)) entries ->
  safe reconcile_call
    (finish br (as_Store ms) pc prefix keys entries (uint64 (total_size specs))) h (fun _ _ => True).
Proof.
  intros Hloc Hst Hspec Hmeta Hpc Hw Hb. unfold finish. apply safe_call; [done|]. intros now.
  cbn [io_bind]. set (h1 := _ :: h). assert (extends h h1) as Hh1 by apply extends_cons.
  set (br2 := set_times _ _ _).
  assert (forall h2, extends h1 h2 -> writable h2 (br_Phase (br_Status br2))) as Hw2.
  { intros h2 Hh2. apply (writable_mono h); [by etrans|done]. }
  assert (keys <> []) as Hkeys by by destruct Hst as (? & (_ & _ & _ & ?) & _).
  eapply safe_then_extends.
  { eapply safe_guard; [apply only_post; [apply emitManifest_quiet|]|apply quiet_reconcile].
    by apply (emitManifest_published (sidecar p)). }
  intros h2 [e|] He Hh2; [by apply transientErr_safe, Hw2|]. specialize (He eq_refl).
  eapply safe_then_extends.
  { eapply safe_guard; [apply safe_since; [reflexivity|]; apply commitLedger_safe; exact Hkeys|].
    intros h' c [[Hread|Hput] Hh']; [by eapply quiet_reconcile, store_read_quiet|].
    eapply manifest_published_mono in He; [|exact Hh'].
    pose proof Hput as (body & etag & m0 & m1 & _ & _ & _ & _ & ->).
    do 4 eexists. split; [exact He|exact Hput]. }
  intros h3 [e|] Hc Hh3; [apply transientErr_safe, Hw2; by etrans|].
  assert (extends h h3) by (etrans; [exact Hh1|by etrans]).
  apply return_update_safe. right. split; [done|].
  exists p, ms, keys, specs, br0, br1, entries, prefix, now.
  split_and!; [by apply (staged_mono h)|done|done|by apply (located_mono h)| | |by apply Hc].
  - by apply (bundles_shipped_mono _ _ _ h).
  - by apply (manifest_published_mono _ _ h2).
Qed.

Lemma transmit_safe h :
  located h (br_Spec br0) prefix -> staged h p ms keys specs br0 br1 -> writable h (br_Phase (br_Status br1)) ->
  safe reconcile_call
    (transmit fuel br1 p (as_Store ms) prefix keys (bundles p specs) (uint64 (total_size specs))) h
    (fun _ _ => True).
Proof.
  intros Hloc Hst Hw. unfold transmit. apply only_reconcile; [apply rpc_nil_quiet|].
  intros h1 e Hh1. destruct e as [e|]; [by apply transientErr_safe, (writable_mono h)|].
  eapply safe_then_extends.
  { eapply safe_guard; [apply only_post; [apply send_all_quiet|]|apply quiet_reconcile].
    by apply (send_all_shipped (sidecar p)). }
  intros h2 r Hr Hh2. assert (extends h h2) as Hh by by etrans.
  assert (writable h2 (br_Phase (br_Status br1))) as Hw2 by by apply (writable_mono h).
  destruct r as [[st pc']|[reason e]]; [|by apply transientErr_safe].
  destruct (Hr st pc' eq_refl) as [Hpc Hb]. destruct (ss_AllDone st).
  - destruct (Hb eq_refl) as (_ & statuses & entries & Hs & He & Hall). cbn in Hs, He.
    apply finish_safe; [by apply (located_mono h)|by apply (staged_mono h)|done..|]. cbn. by rewrite Hs, He.
  - apply return_update_safe. by left.
Qed.
End Finishing.

Lemma stage_and_send_safe br0 br p ms prefix keys h :
  enumerated h br0 p ms keys -> located h (br_Spec br0) prefix -> br_Spec br = br_Spec br0 ->
  writable h (br_Phase (br_Status br)) ->
  safe reconcile_call (stage_and_send fuel br p (as_Store ms) prefix keys) h (fun _ _ => True).
Proof.
  intros Hen Hloc Hspec Hw. unfold stage_and_send. eapply safe_then_extends.
  { eapply safe_guard; [apply only_post; [apply stage_all_quiet|]|apply quiet_reconcile].
    by apply stage_all_staged. }
  intros h1 [[specs total]|e] Hst Hh1; [|by apply transientErr_safe, (writable_mono h)].
  destruct (Hst specs total eq_refl) as (new & -> & Hf & ->). cbn [app].
  apply safe_call; [done|]. intros [br'|e]; cbn [io_bind]; [|by apply safe_ret].
  set (h2 := _ :: h1). assert (extends h1 h2) as Hh2 by apply extends_cons.
  apply (transmit_safe _ _ _ _ br0).
  - apply (located_mono h); [by etrans|done].
  - eexists. split_and!; [apply (enumerated_mono h); [by etrans|done]
      |by apply (staged_files_mono _ _ h1)| |constructor]. done.
  - right. right. right. exists br'. split; [done|]. right. eexists. constructor.
Qed.

Lemma replicate_safe br policy n h :
  Ev (KGetBackupReplication n) (Ok br) ∈ h ->
  Ev (KGetReplicationPolicy {| nn_Namespace := ""; nn_Name := brs_PolicyName (br_Spec br) |})
    (Ok policy) ∈ h ->
  safe reconcile_call (replicate fuel br policy) h (fun _ _ => True).
Proof.
  intros Hbr Hpol. unfold replicate.
  apply (safe_then_extends _ _ _ _ (fun _ br1 => br_Spec br1 = br_Spec br)).
  { unfold start. destruct (br_StartedAt (br_Status br)); [by apply safe_ret|]. by apply safe_call. }
  intros h1 br1 Hspec Hh1. set (br2 := setPhase br1 PhaseStaging).
  assert (forall h, writable h (br_Phase (br_Status br2))) as Hw by by left.
  eapply safe_then_extends.
  { eapply safe_guard; [apply only_post; [apply resolveStore_quiet|]|apply quiet_reconcile].
    apply resolveStore_located. }
  intros h2 [cfg|e] Hloc Hh2; [specialize (Hloc cfg eq_refl)|by apply degrade_safe].
  apply only_reconcile; [apply New_quiet|]. intros h3 [ms|e] Hh3; [|by apply degrade_safe].
  eapply safe_then_extends.
  { eapply safe_guard; [apply enumerateDelta_safe|]. intros h' c.
    by intros ?%store_read_quiet%(quiet_reconcile h'). }
  intros h4 [keys|e] Hd Hh4; [|by apply transientErr_safe]. specialize (Hd keys eq_refl).
  destruct keys as [|k keys]; [apply return_update_safe; left; by right; right; left|].
  apply (stage_and_send_safe br); [| |done|done]; last first.
  { apply (located_mono h2); [by etrans|]. cbn in Hloc. by rewrite Hspec in Hloc. }
  assert (extends h h4) as Hh by (etrans; [exact Hh1|etrans; [exact Hh2|by etrans]]).
  split_and!; [exists n; by eapply extends_in|exists policy; split; [done|by eapply extends_in]| |done].
  cbn in Hd. by rewrite Hspec in Hd.
Qed.

Lemma Reconcile_safe req h :
  safe reconcile_call (Reconcile fuel req) h (fun _ _ => True).
Proof.
  unfold Reconcile. apply safe_call; [done|]. intros [br|e]; cbn [io_bind]; [|by apply safe_ret].
  destruct (being_deleted _); [by apply safe_ret|].
  destruct (terminal_phase _); [by apply safe_ret|].
  apply safe_call; [done|]. intros [policy|e]; cbn [io_bind].
  - destruct (rp_Paused _); [by apply safe_ret|]. apply (replicate_safe _ _ req); set_solver.
  - destruct (IsNotFound e); [|by apply safe_ret].
    apply degrade_safe. right. right. right. exists br. split; [done|]. left. exists req. set_solver.
Qed.
End ReconcileSafety.

(** C1: a backup is called replicated only when it was.  Every status that a
    reconcile pass writes with phase Replicated (unless the API server itself
    answered that phase) comes after all of this: the store listed the objects of
    the delta; the bytes of every one were read from the store, written to a file
    and renamed to their place in the policy's outbox; all these files, packed into
    bundles in order, were accepted by the policy's sidecar, which reported every
    distribution of every bundle completed; the sidecar accepted the complete
    manifest of exactly the handles' entries, with the total size staged and the
    prefix of the backup's storage location; and the
    store accepted the ledger with the keys of the delta.  The ledger, the only
    object the pass writes to the store, is written after a manifest was accepted.
    Phases Pending, Failed and the unset phase are never written unless the API
    server answered them. *)
Theorem Reconcile_writes `{M : ApiMachinery} fuel req h :
  safe reconcile_call (Reconcile fuel req) h (fun _ _ => True).
Proof. apply Reconcile_safe. Qed.

(** ** A reconcile pass returns *)

Lemma completes_getSecretKey ns name key : completes (getSecretKey ns name key).
Proof. unfold getSecretKey. completes_steps. Qed.
#[export] Hint Resolve completes_getSecretKey : completes.

Lemma completes_resolveStore br policy : completes (resolveStore br policy).
Proof. unfold resolveStore, credential_bytes. completes_steps. Qed.

Lemma completes_stage_all stager ms keys specs total :
  completes (stage_all stager (as_Store ms) keys specs total).
Proof.
  revert specs total. induction keys; intros specs total; cbn [stage_all]; completes_steps.
Qed.

Lemma completes_emitManifest pc br prefix entries total now :
  completes (emitManifest pc br prefix entries total now).
Proof. unfold emitManifest. completes_steps. Qed.
#[export] Hint Resolve completes_resolveStore completes_stage_all completes_emitManifest : completes.

Section Returns.
Context `{M : ApiMachinery} (fuel : nat) (h0 : history).

(** a wait used up its fuel, or the ledger read is a document of the nil map *)
Definition stuck (h : history) : Prop :=
  ticks h0 + fuel <= ticks h \/ exists ms key, nil_ledger ms key h.

Lemma completes_start br : completes (start br).
Proof. unfold start. completes_steps. Qed.

Lemma completes_update br after : completes (update br after).
Proof. unfold update. completes_steps. Qed.

Lemma completes_return_update br result : completes (return_update br result).
Proof. unfold return_update. completes_steps. Qed.
Hint Resolve completes_start completes_update completes_return_update : completes.

Lemma completes_transientErr br reason e : completes (transientErr br reason e).
Proof. unfold transientErr. completes_steps. Qed.

Lemma completes_degrade br reason msg : completes (degrade br reason msg).
Proof. unfold degrade. completes_steps. Qed.
Hint Resolve completes_transientErr completes_degrade : completes.

Lemma returns_wait pc id h : extends h0 h -> returns stuck (WaitBundle fuel pc id) h.
Proof.
  intros Hh%ticks_extends. eapply returns_weaken; [|apply returns_WaitBundle].
  intros h' Hf. left. cbn in Hf. lia.
Qed.

Lemma returns_commit ms spec keys h : returns stuck (commitLedger (as_Store ms) spec keys) h.
Proof. eapply returns_weaken; [|apply returns_commitLedger]. intros h' ?. right. by eauto. Qed.

Lemma returns_completes {A} (m : io A) h : completes m -> returns stuck m h.
Proof. apply completes_returns. Qed.

(** a step that completes, then the rest *)
Lemma returns_after {A B} (m : io A) (f : A -> io B) h :
  completes m -> extends h0 h -> (forall h' a, extends h0 h' -> returns stuck (f a) h') ->
  returns stuck (m ≫= f) h.
Proof.
  intros Hm Hh Hf. apply returns_bind; [by apply returns_completes|].
  intros h' a Hh'. apply Hf. by etrans.
Qed.

Lemma returns_send_all name prio i batches pc st h :
  extends h0 h -> returns stuck (send_all fuel name prio i batches pc st) h.
Proof.
  revert i pc st h. induction batches as [|b batches IH]; intros i pc st h Hh; cbn [send_all]; [done|].
  apply returns_after; [apply completes_SendAttachments|done|]. intros h1 [[sent|e] pc1] Hh1; [|done].
  apply returns_bind; [by apply returns_wait|]. intros h2 [progs [e|]] Hh2; [done|].
  apply IH. by etrans.
Qed.

Lemma returns_finish br ms pc prefix keys entries total h :
  extends h0 h -> returns stuck (finish br (as_Store ms) pc prefix keys entries total) h.
Proof.
  intros Hh. unfold finish. apply returns_after; [apply completes_perform|done|].
  intros h1 now Hh1. apply returns_after; [apply completes_emitManifest|done|].
  intros h2 [e|] Hh2; [by apply returns_completes, completes_transientErr|].
  apply returns_bind; [apply returns_commit|]. intros h3 [e|] _.
  - apply returns_completes, completes_transientErr.
  - apply returns_completes, completes_return_update.
Qed.

Lemma returns_stage_and_send br spec ms prefix keys h :
  extends h0 h -> returns stuck (stage_and_send fuel br spec (as_Store ms) prefix keys) h.
Proof.
  intros Hh. unfold stage_and_send. apply returns_after; [apply completes_stage_all|done|].
  intros h1 [[specs total]|e] Hh1; [|by apply returns_completes, completes_transientErr].
  apply returns_after; [apply completes_perform|done|]. intros h2 [br'|e] Hh2; [|done].
  unfold transmit. apply returns_after; [apply completes_EnsurePeer|done|].
  intros h3 [e|] Hh3; [by apply returns_completes, completes_transientErr|].
  apply returns_bind; [by apply returns_send_all|].
  intros h4 [[st pc]|[reason e]] Hh4; [|by apply returns_completes, completes_transientErr].
  destruct (ss_AllDone st); [apply returns_finish; by etrans|].
  apply returns_completes, completes_return_update.
Qed.

Lemma returns_replicate br policy h : extends h0 h -> returns stuck (replicate fuel br policy) h.
Proof.
  intros Hh. unfold replicate. apply returns_after; [apply completes_start|done|].
  intros h1 br1 Hh1. apply returns_after; [apply completes_resolveStore|done|].
  intros h2 [cfg|e] Hh2; [|by apply returns_completes, completes_degrade].
  apply returns_after; [apply completes_New|done|].
  intros h3 [ms|e] Hh3; [|by apply returns_completes, completes_degrade].
  apply returns_after; [apply completes_enumerateDelta|done|].
  intros h4 [[|k keys]|e] Hh4; [by apply returns_completes, completes_return_update| |].
  - by apply returns_stage_and_send.
  - by apply returns_completes, completes_transientErr.
Qed.
End Returns.

(** C20: a reconcile pass returns: whatever the API server, the store and the
    sidecar answer, it comes to a result unless a bundle's distributions stay
    unfinished over [fuel] ticks of the poll timer with the context still alive
    (Go polls on until the context ends), or the source store holds a ledger
    document that decodes to the nil map (Go panics). *)
Theorem Reconcile_returns `{M : ApiMachinery} fuel req h :
  returns (stuck fuel h) (Reconcile fuel req) h.
Proof.
  unfold Reconcile. apply returns_bind; [done|]. intros h1 [br|e] Hh1; [|done].
  destruct (being_deleted (br_Meta br)); [done|].
  destruct (terminal_phase (br_Phase (br_Status br))); [done|].
  apply returns_bind; [done|]. intros h2 [policy|e] Hh2.
  - destruct (rp_Paused (rp_Spec policy)); [done|]. apply returns_replicate. by etrans.
  - destruct (IsNotFound e); [|done]. apply completes_returns, completes_degrade.
Qed.
