(* ===== verification/ReplicationLiveness.v ===== *)
(** * ReplicationLiveness: with an outside that cooperates, a backup is replicated

    [ReplicationController] says what a reconcile does whatever is answered, and
    when it may not return.  Here the API server holds the objects of a [cluster]
    and accepts updates, the object store and the file system fulfil every
    request, and the sidecar accepts bundles and completes their distributions:
    then one reconcile of a pending BackupReplication ends Replicated. *)

From stdpp Require Import gmap strings.
From Stdlib Require Import Ascii.
From S2P Require Import Prelude GoStrings GoPath GoJson GoJsonFacts GoTime Api Effects Peat.
From S2P Require Import Batching Manifest Objstore Creds Staging Ledger Kube ReplicationController.

(** What the API server and the object store hold. *)
Record cluster := {
  cl_replication : BackupReplication;
  cl_policy : ReplicationPolicy;
  cl_location : BackupStorageLocation;
  cl_secrets : NamespacedName -> gmap string string;
  cl_objects : string -> list minio_object;   (* by listing prefix *)
}.

(** ** What is expected of the outside *)

(** The reply to a bundle names it, by an id in UTF-8 as JSON carries it, and its
    distributions. *)
Definition accepts_bundle (url body rb : string) : Prop :=
  forall base id files sj prio,
    id <> "" -> valid_utf8 id = true ->
    url = base +:+ svcPath +:+ "SendAttachments" ->
    body = print (send_request id files sj prio) ->
    exists sr, Unmarshal get_SendResult {| sr_BundleID := ""; sr_Handles := [] |} rb = (sr, None) /\
      sr_BundleID sr = id /\ sr_Handles sr <> [].

Definition zero_reply : distribution_reply :=
  {| dr_Status := ""; dr_BytesTransferred := ""; dr_BytesTotal := ""; dr_Error := "" |}.

(** A distribution that is asked for is completed. *)
Definition completed_reply (url rb : string) : Prop :=
  forall base, url = base +:+ svcPath +:+ "GetAttachmentDistribution" ->
    exists dr, Unmarshal get_distribution_reply zero_reply rb = (dr, None) /\
      dr_Status dr = "DISTRIBUTION_STATUS_COMPLETED".

Section liveness.
Context `{M : ApiMachinery} (cl : cluster).

(** The ledger's document is a map. *)
Definition ledger_parses (key body : string) : Prop :=
  key = ledgerKey (brs_StorageLocation (br_Spec (cl_replication cl))) ->
  exists m, parse_ledger body = (Some m, None).

Definition cooperates : expectation := fun c =>
  match c return resp c -> Prop with
  | KGetBackupReplication _ => fun r => r = Ok (cl_replication cl)
  | KStatusUpdateBackupReplication br => fun r => r = Ok br
  | KGetReplicationPolicy _ => fun r => r = Ok (cl_policy cl)
  | KGetBackupStorageLocation _ => fun r => r = Ok (cl_location cl)
  | KGetSecret n => fun r => r = Ok (cl_secrets cl n)
  | OsMkdirAll _ | OsWrite _ _ | OsClose _ | OsRename _ _ => fun r => r = None
  | OsCreateTemp _ _ => fun r => exists name, r = Ok name
  | MinioDefaultTransport | MinioNew _ | MinioGetObject _ _ _ => fun r => r = None
  | MinioListObjects _ _ prefix => fun r => r = map Ok (cl_objects cl prefix)
  | MinioObjectStat _ _ _ =>
      fun r => (exists o, r = Ok o) \/ exists e, r = Er e /\ isNotFound e = true
  | MinioObjectRead _ _ key => fun r => exists body, r = (body, None) /\ ledger_parses key body
  | MinioPutObject _ _ _ _ _ _ => fun r => exists etag, r = Ok etag
  | HttpPost url body =>
      fun r => exists rb, r = HttpReply 200 rb /\ accepts_bundle url body rb /\
        completed_reply url rb
  | _ => fun _ => True
  end.

(** ** Resolving the store *)

Definition secret_value (n : NamespacedName) (key : string) : option string :=
  cl_secrets cl n !! key.

(** the credentials file that [credential_bytes] reads *)
Definition credentials (ns : string) (policyRef : option SecretKeyRef)
    (bslRef : option SecretKeySelector) : option string :=
  let bsl := match bslRef with
             | Some c => secret_value {| nn_Namespace := ns; nn_Name := sks_Name c |} (sks_Key c)
             | None => Some ""
             end in
  match policyRef with
  | Some ref =>
      if bool_decide (skr_Name ref <> "") then
        secret_value {| nn_Namespace := if bool_decide (skr_Namespace ref = "") then ns
                                        else skr_Namespace ref; nn_Name := skr_Name ref |}
          (skr_Key ref)
      else bsl
  | None => bsl
  end.

(** the configuration of the store, when the cluster's objects describe one *)
Definition store_config : option Config :=
  let spec := bsl_Spec (cl_location cl) in
  let os := rp_ObjectStore (rp_Spec (cl_policy cl)) in
  osl ← bsl_ObjectStorage spec;
  creds ← credentials (om_Namespace (br_Meta (cl_replication cl)))
            (oss_CredentialsSecretRef os) (bsl_Credential spec);
  let cfg := base_config osl (bsl_Config spec) os in
  if bool_decide (creds = "") then Some cfg
  else
    match ParseAWSCredentials creds (default "" (m ← bsl_Config spec; m !! "profile")) with
    | Ok keys => Some (set_keys cfg keys)
    | Er _ => None
    end.

Lemma under_getSecretKey ns name key v h Q :
  secret_value {| nn_Namespace := ns; nn_Name := name |} key = Some v ->
  (forall h', Q h' (Ok v)) -> under cooperates (getSecretKey ns name key) h Q.
Proof. intros Hv HQ. cbn. intros r ->. unfold secret_value in Hv. rewrite Hv. apply HQ. Qed.

Lemma under_credential_bytes ns policyRef bslRef v h Q :
  credentials ns policyRef bslRef = Some v ->
  (forall h', Q h' (Ok v)) -> under cooperates (credential_bytes ns policyRef bslRef) h Q.
Proof.
  intros Hv HQ. unfold credentials, credential_bytes in *.
  destruct policyRef as [ref|]; [case_bool_decide|];
    [by eapply under_getSecretKey|destruct bslRef; [by eapply under_getSecretKey|]..];
    injection Hv as <-; apply HQ.
Qed.

Lemma under_resolveStore br cfg h Q :
  br_Meta br = br_Meta (cl_replication cl) -> store_config = Some cfg ->
  (forall h', Q h' (Ok cfg)) -> under cooperates (resolveStore br (cl_policy cl)) h Q.
Proof.
  intros Hm Hcfg HQ. unfold resolveStore. cbn. intros r ->. unfold store_config in Hcfg.
  destruct (bsl_ObjectStorage _) as [osl|]; [|done]. cbn in Hcfg. rewrite Hm.
  destruct (credentials _ _ _) as [creds|] eqn:Hc; [|done]. cbn in Hcfg.
  eapply under_then with (P := fun _ b => b = Ok creds); [by eapply under_credential_bytes|].
  intros h' ? ->. cbn. case_bool_decide; [injection Hcfg as <-; apply HQ|].
  destruct (ParseAWSCredentials _ _) as [keys|]; [|done]. injection Hcfg as <-. apply HQ.
Qed.

(** a configuration that names a host and a bucket *)
Definition usable (cfg : Config) : Prop :=
  (normalizeEndpoint (cfg_Endpoint cfg)).1 <> "" /\ cfg_Bucket cfg <> "".

Lemma under_New cfg h Q :
  usable cfg -> cfg_CABundle cfg = "" ->
  (forall h' ms, ms_prefix ms = Trim (cfg_Prefix cfg) slash -> Q h' (Ok ms)) ->
  under cooperates (Objstore.New cfg) h Q.
Proof.
  intros [He Hb] Hca HQ. unfold Objstore.New.
  destruct (normalizeEndpoint _) as [endpoint secure]. cbn in He.
  rewrite !bool_decide_eq_false_2 by done. unfold tls_options.
  rewrite (bool_decide_eq_false_2 (cfg_CABundle cfg <> "")) by (intros Hn; by apply Hn).
  destruct (secure && _); cbn.
  - intros r ->. cbn. intros r ->. by apply HQ.
  - intros r ->. by apply HQ.
Qed.

Lemma store_config_ca cfg : store_config = Some cfg -> cfg_CABundle cfg = "".
Proof.
  unfold store_config. destruct (bsl_ObjectStorage _) as [osl|]; [|done]. cbn.
  destruct (credentials _ _ _) as [creds|]; [|done]. cbn.
  case_bool_decide; [by intros [= <-]|].
  destruct (ParseAWSCredentials _ _); [by intros [= <-]|done].
Qed.

(** ** The delta *)

(** Every listed object can be staged, and the backup has objects of its own. *)
Record listing_ok (prefix : string) : Prop := {
  lk_stageable ms p o : ms_prefix ms = prefix -> o ∈ cl_objects cl p ->
    exists rel, safeRelPath (relKey ms (mo_Key o)) = Ok rel;
  lk_own ms : ms_prefix ms = prefix ->
    cl_objects cl (fullKey ms (backup_prefix (brs_BackupName (br_Spec (cl_replication cl))))) <> [];
}.

Context (prefix : string) (Hlist : listing_ok prefix)
  (Hname : valid_utf8 (om_Name (br_Meta (cl_replication cl))) = true).

Definition stageable (key : string) : Prop := exists rel, safeRelPath key = Ok rel.

Lemma under_List ms p h Q :
  ms_prefix ms = prefix ->
  (forall h' infos, Forall (fun i => stageable (oi_Key i)) infos ->
     (cl_objects cl (fullKey ms p) <> [] -> infos <> []) -> Q h' (Ok infos)) ->
  under cooperates (List ms p) h Q.
Proof.
  intros Hms HQ. cbn. intros r ->.
  assert (forall os, (forall o, o ∈ os -> stageable (relKey ms (mo_Key o))) ->
    exists infos, list_objects ms (fullKey ms p) (map Ok os) = Ok infos /\
      Forall (fun i => stageable (oi_Key i)) infos /\ (os <> [] -> infos <> [])) as Hos.
  { induction os as [|o os IH]; intros Hall; cbn; [by exists []|].
    destruct IH as (infos & -> & Hinfos & _); [set_solver|]. cbn. eexists. split_and!; [done| |done].
    constructor; [apply Hall; set_solver|done]. }
  destruct (Hos (cl_objects cl (fullKey ms p))) as (infos & -> & Hi & Hne).
  { intros o Ho. by eapply (lk_stageable prefix Hlist). }
  by apply HQ.
Qed.

Definition our_ledger : string := ledgerKey (brs_StorageLocation (br_Spec (cl_replication cl))).

Lemma under_GetLedger ms h Q :
  (forall h' body etag, (exists m, parse_ledger body = (Some m, None)) -> Q h' (Ok (body, etag))) ->
  under cooperates (GetLedger ms our_ledger) h Q.
Proof.
  intros HQ. cbn. intros r ->. cbn. intros r [[o ->]|(e & -> & He)].
  - cbn. intros r (body & -> & Hb). apply HQ. by apply Hb.
  - cbn. rewrite He. apply HQ. by exists ∅.
Qed.

Lemma under_list_repos ms m prefixes keys h Q :
  ms_prefix ms = prefix -> Forall stageable keys ->
  (forall h' keys', Forall stageable (keys ++ keys') -> Q h' (Ok (keys ++ keys'))) ->
  under cooperates (list_repos (as_Store ms) m prefixes keys) h Q.
Proof.
  intros Hms. revert keys h. induction prefixes as [|p prefixes IH]; intros keys h Hk HQ;
    cbn [list_repos].
  - cbn. specialize (HQ h []). rewrite app_nil_r in HQ. by apply HQ.
  - cbn [as_Store st_List].
    eapply under_then with (P := fun _ r => exists infos, r = Ok infos /\
      Forall (fun i => stageable (oi_Key i)) infos).
    { apply under_List; [done|]. intros h' infos Hi _. by exists infos. }
    intros h1 ? (infos & -> & Hi). apply IH.
    + apply Forall_app. split; [done|]. apply Forall_map, Forall_forall.
      intros i [Hin _]%list_elem_of_In%filter_In.
      rewrite Forall_forall in Hi. by apply Hi, list_elem_of_In.
    + intros h2 keys'. rewrite <- app_assoc. apply HQ.
Qed.

Lemma under_enumerateDelta ms spec h Q :
  spec = br_Spec (cl_replication cl) -> ms_prefix ms = prefix ->
  (forall h' keys, Forall stageable keys -> keys <> [] -> Q h' (Ok keys)) ->
  under cooperates (enumerateDelta (as_Store ms) spec) h Q.
Proof.
  intros -> Hms HQ. unfold enumerateDelta. cbn [as_Store st_GetLedger st_List].
  eapply under_then with (P := fun _ r => exists body etag m, r = Ok (body, etag) /\
    parse_ledger body = (Some m, None)).
  { apply under_GetLedger. intros h' body etag [m Hm]. by exists body, etag, m. }
  intros h1 ? (body & etag & m & -> & Hm). rewrite Hm.
  eapply under_then with (P := fun _ r => exists infos, r = Ok infos /\
    Forall (fun i => stageable (oi_Key i)) infos /\ infos <> []).
  { apply under_List; [done|]. intros h' infos Hi Hne. exists infos.
    split_and!; [done..|]. apply Hne. by apply (lk_own prefix Hlist). }
  intros h2 ? (infos & -> & Hi & Hne). apply under_list_repos; [done|by apply Forall_map|].
  intros h3 keys' Hk. apply HQ; [done|]. by destruct infos.
Qed.

(** ** Staging *)

Lemma under_StageObject stager ms key h Q :
  stageable key -> (forall h' fs, Q h' (Ok fs)) ->
  under cooperates (StageObject stager (as_Store ms) key) h Q.
Proof.
  intros [rel Hrel] HQ. unfold StageObject. rewrite Hrel. cbn.
  intros r ->. cbn. intros r ->. cbn. intros r [name ->]. cbn.
  intros r (body & -> & _). cbn. intros r ->. cbn. intros r ->. cbn. intros r ->. cbn.
  intros r _. apply HQ.
Qed.

Lemma under_stage_all stager ms keys specs total h Q :
  Forall stageable keys -> (forall h' specs' total', Q h' (Ok (specs', total'))) ->
  under cooperates (stage_all stager (as_Store ms) keys specs total) h Q.
Proof.
  intros Hk HQ. revert specs total h. induction Hk as [|key keys Hkey _ IH];
    intros specs total h; cbn [stage_all]; [apply HQ|].
  eapply under_then with (P := fun _ r => exists fs, r = Ok fs).
  { apply under_StageObject; [done|]. intros h' fs. by exists fs. }
  intros h1 ? [fs ->]. apply IH.
Qed.

(** ** Sending *)

(** every RPC gets a 2xx reply *)
Lemma under_rpc_nil c method req h Q :
  (forall h', Q h' None) -> under cooperates (rpc_nil c method req) h Q.
Proof. intros HQ. cbn. intros r (rb & -> & _). rewrite quot_200. apply HQ. Qed.

Lemma under_SendAttachments c id files prio h Q :
  id <> "" -> valid_utf8 id = true ->
  (forall h' sr, sr_BundleID sr = id -> sr_Handles sr <> [] -> Q h' (Ok sr, record_bundle c sr)) ->
  under cooperates
    (SendAttachments c id files {| sc_AllNodes := true; sc_NodeIDs := [] |} prio) h Q.
Proof.
  intros Hid0 Hutf HQ. unfold SendAttachments, rpc, post. cbn -[Unmarshal print send_request].
  intros r (rb & -> & Hsend & _). rewrite quot_200. cbn -[Unmarshal print send_request].
  destruct (Hsend _ _ _ _ _ Hid0 Hutf eq_refl eq_refl) as (sr & Hsr & Hid & Hne).
  rewrite Hsr. by apply HQ.
Qed.

Lemma under_poll_round c dists h Q :
  (forall h' progs, map pg_DistributionID progs = dists ->
     Forall (fun p => pg_Status p = StatusCompleted) progs -> Q h' (Ok progs)) ->
  under cooperates (poll_round c dists) h Q.
Proof.
  revert h Q. induction dists as [|d dists IH]; intros h Q HQ; cbn [poll_round]; [by apply HQ|].
  eapply under_then with (P := fun _ r => exists p, r = Ok p /\ pg_DistributionID p = d /\
    pg_Status p = StatusCompleted).
  { unfold GetDistribution, rpc, post. cbn -[Unmarshal print].
    intros r (rb & -> & _ & Hget). rewrite quot_200. cbn -[Unmarshal print].
    destruct (Hget _ eq_refl) as (dr & Hdr & Hs). unfold zero_reply in Hdr. rewrite Hdr.
    eexists. split_and!; [done|done|]. cbn. by rewrite Hs. }
  intros h1 ? (p & -> & Hd & Hp). cbn [try].
  eapply under_then with (P := fun _ r => exists progs, r = Ok progs /\
    map pg_DistributionID progs = dists /\
    Forall (fun p => pg_Status p = StatusCompleted) progs).
  { apply IH. intros h' progs H1 H2. by exists progs. }
  intros h2 ? (progs & -> & Hm & Hall). apply HQ; [cbn; by rewrite Hd, Hm|by constructor].
Qed.

Lemma under_WaitBundle fuel c id h Q :
  cc_bundles c !! id <> None -> cc_bundles c !! id <> Some [] ->
  (forall h' progs, progs <> [] -> Forall (fun p => pg_Status p = StatusCompleted) progs ->
     Q h' (progs, None)) ->
  under cooperates (WaitBundle (S fuel) c id) h Q.
Proof.
  intros Hn Hne HQ. unfold WaitBundle. destruct (cc_bundles c !! id) as [dists|]; [|done].
  change (default [] (Some dists)) with dists.
  rewrite bool_decide_eq_false_2 by (intros ->; by apply Hne). cbn [wait_loop].
  eapply under_then with (P := fun _ r => exists progs, r = Ok progs /\ progs <> [] /\
    Forall (fun p => pg_Status p = StatusCompleted) progs).
  { apply under_poll_round. intros h' progs Hm Hall. exists progs. split_and!; [done| |done].
    intros ->. by subst dists. }
  intros h1 ? (progs & -> & Hp & Hall).
  assert (all_terminal progs = true) as ->; [|by apply HQ].
  unfold all_terminal. apply forallb_forall. intros p Hin%list_elem_of_In.
  rewrite Forall_forall in Hall. by rewrite (Hall p Hin).
Qed.

Lemma completed_bundle progs id b :
  progs <> [] -> Forall (fun p => pg_Status p = StatusCompleted) progs ->
  bs_Phase (bundle_status id b progs) = BundleCompleted.
Proof.
  intros Hne Hall. unfold bundle_status.
  destruct (summarize_facts progs) as (phase & -> & _ & Hc & _). cbn. apply Hc.
  split; [done|]. by apply Forall_forall.
Qed.

Lemma bundle_id_text name i :
  (0 <= i)%Z -> valid_utf8 name = true ->
  bundle_id name i <> "" /\ valid_utf8 (bundle_id name i) = true.
Proof.
  intros Hi Hn. unfold bundle_id. split; [by destruct name|].
  apply valid_utf8_app; [done|]. apply valid_utf8_ascii; [done|].
  unfold fmt_04d. apply valid_utf8_app.
  - apply valid_utf8_digits. generalize (4 - String.length (FormatUint i))%nat.
    by induction n as [|n IH].
  - apply valid_utf8_digits. by apply FormatUint_spec.
Qed.

Lemma under_send_all fuel name prio i batches pc st h Q :
  (0 <= i)%Z -> valid_utf8 name = true -> ss_AllDone st = true ->
  (forall h' st' pc', ss_AllDone st' = true -> Q h' (Ok (st', pc'))) ->
  under cooperates (send_all (S fuel) name prio i batches pc st) h Q.
Proof.
  revert i pc st h. induction batches as [|b batches IH]; intros i pc st h Hi Hn Hst HQ;
    cbn [send_all]; [by apply HQ|].
  destruct (bundle_id_text name i Hi Hn) as [Hid0 Hutf].
  eapply under_then with (P := fun _ r => exists sr,
    r = (Ok sr, record_bundle pc sr) /\ sr_BundleID sr = bundle_id name i /\ sr_Handles sr <> []).
  { apply under_SendAttachments; [done..|]. intros h' sr Hid Hne. by exists sr. }
  intros h1 ? (sr & -> & Hid & Hne). cbn beta iota.
  eapply under_then with (P := fun _ r => exists progs, r = (progs, None) /\ progs <> [] /\
    Forall (fun p => pg_Status p = StatusCompleted) progs).
  { apply under_WaitBundle.
    - cbn. by rewrite Hid, lookup_insert_eq.
    - cbn. rewrite Hid, lookup_insert_eq. by destruct (sr_Handles sr).
    - intros h' progs Hp Hall. by exists progs. }
  intros h2 ? (progs & -> & Hp & Hall). cbn beta iota. apply IH; [lia|done| |done].
  cbn. by rewrite Hst, bool_decide_eq_true_2 by by apply completed_bundle.
Qed.

(** ** The rest *)

(** [br] is our object with another status. *)
Definition ours (br : BackupReplication) : Prop :=
  br_Meta br = br_Meta (cl_replication cl) /\ br_Spec br = br_Spec (cl_replication cl).

(** The reconcile ends without an error or a requeue, and its last call is an
    accepted update of our object to phase Replicated. *)
Definition ends_replicated (h : history) (r : reconciled) : Prop :=
  r = (no_requeue, None) /\
  exists br h', h = Ev (KStatusUpdateBackupReplication br) (Ok br) :: h' /\
    ours br /\ br_Phase (br_Status br) = PhaseReplicated.

Lemma under_commitLedger ms spec keys h Q :
  spec = br_Spec (cl_replication cl) ->
  (forall h', Q h' None) -> under cooperates (commitLedger (as_Store ms) spec keys) h Q.
Proof.
  intros -> HQ. unfold commitLedger. cbn [as_Store st_GetLedger st_PutLedger].
  eapply under_then with (P := fun _ r => exists body etag m, r = Ok (body, etag) /\
    parse_ledger body = (Some m, None)).
  { apply under_GetLedger. intros h' body etag [m Hm]. by exists body, etag, m. }
  intros h1 ? (body & etag & m & -> & Hm). rewrite Hm. cbn -[print_ledger Z.of_nat].
  intros r [etag' ->]. apply HQ.
Qed.

Lemma under_finish br ms pc bslPrefix keys entries total h :
  ours br ->
  under cooperates (finish br (as_Store ms) pc bslPrefix keys entries total) h ends_replicated.
Proof.
  intros [Hm Hs]. unfold finish. cbn -[emitManifest commitLedger]. intros now _.
  eapply under_then with (P := fun _ e => e = None).
  { unfold emitManifest. cbn -[print put_document_request manifest_json].
    intros r (rb & -> & _). by rewrite quot_200. }
  intros h1 ? ->. eapply under_then with (P := fun _ e => e = None);
    [by apply under_commitLedger|].
  intros h2 ? ->. cbn. intros r ->. split; [done|]. by eexists _, h2.
Qed.

Lemma under_transmit fuel br spec ms bslPrefix keys batches total h :
  ours br ->
  under cooperates (transmit (S fuel) br spec (as_Store ms) bslPrefix keys batches total) h
    ends_replicated.
Proof.
  intros Hours. unfold transmit. eapply under_then with (P := fun _ e => e = None).
  { unfold EnsurePeer. by apply under_rpc_nil. }
  intros h1 ? ->. eapply under_then with (P := fun _ r => exists st pc, r = Ok (st, pc) /\
    ss_AllDone st = true).
  { apply under_send_all; [done| |done|]; [by rewrite (proj1 Hours)|]. intros h' st pc Hst. by exists st, pc. }
  intros h2 ? (st & pc & -> & Hst). rewrite Hst. by apply under_finish.
Qed.

Lemma under_stage_and_send fuel br spec ms bslPrefix keys h :
  ours br -> Forall stageable keys ->
  under cooperates (stage_and_send (S fuel) br spec (as_Store ms) bslPrefix keys) h ends_replicated.
Proof.
  intros Hours Hk. unfold stage_and_send.
  eapply under_then with (P := fun _ r => exists specs total, r = Ok (specs, total)).
  { apply under_stage_all; [done|]. intros h' specs total. by exists specs, total. }
  intros h1 ? (specs & total & ->). cbn -[transmit Pack]. intros r ->.
  by apply under_transmit.
Qed.

Lemma under_replicate fuel br cfg h :
  ours br -> store_config = Some cfg -> usable cfg -> Trim (cfg_Prefix cfg) slash = prefix ->
  under cooperates (ReplicationController.replicate (S fuel) br (cl_policy cl)) h ends_replicated.
Proof.
  intros Hours Hcfg Hu Hp. unfold ReplicationController.replicate.
  eapply under_then with (P := fun _ br => ours br).
  { unfold start. destruct (br_StartedAt _); [done|]. cbn. intros now _. exact Hours. }
  clear br Hours. intros h1 br Hours.
  eapply under_then with (P := fun _ r => r = Ok cfg).
  { apply (under_resolveStore _ cfg); [apply Hours|done|done]. }
  intros h2 ? ->. eapply under_then with (P := fun _ r => exists ms, r = Ok ms /\
    ms_prefix ms = prefix).
  { apply under_New; [done|by apply store_config_ca|]. intros h' ms Hms. exists ms.
    split; [done|]. by rewrite Hms. }
  intros h3 ? (ms & -> & Hms). eapply under_then with (P := fun _ r => exists keys,
    r = Ok keys /\ Forall stageable keys /\ keys <> []).
  { apply under_enumerateDelta; [apply Hours|done|]. intros h' keys Hk Hne. by exists keys. }
  intros h4 ? (keys & -> & Hk & Hne). destruct keys as [|k keys]; [done|].
  by apply under_stage_and_send.
Qed.

End liveness.

Lemma under_Reconcile `{M : ApiMachinery} (cl : cluster) fuel req cfg h :
  let br := cl_replication cl in
  being_deleted (br_Meta br) = false ->
  terminal_phase (br_Phase (br_Status br)) = false ->
  rp_Paused (rp_Spec (cl_policy cl)) = false ->
  valid_utf8 (om_Name (br_Meta br)) = true ->
  store_config cl = Some cfg -> usable cfg -> listing_ok cl (Trim (cfg_Prefix cfg) slash) ->
  under (cooperates cl) (Reconcile (S fuel) req) h (ends_replicated cl).
Proof.
  intros br Hd Ht Hp Hn Hcfg Hu Hl. unfold Reconcile. cbn -[ReplicationController.replicate]. intros r ->.
  fold br. rewrite Hd, Ht. cbn -[ReplicationController.replicate]. intros r ->. rewrite Hp.
  by eapply under_replicate.
Qed.

(** C10: with an outside that cooperates, one reconcile of a pending replication
    ends Replicated.  The API server holds an object that is neither deleted nor in
    a terminal phase, an unpaused policy, and a location whose configuration and
    secrets give a host, a bucket and usable keys; the store lists at least one
    object of the backup and only keys that can be staged; every request is
    fulfilled, the ledger is a map, the sidecar accepts each bundle and completes
    its distributions.  Then one poll round per bundle is fuel enough, there is no
    panic, no error and no requeue, and the last call is the accepted update to
    phase Replicated. *)
Theorem Reconcile_replicates `{M : ApiMachinery} (cl : cluster) fuel req cfg h :
  let br := cl_replication cl in
  being_deleted (br_Meta br) = false ->
  terminal_phase (br_Phase (br_Status br)) = false ->
  rp_Paused (rp_Spec (cl_policy cl)) = false ->
  valid_utf8 (om_Name (br_Meta br)) = true ->
  store_config cl = Some cfg -> usable cfg ->
  listing_ok cl (Trim (cfg_Prefix cfg) slash) ->
  under (cooperates cl) (Reconcile (S fuel) req) h (ends_replicated cl).
Proof. apply under_Reconcile. Qed.

(** ** An outside that cooperates *)

(** A sidecar that answers every request alike: the bundle id it was sent, one
    handle, and a completed distribution. *)
Definition reply_json (id : string) : json :=
  JObj [("bundleId", JStr id);
        ("handles", JArr [JObj [("distributionId", JStr "d0")]]);
        ("status", JStr "DISTRIBUTION_STATUS_COMPLETED")].

Definition request_head : string := String "{" (print_string "bundleId" +:+ String ":" (String quote "")).

Definition requested_id (body : string) : string :=
  match strip_prefix request_head body with
  | Some rest =>
      match parse_string (String.length rest) rest with
      | Some (id, _) => if valid_utf8 id then id else ""
      | None => ""
      end
  | None => ""
  end.

Lemma requested_id_valid body : valid_utf8 (requested_id body) = true.
Proof.
  unfold requested_id. destruct (strip_prefix _ _) as [rest|]; [|done].
  destruct (parse_string _ _) as [[id r]|]; [|done]. by destruct (valid_utf8 id) eqn:E.
Qed.

(** Members are printed in the order of their keys, so the id comes first. *)
Lemma send_request_members id files sj prio :
  id <> "" ->
  send_request id files sj prio =
    JObj [("bundleId", JStr id); ("files", JArr (map file_json files));
          ("priority", JStr (protoPriority prio)); ("scope", sj)].
Proof.
  intros H. unfold send_request. rewrite bool_decide_eq_true_2 by done. reflexivity.
Qed.

Lemma requested_id_send id files sj prio :
  id <> "" -> valid_utf8 id = true ->
  requested_id (print (send_request id files sj prio)) = id.
Proof.
  intros Hne Hv. rewrite send_request_members by done.
  set (rest := sep_by "," (map print_member
    [("files", JArr (map file_json files)); ("priority", JStr (protoPriority prio));
     ("scope", sj)])).
  assert (print (JObj [("bundleId", JStr id); ("files", JArr (map file_json files));
          ("priority", JStr (protoPriority prio)); ("scope", sj)]) =
    request_head +:+ (escape (String.length id) id +:+ String quote (String "," rest +:+ "}")))
    as ->.
  { rewrite print_obj. cbn [map sep_by]. unfold print_member at 1. cbn [fst snd print].
    unfold print_string at 2, request_head. subst rest. cbn [map sep_by]. by autorewrite with str. }
  unfold requested_id. rewrite strip_prefix_app, parse_print_string by done. by rewrite Hv.
Qed.

Lemma reply_json_ok id :
  valid_utf8 id = true -> json_ok (reply_json id) /\ (depth (reply_json id) <= max_depth)%Z.
Proof. intros H. split; [cbn; split_and!; done|]. unfold max_depth. cbn. lia. Qed.

Lemma reply_send id :
  valid_utf8 id = true ->
  Unmarshal get_SendResult {| sr_BundleID := ""; sr_Handles := [] |} (print (reply_json id)) =
    ({| sr_BundleID := id;
        sr_Handles := [{| ah_FileIndex := 0; ah_BlobToken := ""; ah_DistributionID := "d0" |}] |},
     None).
Proof.
  intros [Hok Hd]%reply_json_ok. unfold Unmarshal. rewrite parse_print by done. reflexivity.
Qed.

Lemma reply_distribution id :
  valid_utf8 id = true ->
  Unmarshal get_distribution_reply zero_reply (print (reply_json id)) =
    ({| dr_Status := "DISTRIBUTION_STATUS_COMPLETED"; dr_BytesTransferred := "";
        dr_BytesTotal := ""; dr_Error := "" |}, None).
Proof.
  intros [Hok Hd]%reply_json_ok. unfold Unmarshal. rewrite parse_print by done. reflexivity.
Qed.

Section demo.
Context (cl : cluster).

(** Every request is fulfilled; there is no ledger yet, and every object is empty. *)
Definition answer (c : call) : resp c :=
  match c return resp c with
  | OsMkdirAll _ | OsWrite _ _ | OsClose _ | OsRename _ _ | OsRemove _ => None
  | OsCreateTemp _ _ => Ok "tmp"
  | MinioDefaultTransport | MinioNew _ | MinioGetObject _ _ _ => None
  | MinioListObjects _ _ prefix => map Ok (cl_objects cl prefix)
  | MinioObjectStat _ _ _ => Er (ext_missing "no such key")
  | MinioObjectRead _ _ _ => ("", None)
  | MinioPutObject _ _ _ _ _ _ => Ok "etag"
  | HttpPost _ body => HttpReply 200 (print (reply_json (requested_id body)))
  | KGetBackupReplication _ => Ok (cl_replication cl)
  | KStatusUpdateBackupReplication br => Ok br
  | KGetReplicationPolicy _ => Ok (cl_policy cl)
  | KGetBackupStorageLocation _ => Ok (cl_location cl)
  | KGetSecret n => Ok (cl_secrets cl n)
  | c => refuse c
  end.

Definition demo_handler : handler unit := fun c w => (answer c, w).

Lemma demo_cooperates c w : cooperates cl c (demo_handler c w).1.
Proof.
  destruct c; cbn -[print reply_json requested_id print_ledger parse_ledger]; try done.
  - by exists "tmp".
  - eexists. split; [done|]. split.
    + intros base id files sj prio Hne Hv _ ->. rewrite requested_id_send by done.
      eexists. split; [by apply reply_send|]. done.
    + intros base _. eexists. split; [apply reply_distribution, requested_id_valid|]. done.
  - right. by eexists.
  - exists "". split; [done|]. intros _. by exists ∅.
  - by exists "etag".
Qed.
End demo.

(** A pending replication of a backup with one object of its own and one of the
    repository, in a MinIO bucket with credentials in a secret. *)
Definition demo_status : BackupReplicationStatus :=
  {| br_Phase := PhasePending; br_Conditions := []; br_ObjectCount := 0; br_TotalBytes := 0;
     br_BytesTransferred := 0; br_Bundles := []; br_StartedAt := None; br_CompletedAt := None;
     br_RetryCount := 0; br_ObservedGeneration := 0; br_LastError := [] |}.

Definition demo_object (key : string) : minio_object :=
  {| mo_Key := key; mo_Size := 0; mo_ETag := "e"; mo_LastModified := 0 |}.

Definition demo_cluster : cluster :=
  {| cl_replication :=
       {| br_Meta := new_meta "nightly-1" "velero";
          br_Spec := {| brs_BackupName := "nightly-1"; brs_PolicyName := "all";
                        brs_StorageLocation := "default" |};
          br_Status := demo_status |};
     cl_policy :=
       {| rp_Meta := new_meta "all" "";
          rp_Spec := {| rp_Paused := false; rp_BackupStorageLocations := [];
            rp_BackupStorageLocationSelector := None; rp_BackupSelector := None;
            rp_Target := {| ts_EndpointID := "e1"; ts_NodeID := ""; ts_Addresses := [];
                            ts_RelayURL := "" |};
            rp_Priority := "Bulk"; rp_BundleByteLimit := 1073741824; rp_BundleFileLimit := 64;
            rp_MaxConcurrentBundles := 4; rp_StaleAfter := None;
            rp_Peat := {| ps_Address := "localhost:50051"; ps_OutboxRoot := "outbox";
                          ps_OutboxPath := "/var/lib/peat/outbox" |};
            rp_ObjectStore := {| oss_Endpoint := "http://minio:9000"; oss_Region := "";
              oss_CABundleSecretRef := None; oss_InsecureSkipTLSVerify := false;
              oss_CredentialsSecretRef :=
                Some {| skr_Name := "creds"; skr_Key := "cloud"; skr_Namespace := "" |} |} |};
          rp_Status := {| rps_Conditions := []; rps_BackupsReplicated := 0;
                          rps_BytesReplicated := 0; rps_ObservedGeneration := 0 |} |};
     cl_location :=
       {| bsl_Meta := new_meta "default" "velero";
          bsl_Spec := {| bsl_Provider := "aws";
            bsl_ObjectStorage := Some {| osl_Bucket := "velero"; osl_Prefix := "prod";
                                         osl_CACert := "" |};
            bsl_Config := None; bsl_Credential := None; bsl_Default := true |};
          bsl_Phase := "Available" |};
     cl_secrets := fun _ => {[ "cloud" := "[default]" +:+ String "010"
       ("aws_access_key_id=ak" +:+ String "010" "aws_secret_access_key=sk") ]};
     cl_objects := fun prefix =>
       if bool_decide (prefix = "prod/backups/nightly-1/")
       then [demo_object "prod/backups/nightly-1/velero-backup.json"]
       else if bool_decide (prefix = "prod/kopia/") then [demo_object "prod/kopia/p1"] else [] |}.

Definition demo_config : Config :=
  default (base_config {| osl_Bucket := ""; osl_Prefix := ""; osl_CACert := "" |} None
             (rp_ObjectStore (rp_Spec (cl_policy demo_cluster))))
    (store_config demo_cluster).

Lemma demo_listing : listing_ok demo_cluster "prod".
Proof.
  split.
  - intros ms p o Hms. cbn [cl_objects demo_cluster]. unfold relKey. rewrite Hms.
    repeat case_bool_decide; try done; intros Hin; try (by apply elem_of_nil in Hin);
      apply list_elem_of_singleton in Hin as ->; eexists; vm_compute; reflexivity.
  - intros ms Hms. unfold fullKey. rewrite Hms. vm_compute. discriminate.
Qed.

Lemma Reconcile_replicates_witness :
  exists r w h, run (demo_handler demo_cluster)
    (Reconcile (M := sample_machinery) 1
       {| nn_Namespace := "velero"; nn_Name := "nightly-1" |}) tt [] = Some (r, w, h) /\
    ends_replicated demo_cluster h r.
Proof.
  apply (under_run (cooperates demo_cluster)); [apply demo_cooperates|].
  apply (Reconcile_replicates (M := sample_machinery) demo_cluster 0 _ demo_config).
  - reflexivity.
  - reflexivity.
  - reflexivity.
  - vm_compute. reflexivity.
  - vm_compute. reflexivity.
  - split; vm_compute; discriminate.
  - exact demo_listing.
Defined.
