(* ===== verification/ImportController.v ===== *)
(** * ImportController: the destination side
      ([internal/controller/backupimport_controller.go])

    The manifest bridge that turns committed manifests into BackupImports, and
    the reconciler that imports them.  Log lines are not modelled; an error that
    is only logged is dropped.  [rounds] bounds the polls of [Start]. *)

From S2P Require Import Prelude GoStrings GoJson Api Effects Peat Manifest Objstore Importer Kube.
From stdpp Require Import gmap strings.

Record ImportOptions : Set := {
  io_PeatAddress : string;
  io_InboxRoot : string;
  io_ManifestCollection : string;
  io_Namespace : string;
  io_PollInterval : Z;
  io_DestStore : Config;
  io_SourceEndpointID : string;
  io_SourceAddresses : list string;
  io_SourceRelayURL : string;
}.

(** ** ManifestBridge *)

Definition importName (storageLocation backupName : string) : string :=
  let n := storageLocation +:+ "-" +:+ backupName in
  if (253 <? Z.of_nat (String.length n))%Z then String.substring 0 253 n else n.

Definition zero_BackupImportStatus : BackupImportStatus :=
  {| bi_Phase := ImportUnset; bi_Conditions := []; bi_FilesTotal := 0; bi_FilesImported := 0;
     bi_BytesImported := 0; bi_Committed := false; bi_StartedAt := None; bi_CompletedAt := None;
     bi_RetryCount := 0; bi_ObservedGeneration := 0; bi_LastError := [] |}.

(** the object handed to [CreateOrUpdate] *)
Definition new_import (m : Manifest) (namespace : string) : BackupImport :=
  {| bi_Meta := new_meta (importName (mf_StorageLocation m) (mf_BackupName m)) namespace;
     bi_Spec := {| bis_BackupName := ""; bis_StorageLocation := ""; bis_ManifestDocID := "" |};
     bi_Status := zero_BackupImportStatus |}.

(** its mutate function *)
Definition mutate_import (m : Manifest) (bi : BackupImport) : res BackupImport :=
  Ok {| bi_Meta := bi_Meta bi;
        bi_Spec := {| bis_BackupName := mf_BackupName m;
                      bis_StorageLocation := mf_StorageLocation m;
                      bis_ManifestDocID := DocID (mf_StorageLocation m) (mf_BackupName m) |};
        bi_Status := bi_Status bi |}.

Section Bridge.
Context (opts : ImportOptions).

Definition ensureReversePeer (pc : connectClient) : io unit :=
  if bool_decide (io_SourceEndpointID opts = "") then Ret tt
  else
    _ ← EnsurePeer pc (io_SourceEndpointID opts) (io_SourceAddresses opts)
          (io_SourceRelayURL opts);
    Ret tt.

Definition ensureBackupImport (m : Manifest) : io (option error) :=
  r ← perform (KCreateOrUpdateBackupImport (new_import m (io_Namespace opts))
                 (mutate_import m));
  Ret match r with Er e => Some e | Ok _ => None end.

(** one document of the collection *)
Definition poll_document (pc : connectClient) (id : string) : io unit :=
  d ← GetDocument pc (io_ManifestCollection opts) id;
  match d with
  | Er _ | Ok None => Ret tt
  | Ok (Some data) =>
      match Parse data with
      | Er _ => Ret tt
      | Ok m =>
          if mf_Complete m then _ ← ensureBackupImport m; Ret tt else Ret tt
      end
  end.

Fixpoint poll_documents (pc : connectClient) (ids : list string) : io unit :=
  match ids with
  | [] => Ret tt
  | id :: ids' => _ ← poll_document pc id; poll_documents pc ids'
  end.

Definition poll (pc : connectClient) : io unit :=
  _ ← ensureReversePeer pc;
  ids ← ListDocuments pc (io_ManifestCollection opts);
  match ids with
  | Er _ => Ret tt
  | Ok ids => poll_documents pc ids
  end.

(** the ticker loop, until the context is done *)
Fixpoint poll_loop (rounds : nat) (pc : connectClient) : io unit :=
  match rounds with
  | O => Hang
  | S rounds' =>
      stop ← perform AwaitTick;
      match stop with
      | Some _ => Ret tt
      | None => _ ← poll pc; poll_loop rounds' pc
      end
  end.

(** [time.NewTicker], which panics unless its interval is positive *)
Definition NewTicker {A} (interval : Z) (k : io A) : io A :=
  if bool_decide (interval <= 0)%Z then Panic "non-positive interval for NewTicker" else k.

Definition Start (rounds : nat) : io (option error) :=
  let pc := Peat.New (io_PeatAddress opts) in
  NewTicker (io_PollInterval opts) (
    _ ← poll pc;
    _ ← poll_loop rounds pc;
    Ret None).
End Bridge.

(** ** BackupImportReconciler *)

Definition with_import_status (bi : BackupImport) (s : BackupImportStatus) : BackupImport :=
  {| bi_Meta := bi_Meta bi; bi_Spec := bi_Spec bi; bi_Status := s |}.

Definition setImportPhase (bi : BackupImport) (p : ImportPhase) : BackupImport :=
  let s := bi_Status bi in
  with_import_status bi
    {| bi_Phase := p; bi_Conditions := bi_Conditions s; bi_FilesTotal := bi_FilesTotal s;
       bi_FilesImported := bi_FilesImported s; bi_BytesImported := bi_BytesImported s;
       bi_Committed := bi_Committed s; bi_StartedAt := bi_StartedAt s;
       bi_CompletedAt := bi_CompletedAt s; bi_RetryCount := bi_RetryCount s;
       bi_ObservedGeneration := om_Generation (bi_Meta bi); bi_LastError := bi_LastError s |}.

Definition set_import_error (bi : BackupImport) (msg : text) (retries : Z) : BackupImport :=
  let s := bi_Status bi in
  with_import_status bi
    {| bi_Phase := bi_Phase s; bi_Conditions := bi_Conditions s;
       bi_FilesTotal := bi_FilesTotal s; bi_FilesImported := bi_FilesImported s;
       bi_BytesImported := bi_BytesImported s; bi_Committed := bi_Committed s;
       bi_StartedAt := bi_StartedAt s; bi_CompletedAt := bi_CompletedAt s;
       bi_RetryCount := retries; bi_ObservedGeneration := bi_ObservedGeneration s;
       bi_LastError := msg |}.

(** the start of an import pass: [StartedAt], phase Importing, [FilesTotal] *)
Definition begin_import (bi : BackupImport) (startedAt : option Z) (filesTotal : Z)
  : BackupImport :=
  let s := bi_Status bi in
  setImportPhase
    (with_import_status bi
       {| bi_Phase := bi_Phase s; bi_Conditions := bi_Conditions s;
          bi_FilesTotal := filesTotal; bi_FilesImported := bi_FilesImported s;
          bi_BytesImported := bi_BytesImported s; bi_Committed := bi_Committed s;
          bi_StartedAt := startedAt; bi_CompletedAt := bi_CompletedAt s;
          bi_RetryCount := bi_RetryCount s; bi_ObservedGeneration := bi_ObservedGeneration s;
          bi_LastError := bi_LastError s |}) ImportImporting.

(** the counts of a pass *)
Definition set_import_counts (bi : BackupImport) (res : Result) : BackupImport :=
  let s := bi_Status bi in
  with_import_status bi
    {| bi_Phase := bi_Phase s; bi_Conditions := bi_Conditions s;
       bi_FilesTotal := bi_FilesTotal s; bi_FilesImported := rs_FilesImported res;
       bi_BytesImported := rs_BytesImported res; bi_Committed := bi_Committed s;
       bi_StartedAt := bi_StartedAt s; bi_CompletedAt := bi_CompletedAt s;
       bi_RetryCount := bi_RetryCount s; bi_ObservedGeneration := bi_ObservedGeneration s;
       bi_LastError := bi_LastError s |}.

(** [CompletedAt], [Committed] and phase Imported *)
Definition set_committed (bi : BackupImport) (now : Z) : BackupImport :=
  let s := bi_Status bi in
  setImportPhase
    (with_import_status bi
       {| bi_Phase := bi_Phase s; bi_Conditions := bi_Conditions s;
          bi_FilesTotal := bi_FilesTotal s; bi_FilesImported := bi_FilesImported s;
          bi_BytesImported := bi_BytesImported s; bi_Committed := true;
          bi_StartedAt := bi_StartedAt s; bi_CompletedAt := Some now;
          bi_RetryCount := bi_RetryCount s; bi_ObservedGeneration := bi_ObservedGeneration s;
          bi_LastError := bi_LastError s |}) ImportImported.

Section Reconciler.
Context `{M : ApiMachinery} (opts : ImportOptions).

Definition set_import_ready (bi : BackupImport) (status : ConditionStatus) (reason : string)
    (message : text) : BackupImport :=
  let s := bi_Status bi in
  with_import_status bi
    {| bi_Phase := bi_Phase s;
       bi_Conditions := SetStatusCondition (bi_Conditions s)
                          (ready status reason message (om_Generation (bi_Meta bi)));
       bi_FilesTotal := bi_FilesTotal s; bi_FilesImported := bi_FilesImported s;
       bi_BytesImported := bi_BytesImported s; bi_Committed := bi_Committed s;
       bi_StartedAt := bi_StartedAt s; bi_CompletedAt := bi_CompletedAt s;
       bi_RetryCount := bi_RetryCount s; bi_ObservedGeneration := bi_ObservedGeneration s;
       bi_LastError := bi_LastError s |}.

(** update the status; requeue when that worked *)
Definition update_and_requeue (bi : BackupImport) : io reconciled :=
  r ← perform (KStatusUpdateBackupImport bi);
  Ret match r with Er e => failed e | Ok _ => requeue end.

Definition update_and_stop (bi : BackupImport) : io reconciled :=
  r ← perform (KStatusUpdateBackupImport bi);
  Ret match r with Er e => failed e | Ok _ => done end.

Definition importWait (bi : BackupImport) (reason : string) (msg : text) : io reconciled :=
  update_and_requeue (set_import_ready bi ConditionFalse reason msg).

Definition importTransient (bi : BackupImport) (reason : string) (cause : error)
  : io reconciled :=
  let bi := set_import_error bi (Error cause) (int32 (bi_RetryCount (bi_Status bi) + 1)) in
  update_and_requeue (set_import_ready bi ConditionFalse reason (Error cause)).

Definition importFailed (bi : BackupImport) (reason : string) (cause : error) : io reconciled :=
  let bi := set_import_error bi (Error cause) (bi_RetryCount (bi_Status bi)) in
  update_and_stop
    (set_import_ready (setImportPhase bi ImportFailed) ConditionFalse reason (Error cause)).

(** steps 3 and 4: one import pass and its outcome *)
Definition import_pass (bi : BackupImport) (m : Manifest) (ms : minioStore) : io reconciled :=
  started ← (match bi_StartedAt (bi_Status bi) with
             | Some t => Ret (Some t)
             | None => now ← perform TimeNow; Ret (Some now)
             end);
  let total := Z.of_nat (length (mf_Files m)) in
  let bi := begin_import bi started total in
  '(res, err) ← Import (io_InboxRoot opts) (as_Store ms) m;
  match err with
  | Some e => importTransient bi "ImportFailed" e
  | None =>
      let bi := set_import_counts bi res in
      if rs_Committed res then
        now ← perform TimeNow;
        update_and_stop
          (set_import_ready (set_committed bi now) ConditionTrue "Imported"
             [FStr "backup reconstructed into destination store and committed"])
      else
        update_and_requeue
          (set_import_ready bi ConditionFalse "AwaitingBytes"
             [FInt (rs_FilesImported res); FStr "/"; FInt total; FStr " files imported, ";
              FInt (rs_Pending res); FStr " pending"])
  end.

Definition terminal_import (p : ImportPhase) : bool :=
  match p with ImportImported | Api.ImportFailed => true | _ => false end.

(** steps 1 and 2: the manifest and the destination store *)
Definition fetch_and_import (bi : BackupImport) : io reconciled :=
  let pc := Peat.New (io_PeatAddress opts) in
  d ← GetDocument pc (io_ManifestCollection opts) (bis_ManifestDocID (bi_Spec bi));
  match d with
  | Er e => importTransient bi "ManifestFetchFailed" e
  | Ok None =>
      importWait (setImportPhase bi ImportPending) "ManifestNotSynced"
        [FStr "manifest document not yet synced from source"]
  | Ok (Some data) =>
      match Parse data with
      | Er e => importFailed bi "ManifestParseFailed" e
      | Ok m =>
          if mf_Complete m then
            store ← Objstore.New (io_DestStore opts);
            match store with
            | Er e => importTransient bi "DestStoreInitFailed" e
            | Ok ms => import_pass bi m ms
            end
          else
            importWait (setImportPhase bi ImportPending) "ManifestIncomplete"
              [FStr "source has not committed the manifest yet"]
      end
  end.

Definition Reconcile (req : NamespacedName) : io reconciled :=
  b ← perform (KGetBackupImport req);
  match b with
  | Er e => Ret (no_requeue, IgnoreNotFound e)
  | Ok bi =>
      if being_deleted (bi_Meta bi) then Ret done
      else if terminal_import (bi_Phase (bi_Status bi)) then Ret done
      else fetch_and_import bi
  end.
End Reconciler.

(** ** Polls and reconcile passes return *)

Lemma completes_poll_document opts pc id : completes (poll_document opts pc id).
Proof. unfold poll_document, ensureBackupImport. completes_steps. Qed.
#[export] Hint Resolve completes_poll_document : completes.

Lemma completes_poll_documents opts pc ids : completes (poll_documents opts pc ids).
Proof. induction ids; cbn [poll_documents]; completes_steps. Qed.
#[export] Hint Resolve completes_poll_documents : completes.

Lemma completes_poll opts pc : completes (poll opts pc).
Proof. unfold poll, ensureReversePeer. completes_steps. Qed.

(** the bridge runs out of rounds only after as many ticks of its timer *)
Lemma returns_poll_loop opts rounds pc h :
  returns (fun h' => ticks h + rounds <= ticks h') (poll_loop opts rounds pc) h.
Proof.
  revert h. induction rounds as [|rounds IH]; intros h; cbn [poll_loop]; [cbn; lia|].
  intros [e|]; cbn [io_bind]; [done|].
  apply (returns_bind _ (poll opts pc)); [apply completes_returns, completes_poll|].
  intros h1 _ Hh1%ticks_extends.
  eapply returns_weaken; [|apply IH]. intros h' Hh'. cbn in Hh'. unfold ticks in *. cbn in Hh1. lia.
Qed.

Section Completes.
Context `{M : ApiMachinery} (opts : ImportOptions).

Lemma completes_update_and_requeue bi : completes (update_and_requeue bi).
Proof. unfold update_and_requeue. completes_steps. Qed.

Lemma completes_update_and_stop bi : completes (update_and_stop bi).
Proof. unfold update_and_stop. completes_steps. Qed.
Hint Resolve completes_update_and_requeue completes_update_and_stop : completes.

Lemma completes_importTransient bi reason e : completes (importTransient bi reason e).
Proof. unfold importTransient. completes_steps. Qed.

Lemma completes_importWait bi reason msg : completes (importWait bi reason msg).
Proof. unfold importWait. completes_steps. Qed.

Lemma completes_importFailed bi reason e : completes (importFailed bi reason e).
Proof. unfold importFailed. completes_steps. Qed.
Hint Resolve completes_importTransient completes_importWait completes_importFailed : completes.

Lemma completes_import_pass bi m ms : completes (import_pass opts bi m ms).
Proof.
  unfold import_pass. apply completes_bind; [destruct (bi_StartedAt _); completes_steps|].
  intros started. apply completes_bind; [apply completes_Import, _|]. intros [res err].
  completes_steps.
Qed.
Hint Resolve completes_import_pass : completes.

Lemma completes_import_Reconcile req : completes (Reconcile opts req).
Proof. unfold Reconcile, fetch_and_import. completes_steps. Qed.
End Completes.

(** ** What an import reconcile does, whatever the outside answers *)

(** calls that write neither an import nor the destination store *)
Definition quiet (c : call) : Prop :=
  match c with
  | KStatusUpdateBackupImport _ | KCreateOrUpdateBackupImport _ _ | MinioPutObject _ _ _ _ _ _ => False
  | _ => True
  end.

(** calls of a pass over the inbox and the store *)
Definition not_kube (c : call) : Prop :=
  match c with
  | KStatusUpdateBackupImport _ | KCreateOrUpdateBackupImport _ _ => False
  | _ => True
  end.

Lemma hashFile_not_kube p : only not_kube (hashFile p).
Proof. unfold hashFile. only_steps. Qed.

Lemma find_candidate_not_kube e cands : only not_kube (find_candidate e cands).
Proof.
  induction cands as [|c cands IH]; cbn [find_candidate]; only_steps; try exact IH.
  apply hashFile_not_kube.
Qed.

Lemma locate_not_kube root e idx : only not_kube (locate root e idx).
Proof.
  unfold locate, fileExists, get_index, newInboxIndex. only_steps. apply find_candidate_not_kube.
Qed.

Lemma importOne_not_kube root ms e idx : only not_kube (importOne root (as_Store ms) e idx).
Proof.
  unfold importOne, verify, put_from. cbn [as_Store st_Stat st_Put]. unfold Stat, Put.
  only_steps; first [apply locate_not_kube | apply hashFile_not_kube].
Qed.

Lemma data_loop_not_kube root ms l idx res commit :
  only not_kube (data_loop root (as_Store ms) l idx res commit).
Proof.
  revert idx res commit. induction l as [|e l IH]; intros idx res commit; cbn [data_loop];
    only_steps; first [apply IH | apply importOne_not_kube].
Qed.

Lemma commit_loop_not_kube root ms l idx res : only not_kube (commit_loop root (as_Store ms) l idx res).
Proof.
  revert idx res. induction l as [|e l IH]; intros idx res; cbn [commit_loop];
    only_steps; first [apply IH | apply importOne_not_kube].
Qed.

Lemma Import_not_kube root ms m : only not_kube (Import root (as_Store ms) m).
Proof.
  unfold Import. only_steps; first [apply data_loop_not_kube | apply commit_loop_not_kube].
Qed.

Lemma New_import_quiet cfg : only quiet (Objstore.New cfg).
Proof. unfold Objstore.New, tls_options. only_steps. Qed.

Section Documents.
#[local] Arguments safe : simpl never.
Context (c : connectClient) (collection : string).

Definition document_call (id : string) : call :=
  HttpPost (cc_baseURL c +:+ svcPath +:+ "GetDocument")
    (print (json_map [("collection", JStr collection); ("docId", JStr id)])).

(** the sidecar answered the document *)
Definition fetched (h : history) (id data : string) : Prop :=
  exists status body, Ev (document_call id) (HttpReply status body) ∈ h /\ success status /\
    Unmarshal get_document_reply None body = (Some data, None).

Lemma fetched_mono h h' id data : extends h h' -> fetched h id data -> fetched h' id data.
Proof. unfold fetched. naive_solver eauto using extends_in. Qed.

Lemma GetDocument_safe id h :
  safe (fun _ => quiet) (GetDocument c collection id) h
    (fun h' r => forall data, r = Ok (Some data) -> fetched h' id data).
Proof.
  unfold GetDocument, rpc, post. cbn [perform mbind io_mbind io_bind]. apply safe_call; [done|].
  intros r. apply safe_ret. intros data Hd. destruct r as [e|e|status body]; [done..|].
  case_bool_decide as Hs; [done|]. cbn in Hd.
  destruct (Unmarshal _ _ body) as [d [e|]] eqn:E; [done|]. injection Hd as ->.
  exists status, body. split_and!; [constructor|done|done].
Qed.
End Documents.

Section ReconcileSafety.
#[local] Arguments safe : simpl never.
Context `{M : ApiMachinery} (opts : ImportOptions).

Abbreviation pc := (Peat.New (io_PeatAddress opts)).

(** the sidecar answered the import's manifest, of a supported schema and marked
    complete *)
Definition manifest_of (h : history) (bi : BackupImport) (m : Manifest) : Prop :=
  mf_Complete m = true /\
  exists data, fetched pc (io_ManifestCollection opts) h (bis_ManifestDocID (bi_Spec bi)) data /\
    Parse data = Ok m.

(** a Go slice has fewer elements *)
Definition small (m : Manifest) : Prop := (Z.of_nat (length (mf_Files m)) < 2 ^ 63)%Z.

(** the writes an import reconcile may make after a history *)
Definition reconcile_call (h : history) (c : call) : Prop :=
  match c with
  | KStatusUpdateBackupImport bi =>
      match bi_Phase (bi_Status bi) with
      | ImportImported =>
          bi_Committed (bi_Status bi) = true /\
          exists m ms, manifest_of h bi m /\
            bi_FilesTotal (bi_Status bi) = Z.of_nat (length (mf_Files m)) /\
            (small m -> forall e, e ∈ mf_Files m -> present (as_Store ms) h e)
      | Api.ImportFailed =>
          exists data e, fetched pc (io_ManifestCollection opts) h
                           (bis_ManifestDocID (bi_Spec bi)) data /\
            Parse data = Er e /\ bi_LastError (bi_Status bi) = Error e
      | _ => True
      end
  | MinioPutObject _ _ _ _ _ _ =>
      exists bi m ms, manifest_of h bi m /\
        (small m -> import_call (io_InboxRoot opts) (as_Store ms) (mf_Files m) h c)
  | KCreateOrUpdateBackupImport _ _ => False
  | _ => True
  end.

Lemma quiet_import h c : quiet c -> reconcile_call h c.
Proof. by destruct c. Qed.

(** phases that may be written at any time *)
Definition open_phase (p : ImportPhase) : Prop := terminal_import p = false.

Lemma import_update_safe bi h (K : res BackupImport -> reconciled) :
  reconcile_call h (KStatusUpdateBackupImport bi) ->
  safe reconcile_call (x ← perform (KStatusUpdateBackupImport bi); Ret (K x)) h (fun _ _ => True).
Proof. intros H. by apply safe_call. Qed.

Lemma open_update bi h :
  open_phase (bi_Phase (bi_Status bi)) -> reconcile_call h (KStatusUpdateBackupImport bi).
Proof. unfold open_phase. cbn. by destruct (bi_Phase (bi_Status bi)). Qed.

Lemma importTransient_safe bi reason e h :
  open_phase (bi_Phase (bi_Status bi)) ->
  safe reconcile_call (importTransient bi reason e) h (fun _ _ => True).
Proof. intros Ho. by apply import_update_safe, open_update. Qed.

Lemma importWait_safe bi reason msg h :
  open_phase (bi_Phase (bi_Status bi)) ->
  safe reconcile_call (importWait bi reason msg) h (fun _ _ => True).
Proof. intros Ho. by apply import_update_safe, open_update. Qed.

Lemma Import_reconcile bi m ms h :
  manifest_of h bi m ->
  safe reconcile_call (Import (io_InboxRoot opts) (as_Store ms) m) h (fun h' r =>
    rs_Committed r.1 = true -> small m -> forall e, e ∈ mf_Files m -> present (as_Store ms) h' e).
Proof.
  intros Hm.
  assert (forall h', extends h h' -> manifest_of h' bi m) as Hm'.
  { intros h' Hh. destruct Hm as [? (data & ? & ?)]. split; [done|]. exists data.
    split; [by eapply fetched_mono|done]. }
  assert (forall Q (P : history -> call -> Prop), (forall h' c, not_kube c -> P h' c ->
      extends h h' -> reconcile_call h' c) ->
    safe P (Import (io_InboxRoot opts) (as_Store ms) m) h Q ->
    safe reconcile_call (Import (io_InboxRoot opts) (as_Store ms) m) h Q) as Hlift.
  { intros Q P HP HI.
    eapply safe_guard;
      [eapply safe_guards; [apply Import_not_kube|apply safe_since; [reflexivity|exact HI]]|].
    intros h' c (? & ? & ?). by apply HP. }
  destruct (decide (small m)) as [Hs|Hs].
  - eapply safe_post; [eapply Hlift; [|by apply (Import_safe _ _ (mf_Files m))]|].
    + intros h' c Hk HP Hh. destruct c; try done. exists bi, m, ms. split; [by apply Hm'|done].
    + intros h' r Hr Hc _. by apply Hr.
  - eapply (Hlift _ (fun _ _ => True)).
    + intros h' c Hk _ Hh. destruct c; try done. exists bi, m, ms. split; [by apply Hm'|done].
    + eapply safe_post; [eapply safe_guard; [apply Import_not_kube|done]|]. done.
Qed.

Lemma import_pass_safe bi m ms h :
  open_phase (bi_Phase (bi_Status bi)) -> manifest_of h bi m ->
  safe reconcile_call (import_pass opts bi m ms) h (fun _ _ => True).
Proof.
  intros Ho Hm. unfold import_pass.
  eapply (safe_then_extends _ _ _ _ (fun _ _ => True)).
  { destruct (bi_StartedAt _); [by apply safe_ret|]. by apply safe_call. }
  intros h1 started _ Hh1. set (bi1 := begin_import bi started _).
  assert (manifest_of h1 bi1 m) as Hm1.
  { destruct Hm as [? (data & ? & ?)]. split; [done|]. exists data.
    split; [by eapply fetched_mono|done]. }
  eapply safe_then_extends; [by apply (Import_reconcile bi1)|].
  intros h2 [res err] Hr Hh2. destruct err as [e|]; [by apply importTransient_safe|].
  cbn in Hr. destruct (rs_Committed res) eqn:Hc; [|by apply import_update_safe, open_update].
  apply safe_call; [done|]. intros now. apply import_update_safe. cbn. split; [done|].
  exists m, ms. split_and!; [|done|].
  - destruct Hm1 as [? (data & ? & ?)]. split; [done|]. exists data. split; [|done].
    eapply fetched_mono; [|done]. etrans; [exact Hh2|apply extends_cons].
  - intros Hs e He. apply (minio_holds_mono ms h2); [apply extends_cons|by apply Hr].
Qed.

Lemma import_Reconcile_safe req h :
  safe reconcile_call (Reconcile opts req) h (fun _ _ => True).
Proof.
  unfold Reconcile. apply safe_call; [done|]. intros [bi|e]; cbn [io_bind]; [|by apply safe_ret].
  destruct (being_deleted _); [by apply safe_ret|].
  destruct (terminal_import _) eqn:Ho; [by apply safe_ret|]. unfold fetch_and_import.
  eapply safe_then_extends; [eapply safe_guard; [apply GetDocument_safe|apply quiet_import]|].
  intros h1 [[data|]|e] Hd Hh1; [|by apply importWait_safe|by apply importTransient_safe].
  specialize (Hd data eq_refl). destruct (Parse data) as [m|e] eqn:Hp.
  2:{ apply import_update_safe. cbn. exists data, e. split_and!; done. }
  destruct (mf_Complete m) eqn:Hcomp; [|by apply importWait_safe].
  eapply safe_then_extends; [eapply safe_guard; [apply New_import_quiet|apply quiet_import]|].
  intros h2 [ms|e] _ Hh2; [|by apply importTransient_safe].
  apply import_pass_safe; [done|]. split; [done|]. exists data.
  split; [by eapply fetched_mono|done].
Qed.
End ReconcileSafety.

(** C19: what an import reconcile writes, whatever the outside answers: phase
    Imported (with [Committed] set and all files counted) only after the sidecar
    answered a complete manifest of the supported schema and every file of it is
    known to be in the destination store; phase Failed only for a manifest that
    was fetched and could not be parsed, with that error; objects only by an
    import pass over such a manifest, each from a verified inbox file and the
    discovery object last; and no BackupImport is created.  The pass always comes
    to a result. *)
Theorem Reconcile_imports `{M : ApiMachinery} opts req h :
  completes (Reconcile opts req) /\
  safe (reconcile_call opts) (Reconcile opts req) h (fun _ _ => True).
Proof. split; [apply completes_import_Reconcile|apply import_Reconcile_safe]. Qed.

(** two backups of different locations whose BackupImports have one name *)
Lemma importName_collides :
  importName "prod" "east-nightly" = importName "prod-east" "nightly" /\
  DocID "prod" "east-nightly" <> DocID "prod-east" "nightly".
Proof. by vm_compute. Qed.

(** ** What the bridge creates *)

Section PollSafety.
#[local] Arguments safe : simpl never.
Context (opts : ImportOptions) (c : connectClient).

(** a BackupImport for a complete manifest that the sidecar answered *)
Definition imports (h : history) (call : call) : Prop :=
  exists id data m obj mutate,
    fetched c (io_ManifestCollection opts) h id data /\ Parse data = Ok m /\
    mf_Complete m = true /\ call = KCreateOrUpdateBackupImport obj mutate /\
    om_Name (bi_Meta obj) = importName (mf_StorageLocation m) (mf_BackupName m) /\
    om_Namespace (bi_Meta obj) = io_Namespace opts /\
    forall bi bi', mutate bi = Ok bi' -> bi_Meta bi' = bi_Meta bi /\ bi_Status bi' = bi_Status bi /\
      bi_Spec bi' = {| bis_BackupName := mf_BackupName m;
                       bis_StorageLocation := mf_StorageLocation m;
                       bis_ManifestDocID := DocID (mf_StorageLocation m) (mf_BackupName m) |}.

Definition poll_call (h : history) (call : call) : Prop := quiet call \/ imports h call.

Lemma EnsurePeer_quiet pc id addrs relay : only quiet (EnsurePeer pc id addrs relay).
Proof. unfold EnsurePeer, rpc_nil, post. only_steps. Qed.

Lemma ListDocuments_quiet pc coll : only quiet (ListDocuments pc coll).
Proof. unfold ListDocuments, rpc, post. only_steps. Qed.

Lemma only_poll {A B} (m : io A) (f : A -> io B) h Q :
  only quiet m -> (forall h' a, safe poll_call (f a) h' Q) -> safe poll_call (m ≫= f) h Q.
Proof.
  intros Hm Hf. eapply safe_then; [eapply safe_guard; [apply Hm|by left]|].
  intros h' a _. apply Hf.
Qed.

Lemma poll_document_safe id h :
  safe poll_call (poll_document opts c id) h (fun _ _ => True).
Proof.
  unfold poll_document. eapply safe_then; [eapply safe_guard; [apply GetDocument_safe|by left]|].
  intros h1 [[data|]|e] Hd; [|by apply safe_ret..]. specialize (Hd data eq_refl).
  destruct (Parse data) as [m|e] eqn:Hp; [|by apply safe_ret].
  destruct (mf_Complete m) eqn:Hc; [|by apply safe_ret].
  unfold ensureBackupImport. cbn [perform mbind io_mbind io_bind]. apply safe_call; [|done].
  right. exists id, data, m, (new_import m (io_Namespace opts)), (mutate_import m).
  split_and!; [done..|]. by intros bi bi' [= <-].
Qed.

Lemma poll_documents_safe ids h :
  safe poll_call (poll_documents opts c ids) h (fun _ _ => True).
Proof.
  revert h. induction ids as [|id ids IH]; intros h; cbn [poll_documents]; [by apply safe_ret|].
  eapply safe_then; [apply poll_document_safe|]. intros h1 [] _. apply IH.
Qed.
End PollSafety.

Section BridgeSafety.
#[local] Arguments safe : simpl never.
Context (opts : ImportOptions) (c : connectClient).

Lemma poll_safe h : safe (poll_call opts c) (poll opts c) h (fun _ _ => True).
Proof.
  unfold poll. apply only_poll.
  { unfold ensureReversePeer. only_steps. apply EnsurePeer_quiet. }
  intros h1 []. apply only_poll; [apply ListDocuments_quiet|].
  intros h2 [ids|e]; [apply poll_documents_safe|by apply safe_ret].
Qed.

Lemma poll_loop_safe rounds h :
  safe (poll_call opts c) (poll_loop opts rounds c) h
    (fun h' _ => exists e, Ev AwaitTick (Some e) ∈ h').
Proof.
  revert h. induction rounds as [|rounds IH]; intros h; cbn [poll_loop]; [done|].
  apply safe_call; [by left|]. intros [e|]; cbn [io_bind].
  { apply safe_ret. exists e. constructor. }
  apply (safe_then _ (poll opts c) _ _ (fun _ _ => True)); [apply poll_safe|]. intros h1 [] _. apply IH.
Qed.
End BridgeSafety.

(** C34: the manifest bridge creates or updates a BackupImport only for a document
    that the sidecar answered, that parses under the supported schema and is
    marked complete; the object has the name of the manifest's location and backup
    in the configured namespace, and only its spec is set, to the backup and
    document the manifest names.  The bridge writes nothing else.  With a positive
    poll interval it returns only when its context is done, without an error, and
    every poll comes to its end: [rounds] rounds run out only after as many ticks of
    its timer.  With any other interval it panics before its first call. *)
Theorem Start_creates opts rounds h :
  safe (poll_call opts (Peat.New (io_PeatAddress opts))) (Start opts rounds) h
    (fun h' r => r = None /\ exists e, Ev AwaitTick (Some e) ∈ h') /\
  (if bool_decide (0 < io_PollInterval opts)%Z
   then returns (fun h' => ticks h + rounds <= ticks h') (Start opts rounds) h
   else exists what, Start opts rounds = Panic what).
Proof.
  unfold Start, NewTicker. set (pc := Peat.New (io_PeatAddress opts)).
  case_bool_decide as Hi; [rewrite bool_decide_eq_false_2 by lia; split; [done|by eexists]|].
  rewrite bool_decide_eq_true_2 by lia. split.
  - eapply safe_then; [apply poll_safe|]. intros h1 [] _.
    eapply safe_then; [apply poll_loop_safe|]. intros h2 [] He. by apply safe_ret.
  - apply (returns_bind _ (poll opts pc)); [apply completes_returns, completes_poll|].
    intros h1 _ Hh1%ticks_extends. apply returns_bind; [|done].
    eapply returns_weaken; [|apply returns_poll_loop]. intros h' Hh'. cbn in Hh'. lia.
Qed.

(** ** A bridge that polls twice

    The sidecar has a committed manifest, one that is not yet, and a document that
    is none. *)

Definition bridge_manifest (name : string) (complete : bool) : Manifest :=
  {| mf_SchemaVersion := SchemaVersion; mf_BackupName := name; mf_StorageLocation := "default";
     mf_BSLPrefix := ""; mf_ObjectCount := 0; mf_TotalBytes := 0; mf_CompletedAt := "";
     mf_Complete := complete; mf_Files := [] |}.

Definition bridge_document (id : string) : string :=
  if bool_decide (id = "d1") then print (manifest_json (bridge_manifest "b1" true))
  else if bool_decide (id = "d2") then print (manifest_json (bridge_manifest "b2" false))
  else "{".

Definition bridge_request (id : string) : string :=
  print (json_map [("collection", JStr "manifests"); ("docId", JStr id)]).

Definition bridge_reply (url body : string) : string :=
  if HasSuffix url "ListDocuments"
  then print (JObj [("docIds", JArr [JStr "d1"; JStr "d2"; JStr "d3"])])
  else print (JObj [("jsonData", JStr (bridge_document
         (if bool_decide (body = bridge_request "d1") then "d1"
          else if bool_decide (body = bridge_request "d2") then "d2" else "d3")))]).

Definition bridge_server : handler nat := fun c n =>
  match c as c return resp c * nat with
  | AwaitTick => match n with O => (Some unavailable, O) | S n => (None, n) end
  | HttpPost url body => (HttpReply 200 (bridge_reply url body), n)
  | KCreateOrUpdateBackupImport _ _ => (Ok OperationResultCreated, n)
  | c => (refuse c, n)
  end.

Definition bridge_options : ImportOptions :=
  {| io_PeatAddress := "localhost:50051"; io_InboxRoot := "/inbox";
     io_ManifestCollection := "manifests"; io_Namespace := "velero"; io_PollInterval := 1;
     io_DestStore := {| cfg_Endpoint := ""; cfg_Region := ""; cfg_Bucket := ""; cfg_Prefix := "";
       cfg_ForcePathStyle := false; cfg_AccessKeyID := ""; cfg_SecretAccessKey := "";
       cfg_SessionToken := ""; cfg_CABundle := ""; cfg_InsecureTLS := false |};
     io_SourceEndpointID := ""; io_SourceAddresses := []; io_SourceRelayURL := "" |}.

Definition import_named (x : event) : option string :=
  match ev_call x with
  | KCreateOrUpdateBackupImport bi _ => Some (om_Name (bi_Meta bi))
  | _ => None
  end.

Lemma Start_creates_witness : exists h,
  run bridge_server (Start bridge_options 2) 1 [] = Some (None, 0, h) /\
  omap import_named h = ["default-b1"; "default-b1"] /\ exists e, Ev AwaitTick (Some e) ∈ h.
Proof.
  destruct (Start_creates bridge_options 2 []) as [Hs _].
  destruct (run bridge_server (Start bridge_options 2) 1 []) as [[[r n] h]|] eqn:E;
    [|vm_compute in E; discriminate E].
  destruct (run_safe _ _ _ _ _ _ _ _ _ Hs E) as [-> He]. exists h.
  assert (n = 0) as -> by (vm_compute in E; injection E as <- _; reflexivity).
  split; [reflexivity|]. split; [|exact He].
  vm_compute in E. injection E as <-. vm_compute. reflexivity.
Defined.
