(* ===== verification/Requeue.v ===== *)
(** * Requeue: nothing is forgotten

    controller-runtime runs a reconcile again when it asks for it ([RequeueAfter])
    or returns an error, and otherwise not before the object changes.  Whatever the
    outside answers, the two long-running reconcilers leave the queue only when
    nothing is left to do. *)

From stdpp Require Import gmap strings.
From S2P Require Import Prelude GoStrings Api Effects Peat Manifest Objstore Staging Importer.
From S2P Require Import Ledger Kube ReplicationController ImportController.

(** the manager will run the reconcile again *)
Definition keeps_going (r : reconciled) : Prop := (0 < RequeueAfter r.1)%Z \/ r.2 <> None.

Lemma keeps_going_requeue : keeps_going requeue.
Proof. by left. Qed.

Lemma keeps_going_failed e : keeps_going (failed e).
Proof. by right. Qed.

#[local] Hint Resolve keeps_going_requeue keeps_going_failed : core.

(** whatever happens in [m], what follows holds after it *)
Lemma safe_after {A B} (m : io A) (f : A -> io B) h Q :
  (forall h' a, extends h h' -> safe any_call (f a) h' Q) -> safe any_call (m ≫= f) h Q.
Proof. intros Hf. eapply safe_then; [apply safe_grows|]. intros h' a Hh. by apply Hf. Qed.

Section Requeue.
#[local] Arguments safe : simpl never.
Context `{M : ApiMachinery}.

(** ** Replications *)

(** the object is gone or being deleted, or the API server has it in a terminal
    phase *)
Definition replication_settled (req : NamespacedName) (h : history) : Prop :=
  (exists e, Ev (KGetBackupReplication req) (Er e) ∈ h /\ IsNotFound e = true) \/
  (exists br, Ev (KGetBackupReplication req) (Ok br) ∈ h /\
     (being_deleted (br_Meta br) = true \/ terminal_phase (br_Phase (br_Status br)) = true)) \/
  (exists br r, Ev (KStatusUpdateBackupReplication br) (Ok r) ∈ h /\
     (br_Phase (br_Status br) = PhaseReplicated \/ br_Phase (br_Status br) = PhaseSkipped)).

Definition replication_open (req : NamespacedName) (h : history) (r : reconciled) : Prop :=
  keeps_going r \/ replication_settled req h.

Lemma update_requeues req br h :
  safe any_call (ReplicationController.update br requeue.1) h (replication_open req).
Proof. apply safe_call; [done|]. intros [b|e]; apply safe_ret; left; eauto. Qed.

Lemma transientErr_requeues req br reason e h :
  safe any_call (transientErr br reason e) h (replication_open req).
Proof. apply update_requeues. Qed.

Lemma degrade_requeues req br reason msg h :
  safe any_call (degrade br reason msg) h (replication_open req).
Proof. apply update_requeues. Qed.
Hint Resolve transientErr_requeues degrade_requeues : core.

(** the update that ends a replication *)
Lemma terminal_update_settles req br h :
  br_Phase (br_Status br) = PhaseReplicated \/ br_Phase (br_Status br) = PhaseSkipped ->
  safe any_call (return_update br no_requeue) h (replication_open req).
Proof.
  intros Hp. apply safe_call; [done|]. intros [b|e]; apply safe_ret; [|left; by right].
  right. right. right. exists br, b. split; [constructor|done].
Qed.

Lemma transmit_requeues fuel req br spec store prefix keys batches total h :
  safe any_call (transmit fuel br spec store prefix keys batches total) h (replication_open req).
Proof.
  unfold transmit. apply safe_after. intros h1 [e|] _; [done|]. apply safe_after.
  intros h2 [[st pc]|[reason e]] _; [|done]. destruct (ss_AllDone st).
  - unfold finish. apply safe_call; [done|]. intros now. apply safe_after. intros h3 [e|] _; [done|].
    apply safe_after. intros h4 [e|] _; [done|]. apply terminal_update_settles. by left.
  - apply safe_call; [done|]. intros [b|e]; apply safe_ret; left; by left.
Qed.

Lemma stage_and_send_requeues fuel req br spec store prefix keys h :
  safe any_call (stage_and_send fuel br spec store prefix keys) h (replication_open req).
Proof.
  unfold stage_and_send. apply safe_after. intros h1 [[specs total]|e] _; [|done].
  apply safe_call; [done|]. intros [b|e]; [apply transmit_requeues|apply safe_ret; left; eauto].
Qed.

Lemma replicate_requeues fuel req br policy h :
  safe any_call (replicate fuel br policy) h (replication_open req).
Proof.
  unfold replicate. apply safe_after. intros h1 br1 _. apply safe_after. intros h2 [cfg|e] _; [|done].
  apply safe_after. intros h3 [ms|e] _; [|done]. apply safe_after. intros h4 [keys|e] _; [|done].
  destruct keys as [|k keys]; [|apply stage_and_send_requeues].
  apply terminal_update_settles. by right.
Qed.

(** C21: whatever the outside answers, a reconcile of a BackupReplication that ends
    without an error and without asking to be run again has found the object gone,
    being deleted or in a terminal phase, or has seen the API server accept its own
    update to Replicated or Skipped.  So no failure on the way, in the store, the
    outbox, the sidecar, the ledger or the API server, takes a replication that is
    not finished off the queue. *)
Theorem replication_requeues fuel req h :
  safe any_call (ReplicationController.Reconcile fuel req) h (fun h' r =>
    keeps_going r \/ replication_settled req h').
Proof.
  unfold ReplicationController.Reconcile. apply safe_call; [done|]. intros [br|e]; cbn [io_bind].
  2:{ apply safe_ret. unfold IgnoreNotFound. destruct (IsNotFound e) eqn:He; [|left; by right].
      right. left. exists e. split; [constructor|done]. }
  destruct (being_deleted _) eqn:Hd.
  { apply safe_ret. right. right. left. exists br. split; [constructor|by left]. }
  destruct (terminal_phase _) eqn:Ht.
  { apply safe_ret. right. right. left. exists br. split; [constructor|by right]. }
  apply safe_call; [done|]. intros [policy|e]; cbn [io_bind].
  - destruct (rp_Paused _); [apply safe_ret; by left; left|apply replicate_requeues].
  - destruct (IsNotFound e); [apply degrade_requeues|apply safe_ret; left; by right].
Qed.

(** ** Imports *)

Definition import_settled (req : NamespacedName) (h : history) : Prop :=
  (exists e, Ev (KGetBackupImport req) (Er e) ∈ h /\ IsNotFound e = true) \/
  (exists bi, Ev (KGetBackupImport req) (Ok bi) ∈ h /\
     (being_deleted (bi_Meta bi) = true \/ terminal_import (bi_Phase (bi_Status bi)) = true)) \/
  (exists bi r, Ev (KStatusUpdateBackupImport bi) (Ok r) ∈ h /\
     terminal_import (bi_Phase (bi_Status bi)) = true).

Definition import_open (req : NamespacedName) (h : history) (r : reconciled) : Prop :=
  keeps_going r \/ import_settled req h.

Lemma import_update_requeues req bi h :
  safe any_call (update_and_requeue bi) h (import_open req).
Proof. apply safe_call; [done|]. intros [b|e]; apply safe_ret; left; eauto. Qed.

Lemma importTransient_requeues req bi reason e h :
  safe any_call (importTransient bi reason e) h (import_open req).
Proof. apply import_update_requeues. Qed.

Lemma importWait_requeues req bi reason msg h :
  safe any_call (importWait bi reason msg) h (import_open req).
Proof. apply import_update_requeues. Qed.
Hint Resolve importTransient_requeues importWait_requeues : core.

Lemma terminal_import_settles req bi h :
  terminal_import (bi_Phase (bi_Status bi)) = true ->
  safe any_call (update_and_stop bi) h (import_open req).
Proof.
  intros Hp. apply safe_call; [done|]. intros [b|e]; apply safe_ret; [|left; by right].
  right. right. right. exists bi, b. split; [constructor|done].
Qed.

Lemma import_pass_requeues opts req bi m ms h :
  safe any_call (import_pass opts bi m ms) h (import_open req).
Proof.
  unfold import_pass. apply safe_after. intros h1 started _. apply safe_after.
  intros h2 [res [e|]] _; [done|]. destruct (rs_Committed res).
  - apply safe_call; [done|]. intros now. by apply terminal_import_settles.
  - apply import_update_requeues.
Qed.

(** C22: the same of a BackupImport: its reconcile leaves the queue, without an
    error, only when the object is gone, being deleted or in a terminal phase, or
    when the API server accepted its own update to Imported, or to Failed for a
    document that is not a manifest. *)
Theorem import_requeues opts req h :
  safe any_call (ImportController.Reconcile opts req) h (fun h' r =>
    keeps_going r \/ import_settled req h').
Proof.
  unfold ImportController.Reconcile. apply safe_call; [done|]. intros [bi|e]; cbn [io_bind].
  2:{ apply safe_ret. unfold IgnoreNotFound. destruct (IsNotFound e) eqn:He; [|left; by right].
      right. left. exists e. split; [constructor|done]. }
  destruct (being_deleted _) eqn:Hd.
  { apply safe_ret. right. right. left. exists bi. split; [constructor|by left]. }
  destruct (terminal_import _) eqn:Ht.
  { apply safe_ret. right. right. left. exists bi. split; [constructor|by right]. }
  unfold fetch_and_import. apply safe_after. intros h1 [[data|]|e] _;
    [|apply importWait_requeues|apply importTransient_requeues].
  destruct (Parse data) as [m|e]; [|by apply terminal_import_settles].
  destruct (mf_Complete m); [|apply importWait_requeues].
  apply safe_after. intros h2 [ms|e] _; [apply import_pass_requeues|apply importTransient_requeues].
Qed.
End Requeue.
