(* ===== verification/Source.v ===== *)
(** * Source: the source cluster over time

    Any number of reconciles, of backups and of replications, run at the same time,
    interleaved call by call, and may stop between any two calls.  What they share
    is the API server: an update is accepted only of the version last answered
    (resourceVersion), a read comes from a cache and may be of any earlier version,
    and an answer may be lost.  Every other call may be answered in any way. *)

From stdpp Require Import gmap strings relations.
From S2P Require Import Prelude Api Effects Objstore Peat Ledger Kube ReplicationController.
From S2P Require BackupController.

(** ** The API server *)

Definition replication_key (br : BackupReplication) : NamespacedName :=
  {| nn_Namespace := om_Namespace (br_Meta br); nn_Name := om_Name (br_Meta br) |}.

(** every version of every object, by its number, and which is the current one *)
Record api : Type := {
  ap_log : list BackupReplication;
  ap_current : gmap NamespacedName nat;
}.

Definition object_at (a : api) (n : NamespacedName) : option BackupReplication :=
  v ← ap_current a !! n; ap_log a !! v.

Definition api_write (a : api) (br : BackupReplication) : api :=
  {| ap_log := ap_log a ++ [br];
     ap_current := <[replication_key br := length (ap_log a)]> (ap_current a) |}.

Definition api_delete (a : api) (n : NamespacedName) : api :=
  {| ap_log := ap_log a; ap_current := delete n (ap_current a) |}.

(** what a create or update cannot change *)
Definition same_identity (old new : ObjectMeta) : Prop :=
  om_Namespace new = om_Namespace old /\ om_Name new = om_Name old /\
  om_DeletionTimestamp new = om_DeletionTimestamp old.

(** [controllerutil.CreateOrUpdate]: the mutated object is written, its status, a
    subresource, is not *)
Definition ensured (a : api) (obj : BackupReplication)
    (mutate : BackupReplication -> res BackupReplication) (new : BackupReplication) : Prop :=
  let base := default obj (object_at a (replication_key obj)) in
  exists bi, mutate base = Ok bi /\ br_Spec new = br_Spec bi /\
    same_identity (br_Meta base) (br_Meta new) /\
    br_Status new = default BackupController.zero_BackupReplicationStatus
                      (br_Status <$> object_at a (replication_key obj)).

(** What a call does to the server, and to the version its caller has seen. *)
Definition serves (a : api) (seen : option nat) (c : call)
  : resp c -> api -> option nat -> Prop :=
  match c return resp c -> api -> option nat -> Prop with
  | KGetBackupReplication n => fun r a' seen' => a' = a /\
      match r with
      | Ok br => exists v, ap_log a !! v = Some br /\ replication_key br = n /\ seen' = Some v
      | Er _ => seen' = seen
      end
  | KStatusUpdateBackupReplication br => fun r a' seen' =>
      (exists e, r = Er e /\ a' = a /\ seen' = seen) \/
      (* nothing to change: no new version *)
      (exists v, seen = Some v /\ ap_current a !! replication_key br = Some v /\
         ap_log a !! v = Some br /\ r = Ok br /\ a' = a /\ seen' = seen) \/
      (exists v cur, seen = Some v /\ ap_current a !! replication_key br = Some v /\
         ap_log a !! v = Some cur /\ a' = api_write a (with_status cur (br_Status br)) /\
         ((r = Ok (with_status cur (br_Status br)) /\ seen' = Some (length (ap_log a))) \/
          (exists e, r = Er e /\ seen' = seen)))
  | KCreateOrUpdateBackupReplication obj mutate => fun _ a' seen' => seen' = seen /\
      (a' = a \/ exists new, ensured a obj mutate new /\ a' = api_write a new)
  | _ => fun _ a' seen' => a' = a /\ seen' = seen
  end.

(** ** The cluster *)

(** a reconcile under way: its request, what is left of it, its calls so far, and
    the version it holds *)
Record pass : Type := {
  ps_req : NamespacedName;
  ps_prog : io reconciled;
  ps_history : history;
  ps_seen : option nat;
}.

Record source : Type := { so_api : api; so_passes : list pass }.

Definition new_pass (req : NamespacedName) (m : io reconciled) : pass :=
  {| ps_req := req; ps_prog := m; ps_history := []; ps_seen := None |}.

Definition after_call (p : pass) (m : io reconciled) (x : event) (seen : option nat) : pass :=
  {| ps_req := ps_req p; ps_prog := m; ps_history := x :: ps_history p; ps_seen := seen |}.

Definition begin (s : source) (req : NamespacedName) (m : io reconciled) : source :=
  {| so_api := so_api s; so_passes := so_passes s ++ [new_pass req m] |}.

Definition with_api (s : source) (a : api) : source := {| so_api := a; so_passes := so_passes s |}.

Section Steps.
Context `{M : ApiMachinery}.

(** Reconciles start and make calls; others edit an object's metadata, which marks
    it for deletion, and delete it. *)
Inductive source_step (s : source) : source -> Prop :=
| step_replication fuel req : source_step s (begin s req (ReplicationController.Reconcile fuel req))
| step_backup req : source_step s (begin s req (BackupController.Reconcile req))
| step_call i p c k r a seen :
    so_passes s !! i = Some p -> ps_prog p = Call c k -> serves (so_api s) (ps_seen p) c r a seen ->
    source_step s {| so_api := a; so_passes := <[i := after_call p (k r) (Ev c r) seen]> (so_passes s) |}
| step_edit n br new :
    object_at (so_api s) n = Some br -> replication_key new = replication_key br ->
    br_Spec new = br_Spec br -> br_Status new = br_Status br ->
    source_step s (with_api s (api_write (so_api s) new))
| step_delete n : source_step s (with_api s (api_delete (so_api s) n)).
End Steps.

Definition empty_source : source :=
  {| so_api := {| ap_log := []; ap_current := ∅ |}; so_passes := [] |}.

(** ** What a reconcile holds in its hands *)

(** the replication that an event answered *)
Definition answer_of (x : event) : option BackupReplication :=
  match ev_call x as c return resp c -> option BackupReplication with
  | KGetBackupReplication _ | KStatusUpdateBackupReplication _ => fun r =>
      match r with Ok br => Some br | Er _ => None end
  | _ => fun _ => None
  end (ev_resp x).

Definition answers (h : history) : list BackupReplication := omap answer_of h.

(** accepted updates keep the status *)
Definition kept (h : history) : Prop := forall br b,
  Ev (KStatusUpdateBackupReplication br) (Ok b) ∈ h -> br_Status b = br_Status br.

Definition unfinished (b : BackupReplication) : Prop :=
  terminal_phase (br_Phase (br_Status b)) = false.

(** [br] is the object last answered, but for its status, and no answer so far was
    in a terminal phase *)
Definition in_hand (h : history) (br : BackupReplication) : Prop :=
  exists b rest, answers h = b :: rest /\ br_Meta br = br_Meta b /\ br_Spec br = br_Spec b /\
    (kept h -> Forall unfinished (answers h)).

(** a replication is read once, updated as it is in hand, and not created *)
Definition handles (req : NamespacedName) (h : history) (c : call) : Prop :=
  match c with
  | KGetBackupReplication n => n = req /\ answers h = []
  | KStatusUpdateBackupReplication br => in_hand h br
  | KCreateOrUpdateBackupReplication _ _ => False
  | _ => True
  end.

(** calls that are not about replications *)
Definition off_record (c : call) : Prop :=
  match c with
  | KGetBackupReplication _ | KStatusUpdateBackupReplication _
  | KCreateOrUpdateBackupReplication _ _ => False
  | _ => True
  end.

Lemma quiet_off_record c : quiet c -> off_record c.
Proof. by destruct c. Qed.

Lemma only_quiet {A} (m : io A) : only quiet m -> only off_record m.
Proof. apply only_weaken, quiet_off_record. Qed.

Lemma answers_off_record c r h : off_record c -> answers (Ev c r :: h) = answers h.
Proof. by destruct c. Qed.

Lemma kept_extends h h' : extends h h' -> kept h' -> kept h.
Proof. unfold kept. eauto using extends_in. Qed.

Lemma in_hand_later h h' br :
  extends h h' -> answers h' = answers h -> in_hand h br -> in_hand h' br.
Proof.
  intros Hh E (b & rest & Hb & Hm & Hs & Hk). exists b, rest. rewrite E.
  split_and!; [done..|]. intros Hkept. by eapply Hk, kept_extends.
Qed.

Lemma safe_off_record {A} (m : io A) req h :
  only off_record m ->
  safe (handles req) m h (fun h' _ => answers h' = answers h /\ extends h h').
Proof.
  intros Hm. specialize (Hm h). apply safe_extends. revert h Hm.
  induction m as [a|c k IH| |]; intros h; cbn; [done| |done|done].
  intros [Hc H]. split; [by destruct c|]. intros r.
  eapply safe_post; [by apply IH, H|]. cbn. intros h' _ ->. by apply answers_off_record.
Qed.

(** [m] is not about replications; [f] goes on with what was in hand *)
Lemma handles_then {A B} (m : io A) (f : A -> io B) req br h :
  only off_record m -> in_hand h br ->
  (forall h' a, in_hand h' br -> safe (handles req) (f a) h' (fun _ _ => True)) ->
  safe (handles req) (m ≫= f) h (fun _ _ => True).
Proof.
  intros Hm Hh Hf. eapply safe_then; [by apply safe_off_record|]. intros h' a [E He].
  by eapply Hf, in_hand_later.
Qed.

Section Handles.
#[local] Arguments safe : simpl never.
Context `{M : ApiMachinery} (req : NamespacedName).

Lemma update_handles br h (K : res BackupReplication -> reconciled) :
  in_hand h br ->
  safe (handles req) (x ← perform (KStatusUpdateBackupReplication br); Ret (K x)) h (fun _ _ => True).
Proof. intros Hh. apply safe_call; [done|]. intros r. by apply safe_ret. Qed.

Lemma degrade_handles br reason msg h :
  in_hand h br -> safe (handles req) (degrade br reason msg) h (fun _ _ => True).
Proof. intros Hh. by apply update_handles. Qed.

Lemma transientErr_handles br reason e h :
  in_hand h br -> safe (handles req) (transientErr br reason e) h (fun _ _ => True).
Proof. intros Hh. by apply update_handles. Qed.

Lemma return_update_handles br result h :
  in_hand h br -> safe (handles req) (return_update br result) h (fun _ _ => True).
Proof. intros Hh. by apply update_handles. Qed.
Hint Resolve degrade_handles transientErr_handles return_update_handles : core.

Lemma commitLedger_off_record ms spec keys : only off_record (commitLedger (as_Store ms) spec keys).
Proof.
  unfold commitLedger. cbn [as_Store st_GetLedger st_PutLedger].
  apply only_bind; [unfold GetLedger; only_steps|]. intros r. only_steps.
  unfold PutLedger. only_steps.
Qed.

Lemma finish_handles br ms pc prefix keys entries total h :
  in_hand h br ->
  safe (handles req) (finish br (as_Store ms) pc prefix keys entries total) h (fun _ _ => True).
Proof.
  intros Hh. unfold finish. apply (handles_then _ _ _ br); [by apply only_perform|done|].
  intros h1 now Hh1. set (br1 := set_times _ _ _).
  assert (in_hand h1 br1) as Hb by done.
  apply (handles_then _ _ _ br1); [apply only_quiet, emitManifest_quiet|done|].
  intros h2 [e|] Hh2; [by apply transientErr_handles|].
  apply (handles_then _ _ _ br1); [apply commitLedger_off_record|done|].
  intros h3 [e|] Hh3; [by apply transientErr_handles|]. by apply return_update_handles.
Qed.

Lemma transmit_handles fuel br spec ms prefix keys batches total h :
  in_hand h br ->
  safe (handles req) (transmit fuel br spec (as_Store ms) prefix keys batches total) h
    (fun _ _ => True).
Proof.
  intros Hh. unfold transmit.
  apply (handles_then _ _ _ br); [apply only_quiet, rpc_nil_quiet|done|].
  intros h1 [e|] Hh1; [by apply transientErr_handles|].
  apply (handles_then _ _ _ br); [apply only_quiet, send_all_quiet|done|].
  intros h2 [[st pc]|[reason e]] Hh2; [|by apply transientErr_handles].
  destruct (ss_AllDone st); [by apply finish_handles|by apply return_update_handles].
Qed.

(** an accepted update to an open phase puts its answer in hand *)
Lemma in_hand_updated br b h :
  in_hand h br -> unfinished br -> in_hand (Ev (KStatusUpdateBackupReplication br) (Ok b) :: h) b.
Proof.
  intros (b0 & rest & Hb & _ & _ & Hk) Hu. exists b, (answers h).
  split; [reflexivity|]. do 2 (split; [done|]).
  intros Hkept. cbn. constructor.
  - unfold unfinished. rewrite (Hkept br b) by constructor. exact Hu.
  - apply Hk. eapply kept_extends; [apply extends_cons|exact Hkept].
Qed.

Lemma stage_and_send_handles fuel br spec ms prefix keys h :
  in_hand h br ->
  safe (handles req) (stage_and_send fuel br spec (as_Store ms) prefix keys) h (fun _ _ => True).
Proof.
  intros Hh. unfold stage_and_send.
  apply (handles_then _ _ _ br); [apply only_quiet, stage_all_quiet|done|].
  intros h1 [[specs total]|e] Hh1; [|by apply transientErr_handles].
  set (br1 := setPhase _ _). assert (in_hand h1 br1) as Hb by done.
  apply safe_call; [done|]. intros [b|e]; cbn [io_bind]; [|by apply safe_ret].
  apply transmit_handles. by apply (in_hand_updated br1).
Qed.

Lemma replicate_handles fuel br policy h :
  in_hand h br -> safe (handles req) (replicate fuel br policy) h (fun _ _ => True).
Proof.
  intros Hh. unfold replicate.
  apply (safe_then _ _ _ _ (fun h' br' => in_hand h' br')).
  { unfold start. destruct (br_StartedAt _); [by apply safe_ret|]. apply safe_call; [done|].
    intros now. apply safe_ret. by apply (in_hand_later h _ br). }
  intros h1 br1 Hh1. set (br2 := setPhase _ _). assert (in_hand h1 br2) as Hb by done.
  apply (handles_then _ _ _ br2); [apply only_quiet, resolveStore_quiet|done|].
  intros h2 [cfg|e] Hh2; [|by apply degrade_handles].
  apply (handles_then _ _ _ br2); [apply only_quiet, New_quiet|done|].
  intros h3 [ms|e] Hh3; [|by apply degrade_handles].
  apply (handles_then _ _ _ br2); [apply only_quiet, enumerateDelta_quiet|done|].
  intros h4 [[|k keys]|e] Hh4; [by apply return_update_handles| |by apply transientErr_handles].
  by apply stage_and_send_handles.
Qed.

Lemma Reconcile_handles fuel :
  safe (handles req) (ReplicationController.Reconcile fuel req) [] (fun _ _ => True).
Proof.
  unfold ReplicationController.Reconcile. apply safe_call; [done|]. intros [br|e]; cbn [io_bind];
    [|by apply safe_ret].
  destruct (being_deleted _); [by apply safe_ret|].
  destruct (terminal_phase _) eqn:Ht; [by apply safe_ret|].
  assert (in_hand [Ev (KGetBackupReplication req) (Ok br)] br) as Hh.
  { exists br, []. split_and!; [done..|]. intros _. by repeat constructor. }
  apply (handles_then _ _ _ br); [by apply only_perform|done|]. intros h1 [policy|e] Hh1.
  - destruct (rp_Paused _); [by apply safe_ret|by apply replicate_handles].
  - destruct (IsNotFound e); [by apply degrade_handles|by apply safe_ret].
Qed.
End Handles.

(** ** What holds in every reachable state *)

Section Invariant.
Context `{M : ApiMachinery}.

(** the calls that a pass of either kind makes *)
Definition source_call (req : NamespacedName) (h : history) (c : call) : Prop :=
  match c with
  | KCreateOrUpdateBackupReplication _ _ => BackupController.creates req h c
  | _ => handles req h c /\ reconcile_call h c
  end.

Lemma replication_calls fuel req :
  safe (source_call req) (ReplicationController.Reconcile fuel req) [] (fun _ _ => True).
Proof.
  eapply safe_guard; [eapply safe_guards; [apply Reconcile_handles|apply Reconcile_safe]|].
  intros h c [Hh Hr]. by destruct c.
Qed.

Lemma backup_calls req :
  safe (source_call req) (BackupController.Reconcile req) [] (fun _ _ => True).
Proof.
  eapply safe_post; [eapply safe_guard; [apply BackupController.Reconcile_creates|]|done].
  intros h c [->|[->|Hc]]; [done..|]. by pose proof Hc as (? & ? & ? & _ & _ & _ & _ & ? & ? & -> & _).
Qed.

(** a pass of the state saw the backup of [br] completed, and gave it its spec *)
Definition made (ps : list pass) (br : BackupReplication) : Prop :=
  exists p backup policies policy, p ∈ ps /\
    Ev (KGetBackup (ps_req p)) (Ok backup) ∈ ps_history p /\
    bk_Phase (bk_Status backup) = BackupPhaseCompleted /\
    Ev KListReplicationPolicies (Ok policies) ∈ ps_history p /\
    BackupController.chosen policies backup policy /\
    replication_key br = {| nn_Namespace := om_Namespace (bk_Meta backup);
                            nn_Name := om_Name (bk_Meta backup) |} /\
    br_Spec br = {| brs_BackupName := om_Name (bk_Meta backup);
                    brs_PolicyName := om_Name (rp_Meta policy);
                    brs_StorageLocation := bk_StorageLocation (bk_Spec backup) |}.

(** a pass of the state shipped the backup of [br] before it wrote its status *)
Definition sent (ps : list pass) (br : BackupReplication) : Prop :=
  exists p h bw, p ∈ ps /\ extends h (ps_history p) /\ shipped h bw /\
    replication_key bw = replication_key br /\
    brs_BackupName (br_Spec bw) = brs_BackupName (br_Spec br) /\ br_Status bw = br_Status br.

(** a version of an object that may be in the log *)
Record logged (ps : list pass) (br : BackupReplication) : Prop := {
  lg_made : made ps br;
  lg_sent : br_Phase (br_Status br) = PhaseReplicated -> sent ps br;
  lg_phase : br_Phase (br_Status br) ∈ [PhaseUnset; PhaseStaging; PhaseTransmitting;
    PhaseReplicated; PhaseSkipped];
}.

Record pass_ok (a : api) (p : pass) : Prop := {
  po_calls : safe (source_call (ps_req p)) (ps_prog p) (ps_history p) (fun _ _ => True);
  po_kept : kept (ps_history p);
  po_answers b : b ∈ answers (ps_history p) -> b ∈ ap_log a;
  po_seen b rest : answers (ps_history p) = b :: rest ->
    exists v, ps_seen p = Some v /\ ap_log a !! v = Some b;
}.

(** the current version of an object is one of it *)
Definition indexed (a : api) : Prop := forall n v, ap_current a !! n = Some v ->
  exists br, ap_log a !! v = Some br /\ replication_key br = n.

Record consistent (s : source) : Prop := {
  co_current : indexed (so_api s);
  co_logged br : br ∈ ap_log (so_api s) -> logged (so_passes s) br;
  co_passes p : p ∈ so_passes s -> pass_ok (so_api s) p;
}.

(** passes begin and their histories grow *)
Definition evolves (ps ps' : list pass) : Prop := forall p, p ∈ ps -> exists p', p' ∈ ps' /\
  ps_req p' = ps_req p /\ extends (ps_history p) (ps_history p').

Lemma made_evolves ps ps' br : evolves ps ps' -> made ps br -> made ps' br.
Proof.
  intros He (p & backup & policies & policy & (p' & Hp' & Hreq & Hh)%He & Hb & Hc & Hl & H).
  exists p', backup, policies, policy. rewrite Hreq. split_and!; eauto using extends_in; apply H.
Qed.

Lemma sent_evolves ps ps' br : evolves ps ps' -> sent ps br -> sent ps' br.
Proof.
  intros He (p & h & bw & (p' & Hp' & _ & Hh)%He & Hx & H). exists p', h, bw.
  split_and!; [done|by etrans|apply H..].
Qed.

Lemma logged_evolves ps ps' br : evolves ps ps' -> logged ps br -> logged ps' br.
Proof. intros He [Hm Hs Hp]. split; eauto using made_evolves, sent_evolves. Qed.

(** another version with the key, spec and status *)
Lemma logged_like ps br new :
  replication_key new = replication_key br -> br_Spec new = br_Spec br ->
  br_Status new = br_Status br -> logged ps br -> logged ps new.
Proof.
  unfold made, sent. intros Hk Hs Ht [Hm Hsent Hp]. split; unfold made, sent in *;
    rewrite ?Hk, ?Hs, ?Ht; done.
Qed.

(** *** Calls *)

Definition writes (a : api) (seen : option nat) (c : call) (new : BackupReplication) : Prop :=
  match c with
  | KStatusUpdateBackupReplication br => exists v cur, seen = Some v /\
      ap_current a !! replication_key br = Some v /\ ap_log a !! v = Some cur /\
      new = with_status cur (br_Status br)
  | KCreateOrUpdateBackupReplication obj mutate => ensured a obj mutate new
  | _ => False
  end.

Lemma serves_writes a seen c r a' seen' :
  serves a seen c r a' seen' -> a' = a \/ exists new, writes a seen c new /\ a' = api_write a new.
Proof. destruct c; cbn; naive_solver. Qed.

Lemma lookup_written a br : ap_log (api_write a br) !! length (ap_log a) = Some br.
Proof. cbn. by rewrite lookup_app_r, Nat.sub_diag. Qed.

(** what is answered is the version seen *)
Lemma serves_answer a seen c r a' seen' :
  serves a seen c r a' seen' ->
  (answer_of (Ev c r) = None /\ seen' = seen) \/
  exists b v, answer_of (Ev c r) = Some b /\ seen' = Some v /\ ap_log a' !! v = Some b.
Proof.
  destruct c; cbn; try naive_solver.
  - destruct r; naive_solver.
  - intros [(e & -> & -> & ->)|[(v & -> & _ & Hv & -> & -> & ->)|
      (v & cur & -> & _ & Hv & -> & [[-> ->]|(e & -> & ->)])]]; [by left|right; eauto| |by left].
    right. do 2 eexists. split_and!; [done..|]. apply lookup_written.
Qed.

(** an accepted update, and its answer *)
Definition updated (x : event) : option (BackupReplication * BackupReplication) :=
  match ev_call x as c return resp c -> option (BackupReplication * BackupReplication) with
  | KStatusUpdateBackupReplication br => fun r =>
      match r with Ok b => Some (br, b) | Er _ => None end
  | _ => fun _ => None
  end (ev_resp x).

Lemma serves_kept a seen c r a' seen' h :
  serves a seen c r a' seen' -> kept h -> kept (Ev c r :: h).
Proof.
  intros Hs Hk br b [E|Hin]%elem_of_cons; [|by apply Hk].
  apply (f_equal updated) in E. destruct c; try done. destruct r as [b'|]; [|done].
  cbn in E, Hs. simplify_eq. naive_solver.
Qed.

Lemma answers_cons x h :
  answers (x :: h) = match answer_of x with Some b => b :: answers h | None => answers h end.
Proof. reflexivity. Qed.

Lemma answered_answers h ph :
  answered h ph -> exists b, b ∈ answers h /\ br_Phase (br_Status b) = ph.
Proof.
  intros (b & Hb & [[n Hn]|[br Hn]]); exists b; (split; [|done]); apply list_elem_of_omap;
    by eexists.
Qed.

Lemma api_grows a seen c r a' seen' :
  serves a seen c r a' seen' -> ap_log a `prefix_of` ap_log a'.
Proof. intros [->|(new & _ & ->)]%serves_writes; [done|by exists [new]]. Qed.

Lemma pass_ok_grows a a' p : ap_log a `prefix_of` ap_log a' -> pass_ok a p -> pass_ok a' p.
Proof.
  intros Hp [Hc Hk Ha Hs]. split; [done..| |].
  - intros b Hb%Ha. destruct Hp as [l ->]. set_solver.
  - intros b rest Hb. destruct (Hs b rest Hb) as (v & Hv & Hl). exists v.
    split; [done|]. by eapply prefix_lookup_Some.
Qed.

Lemma pass_call a p c k :
  pass_ok a p -> ps_prog p = Call c k -> source_call (ps_req p) (ps_history p) c.
Proof. intros [Hc _ _ _] Hp. rewrite Hp in Hc. apply Hc. Qed.

Lemma pass_serves a p c k r a' seen' :
  pass_ok a p -> ps_prog p = Call c k -> serves a (ps_seen p) c r a' seen' ->
  pass_ok a' (after_call p (k r) (Ev c r) seen').
Proof.
  intros Hp Hprog Hs. pose proof (pass_ok_grows a a' p (api_grows _ _ _ _ _ _ Hs) Hp) as [Hc Hk Ha Hv].
  destruct (serves_answer _ _ _ _ _ _ Hs) as [[Hn ->]|(b & v & Hb & -> & Hl)];
    split; cbn [after_call ps_req ps_prog ps_history ps_seen]; rewrite ?answers_cons, ?Hn, ?Hb.
  all: try (rewrite Hprog in Hc; apply Hc).
  all: try by eapply serves_kept.
  - done.
  - done.
  - intros b' [->|?]%elem_of_cons; [by eapply list_elem_of_lookup_2|by apply Ha].
  - intros b' rest [= <- _]. by exists v.
Qed.

(** an update of the object in hand writes it, over an open version of it *)
Lemma update_writes a p br new :
  pass_ok a p -> in_hand (ps_history p) br ->
  writes a (ps_seen p) (KStatusUpdateBackupReplication br) new ->
  exists cur, object_at a (replication_key br) = Some cur /\ new = br /\ unfinished cur /\
    replication_key br = replication_key cur /\ br_Spec br = br_Spec cur.
Proof.
  intros [_ Hk _ Hseen] (b & rest & Hb & Hm & Hs & Hu) (v & cur & Hv & Hc & Hl & ->).
  destruct (Hseen b rest Hb) as (v' & Hv' & Hl'). simplify_eq. exists cur.
  specialize (Hu Hk). rewrite Hb, Forall_cons in Hu. unfold object_at. rewrite Hc. cbn.
  split_and!; [done| |apply Hu|unfold replication_key; by rewrite Hm|done].
  destruct br. cbn in *. unfold with_status. by rewrite Hm, Hs.
Qed.

(** *** Writes *)

Lemma object_at_key a n br : indexed a -> object_at a n = Some br -> replication_key br = n.
Proof. unfold object_at. intros Hi (v & Hv & Hl)%bind_Some. destruct (Hi n v Hv) as (? & ? & ?). congruence. Qed.

Lemma object_at_in a n br : object_at a n = Some br -> br ∈ ap_log a.
Proof. unfold object_at. intros (v & _ & Hl)%bind_Some. by eapply list_elem_of_lookup_2. Qed.

Lemma object_at_written a br : object_at (api_write a br) (replication_key br) = Some br.
Proof. unfold object_at. cbn [ap_current api_write]. rewrite lookup_insert_eq. apply lookup_written. Qed.

Lemma object_at_other a br n :
  indexed a -> replication_key br <> n -> object_at (api_write a br) n = object_at a n.
Proof.
  intros Hi Hn. unfold object_at, api_write. cbn. rewrite lookup_insert_ne by done.
  destruct (ap_current a !! n) as [v|] eqn:Hv; [|done]. cbn.
  destruct (Hi n v Hv) as (br' & Hl & _). rewrite Hl. by apply lookup_app_l_Some.
Qed.

Lemma indexed_write a br : indexed a -> indexed (api_write a br).
Proof.
  intros Hi n v Hv. cbn in Hv. destruct (decide (replication_key br = n)) as [<-|Hn].
  - rewrite lookup_insert_eq in Hv. injection Hv as <-. exists br. by rewrite lookup_written.
  - rewrite lookup_insert_ne in Hv by done. destruct (Hi n v Hv) as (br' & Hl & Hk).
    exists br'. split; [|done]. by apply lookup_app_l_Some.
Qed.

Lemma indexed_delete a n : indexed a -> indexed (api_delete a n).
Proof. intros Hi n' v Hv. cbn in Hv. apply lookup_delete_Some in Hv as [_ Hv]. by apply Hi. Qed.

(** a creation writes an object of the backup, with the spec that the pass gives it
    and the status it had *)
Lemma create_writes a seen req h obj mutate new :
  indexed a -> BackupController.creates req h (KCreateOrUpdateBackupReplication obj mutate) ->
  writes a seen (KCreateOrUpdateBackupReplication obj mutate) new ->
  br_Status new = default BackupController.zero_BackupReplicationStatus
    (br_Status <$> object_at a (replication_key new)) /\
  exists backup policies policy,
    Ev (KGetBackup req) (Ok backup) ∈ h /\
    bk_Phase (bk_Status backup) = BackupPhaseCompleted /\
    Ev KListReplicationPolicies (Ok policies) ∈ h /\
    BackupController.chosen policies backup policy /\
    replication_key new = {| nn_Namespace := om_Namespace (bk_Meta backup);
                             nn_Name := om_Name (bk_Meta backup) |} /\
    br_Spec new = {| brs_BackupName := om_Name (bk_Meta backup);
                     brs_PolicyName := om_Name (rp_Meta policy);
                     brs_StorageLocation := bk_StorageLocation (bk_Spec backup) |}.
Proof.
  intros Hi (backup & policies & policy & Hb & Hc & Hl & Hf & obj' & mutate' & E & Hname & Hns & Hm).
  injection E as <- <-. intros (bi & Hbi & Hspec & (Hkns & Hkname & _) & Hst).
  assert (replication_key new = replication_key obj) as Hk.
  { unfold replication_key at 1. rewrite Hkns, Hkname.
    fold (replication_key (default obj (object_at a (replication_key obj)))).
    destruct (object_at a _) as [cur|] eqn:Ho; [|done]. cbn. by eapply object_at_key. }
  rewrite Hk. split; [done|]. exists backup, policies, policy. split_and!; [done..| |].
  - unfold replication_key. by rewrite Hname, Hns.
  - rewrite Hspec. by apply (Hm _ _ Hbi).
Qed.

Lemma logged_name ps br : logged ps br -> brs_BackupName (br_Spec br) = nn_Name (replication_key br).
Proof. intros [(p & backup & policies & policy & _ & _ & _ & _ & _ & -> & ->) _ _]. done. Qed.

Lemma write_logged s p c new :
  consistent s -> p ∈ so_passes s -> source_call (ps_req p) (ps_history p) c ->
  writes (so_api s) (ps_seen p) c new -> logged (so_passes s) new.
Proof.
  intros [Hi Hlog Hpass] Hp Hcall Hw. pose proof (Hpass p Hp) as Hok. destruct c; try done.
  - destruct Hcall as [Hh Hr].
    destruct (update_writes _ _ _ _ Hok Hh Hw) as (cur & Ho & -> & Hopen & Hk & Hs).
    pose proof (Hlog cur (object_at_in _ _ _ Ho)) as [Hm _ _]. split.
    + unfold made in *. by rewrite Hk, Hs.
    + intros Hph. cbn in Hr. rewrite Hph in Hr. destruct Hr as [Hr|Hr].
      * exists p, (ps_history p), br. by split_and!.
      * exfalso. apply answered_answers in Hr as (b & Hb & Hbp).
        destruct Hh as (b0 & rest & _ & _ & _ & Hu). specialize (Hu (po_kept _ _ Hok)).
        rewrite Forall_forall in Hu. specialize (Hu b Hb). unfold unfinished in Hu.
        by rewrite Hbp in Hu.
    + cbn in Hr. destruct (br_Phase (br_Status br)) eqn:Hph; try (rewrite !elem_of_cons; by tauto).
      all: apply answered_answers in Hr as (b & Hb%(po_answers _ _ Hok)%Hlog & Hbp).
      all: rewrite <- Hbp; apply Hb.
  - destruct (create_writes _ _ _ _ _ _ _ Hi Hcall Hw)
      as (Hst & backup & policies & policy & Hb & Hc & Hl & Hf & Hk & Hs).
    assert (made (so_passes s) new) as Hmade.
    { exists p, backup, policies, policy. by split_and!. }
    destruct (object_at (so_api s) (replication_key new)) as [cur|] eqn:Ho; cbn in Hst.
    + pose proof (Hlog cur (object_at_in _ _ _ Ho)) as Hcur.
      pose proof (object_at_key _ _ _ Hi Ho) as Hkc. split; [done|..]; rewrite Hst; [|apply Hcur].
      intros (p' & h & bw & Hp' & Hh & Hsh & Hbk & Hbn & Hbs)%(lg_sent _ _ Hcur).
      exists p', h, bw. split_and!; [done..|congruence| |congruence].
      rewrite Hbn, (logged_name _ _ Hcur), Hkc, Hs, Hk. done.
    + split; [done|..]; rewrite Hst; [done|by constructor].
Qed.

(** *** Steps *)

Lemma evolves_refl ps : evolves ps ps.
Proof. intros p Hp. by exists p. Qed.

Lemma evolves_new ps p : evolves ps (ps ++ [p]).
Proof. intros q Hq. exists q. split; [set_solver|done]. Qed.

Lemma evolves_call ps i p m x seen :
  ps !! i = Some p -> evolves ps (<[i := after_call p m x seen]> ps).
Proof.
  intros Hi q [j Hj]%list_elem_of_lookup. destruct (decide (i = j)) as [->|Hn].
  - simplify_eq. exists (after_call p m x seen). split_and!; [|done|apply extends_cons].
    eapply list_elem_of_lookup_2, list_lookup_insert_eq, lookup_lt_is_Some_1. by eexists.
  - exists q. split; [|done]. eapply list_elem_of_lookup_2. by rewrite list_lookup_insert_ne.
Qed.

Lemma consistent_empty : consistent empty_source.
Proof.
  split; cbn; [|by intros ? ?%elem_of_nil..]. intros n v Hv. cbn in Hv.
  by rewrite lookup_empty in Hv.
Qed.

Lemma consistent_begin s req m :
  safe (source_call req) m [] (fun _ _ => True) -> consistent s -> consistent (begin s req m).
Proof.
  intros Hm [Hi Hl Hp]. split; cbn; [done| |].
  - intros br Hbr. eapply logged_evolves; [apply evolves_new|by apply Hl].
  - intros p [?| ->%list_elem_of_singleton]%elem_of_app; [by apply Hp|].
    split; [done| |by intros ? ?%elem_of_nil|done]. by intros ? ? ?%elem_of_nil.
Qed.

(** a new version, of what may be in the log *)
Lemma consistent_write s new :
  logged (so_passes s) new -> consistent s -> consistent (with_api s (api_write (so_api s) new)).
Proof.
  intros Hn [Hi Hl Hp]. split; cbn -[api_write].
  - by apply indexed_write.
  - intros br [?| ->%list_elem_of_singleton]%elem_of_app; [by apply Hl|done].
  - intros p Hin. eapply pass_ok_grows; [by exists [new]|by apply Hp].
Qed.

Lemma consistent_call s i p c k r a seen :
  so_passes s !! i = Some p -> ps_prog p = Call c k -> serves (so_api s) (ps_seen p) c r a seen ->
  consistent s ->
  consistent {| so_api := a; so_passes := <[i := after_call p (k r) (Ev c r) seen]> (so_passes s) |}.
Proof.
  intros Hp Hprog Hs Hc. assert (p ∈ so_passes s) as Hin by by eapply list_elem_of_lookup_2.
  pose proof (co_passes _ Hc p Hin) as Hok.
  assert (consistent (with_api s a)) as [Hi Hl Hps].
  { destruct (serves_writes _ _ _ _ _ _ Hs) as [->|(new & Hw & ->)]; [by destruct s|].
    apply consistent_write; [|done]. eapply write_logged; [done..| |exact Hw].
    by eapply pass_call. }
  split; cbn.
  - exact Hi.
  - intros br Hbr. eapply logged_evolves; [by apply evolves_call|by apply Hl].
  - intros q [j Hj]%list_elem_of_lookup. destruct (decide (i = j)) as [<-|Hn].
    + rewrite list_lookup_insert_eq in Hj by (eapply lookup_lt_is_Some_1; by eexists).
      injection Hj as <-. by eapply pass_serves.
    + rewrite list_lookup_insert_ne in Hj by done. eapply Hps, list_elem_of_lookup_2, Hj.
Qed.

Lemma consistent_step s s' : source_step s s' -> consistent s -> consistent s'.
Proof.
  intros Hs Hc. destruct Hs.
  - apply consistent_begin; [apply replication_calls|done].
  - apply consistent_begin; [apply backup_calls|done].
  - by apply consistent_call.
  - apply consistent_write; [|done]. eapply logged_like; [done..|].
    apply (co_logged _ Hc). by eapply object_at_in.
  - destruct Hc as [Hi Hl Hp]. split; [by apply indexed_delete|done|].
    intros p Hin. apply (pass_ok_grows (so_api s)); [done|by apply Hp].
Qed.

Lemma steps_consistent s s' : rtc source_step s s' -> consistent s -> consistent s'.
Proof. induction 1; eauto using consistent_step. Qed.

Lemma reachable_consistent s : rtc source_step empty_source s -> consistent s.
Proof. intros Hr. eapply steps_consistent; [exact Hr|apply consistent_empty]. Qed.

(** what a step does to a finished object *)
Lemma finished_step s s' n br :
  consistent s -> source_step s s' -> object_at (so_api s) n = Some br ->
  terminal_phase (br_Phase (br_Status br)) = true ->
  object_at (so_api s') n = None \/
  exists br', object_at (so_api s') n = Some br' /\ br_Status br' = br_Status br.
Proof.
  intros Hc Hs Ho Ht. assert (indexed (so_api s)) as Hi by exact (co_current _ Hc).
  assert (forall new, (replication_key new = n -> br_Status new = br_Status br) ->
    exists br', object_at (api_write (so_api s) new) n = Some br' /\ br_Status br' = br_Status br)
    as Hwrite.
  { intros new Hn. destruct (decide (replication_key new = n)) as [E|E].
    - exists new. split; [rewrite <- E; apply object_at_written|by apply Hn].
    - exists br. by rewrite object_at_other. }
  destruct Hs as [fuel req|req|i p c k r a seen Hp Hprog Hs|n' br' new Ho' Hk _ Hst|n']; cbn.
  - right. by exists br.
  - right. by exists br.
  - destruct (serves_writes _ _ _ _ _ _ Hs) as [->|(new & Hw & ->)]; right; [by exists br|].
    apply Hwrite. intros Hn. pose proof (co_passes _ Hc p (list_elem_of_lookup_2 _ _ _ Hp)) as Hok.
    pose proof (pass_call _ _ _ _ Hok Hprog) as Hcall. destruct c; try done.
    + destruct Hcall as [Hh _].
      destruct (update_writes _ _ _ _ Hok Hh Hw) as (cur & Hcur & -> & Hopen & _).
      unfold unfinished in Hopen. congruence.
    + destruct (create_writes _ _ _ _ _ _ _ Hi Hcall Hw) as [Hst _]. by rewrite Hst, Hn, Ho.
  - right. apply Hwrite. intros Hn. pose proof (object_at_key _ _ _ Hi Ho'). congruence.
  - destruct (decide (n' = n)) as [->|E]; [left|right; exists br; split; [|done]].
    + unfold object_at. cbn. by rewrite lookup_delete_eq.
    + unfold object_at. cbn. by rewrite lookup_delete_ne.
Qed.
End Invariant.
