(* ===== verification/SourceRuns.v ===== *)
(** * SourceRuns: what the source cluster promises over time

    The properties of [Source.source_step]: what every reachable state shows of an
    object, what a finished object keeps, and that from every reachable state, where
    any reconciles may have stopped at any point, one reconcile of a completed
    backup and then one of its replication inevitably bring it to phase Replicated,
    whatever the answers of an API server and an outside that fulfil every request
    ([obliges]; [inevitably] quantifies over the answers). *)

From stdpp Require Import gmap strings relations.
From S2P Require Import Prelude GoStrings GoJson Api Effects Objstore Kube.
From S2P Require Import ReplicationController ReplicationLiveness.
From S2P Require Import Source.
From S2P Require BackupController.

Definition with_pass (a : api) (ps : list pass) (p : pass) : source :=
  {| so_api := a; so_passes := ps ++ [p] |}.

Section Runs.
Context `{M : ApiMachinery}.

(** ** One pass runs on *)

Lemma call_step a ps p c k r a' seen :
  ps_prog p = Call c k -> serves a (ps_seen p) c r a' seen ->
  source_step (with_pass a ps p) (with_pass a' ps (after_call p (k r) (Ev c r) seen)).
Proof.
  intros Hp Hs. pose proof (step_call (with_pass a ps p) (length ps) p c k r a' seen) as H.
  cbn in H. rewrite lookup_app_r, Nat.sub_diag, insert_app_r_alt, Nat.sub_diag in H by done.
  by apply H.
Qed.

(** [m] comes to a result when the outside answers as expected, and its calls obey
    a guard under which the API server can answer so *)
Lemma pass_runs E G (I : api -> option nat -> history -> Prop) (Q : history -> reconciled -> Prop) ps :
  (forall a seen h c, I a seen h -> G h c ->
     exists r a' seen', serves a seen c r a' seen' /\ E c r /\ I a' seen' (Ev c r :: h)) ->
  forall m a p, ps_prog p = m -> under E m (ps_history p) Q ->
  safe G m (ps_history p) (fun _ _ => True) -> I a (ps_seen p) (ps_history p) ->
  exists a' p' r, rtc source_step (with_pass a ps p) (with_pass a' ps p') /\
    ps_prog p' = Ret r /\ Q (ps_history p') r /\ I a' (ps_seen p') (ps_history p').
Proof.
  intros Hserve m. induction m as [r|c k IH| |]; intros a p Hp Hu Hs HI; [|..|done|done].
  - exists a, p, r. by split_and!.
  - destruct Hs as [HG Hs]. destruct (Hserve _ _ _ _ HI HG) as (r & a1 & seen1 & Hr & HE & HI1).
    destruct (IH r a1 (after_call p (k r) (Ev c r) seen1)) as (a' & p' & r' & Hrtc & H);
      [done|by apply Hu|by apply Hs|done|].
    exists a', p', r'. split; [|done]. eapply rtc_l; [|exact Hrtc]. by apply call_step.
Qed.

(** ** A replication *)

Section Replication.
Context (br0 : BackupReplication) (n : NamespacedName) (reply : forall c, resp c)
  (Hget : forall n, reply (KGetBackupReplication n) = Ok br0)
  (Hupdate : forall br, reply (KStatusUpdateBackupReplication br) = Ok br).

(** the pass holds the current version, or has not read it yet *)
Definition current_in_hand (a : api) (seen : option nat) (h : history) : Prop :=
  match answers h with
  | [] => object_at a n = Some br0
  | b :: _ => exists v, seen = Some v /\ ap_current a !! n = Some v /\ ap_log a !! v = Some b
  end /\ forall b, b ∈ answers h -> replication_key b = n.

Lemma reply_off_record a seen h c :
  off_record c -> current_in_hand a seen h ->
  exists r a' seen', serves a seen c r a' seen' /\ r = reply c /\
    current_in_hand a' seen' (Ev c r :: h).
Proof.
  intros Hc HI. exists (reply c), a, seen. split; [by destruct c|]. split; [done|].
  unfold current_in_hand. by rewrite answers_off_record.
Qed.

(** the API server can answer so *)
Lemma reply_serves a seen h c :
  replication_key br0 = n -> current_in_hand a seen h -> handles n h c ->
  exists r a' seen', serves a seen c r a' seen' /\ r = reply c /\
    current_in_hand a' seen' (Ev c r :: h).
Proof.
  intros Hn HI Hc. destruct c; try (by apply reply_off_record); [|].
  - destruct Hc as [-> Ha]. destruct HI as [HI _]. rewrite Ha in HI.
    pose proof HI as (v & Hv & Hl)%bind_Some.
    exists (Ok br0), a, (Some v). split; [|split; [by rewrite Hget|]].
    + split; [done|]. by exists v.
    + split; cbn; [by exists v|]. fold (answers h). rewrite Ha. by intros b ->%list_elem_of_singleton.
  - destruct Hc as (b & rest & Ha & Hm & Hs & _). destruct HI as [HI Hk]. rewrite Ha in HI.
    destruct HI as (v & -> & Hv & Hl).
    assert (replication_key br = n) as Hbr.
    { rewrite <- (Hk b) by (rewrite Ha; constructor). unfold replication_key. by rewrite Hm. }
    assert (with_status b (br_Status br) = br) as E.
    { destruct br. cbn in *. unfold with_status. by rewrite Hm, Hs. }
    exists (Ok br), (api_write a br), (Some (length (ap_log a))). split; [|split; [by rewrite Hupdate|]].
    + right. right. exists v, b. rewrite Hbr, E. split_and!; [done..|]. by left.
    + split; cbn -[api_write]; fold (answers h).
      * exists (length (ap_log a)). split_and!; [done| |apply lookup_written].
        cbn. by rewrite Hbr, lookup_insert_eq.
      * intros b' [->|Hb']%elem_of_cons; [done|by apply Hk].
Qed.

Lemma replication_pass a ps fuel Q :
  replication_key br0 = n -> object_at a n = Some br0 ->
  under (fun c r => r = reply c) (ReplicationController.Reconcile fuel n) [] Q ->
  exists a' p' r, rtc source_step {| so_api := a; so_passes := ps |} (with_pass a' ps p') /\
    ps_prog p' = Ret r /\ Q (ps_history p') r /\
    current_in_hand a' (ps_seen p') (ps_history p').
Proof.
  intros Hn Ho Hu.
  destruct (pass_runs (fun c r => r = reply c) (handles n) current_in_hand Q ps
    (fun a seen h c => reply_serves a seen h c Hn) (ReplicationController.Reconcile fuel n) a
    (new_pass n (ReplicationController.Reconcile fuel n)))
    as (a' & p' & r & Hrtc & H); [done..|apply Reconcile_handles| |].
  - split; [done|]. by intros b ?%elem_of_nil.
  - exists a', p', r. split; [|done]. eapply rtc_l; [apply (step_replication _ fuel n)|exact Hrtc].
Qed.

(** the last update is the current version *)
Lemma last_update_current a seen br h :
  current_in_hand a seen (Ev (KStatusUpdateBackupReplication br) (Ok br) :: h) ->
  object_at a n = Some br.
Proof. intros [(v & _ & Hcur & Hlog) _]. unfold object_at. by rewrite Hcur. Qed.
End Replication.

(** ** A backup *)

Definition backup_key (backup : Backup) : NamespacedName :=
  {| nn_Namespace := om_Namespace (bk_Meta backup); nn_Name := om_Name (bk_Meta backup) |}.

(** the object that the backup's reconcile makes of what is there *)
Definition made_from (a : api) (backup : Backup) (policy : ReplicationPolicy)
    (br : BackupReplication) : Prop :=
  ensured a (BackupController.new_replication backup)
    (BackupController.mutate_replication backup policy) br.

Lemma backup_runs a ps backup policies policy br :
  bk_Phase (bk_Status backup) = BackupPhaseCompleted ->
  BackupController.first_match policies backup = Ok (Some policy) ->
  made_from a backup policy br ->
  exists p, rtc source_step {| so_api := a; so_passes := ps |} (with_pass (api_write a br) ps p) /\
    ps_history p =
      [Ev (KCreateOrUpdateBackupReplication (BackupController.new_replication backup)
             (BackupController.mutate_replication backup policy)) (Ok OperationResultCreated);
       Ev KListReplicationPolicies (Ok policies); Ev (KGetBackup (backup_key backup)) (Ok backup)].
Proof.
  intros Hph Hf Hm. eexists. split; cycle 1.
  2:{ eapply rtc_l; [apply (step_backup _ (backup_key backup))|]. eapply rtc_l.
    { eapply (call_step a ps _ (KGetBackup (backup_key backup)) _ (Ok backup) a None);
        [reflexivity|done]. }
    eapply rtc_l.
    { eapply (call_step a ps _ KListReplicationPolicies _ (Ok policies) a None); [|done].
      cbn. rewrite bool_decide_eq_false_2 by (intros H; by apply H). reflexivity. }
    apply rtc_once.
    eapply (call_step a ps _ (KCreateOrUpdateBackupReplication
      (BackupController.new_replication backup) (BackupController.mutate_replication backup policy))
      _ (Ok OperationResultCreated) _ None); [cbn; rewrite Hf; reflexivity|].
    split; [reflexivity|]. right. by exists br. }
  reflexivity.
Qed.

Definition backup_answer (x : event) : option Backup :=
  match ev_call x as c return resp c -> option Backup with
  | KGetBackup _ => fun r => match r with Ok b => Some b | Er _ => None end
  | _ => fun _ => None
  end (ev_resp x).

Lemma made_from_key a backup policies policy br :
  indexed a -> BackupController.chosen policies backup policy ->
  bk_Phase (bk_Status backup) = BackupPhaseCompleted ->
  made_from a backup policy br -> replication_key br = backup_key backup.
Proof.
  intros Hi Hf Hph Hm.
  assert (BackupController.creates (backup_key backup)
    [Ev KListReplicationPolicies (Ok policies); Ev (KGetBackup (backup_key backup)) (Ok backup)]
    (KCreateOrUpdateBackupReplication (BackupController.new_replication backup)
       (BackupController.mutate_replication backup policy))) as Hc.
  { exists backup, policies, policy. split_and!; [|done| |done|apply BackupController.mutate_ensures].
    - constructor. constructor.
    - constructor. }
  destruct (create_writes _ None _ _ _ _ _ Hi Hc Hm) as (_ & b' & ps & q & Hb & _ & _ & _ & -> & _).
  apply (list_elem_of_fmap_2 backup_answer) in Hb. cbn in Hb.
  apply elem_of_cons in Hb as [?|Hb]; [done|]. by apply list_elem_of_singleton in Hb as [= ->].
Qed.

(** ** An outside that cooperates, and what a reconcile then comes to *)

Definition replication_spec (backup : Backup) (policy : ReplicationPolicy) : BackupReplicationSpec :=
  {| brs_BackupName := om_Name (bk_Meta backup); brs_PolicyName := om_Name (rp_Meta policy);
     brs_StorageLocation := bk_StorageLocation (bk_Spec backup) |}.

Definition with_replication (cl : cluster) (br : BackupReplication) : cluster :=
  {| cl_replication := br; cl_policy := cl_policy cl; cl_location := cl_location cl;
     cl_secrets := cl_secrets cl; cl_objects := cl_objects cl |}.

Section Progress.
Context (cl : cluster) (backup : Backup) (policies : list ReplicationPolicy).

(** The API server answers reads with the current version, accepts updates and
    creations and lets their answers through; it has the backup and the policies;
    all else is as [cooperates] says. *)
Definition obliges (a : api) (seen : option nat) (c : call) (r : resp c) (a' : api)
    (seen' : option nat) : Prop :=
  serves a seen c r a' seen' /\
  match c return resp c -> Prop with
  | KGetBackup _ => fun r => r = Ok backup
  | KListReplicationPolicies => fun r => r = Ok policies
  | KCreateOrUpdateBackupReplication obj mutate => fun r =>
      (exists op, r = Ok op) /\ exists new, ensured a obj mutate new /\ a' = api_write a new
  | KGetBackupReplication n => fun r => (exists br, r = Ok br) /\ seen' = ap_current a !! n
  | KStatusUpdateBackupReplication _ => fun r => exists b, r = Ok b
  | c => cooperates cl c
  end r.

(** The pass never gets stuck, and whatever it is answered by such an outside it
    comes to a result in [Q]. *)
Inductive inevitably (Q : api -> pass -> reconciled -> Prop) (a : api) (p : pass) : Prop :=
| inevitably_now r : ps_prog p = Ret r -> Q a p r -> inevitably Q a p
| inevitably_later c k :
    ps_prog p = Call c k ->
    (exists r a' seen, obliges a (ps_seen p) c r a' seen) ->
    (forall r a' seen, obliges a (ps_seen p) c r a' seen ->
       inevitably Q a' (after_call p (k r) (Ev c r) seen)) ->
    inevitably Q a p.

Lemma inevitably_mono (Q Q' : api -> pass -> reconciled -> Prop) a p :
  inevitably Q a p -> (forall a p r, Q a p r -> Q' a p r) -> inevitably Q' a p.
Proof.
  intros H HQ. induction H as [a p r Hp Hq|a p c k Hp Hex _ IH].
  - by eapply inevitably_now, HQ.
  - by eapply inevitably_later.
Qed.

(** the steps of the machine that lead there *)
Lemma inevitably_steps ps Q a p :
  inevitably Q a p ->
  inevitably (fun a' p' r => Q a' p' r /\ rtc source_step (with_pass a ps p) (with_pass a' ps p')) a p.
Proof.
  induction 1 as [a p r Hp Hq|a p c k Hp Hex _ IH].
  - by eapply inevitably_now.
  - eapply inevitably_later; [exact Hp|exact Hex|]. intros r a1 seen Hr.
    eapply inevitably_mono; [by apply IH|]. cbn. intros a2 p2 r2 [Hq Hs]. split; [done|].
    eapply rtc_l; [|exact Hs]. eapply call_step; [exact Hp|apply Hr].
Qed.

(** there is such a result *)
Lemma inevitably_some Q a p : inevitably Q a p -> exists a' p' r, Q a' p' r.
Proof.
  induction 1 as [a p r Hp Hq|a p c k Hp (r & a' & seen & Hr) _ IH]; [by exists a, p, r|].
  by eapply IH.
Qed.

(** what [under] and [safe] say of a program, for an outside that keeps [I] *)
Lemma pass_inevitable E G (I : api -> option nat -> history -> Prop) Q :
  (forall a seen h c, I a seen h -> G h c ->
     (exists r a' seen', obliges a seen c r a' seen') /\
     forall r a' seen', obliges a seen c r a' seen' -> E c r /\ I a' seen' (Ev c r :: h)) ->
  forall m a p, ps_prog p = m -> under E m (ps_history p) Q ->
  safe G m (ps_history p) (fun _ _ => True) -> I a (ps_seen p) (ps_history p) ->
  inevitably (fun a' p' r => Q (ps_history p') r /\ I a' (ps_seen p') (ps_history p')) a p.
Proof.
  intros Hserve m. induction m as [r|c k IH| |]; intros a p Hp Hu Hs HI; [..|done|done].
  - by eapply inevitably_now.
  - destruct Hs as [HG Hs]. destruct (Hserve _ _ _ _ HI HG) as [Hex Hall].
    eapply inevitably_later; [exact Hp|exact Hex|]. intros r a' seen Hr.
    destruct (Hall _ _ _ Hr) as [HE HI']. apply (IH r); [done|by apply Hu|by apply Hs|done].
Qed.

(** the replication [br0], current in the server as [n] *)
Section Current.
Context (br0 : BackupReplication) (n : NamespacedName) (Hn : replication_key br0 = n)
  (Hspec : br_Spec br0 = br_Spec (cl_replication cl)).

Lemma obliges_off_record a seen h c :
  off_record c -> current_in_hand br0 n a seen h ->
  (exists r a' seen', obliges a seen c r a' seen') /\
  forall r a' seen', obliges a seen c r a' seen' ->
    cooperates (with_replication cl br0) c r /\ current_in_hand br0 n a' seen' (Ev c r :: h).
Proof.
  intros Hc HI. split.
  - exists match c return resp c with
      | KGetBackup _ => Ok backup
      | KListReplicationPolicies => Ok policies
      | c => answer cl c
      end, a, seen. split; [by destruct c|].
    destruct c; try done; match goal with |- context [cooperates cl ?c] => exact (demo_cooperates cl c tt) end.
  - intros r a' seen' [Hs Hr].
    assert (a' = a /\ seen' = seen) as [-> ->] by by destruct c.
    split; [|unfold current_in_hand; by rewrite answers_off_record].
    destruct c; try done. destruct Hr as (body & -> & Hl). exists body. split; [done|].
    unfold ledger_parses in *. cbn. by rewrite Hspec.
Qed.

Lemma obliges_serves a seen h c :
  current_in_hand br0 n a seen h -> handles n h c ->
  (exists r a' seen', obliges a seen c r a' seen') /\
  forall r a' seen', obliges a seen c r a' seen' ->
    cooperates (with_replication cl br0) c r /\ current_in_hand br0 n a' seen' (Ev c r :: h).
Proof.
  intros HI Hc. destruct c; try (by apply obliges_off_record); [|].
  - destruct Hc as [-> Ha]. destruct HI as [HI _]. rewrite Ha in HI.
    pose proof HI as (v & Hv & Hl)%bind_Some. split.
    + exists (Ok br0), a, (Some v). split; [|split; [by exists br0|by rewrite Hv]].
      split; [done|]. by exists v.
    + intros r a' seen' [[-> Hr] [[br ->] Hseen]]. destruct Hr as (v' & Hl' & _ & ->).
      rewrite Hv in Hseen. injection Hseen as ->. rewrite Hl in Hl'. injection Hl' as <-.
      split; [done|]. split; cbn; [by exists v|]. fold (answers h). rewrite Ha.
      by intros b ->%list_elem_of_singleton.
  - destruct Hc as (b & rest & Ha & Hm & Hs & _). destruct HI as [HI Hk]. rewrite Ha in HI.
    destruct HI as (v & -> & Hv & Hl).
    assert (replication_key br = n) as Hbr.
    { rewrite <- (Hk b) by (rewrite Ha; constructor). unfold replication_key. by rewrite Hm. }
    assert (with_status b (br_Status br) = br) as Eb.
    { destruct br. cbn in *. unfold with_status. by rewrite Hm, Hs. }
    split.
    + exists (Ok br), (api_write a br), (Some (length (ap_log a))). split; [|by exists br].
      right. right. exists v, b. rewrite Hbr, Eb. split_and!; [done..|]. by left.
    + intros r a' seen' [Hserve [b' ->]].
      assert (b' = br /\ exists v', seen' = Some v' /\ ap_current a' !! n = Some v' /\
        ap_log a' !! v' = Some br) as (-> & v' & -> & Hv' & Hl').
      { destruct Hserve as [(e & ? & _)|[(v' & Hv' & Hc' & Hl' & [= ->] & -> & ->)|
          (v' & cur & Hv' & _ & Hl' & -> & [[[= ->] ->]|(e & ? & _)])]]; [done| | |done].
        - split; [done|]. exists v'. by rewrite <- Hbr.
        - injection Hv' as <-. rewrite Hl in Hl'. injection Hl' as <-. rewrite Eb.
          split; [done|]. exists (length (ap_log a)). split_and!; [done| |apply lookup_written].
          cbn. by rewrite Hbr, lookup_insert_eq. }
      split; [done|]. split; cbn; fold (answers h); [by exists v'|].
      intros b'' [->|Hb'']%elem_of_cons; [done|by apply Hk].
Qed.

Lemma replication_inevitable a fuel cfg :
  object_at a n = Some br0 -> replication_key (cl_replication cl) = n ->
  being_deleted (br_Meta br0) = false -> unfinished br0 ->
  rp_Paused (rp_Spec (cl_policy cl)) = false -> valid_utf8 (nn_Name n) = true ->
  store_config cl = Some cfg -> usable cfg -> listing_ok cl (Trim (cfg_Prefix cfg) slash) ->
  inevitably (fun a' p' r => r = done /\ exists br, object_at a' n = Some br /\
      br_Spec br = br_Spec br0 /\ br_Phase (br_Status br) = PhaseReplicated)
    a (new_pass n (ReplicationController.Reconcile (S fuel) n)).
Proof.
  intros Ho Hcl Hd Ht Hp Hv Hcfg Hu Hl. eapply inevitably_mono.
  - eapply (pass_inevitable (cooperates (with_replication cl br0)) (handles n)
      (current_in_hand br0 n) (ends_replicated (with_replication cl br0)) obliges_serves);
      [reflexivity| |apply Reconcile_handles|].
    + assert (om_Namespace (br_Meta br0) = om_Namespace (br_Meta (cl_replication cl))) as Hns.
      { change (nn_Namespace (replication_key br0) = nn_Namespace (replication_key (cl_replication cl))).
        by rewrite Hn, Hcl. }
      apply (under_Reconcile (with_replication cl br0) fuel n cfg); [done..| | |done|].
      * rewrite <- Hn in Hv. exact Hv.
      * unfold store_config. cbn [with_replication cl_replication cl_policy cl_location].
        rewrite Hns. exact Hcfg.
      * destruct Hl as [Hkeys Hown]. split; [exact Hkeys|]. cbn. by rewrite Hspec.
    + split; [done|]. by intros b ?%elem_of_nil.
  - cbn. intros a' p' r [[-> (br & h' & Hh & [_ Hs] & Hph)] HI]. split; [done|].
    exists br. rewrite Hh in HI. apply last_update_current in HI. done.
Qed.
End Current.

(** the object of the backup is missing, or open *)
Definition open_or_missing (a : api) : Prop :=
  match object_at a (backup_key backup) with
  | Some cur => being_deleted (br_Meta cur) = false /\ unfinished cur
  | None => True
  end.

(** the owner reference to the backup can be set *)
Definition ownable (a : api) : Prop := exists meta,
  SetControllerReference (bk_Meta backup)
    (br_Meta (default (BackupController.new_replication backup) (object_at a (backup_key backup)))) =
    Ok meta.

Lemma made_from_exists a policy : ownable a -> exists br, made_from a backup policy br.
Proof.
  intros [meta Hm]. set (base := default _ _) in Hm.
  exists {| br_Meta := br_Meta base; br_Spec := replication_spec backup policy;
            br_Status := default BackupController.zero_BackupReplicationStatus
              (br_Status <$> object_at a (backup_key backup)) |}.
  exists {| br_Meta := meta; br_Spec := replication_spec backup policy; br_Status := br_Status base |}.
  split; [|by split_and!]. unfold BackupController.mutate_replication.
  change (default _ _) with base. by rewrite Hm.
Qed.

(** the reconcile of the backup makes or updates its object *)
Lemma backup_inevitable a policy :
  bk_Phase (bk_Status backup) = BackupPhaseCompleted ->
  BackupController.chosen policies backup policy -> ownable a ->
  inevitably (fun a' p' r => r = done /\ exists br, made_from a backup policy br /\ a' = api_write a br)
    a (new_pass (backup_key backup) (BackupController.Reconcile (backup_key backup))).
Proof.
  intros Hph Hf%BackupController.first_match_chosen Hown.
  destruct (made_from_exists a policy Hown) as [br Hbr].
  eapply inevitably_later; [reflexivity|by exists (Ok backup), a, None|].
  intros r1 a1 s1 [[-> ->] ->]. eapply (inevitably_later _ _ _ KListReplicationPolicies).
  { cbn. rewrite bool_decide_eq_false_2 by (intros H; by apply H). reflexivity. }
  { by exists (Ok policies), a, None. }
  intros r2 a2 s2 [[-> ->] ->].
  eapply (inevitably_later _ _ _ (KCreateOrUpdateBackupReplication
    (BackupController.new_replication backup) (BackupController.mutate_replication backup policy)));
    [cbn; rewrite Hf; reflexivity| |].
  { exists (Ok OperationResultCreated), (api_write a br), None. split.
    - split; [done|]. right. by exists br.
    - split; [by eexists|]. by exists br. }
  intros r3 a3 s3 [_ [[op ->] (new & Hnew & ->)]].
  eapply inevitably_now; [reflexivity|]. split; [done|]. by exists new.
Qed.
End Progress.

(** the object made has the backup's key and spec, and is open when what was there was *)
Lemma made_from_open a backup policies policy br :
  indexed a -> BackupController.chosen policies backup policy ->
  bk_Phase (bk_Status backup) = BackupPhaseCompleted -> open_or_missing backup a ->
  made_from a backup policy br ->
  replication_key br = backup_key backup /\ br_Spec br = replication_spec backup policy /\
  being_deleted (br_Meta br) = false /\ unfinished br.
Proof.
  intros Hi Hf Hph Hopen Hm. pose proof (made_from_key _ _ _ _ _ Hi Hf Hph Hm) as Hk.
  split; [done|]. destruct Hm as (bi & Hbi & Hs & (_ & _ & Hdel) & Hst).
  change (replication_key (BackupController.new_replication backup)) with (backup_key backup) in *.
  split.
  { rewrite Hs. unfold BackupController.mutate_replication in Hbi.
    destruct (SetControllerReference _ _); [|done]. by injection Hbi as <-. }
  unfold open_or_missing in Hopen. unfold being_deleted, unfinished in *. rewrite Hdel, Hst.
  by destruct (object_at a (backup_key backup)).
Qed.

(** a reconcile of the backup, then one of its replication *)
Lemma both_inevitable s cl backup policies policy cfg fuel :
  let n := backup_key backup in
  indexed (so_api s) ->
  bk_Phase (bk_Status backup) = BackupPhaseCompleted ->
  BackupController.chosen policies backup policy ->
  open_or_missing backup (so_api s) -> ownable backup (so_api s) ->
  replication_key (cl_replication cl) = n ->
  br_Spec (cl_replication cl) = replication_spec backup policy ->
  rp_Paused (rp_Spec (cl_policy cl)) = false -> valid_utf8 (nn_Name n) = true ->
  store_config cl = Some cfg -> usable cfg -> listing_ok cl (Trim (cfg_Prefix cfg) slash) ->
  inevitably cl backup policies (fun a1 p1 r1 => r1 = done /\
      inevitably cl backup policies (fun a2 p2 r2 => r2 = done /\
          rtc source_step s {| so_api := a2; so_passes := so_passes s ++ [p1; p2] |} /\
          exists br, object_at a2 n = Some br /\ br_Spec br = replication_spec backup policy /\
            br_Phase (br_Status br) = PhaseReplicated)
        a1 (new_pass n (ReplicationController.Reconcile (S fuel) n)))
    (so_api s) (new_pass n (BackupController.Reconcile n)).
Proof.
  intros n Hi Hph Hf Hopen Hown Hclk Hcls Hp Hv Hcfg Hu Hl.
  eapply inevitably_mono; [apply (inevitably_steps _ _ _ (so_passes s));
    by apply (backup_inevitable cl backup policies _ policy)|].
  intros a1 p1 r1 [[-> (br & Hm & ->)] Hs1]. split; [done|].
  destruct (made_from_open _ _ _ _ _ Hi Hf Hph Hopen Hm) as (Hk & Hs & Hd & Ht).
  eapply inevitably_mono; [apply (inevitably_steps _ _ _ (so_passes s ++ [p1]));
    apply (replication_inevitable cl backup policies br n Hk ltac:(by rewrite Hs) _ fuel cfg);
    [unfold n; rewrite <- Hk; apply object_at_written|done..]|].
  cbn. intros a2 p2 r2 [[-> (br' & Ho & Hs' & Hph')] Hs2]. split; [done|].
  split; [|exists br'; by rewrite Hs', Hs].
  destruct s as [a ps]. eapply rtc_l; [exact (step_backup _ n)|]. etrans; [exact Hs1|].
  eapply rtc_l; [exact (step_replication _ (S fuel) n)|].
  change [p1; p2] with ([p1] ++ [p2]). rewrite app_assoc. exact Hs2.
Qed.

(** ** What is promised *)

(** C3: whatever reconciles ran on the source, of any backups and replications,
    interleaved in any way and stopped anywhere, with stale reads, lost answers,
    deletions and any failure outside: a replication that is there was made by a
    reconcile that the API server told of its backup as Completed, under the first
    policy, of those listed then, that takes the backup; its spec and its name are
    the backup's; and when it is Replicated, a reconcile had shipped it
    ([ReplicationController.shipped]) before that status was written. It is never in
    phase Failed or Pending, which nothing writes. *)
Theorem source_evidence s n br :
  rtc source_step empty_source s -> object_at (so_api s) n = Some br ->
  replication_key br = n /\ brs_BackupName (br_Spec br) = nn_Name n /\ made (so_passes s) br /\
  (br_Phase (br_Status br) = PhaseReplicated -> sent (so_passes s) br) /\
  br_Phase (br_Status br) ∈ [PhaseUnset; PhaseStaging; PhaseTransmitting; PhaseReplicated; PhaseSkipped].
Proof.
  intros [Hi Hl _]%reachable_consistent Ho. pose proof (Hl br (object_at_in _ _ _ Ho)) as Hbr.
  pose proof (object_at_key _ _ _ Hi Ho) as Hk. pose proof Hbr as [Hm Hs Hp].
  split; [done|]. split; [by rewrite (logged_name _ _ Hbr), Hk|]. done.
Qed.

(** C4: a finished replication stays finished: in every reachable state, no call of
    any reconcile under way, however old the version it read, takes an object out
    of phase Replicated or Skipped, or changes its status at all; only its deletion
    ends it. *)
Theorem finished_stays s s' n br :
  rtc source_step empty_source s -> source_step s s' -> object_at (so_api s) n = Some br ->
  terminal_phase (br_Phase (br_Status br)) = true ->
  object_at (so_api s') n = None \/
  exists br', object_at (so_api s') n = Some br' /\ br_Status br' = br_Status br.
Proof. intros Hr%reachable_consistent. by apply finished_step. Qed.

(** C5: a completed backup can always still be replicated.  In every reachable state,
    whatever reconciles stopped half-way before, let the backup be completed, a
    policy be the first listed that takes it, and its replication be missing, or be
    there unfinished and not being deleted.  Let an outside cooperate ([obliges]):
    the API server answers with current versions and accepts what it is asked, an
    unpaused policy and a usable location are there, the store lists objects of the
    backup, the sidecar completes what it is sent.  Then, however it answers in this
    frame, one reconcile of the backup inevitably comes to a result, without an error
    or a requeue, and after it so does one reconcile of the replication; and then
    the object is Replicated under that policy, with all that this phase stands for
    done. *)
Theorem backup_converges s cl backup policies policy cfg fuel :
  let n := backup_key backup in
  rtc source_step empty_source s ->
  bk_Phase (bk_Status backup) = BackupPhaseCompleted ->
  BackupController.chosen policies backup policy ->
  open_or_missing backup (so_api s) -> ownable backup (so_api s) ->
  replication_key (cl_replication cl) = n ->
  br_Spec (cl_replication cl) = replication_spec backup policy ->
  rp_Paused (rp_Spec (cl_policy cl)) = false -> valid_utf8 (nn_Name n) = true ->
  store_config cl = Some cfg -> usable cfg -> listing_ok cl (Trim (cfg_Prefix cfg) slash) ->
  inevitably cl backup policies (fun a1 p1 r1 => r1 = done /\
      inevitably cl backup policies (fun a2 p2 r2 => r2 = done /\
          let s' := {| so_api := a2; so_passes := so_passes s ++ [p1; p2] |} in
          rtc source_step s s' /\
          exists br, object_at a2 n = Some br /\ br_Spec br = replication_spec backup policy /\
            br_Phase (br_Status br) = PhaseReplicated /\ sent (so_passes s') br)
        a1 (new_pass n (ReplicationController.Reconcile (S fuel) n)))
    (so_api s) (new_pass n (BackupController.Reconcile n)).
Proof.
  intros n Hr Hph Hf Hopen Hown Hclk Hcls Hp Hv Hcfg Hu Hl.
  pose proof (reachable_consistent _ Hr) as Hc.
  eapply inevitably_mono; [by apply (both_inevitable s cl backup policies policy cfg fuel (co_current _ Hc))|].
  cbn. intros a1 p1 r1 [-> H]. split; [done|]. eapply inevitably_mono; [exact H|].
  cbn. intros a2 p2 r2 (-> & Hs & br & Ho & Hsp & Hrep). split; [done|]. split; [exact Hs|].
  exists br. split_and!; [done..|].
  pose proof (steps_consistent _ _ Hs Hc) as [_ Hlog _].
  apply (Hlog br (object_at_in _ _ _ Ho)), Hrep.
Qed.
End Runs.

(** ** A backup *)

Definition demo_backup : Backup :=
  {| bk_Meta := new_meta "nightly-1" "velero";
     bk_Spec := {| bk_StorageLocation := "default"; bk_IncludedNamespaces := [];
                   bk_DefaultVolumesToFsBackup := None; bk_SnapshotVolumes := None |};
     bk_Status := {| bk_Phase := BackupPhaseCompleted; bk_StartTimestamp := None;
                     bk_CompletionTimestamp := None; bk_Expiration := None |} |}.

(** the object that its reconcile makes *)
Definition made_of (backup : Backup) (policy : ReplicationPolicy) : BackupReplication :=
  let br := BackupController.new_replication backup in
  match BackupController.mutate_replication (M := sample_machinery) backup policy br with
  | Ok br => br
  | Er _ => br
  end.

Definition made_cluster : cluster :=
  with_replication demo_cluster (made_of demo_backup (cl_policy demo_cluster)).

(** two reconciles began, and stopped before their first call *)
Definition stopped : source :=
  begin (begin empty_source (backup_key demo_backup)
           (BackupController.Reconcile (M := sample_machinery) (backup_key demo_backup)))
    (backup_key demo_backup)
    (ReplicationController.Reconcile (M := sample_machinery) 1 (backup_key demo_backup)).

Lemma stopped_reachable : rtc (source_step (M := sample_machinery)) empty_source stopped.
Proof.
  eapply rtc_l; [exact (step_backup (M := sample_machinery) empty_source (backup_key demo_backup))|].
  apply rtc_once. apply (step_replication (M := sample_machinery)).
Qed.

Lemma demo_chosen :
  BackupController.chosen (M := sample_machinery) [cl_policy demo_cluster] demo_backup
    (cl_policy demo_cluster).
Proof. exists [], []. split; [done|]. split; [constructor|]. split_and!; [done|by left|done]. Qed.

Lemma made_listing : listing_ok made_cluster "prod".
Proof. split; apply demo_listing. Qed.

#[local] Abbreviation steps := (rtc (source_step (M := sample_machinery))).
#[local] Abbreviation demo_key := (backup_key demo_backup).

(** the backup was replicated *)
Lemma replicated_reachable : exists s br, steps empty_source s /\
  object_at (so_api s) demo_key = Some br /\ br_Phase (br_Status br) = PhaseReplicated /\
  brs_PolicyName (br_Spec br) = "all".
Proof.
  destruct (inevitably_some _ _ _ _ _ _ (both_inevitable (M := sample_machinery) stopped made_cluster
    demo_backup [cl_policy demo_cluster] (cl_policy demo_cluster) demo_config 0
    (co_current _ (reachable_consistent _ stopped_reachable)) eq_refl demo_chosen I
    (ex_intro _ _ eq_refl) eq_refl eq_refl eq_refl ltac:(vm_compute; reflexivity)
    ltac:(vm_compute; reflexivity) ltac:(split; vm_compute; discriminate) made_listing))
    as (a1 & p1 & r1 & _ & H).
  destruct (inevitably_some _ _ _ _ _ _ H) as (a2 & p2 & r2 & _ & Hr & br & Ho & Hs & Hph).
  eexists _, br. split; [etrans; [exact stopped_reachable|exact Hr]|]. by rewrite Hs.
Qed.

(** A reconcile of the backup gives a finished replication the spec of the policy
    that takes the backup by then, under which nothing was or will be shipped. *)
Lemma policy_rewritten : exists s br s' br',
  steps empty_source s /\ object_at (so_api s) demo_key = Some br /\
  br_Phase (br_Status br) = PhaseReplicated /\ brs_PolicyName (br_Spec br) = "all" /\
  steps s s' /\ object_at (so_api s') demo_key = Some br' /\
  br_Status br' = br_Status br /\ brs_PolicyName (br_Spec br') = "other".
Proof.
  destruct replicated_reachable as (s & br & Hr & Ho & Hph & Hpol). destruct s as [a ps].
  set (policy := {| rp_Meta := new_meta "other" ""; rp_Spec := rp_Spec (cl_policy demo_cluster);
                    rp_Status := rp_Status (cl_policy demo_cluster) |}).
  pose proof (reachable_consistent _ Hr) as [Hi _ _].
  pose proof (object_at_key _ _ _ Hi Ho) as Hkey.
  destruct (BackupController.mutate_replication (M := sample_machinery) demo_backup policy br)
    as [new|] eqn:Hnew; [|done]. pose proof Hnew as [= <-].
  match type of Hnew with _ = Ok ?x => set (br' := x) in * end.
  destruct (backup_runs (M := sample_machinery) a ps demo_backup [policy] policy br')
    as (p & Hp & _); [reflexivity|vm_compute; reflexivity| |].
  - cbn [so_api] in Ho. exists br'. change (replication_key _) with demo_key.
    rewrite Ho. cbn [default]. split; [exact Hnew|]. by split_and!.
  - exists {| so_api := a; so_passes := ps |}, br, (with_pass (api_write a br') ps p), br'.
    split_and!; [done..| |done|done].
    rewrite <- Hkey. exact (object_at_written a br').
Qed.

Lemma source_evidence_witness : exists s br,
  steps empty_source s /\ object_at (so_api s) demo_key = Some br /\
  brs_BackupName (br_Spec br) = "nightly-1" /\ made (M := sample_machinery) (so_passes s) br /\
  sent (so_passes s) br.
Proof.
  destruct replicated_reachable as (s & br & Hr & Ho & Hph & _). exists s, br.
  destruct (source_evidence (M := sample_machinery) s demo_key br Hr Ho)
    as (_ & Hn & Hm & Hs & _).
  split; [exact Hr|]. split; [exact Ho|]. split; [exact Hn|]. split; [exact Hm|exact (Hs Hph)].
Defined.

(** a reconcile of the finished object begins, and it stays finished *)
Lemma finished_stays_witness : exists s s' br,
  steps empty_source s /\ source_step (M := sample_machinery) s s' /\
  object_at (so_api s) demo_key = Some br /\
  (object_at (so_api s') demo_key = None \/
   exists br', object_at (so_api s') demo_key = Some br' /\ br_Status br' = br_Status br).
Proof.
  destruct replicated_reachable as (s & br & Hr & Ho & Hph & _).
  eexists s, _, br. split; [exact Hr|].
  split; [exact (step_replication (M := sample_machinery) s 1 demo_key)|]. split; [exact Ho|].
  apply (finished_stays (M := sample_machinery) s _ demo_key br Hr
           (step_replication (M := sample_machinery) s 1 demo_key) Ho).
  rewrite Hph. reflexivity.
Defined.

Lemma backup_converges_witness :
  inevitably made_cluster demo_backup [cl_policy demo_cluster]
    (fun a1 p1 r1 => r1 = done /\
      inevitably made_cluster demo_backup [cl_policy demo_cluster]
        (fun a2 p2 r2 => r2 = done /\
          let s' := {| so_api := a2; so_passes := so_passes stopped ++ [p1; p2] |} in
          steps stopped s' /\
          exists br, object_at a2 demo_key = Some br /\
            br_Spec br = replication_spec demo_backup (cl_policy demo_cluster) /\
            br_Phase (br_Status br) = PhaseReplicated /\ sent (so_passes s') br)
        a1 (new_pass demo_key (ReplicationController.Reconcile (M := sample_machinery) 1 demo_key)))
    (so_api stopped)
    (new_pass demo_key (BackupController.Reconcile (M := sample_machinery) demo_key)).
Proof.
  apply (backup_converges (M := sample_machinery) stopped made_cluster demo_backup
    [cl_policy demo_cluster] (cl_policy demo_cluster) demo_config 0).
  - exact stopped_reachable.
  - reflexivity.
  - exact demo_chosen.
  - exact I.
  - eexists. reflexivity.
  - reflexivity.
  - reflexivity.
  - reflexivity.
  - vm_compute. reflexivity.
  - vm_compute. reflexivity.
  - split; vm_compute; discriminate.
  - exact made_listing.
Defined.
