(* ===== verification/Destination.v ===== *)
(** * Destination: what the bridge and the import reconciler do to a destination

    The destination as the program sees it: an inbox and a store
    ([ImportRefinement.InboxWorld]), a sidecar with a collection of documents, and
    an API server with BackupImports, which may refuse to write
    ([DestinationWorld]).  A reconcile and a poll of the bridge are shown to do
    what two relations say, [reconciles] and [polled]; [ImportConvergence] runs
    them over time. *)

From stdpp Require Import gmap strings.
From S2P Require Import Prelude GoStrings GoPath GoJson GoCrypto Api Effects Peat Manifest Objstore.
From S2P Require Import Importer ImportRefinement Kube ImportController.

(** ** The destination *)

(** what there is besides files and objects: the documents of the manifest
    collection, the API server's imports, and whether it refuses to write them *)
Record side : Type := {
  sd_documents : gmap string string;
  sd_imports : gmap NamespacedName BackupImport;
  sd_refusing : bool;
}.

Definition key_of (bi : BackupImport) : NamespacedName :=
  {| nn_Namespace := om_Namespace (bi_Meta bi); nn_Name := om_Name (bi_Meta bi) |}.

(** the API server has each object under its name *)
Definition keyed (s : side) : Prop := forall n bi, sd_imports s !! n = Some bi -> key_of bi = n.

(** the metadata that an update keeps *)
Definition same_object (old new : ObjectMeta) : Prop :=
  om_Namespace new = om_Namespace old /\ om_Name new = om_Name old /\
  om_DeletionTimestamp new = om_DeletionTimestamp old.

(** the store that [Objstore.New] opens when nothing is refused *)
Definition opened (cfg : Config) : minioStore :=
  let (endpoint, secure) := normalizeEndpoint (cfg_Endpoint cfg) in
  {| ms_client := {| mc_Endpoint := endpoint;
       mc_Options := {| mo_AccessKeyID := cfg_AccessKeyID cfg;
                        mo_SecretAccessKey := cfg_SecretAccessKey cfg;
                        mo_SessionToken := cfg_SessionToken cfg;
                        mo_Secure := secure;
                        mo_Region := cfg_Region cfg;
                        mo_BucketLookupPath := cfg_ForcePathStyle cfg;
                        mo_TLS := if secure && (cfg_InsecureTLS cfg || bool_decide (cfg_CABundle cfg <> ""))
                                  then Some (cfg_InsecureTLS cfg, cfg_CABundle cfg) else None |} |};
     ms_bucket := cfg_Bucket cfg;
     ms_prefix := Trim (cfg_Prefix cfg) slash |}.

Definition list_call (c : connectClient) (collection : string) : call :=
  HttpPost (cc_baseURL c +:+ svcPath +:+ "ListDocuments")
    (print (json_map [("collection", JStr collection)])).

Definition get_doc_ids : decoder (list string) :=
  get_struct ["docIds"] (fun _ => get_slice "" get_string).

Section World.
Context {W : Type} (files objs : W -> gmap string string) (rest : W -> side).

(** nothing was written, by a server that refuses *)
Definition refused (w w' : W) : Prop := sd_refusing (rest w) = true /\ w' = w.

(** the imports are now [imports] *)
Definition accepted (w w' : W) (imports : gmap NamespacedName BackupImport) : Prop :=
  files w' = files w /\ objs w' = objs w /\
  rest w' = {| sd_documents := sd_documents (rest w); sd_imports := imports;
               sd_refusing := sd_refusing (rest w) |}.

(** a create or update of the import [base] to the spec of [bi]; a status is not
    written this way *)
Definition written (w w' : W) (n : NamespacedName) (base bi : BackupImport) : Prop :=
  exists bi', accepted w w' (<[n := bi']> (sd_imports (rest w))) /\ bi_Spec bi' = bi_Spec bi /\
    bi_Status bi' = bi_Status base /\ same_object (bi_Meta base) (bi_Meta bi').
End World.

Class DestinationWorld {W : Type} (hd : handler W) (opts : ImportOptions)
    (files objs : W -> gmap string string) (walk : gmap string string -> list string)
    (rest : W -> side) : Prop := {
  dw_inbox :: InboxWorld hd (io_InboxRoot opts) (as_Store (opened (io_DestStore opts)))
                files objs (fullKey (opened (io_DestStore opts))) walk rest;
  dw_host : (normalizeEndpoint (cfg_Endpoint (io_DestStore opts))).1 <> "";
  dw_bucket : cfg_Bucket (io_DestStore opts) <> "";
  dw_transport w : hd MinioDefaultTransport w = (None, w);
  dw_certs pem w : hd (X509AppendCerts pem) w = (true, w);
  dw_client c w : hd (MinioNew c) w = (None, w);
  dw_time w : exists t, hd TimeNow w = (t, w);
  (* the API server *)
  dw_get n w : exists e, IsNotFound e = true /\
    hd (KGetBackupImport n) w =
      (match sd_imports (rest w) !! n with Some bi => Ok bi | None => Er e end, w);
  dw_update bi old w :
    sd_imports (rest w) !! key_of bi = Some old -> bi_Meta bi = bi_Meta old -> exists w',
    (exists e, hd (KStatusUpdateBackupImport bi) w = (Er e, w') /\ refused rest w w') \/
    (hd (KStatusUpdateBackupImport bi) w = (Ok bi, w') /\
     accepted files objs rest w w' (<[key_of bi := bi]> (sd_imports (rest w))));
  dw_create obj mutate bi w :
    mutate (default obj (sd_imports (rest w) !! key_of obj)) = Ok bi -> exists w',
    (exists e, hd (KCreateOrUpdateBackupImport obj mutate) w = (Er e, w') /\ refused rest w w') \/
    (exists op, hd (KCreateOrUpdateBackupImport obj mutate) w = (Ok op, w') /\
     written files objs rest w w' (key_of obj) (default obj (sd_imports (rest w) !! key_of obj)) bi);
  (* the sidecar *)
  dw_connect body w : exists r,
    hd (HttpPost (cc_baseURL (Peat.New (io_PeatAddress opts)) +:+ svcPath +:+ "ConnectPeer") body) w =
      (r, w);
  dw_list w : exists ids body,
    hd (list_call (Peat.New (io_PeatAddress opts)) (io_ManifestCollection opts)) w =
      (HttpReply 200 body, w) /\
    Unmarshal get_doc_ids [] body = (ids, None) /\
    forall id, is_Some (sd_documents (rest w) !! id) -> id ∈ ids;
  dw_document id w : exists body,
    hd (document_call (Peat.New (io_PeatAddress opts)) (io_ManifestCollection opts) id) w =
      (HttpReply 200 body, w) /\
    Unmarshal get_document_reply None body = (sd_documents (rest w) !! id, None);
}.

(** ** The two relations *)

(** the manifest of a document, when it is one and complete *)
Definition complete_manifest (docs : gmap string string) (id : string) : option Manifest :=
  match docs !! id with
  | Some data =>
      match Parse data with
      | Ok m => if mf_Complete m then Some m else None
      | Er _ => None
      end
  | None => None
  end.

(** a document that is not a manifest at all *)
Definition unparsable (docs : gmap string string) (id : string) : Prop :=
  exists data e, docs !! id = Some data /\ Parse data = Er e.

Definition document_of (bi : BackupImport) : string := bis_ManifestDocID (bi_Spec bi).

(** the import is not reconciled any more *)
Definition settled (bi : BackupImport) : Prop :=
  being_deleted (bi_Meta bi) = true \/ terminal_import (bi_Phase (bi_Status bi)) = true.

(** what the bridge asks for a manifest *)
Definition import_spec (m : Manifest) : BackupImportSpec :=
  {| bis_BackupName := mf_BackupName m; bis_StorageLocation := mf_StorageLocation m;
     bis_ManifestDocID := DocID (mf_StorageLocation m) (mf_BackupName m) |}.

Section Relations.
Context {W : Type} (opts : ImportOptions)
  (files objs : W -> gmap string string) (walk : gmap string string -> list string)
  (rest : W -> side).

Abbreviation ms := (opened (io_DestStore opts)).
Abbreviation root := (io_InboxRoot opts).
Abbreviation docs w := (sd_documents (rest w)).
Abbreviation imports w := (sd_imports (rest w)).

(** what one pass over the inbox of [w] returns, and leaves in the store *)
Definition pass (w : W) (m : Manifest) : Result * option error * gmap string string :=
  import_ref root (fullKey ms) walk (files w) m (objs w).

Definition store_after (w : W) (bi : BackupImport) : gmap string string :=
  match complete_manifest (docs w) (document_of bi) with
  | Some m => (pass w m).2
  | None => objs w
  end.

Definition commits (w : W) (bi : BackupImport) : Prop :=
  exists m, complete_manifest (docs w) (document_of bi) = Some m /\
    (pass w m).1.2 = None /\ rs_Committed (pass w m).1.1 = true.

(** the world after the import [n], read as [bi], was passed over and saved as [bi'] *)
Definition saved (w w' : W) (n : NamespacedName) (bi bi' : BackupImport) : Prop :=
  files w' = files w /\ objs w' = store_after w bi /\
  bi_Meta bi' = bi_Meta bi /\ bi_Spec bi' = bi_Spec bi /\
  rest w' = {| sd_documents := docs w; sd_imports := <[n := bi']> (imports w);
               sd_refusing := sd_refusing (rest w) |}.

Inductive reconciles (n : NamespacedName) (w : W) : reconciled -> W -> Prop :=
| reconciles_gone : imports w !! n = None -> reconciles n w done w
| reconciles_settled bi : imports w !! n = Some bi -> settled bi -> reconciles n w done w
| reconciles_refused bi e w' :
    imports w !! n = Some bi -> ~ settled bi -> saved w w' n bi bi ->
    sd_refusing (rest w) = true -> reconciles n w (failed e) w'
| reconciles_waits bi bi' w' :
    imports w !! n = Some bi -> ~ settled bi -> saved w w' n bi bi' -> ~ commits w bi ->
    terminal_import (bi_Phase (bi_Status bi')) = false -> reconciles n w requeue w'
| reconciles_fails bi bi' w' :
    imports w !! n = Some bi -> ~ settled bi -> saved w w' n bi bi' ->
    unparsable (docs w) (document_of bi) ->
    bi_Phase (bi_Status bi') = Api.ImportFailed -> reconciles n w done w'
| reconciles_commits bi bi' w' :
    imports w !! n = Some bi -> ~ settled bi -> saved w w' n bi bi' -> commits w bi ->
    bi_Phase (bi_Status bi') = ImportImported -> bi_Committed (bi_Status bi') = true ->
    reconciles n w done w'.

Definition import_key (m : Manifest) : NamespacedName :=
  {| nn_Namespace := io_Namespace opts;
     nn_Name := importName (mf_StorageLocation m) (mf_BackupName m) |}.

(** the import of a manifest, made or brought up to date *)
Definition ensured (m : Manifest) (old new : option BackupImport) : Prop :=
  exists bi, new = Some bi /\ key_of bi = import_key m /\ bi_Spec bi = import_spec m /\
    bi_Status bi = default zero_BackupImportStatus (bi_Status <$> old) /\
    om_DeletionTimestamp (bi_Meta bi) = default None ((fun b => om_DeletionTimestamp (bi_Meta b)) <$> old).

(** a poll: imports of complete manifests are ensured, each unless it is refused *)
Record polled (w w' : W) : Prop := {
  pl_files : files w' = files w;
  pl_objs : objs w' = objs w;
  pl_documents : docs w' = docs w;
  pl_refusing : sd_refusing (rest w') = sd_refusing (rest w);
  pl_imports n : imports w' !! n = imports w !! n \/
    exists id m, complete_manifest (docs w) id = Some m /\ import_key m = n /\
      ensured m (imports w !! n) (imports w' !! n);
  pl_ensured id m : sd_refusing (rest w) = false -> complete_manifest (docs w) id = Some m ->
    exists id' m', complete_manifest (docs w) id' = Some m' /\ import_key m' = import_key m /\
      ensured m' (imports w !! import_key m) (imports w' !! import_key m);
}.
End Relations.

(** ** What a reconcile does *)

Section Reconcile.
Context `{M : ApiMachinery} {W : Type} (hd : handler W) (opts : ImportOptions)
  (files objs : W -> gmap string string) (walk : gmap string string -> list string)
  (rest : W -> side) `{HW : !DestinationWorld hd opts files objs walk rest}.

Abbreviation ms := (opened (io_DestStore opts)).
Abbreviation root := (io_InboxRoot opts).
Abbreviation docs w := (sd_documents (rest w)).
Abbreviation imports w := (sd_imports (rest w)).
Abbreviation pc := (Peat.New (io_PeatAddress opts)).
Abbreviation reconciles := (reconciles opts files objs walk rest).
Abbreviation saved := (saved opts files objs walk rest).
Abbreviation store_after := (store_after opts files objs walk rest).
Abbreviation commits := (commits opts files objs walk rest).
Abbreviation pass := (pass opts files objs walk).

Lemma run_New w h : exists h', run hd (Objstore.New (io_DestStore opts)) w h = Some (Ok ms, w, h').
Proof.
  pose proof dw_host as Hh. pose proof dw_bucket as Hb.
  unfold Objstore.New, opened, tls_options. destruct (normalizeEndpoint _) as [endpoint secure].
  cbn in Hh. rewrite !bool_decide_eq_false_2 by done.
  destruct (secure && _) eqn:Hs; cbn.
  - rewrite dw_transport. cbn. case_bool_decide as Hc; cbn.
    + rewrite dw_certs. cbn. rewrite dw_client. cbn. by eexists.
    + rewrite dw_client, Hc. cbn. by eexists.
  - rewrite dw_client. cbn. by eexists.
Qed.

Lemma run_GetDocument w id h : exists h',
  run hd (GetDocument pc (io_ManifestCollection opts) id) w h = Some (Ok (docs w !! id), w, h').
Proof.
  destruct (dw_document id w) as (body & Hd & Hu). unfold GetDocument, rpc, post.
  cbn -[print Unmarshal]. unfold document_call in Hd. cbn -[print] in Hd.
  rewrite Hd, quot_200. cbn -[Unmarshal]. rewrite Hu. by eexists.
Qed.

(** the end of a reconcile: the status is saved, or refused *)
Lemma finish n w w1 bi bi' (K : res BackupImport -> reconciled) h r0 :
  keyed (rest w) -> imports w !! n = Some bi -> ~ settled bi ->
  files w1 = files w -> rest w1 = rest w -> objs w1 = store_after w bi ->
  bi_Meta bi' = bi_Meta bi -> bi_Spec bi' = bi_Spec bi ->
  (forall e, K (Er e) = failed e) -> K (Ok bi') = r0 ->
  (forall w', saved w w' n bi bi' -> reconciles n w r0 w') ->
  exists r w' h', run hd (x ← perform (KStatusUpdateBackupImport bi'); Ret (K x)) w1 h =
    Some (r, w', h') /\ reconciles n w r w'.
Proof.
  intros Hk Hn Hset Hf Hr Ho Hm Hs HKe HKo Hrec.
  assert (key_of bi' = n) as Hkey by (unfold key_of; rewrite Hm; by apply Hk).
  destruct (dw_update bi' bi w1) as (w' & [(e & Hu & Href & ->)|(Hu & Hf' & Ho' & Hr')]);
    [by rewrite Hkey, Hr|done|..]; cbn; rewrite Hu.
  - exists (failed e), w1. eexists. rewrite HKe. split; [done|].
    apply reconciles_refused with bi; [done..| |by rewrite <- Hr]. unfold Destination.saved.
    split_and!; [done..|]. rewrite Hr, insert_id by done. by destruct (rest w).
  - exists r0, w'. eexists. rewrite HKo. split; [done|]. apply Hrec. unfold Destination.saved.
    split_and!; [congruence..|]. by rewrite Hr', Hr, Hkey.
Qed.

Lemma not_settled_open bi : ~ settled bi -> terminal_import (bi_Phase (bi_Status bi)) = false.
Proof. intros Hn. destruct (terminal_import _) eqn:E; [|done]. destruct Hn. by right. Qed.

(** a pass over the manifest of the import's document *)
Lemma run_import_pass n w bi m h :
  keyed (rest w) -> imports w !! n = Some bi -> ~ settled bi ->
  complete_manifest (docs w) (document_of bi) = Some m ->
  exists r w' h', run hd (import_pass opts bi m ms) w h = Some (r, w', h') /\ reconciles n w r w'.
Proof.
  intros Hk Hn Hset Hm. pose proof (not_settled_open bi Hset) as Hopen.
  unfold import_pass. rewrite run_bind.
  match goal with
  | |- context [run hd ?x w h] =>
      assert (exists t h1, run hd x w h = Some (t, w, h1)) as (t & h1 & ->)
  end.
  { destruct (bi_StartedAt _); [by do 2 eexists|]. cbn. destruct (dw_time w) as [t ->].
    by do 2 eexists. }
  rewrite run_bind. destruct (pass w m) as [out o] eqn:Hp.
  destruct (run_import_ref hd root (as_Store ms) files objs (fullKey ms) walk rest m w h1 out o Hp)
    as (w1 & h2 & -> & Hf & Ho & Hr).
  assert (objs w1 = store_after w bi) as Ho' by by unfold Destination.store_after; rewrite Hm, Hp.
  destruct out as [res [e|]].
  { eapply finish; [done..|]. intros w' Hw. eapply reconciles_waits; [exact Hn|done|exact Hw| |done].
    intros (m' & Hm' & Hc & _). simplify_eq. by rewrite Hp in Hc. }
  destruct (rs_Committed res) eqn:Hc.
  - rewrite run_bind. cbn [run perform]. destruct (dw_time w1) as [now ->].
    eapply finish; [done..|]. intros w' Hw.
    eapply reconciles_commits; [exact Hn|done|exact Hw| |done..].
    exists m. by rewrite Hp.
  - eapply finish; [done..|]. intros w' Hw. eapply reconciles_waits; [exact Hn|done|exact Hw| |done].
    intros (m' & Hm' & _ & Hc'). simplify_eq. rewrite Hp in Hc'. cbn in Hc'. congruence.
Qed.

(** what is not a complete manifest leaves the store alone *)
Lemma no_manifest w bi :
  complete_manifest (docs w) (document_of bi) = None -> store_after w bi = objs w /\ ~ commits w bi.
Proof.
  intros Hc. unfold Destination.store_after, Destination.commits. rewrite Hc. naive_solver.
Qed.

Lemma run_fetch_and_import n w bi h :
  keyed (rest w) -> imports w !! n = Some bi -> ~ settled bi ->
  exists r w' h', run hd (fetch_and_import opts bi) w h = Some (r, w', h') /\ reconciles n w r w'.
Proof.
  intros Hk Hn Hset. unfold fetch_and_import. rewrite run_bind.
  destruct (run_GetDocument w (document_of bi) h) as [h1 Hget]. unfold document_of in Hget.
  rewrite Hget. clear Hget. fold (document_of bi).
  destruct (docs w !! document_of bi) as [data|] eqn:Hd.
  2:{ destruct (no_manifest w bi) as [Hsa Hnc]; [unfold complete_manifest; by rewrite Hd|].
      eapply finish; [done..|]. intros w' Hw. by eapply reconciles_waits. }
  destruct (Parse data) as [m|e] eqn:Hp.
  2:{ destruct (no_manifest w bi) as [Hsa Hnc]; [unfold complete_manifest; by rewrite Hd, Hp|].
      eapply finish; [done..|]. intros w' Hw. eapply reconciles_fails; [done..| |done].
      by exists data, e. }
  destruct (mf_Complete m) eqn:Hc.
  - rewrite run_bind. destruct (run_New w h1) as [h2 ->]. apply run_import_pass; [done..|].
    unfold complete_manifest. by rewrite Hd, Hp, Hc.
  - destruct (no_manifest w bi) as [Hsa Hnc]; [unfold complete_manifest; by rewrite Hd, Hp, Hc|].
    eapply finish; [done..|]. intros w' Hw. by eapply reconciles_waits.
Qed.

(** every reconcile comes to a result, and does what [reconciles] says *)
Lemma run_Reconcile n w :
  keyed (rest w) ->
  exists r w' h', run hd (Reconcile opts n) w [] = Some (r, w', h') /\ reconciles n w r w'.
Proof.
  intros Hk. unfold Reconcile. rewrite run_bind. cbn [run perform].
  destruct (dw_get n w) as (e & He & ->). destruct (imports w !! n) as [bi|] eqn:Hn.
  2:{ do 3 eexists. split; [done|]. unfold IgnoreNotFound. rewrite He. by apply reconciles_gone. }
  destruct (being_deleted _) eqn:Hdel.
  { do 3 eexists. split; [done|]. eapply reconciles_settled; [done|by left]. }
  destruct (terminal_import _) eqn:Hterm.
  { do 3 eexists. split; [done|]. eapply reconciles_settled; [done|by right]. }
  apply run_fetch_and_import; [done..|]. unfold settled. intros [?|?]; congruence.
Qed.
End Reconcile.

(** ** What a poll does *)

Section Poll.
Context {W : Type} (hd : handler W) (opts : ImportOptions)
  (files objs : W -> gmap string string) (walk : gmap string string -> list string)
  (rest : W -> side) `{HW : !DestinationWorld hd opts files objs walk rest}.

Abbreviation docs w := (sd_documents (rest w)).
Abbreviation imports w := (sd_imports (rest w)).
Abbreviation pc := (Peat.New (io_PeatAddress opts)).

(** after some of the ids: the same, with the imports ensured of those only *)
Record polled_over (ids : list string) (w w' : W) : Prop := {
  po_files : files w' = files w;
  po_objs : objs w' = objs w;
  po_documents : docs w' = docs w;
  po_refusing : sd_refusing (rest w') = sd_refusing (rest w);
  po_imports n : imports w' !! n = imports w !! n \/
    exists id m, complete_manifest (docs w) id = Some m /\ import_key opts m = n /\
      ensured opts m (imports w !! n) (imports w' !! n);
  po_ensured id m : sd_refusing (rest w) = false -> id ∈ ids ->
    complete_manifest (docs w) id = Some m ->
    exists id' m', complete_manifest (docs w) id' = Some m' /\ import_key opts m' = import_key opts m /\
      ensured opts m' (imports w !! import_key opts m) (imports w' !! import_key opts m);
}.

Lemma ensured_trans m m' old mid new :
  ensured opts m old mid -> ensured opts m' mid new -> ensured opts m' old new.
Proof.
  intros (bi & -> & _ & _ & Hs & Hd) (bi' & -> & Hk & Hsp & Hs' & Hd'). exists bi'.
  cbn in Hs', Hd'. split_and!; [done..|congruence|congruence].
Qed.

Lemma polled_over_refl ids w :
  (forall id, id ∈ ids -> complete_manifest (docs w) id = None) -> polled_over ids w w.
Proof. intros Hids. split; [done..|by left|]. intros id m _ Hin Hm. by rewrite Hids in Hm. Qed.

Lemma polled_over_trans ids1 ids2 w w1 w2 :
  polled_over ids1 w w1 -> polled_over ids2 w1 w2 -> polled_over (ids1 ++ ids2) w w2.
Proof.
  intros [Hf1 Ho1 Hd1 Hr1 Hi1 He1] [Hf2 Ho2 Hd2 Hr2 Hi2 He2]. rewrite Hd1, Hr1 in *.
  split; [congruence..| |].
  - intros n. destruct (Hi2 n) as [->|(id & m & Hm & Hn & Hen)]; [apply Hi1|]. right.
    exists id, m. split_and!; [done..|]. destruct (Hi1 n) as [<-|(id1 & m1 & _ & _ & Hen1)]; [done|].
    by eapply ensured_trans.
  - intros id m Hr Hin Hm. apply elem_of_app in Hin as [Hin|Hin].
    + destruct (He1 id m Hr Hin Hm) as (id1 & m1 & Hm1 & Hk1 & Hen1).
      destruct (Hi2 (import_key opts m)) as [->|(id2 & m2 & Hm2 & Hk2 & Hen2)]; [by exists id1, m1|].
      exists id2, m2. split_and!; [done..|]. by eapply ensured_trans.
    + destruct (He2 id m Hr Hin Hm) as (id2 & m2 & Hm2 & Hk2 & Hen2). exists id2, m2.
      split_and!; [done..|]. destruct (Hi1 (import_key opts m)) as [<-|(id1 & m1 & _ & _ & Hen1)]; [done|].
      by eapply ensured_trans.
Qed.

(** the metadata of a created object is that of the request *)
Lemma ensured_written m w w' bi :
  keyed (rest w) ->
  mutate_import m (default (new_import m (io_Namespace opts))
    (imports w !! import_key opts m)) = Ok bi ->
  written files objs rest w w' (import_key opts m)
    (default (new_import m (io_Namespace opts)) (imports w !! import_key opts m)) bi ->
  ensured opts m (imports w !! import_key opts m) (imports w' !! import_key opts m).
Proof.
  intros Hk [= <-] (bi' & (_ & _ & Hr) & Hs & Hst & (Hns & Hnm & Hdt)).
  exists bi'. rewrite Hr. cbn [sd_imports]. rewrite lookup_insert_eq.
  destruct (imports w !! import_key opts m) as [old|] eqn:Hold; cbn in *; split_and!; try done.
  - unfold key_of. rewrite Hns, Hnm. by apply (Hk _ _ Hold).
  - unfold key_of. by rewrite Hns, Hnm.
Qed.

Lemma run_ensureBackupImport id m w h :
  keyed (rest w) -> complete_manifest (docs w) id = Some m ->
  exists e w' h', run hd (ensureBackupImport opts m) w h = Some (e, w', h') /\ polled_over [id] w w'.
Proof.
  intros Hk Hm. unfold ensureBackupImport. rewrite run_bind. cbn [run perform].
  destruct (dw_create (new_import m (io_Namespace opts)) (mutate_import m)
              _ w eq_refl) as (w' & [(e & -> & Href & ->)|(op & -> & Hwr)]).
  - do 3 eexists. split; [done|]. split; [done..|by left|]. congruence.
  - do 3 eexists. split; [done|].
    change (key_of (new_import m (io_Namespace opts))) with (import_key opts m) in Hwr.
    assert (ensured opts m (imports w !! import_key opts m) (imports w' !! import_key opts m)) as Hen
      by by eapply ensured_written.
    destruct Hwr as (bi' & (Hf & Ho & Hr) & _). split; [done|done|by rewrite Hr..| |].
    + intros n. destruct (decide (n = import_key opts m)) as [->|Hne]; [right; by exists id, m|left].
      rewrite Hr. cbn. by rewrite lookup_insert_ne.
    + intros id' m' _ ->%list_elem_of_singleton Hm'. simplify_eq. by exists id, m.
Qed.

Lemma run_poll_document id w h :
  keyed (rest w) ->
  exists w' h', run hd (poll_document opts pc id) w h = Some (tt, w', h') /\ polled_over [id] w w'.
Proof.
  intros Hk. unfold poll_document. rewrite run_bind.
  destruct (run_GetDocument hd opts files objs walk rest w id h) as [h1 ->].
  assert (complete_manifest (docs w) id = None -> exists w' h',
    run hd (Ret tt) w h1 = Some (tt, w', h') /\ polled_over [id] w w') as Hskip.
  { intros Hc. exists w, h1. split; [done|]. apply polled_over_refl.
    by intros ? ->%list_elem_of_singleton. }
  destruct (docs w !! id) as [data|] eqn:Hd; [|apply Hskip; unfold complete_manifest; by rewrite Hd].
  destruct (Parse data) as [m|e] eqn:Hp; [|apply Hskip; unfold complete_manifest; by rewrite Hd, Hp].
  destruct (mf_Complete m) eqn:Hc; [|apply Hskip; unfold complete_manifest; by rewrite Hd, Hp, Hc].
  rewrite run_bind. destruct (run_ensureBackupImport id m w h1 Hk) as (e & w' & h' & -> & Hw).
  { unfold complete_manifest. by rewrite Hd, Hp, Hc. }
  by exists w', h'.
Qed.

Lemma keyed_polled ids w w' : keyed (rest w) -> polled_over ids w w' -> keyed (rest w').
Proof.
  intros Hk Hp n bi Hn. destruct (po_imports _ _ _ Hp n) as [He|(id & m & _ & <- & bi' & He & Hkey & _)].
  - apply Hk. by rewrite <- He.
  - congruence.
Qed.

Lemma run_poll_documents ids w h :
  keyed (rest w) ->
  exists w' h', run hd (poll_documents opts pc ids) w h = Some (tt, w', h') /\ polled_over ids w w'.
Proof.
  revert w h. induction ids as [|id ids IH]; intros w h Hk; cbn [poll_documents].
  { exists w, h. split; [done|]. apply polled_over_refl. by intros ? ?%elem_of_nil. }
  rewrite run_bind. destruct (run_poll_document id w h Hk) as (w1 & h1 & -> & Hw1).
  destruct (IH w1 h1) as (w2 & h2 & -> & Hw2); [by eapply keyed_polled|].
  exists w2, h2. split; [done|]. by apply (polled_over_trans [id] ids w w1 w2).
Qed.

Lemma run_ensureReversePeer w h : exists h', run hd (ensureReversePeer opts pc) w h = Some (tt, w, h').
Proof.
  unfold ensureReversePeer. case_bool_decide; [by eexists|]. rewrite run_bind.
  unfold EnsurePeer, rpc_nil, post. cbn -[print].
  match goal with |- context [hd (HttpPost _ ?body) w] =>
    destruct (dw_connect body w) as [r Hr]; cbn -[print] in Hr; rewrite Hr end.
  by eexists.
Qed.

(** a poll comes to its end, and does what [polled] says *)
Lemma run_poll w h :
  keyed (rest w) ->
  exists w' h', run hd (poll opts pc) w h = Some (tt, w', h') /\ polled opts files objs rest w w'.
Proof.
  intros Hk. unfold poll. rewrite run_bind. destruct (run_ensureReversePeer w h) as [h1 ->].
  rewrite run_bind. destruct (dw_list w) as (ids & body & Hl & Hu & Hall).
  assert (exists h2, run hd (ListDocuments pc (io_ManifestCollection opts)) w h1 = Some (Ok ids, w, h2))
    as [h2 ->].
  { unfold ListDocuments, rpc, post. cbn -[print Unmarshal]. unfold list_call in Hl.
    cbn -[print] in Hl. rewrite Hl, quot_200. cbn -[Unmarshal]. unfold get_doc_ids in Hu.
    rewrite Hu. by eexists. }
  destruct (run_poll_documents ids w h2 Hk) as (w' & h' & -> & [Hf Ho Hd Hr Hi He]).
  exists w', h'. split; [done|]. split; [done..|]. intros id m Hr0 Hm. apply (He id); [done| |done].
  apply Hall. unfold complete_manifest in Hm. by destruct (docs w !! id).
Qed.
End Poll.
