(* ===== verification/ImportConvergence.v ===== *)
(** * ImportConvergence: the destination over time

    Files arrive in the inbox, change and may vanish; documents of the manifests
    that the source publishes appear; the bridge polls; the reconciler passes over
    each import again and again; imports are deleted, and the API server may refuse
    to write.  The destination is a state machine of these steps, over worlds that
    behave as documented ([Destination.DestinationWorld]).  The invariant of every
    reachable destination and the convergence of the imports follow from what a
    reconcile and a poll do ([Destination]). *)

From stdpp Require Import gmap strings.
From Stdlib Require Import Ascii.
From S2P Require Import Prelude GoStrings GoPath GoJson GoJsonFacts GoCrypto Api Effects Peat Manifest Objstore.
From S2P Require Import Importer ImportRefinement Kube ImportController Destination.

Section Convergence.
Context `{M : ApiMachinery} {W : Type} (hd : handler W) (opts : ImportOptions)
  (files objs : W -> gmap string string) (walk : gmap string string -> list string)
  (rest : W -> side) `{HW : !DestinationWorld hd opts files objs walk rest}
  (plan : gmap string Manifest).

Abbreviation ms := (opened (io_DestStore opts)).
Abbreviation root := (io_InboxRoot opts).
Abbreviation pc := (Peat.New (io_PeatAddress opts)).
Abbreviation docs w := (sd_documents (rest w)).
Abbreviation imports w := (sd_imports (rest w)).
Abbreviation phase bi := (bi_Phase (bi_Status bi)).
Abbreviation obj e := (fullKey ms (fe_Key e)).
Abbreviation names l := (map (fun e => fullKey ms (fe_Key e)) l).
Abbreviation stored_in o e := (stored (fullKey ms) o e).
Abbreviation reconciles := (reconciles opts files objs walk rest).
Abbreviation saved := (saved opts files objs walk rest).
Abbreviation store_after := (store_after opts files objs walk rest).
Abbreviation commits := (commits opts files objs walk rest).
Abbreviation polled := (polled opts files objs rest).
Abbreviation import_key := (import_key opts).

(** ** What the source publishes

    [plan] has the manifest that each document is going to hold.  Objects of two
    manifests may be shared (the repository's are), then with the same bytes; the
    discovery object is its backup's own. *)

Record plan_ok : Prop := {
  po_id id m : plan !! id = Some m -> DocID (mf_StorageLocation m) (mf_BackupName m) = id;
  po_names id m : plan !! id = Some m -> NoDup (names (mf_Files m));
  po_small id m : plan !! id = Some m -> (Z.of_nat (length (mf_Files m)) < 2 ^ 63)%Z;
  po_import id1 m1 id2 m2 : plan !! id1 = Some m1 -> plan !! id2 = Some m2 ->
    import_key m1 = import_key m2 -> id1 = id2;
  po_shared id1 m1 id2 m2 e1 e2 : plan !! id1 = Some m1 -> plan !! id2 = Some m2 ->
    e1 ∈ mf_Files m1 -> e2 ∈ mf_Files m2 -> obj e1 = obj e2 ->
    fe_Size e1 = fe_Size e2 /\ fe_SHA256 e1 = fe_SHA256 e2;
  po_discovery id1 m1 id2 m2 e1 e2 : plan !! id1 = Some m1 -> plan !! id2 = Some m2 ->
    e1 ∈ discovery_files (mf_Files m1) -> e2 ∈ mf_Files m2 -> obj e1 = obj e2 -> id1 = id2;
}.

(** a complete document is the planned one, and a planned document is a manifest *)
Record docs_ok (docs : gmap string string) : Prop := {
  do_complete id m : complete_manifest docs id = Some m -> plan !! id = Some m;
  do_parses id : unparsable docs id -> plan !! id = None;
}.

(** ** The steps *)

(** anything happens to the inbox; the documents change, as planned; imports are
    deleted or marked for deletion, and the API server changes its mood; the
    reconciler runs on an import; the bridge polls *)
Inductive step : W -> W -> Prop :=
| step_inbox w w' : objs w' = objs w -> rest w' = rest w -> step w w'
| step_documents w w' :
    files w' = files w -> objs w' = objs w -> imports w' = imports w ->
    docs_ok (docs w') -> step w w'
| step_api w w' :
    files w' = files w -> objs w' = objs w -> docs w' = docs w ->
    (forall n bi', imports w' !! n = Some bi' -> exists bi, imports w !! n = Some bi /\
       key_of bi' = key_of bi /\ bi_Spec bi' = bi_Spec bi /\ bi_Status bi' = bi_Status bi) ->
    step w w'
| step_reconcile w n r w' h : run hd (Reconcile opts n) w [] = Some (r, w', h) -> step w w'
| step_poll w w' h : run hd (poll opts pc) w [] = Some (tt, w', h) -> step w w'.

(** ** The invariant *)

(** an object of a declared size has the declared digest *)
Definition sound (o : gmap string string) : Prop :=
  forall id m e data, plan !! id = Some m -> e ∈ mf_Files m -> o !! obj e = Some data ->
    size_of data = fe_Size e -> HexEncode (sha256 data) = fe_SHA256 e.

(** a discovery object is there only with all data of its backup *)
Definition visible (o : gmap string string) : Prop :=
  forall id m, plan !! id = Some m -> visible_complete (fullKey ms) (mf_Files m) o.

(** an import is of a planned manifest, has not failed, and is Imported only with
    all objects there *)
Definition import_ok (o : gmap string string) (n : NamespacedName) (bi : BackupImport) : Prop :=
  exists id m, plan !! id = Some m /\ n = import_key m /\ bi_Spec bi = import_spec m /\
    phase bi <> Api.ImportFailed /\
    (phase bi = ImportImported ->
     bi_Committed (bi_Status bi) = true /\ forall e, e ∈ mf_Files m -> stored_in o e = true).

Record good (w : W) : Prop := {
  gd_documents : docs_ok (docs w);
  gd_keyed : keyed (rest w);
  gd_sound : sound (objs w);
  gd_visible : visible (objs w);
  gd_imports n bi : imports w !! n = Some bi -> import_ok (objs w) n bi;
}.

(** what is stored stays as it is, and objects of no manifest are not touched *)
Record keeps (o o' : gmap string string) : Prop := {
  kp_stored id m e : plan !! id = Some m -> e ∈ mf_Files m -> stored_in o e = true ->
    o' !! obj e = o !! obj e;
  kp_others k : (forall id m, plan !! id = Some m -> k ∉ names (mf_Files m)) -> o' !! k = o !! k;
}.

#[export] Instance keeps_preorder : PreOrder keeps.
Proof.
  split; [by intros o|]. intros o1 o2 o3 [Hs1 Ho1] [Hs2 Ho2]. split.
  - intros id m e Hm He Hst. rewrite <- (Hs1 id m e Hm He Hst). apply (Hs2 id m); [done..|].
    rewrite (stored_same _ o1); [done|]. by apply (Hs1 id m).
  - intros k Hk. rewrite Ho2 by done. by apply Ho1.
Qed.

Lemma keeps_stored o o' id m e :
  keeps o o' -> plan !! id = Some m -> e ∈ mf_Files m -> stored_in o e = true -> stored_in o' e = true.
Proof. intros Hk Hm He Hst. rewrite (stored_same _ o); [done|]. by apply (kp_stored _ _ Hk id m). Qed.

Context (Hplan : plan_ok).

(** a pass over one manifest, seen by all *)
Lemma advance_keeps id m o o' :
  plan !! id = Some m -> advance (fullKey ms) (mf_Files m) o o' -> keeps o o'.
Proof.
  intros Hm (Hk & Hs & _). split.
  - intros id2 m2 e2 Hm2 He2 Hst. destruct (decide (obj e2 ∈ names (mf_Files m))) as [Hin|Hin];
      [|by apply Hk]. apply list_elem_of_fmap in Hin as (e & E & He). rewrite E. apply Hs; [done|].
    destruct (po_shared Hplan id2 m2 id m e2 e Hm2 Hm He2 He E) as [Hsz _].
    unfold stored in *. by rewrite <- E, <- Hsz.
  - intros k Hnone. by apply Hk, (Hnone id).
Qed.

Lemma advance_sound id m o o' :
  plan !! id = Some m -> advance (fullKey ms) (mf_Files m) o o' -> sound o -> sound o'.
Proof.
  intros Hm (Hk & _ & Hmat) Hs id2 m2 e2 data Hm2 He2 Hd Hn.
  destruct (decide (obj e2 ∈ names (mf_Files m))) as [Hin|Hin].
  2:{ apply (Hs id2 m2 e2); [done..| |done]. by rewrite <- (Hk _ Hin). }
  apply list_elem_of_fmap in Hin as (e & E & He).
  destruct (po_shared Hplan id2 m2 id m e2 e Hm2 Hm He2 He E) as [Hsz Hsha]. rewrite Hsz in Hn.
  rewrite Hsha. rewrite E in Hd. destruct (Hmat e He) as [Ho|(d & Ho & Hd')].
  - apply (Hs id m e); [done..| |done]. by rewrite <- Ho.
  - assert (d = data) as -> by congruence. by apply bool_decide_eq_true in Hd' as [_ ?].
Qed.

Lemma advance_visible id m o o' :
  plan !! id = Some m -> advance (fullKey ms) (mf_Files m) o o' ->
  visible_complete (fullKey ms) (mf_Files m) o' -> visible o -> visible o'.
Proof.
  intros Hm Ha Hv' Hv id2 m2 Hm2. destruct (decide (id2 = id)) as [->|Hne]; [by simplify_eq|].
  intros d e Hd Hst He. eapply keeps_stored; [by apply (advance_keeps id m)|exact Hm2| |].
  { apply split_files, elem_of_app. by left. }
  apply (Hv id2 m2 Hm2 d e); [done| |done]. destruct Ha as (Hk & _).
  rewrite <- Hst. apply stored_same. symmetry. apply Hk.
  intros (e1 & E & He1)%list_elem_of_fmap. by apply Hne, (po_discovery Hplan id2 m2 id m d e1).
Qed.

Lemma import_ok_keeps o o' n bi : keeps o o' -> import_ok o n bi -> import_ok o' n bi.
Proof.
  intros Hk (id & m & Hm & Hn & Hs & Hf & Hi). exists id, m. split_and!; [done..|].
  intros [? Hall]%Hi. split; [done|]. intros e He. eapply keeps_stored; eauto.
Qed.

Lemma plan_unique id1 m1 id2 m2 :
  plan !! id1 = Some m1 -> plan !! id2 = Some m2 -> import_key m1 = import_key m2 ->
  id1 = id2 /\ m1 = m2.
Proof.
  intros H1 H2 E. assert (id1 = id2) as -> by by eapply (po_import Hplan). split; congruence.
Qed.

(** the document of an import, when it is complete, is the manifest it was made for *)
Lemma import_manifest w id m bi m' :
  good w -> plan !! id = Some m -> bi_Spec bi = import_spec m ->
  complete_manifest (docs w) (document_of bi) = Some m' -> document_of bi = id /\ m' = m.
Proof.
  intros Hg Hm Hs Hc. assert (document_of bi = id) as Hid.
  { unfold document_of. rewrite Hs. by apply (po_id Hplan). }
  split; [done|]. rewrite Hid in Hc. apply (do_complete _ (gd_documents _ Hg)) in Hc. congruence.
Qed.

Lemma store_after_spec w id m bi :
  good w -> plan !! id = Some m -> bi_Spec bi = import_spec m ->
  keeps (objs w) (store_after w bi) /\ sound (store_after w bi) /\ visible (store_after w bi) /\
  (commits w bi -> forall e, e ∈ mf_Files m -> stored_in (store_after w bi) e = true).
Proof.
  intros Hg Hm Hs. unfold Destination.store_after, Destination.commits.
  destruct (complete_manifest (docs w) (document_of bi)) as [m'|] eqn:Hc.
  2:{ split_and!; [done|apply Hg|apply Hg|]. by intros (? & ? & _). }
  destruct (import_manifest w id m bi m' Hg Hm Hs Hc) as [_ ->].
  destruct (pass opts files objs walk w m) as [[res err] o] eqn:Hp.
  pose proof Hp as Hspec. apply import_ref_spec in Hspec as (Ha & Hv & Hcom);
    [|by apply (po_names Hplan id)|by apply (po_small Hplan id)].
  split_and!; [by apply (advance_keeps id m)|by apply (advance_sound id m (objs w)), Hg| |].
  - apply (advance_visible id m (objs w)); [done|done| |apply Hg]. by apply Hv, (gd_visible _ Hg id).
  - intros (m' & [= <-] & _ & Hc'). rewrite Hp in Hc'. by apply Hcom.
Qed.

Lemma open_phases p : terminal_import p = false -> p <> Api.ImportFailed /\ p <> ImportImported.
Proof. by destruct p. Qed.

(** a pass: the store advances, and the phase that is saved is true of it *)
Lemma good_saved n w w' bi bi' :
  good w -> imports w !! n = Some bi -> saved w w' n bi bi' ->
  phase bi' <> Api.ImportFailed ->
  (phase bi' = ImportImported -> bi_Committed (bi_Status bi') = true /\ commits w bi) ->
  good w' /\ keeps (objs w) (objs w').
Proof.
  intros Hg Hn (Hf & Ho & Hmeta & Hspec & Hr) Hnf Himp.
  destruct (gd_imports _ Hg n bi Hn) as (id & m & Hm & Hkey & Hs & _ & _).
  destruct (store_after_spec w id m bi Hg Hm Hs) as (Hk & Hso & Hv & Hcom).
  rewrite Ho. split; [|done]. split; rewrite ?Hr, ?Ho; cbn [sd_documents sd_imports]; [apply Hg| |done..|].
  - intros n' b. cbn [sd_imports]. destruct (decide (n' = n)) as [->|Hne].
    + rewrite lookup_insert_eq. intros [= <-]. unfold key_of. rewrite Hmeta. by apply Hg.
    + rewrite lookup_insert_ne by done. apply Hg.
  - intros n' b. destruct (decide (n' = n)) as [->|Hne].
    + rewrite lookup_insert_eq. intros [= <-]. exists id, m. split_and!; [done|done|congruence|done|].
      intros [? ?]%Himp. split; [done|]. by apply Hcom.
    + rewrite lookup_insert_ne by done. intros Hb. eapply import_ok_keeps; [exact Hk|]. by apply Hg.
Qed.

Lemma good_reconciles n w r w' : good w -> reconciles n w r w' -> good w' /\ keeps (objs w) (objs w').
Proof.
  intros Hg Hrec. destruct Hrec as [Hn|bi Hn Hs|bi e w' Hn Hs Hw Href|bi bi' w' Hn Hs Hw Hc Hp
    |bi bi' w' Hn Hs Hw Hu Hp|bi bi' w' Hn Hs Hw Hc Hp Hb]; [done|done|..].
  - apply (good_saved n w w' bi bi); [done..| |];
      destruct (open_phases _ (not_settled_open bi Hs)); naive_solver.
  - apply open_phases in Hp as [? ?]. by apply (good_saved n w w' bi bi').
  - destruct (gd_imports _ Hg n bi Hn) as (id & m & Hm & _ & Hspec & _).
    apply (do_parses _ (gd_documents _ Hg)) in Hu. unfold document_of in Hu. rewrite Hspec in Hu.
    cbn in Hu. rewrite (po_id Hplan id m Hm) in Hu. congruence.
  - apply (good_saved n w w' bi bi'); [done..|by rewrite Hp|done].
Qed.

Lemma good_polled w w' : good w -> polled w w' -> good w' /\ keeps (objs w) (objs w').
Proof.
  intros Hg [Hf Ho Hd Hr Hi _]. rewrite Ho. split; [|done].
  split; rewrite ?Hd, ?Ho; [apply Hg| |apply Hg|apply Hg|].
  - intros n b Hb. destruct (Hi n) as [E|(id & m & _ & <- & bi & E & Hk & _)]; [|congruence].
    apply Hg. by rewrite <- E.
  - intros n b Hb. destruct (Hi n) as [E|(id & m & Hm & <- & bi & E & Hk & Hs & Hst & _)].
    { apply Hg. by rewrite <- E. }
    apply (do_complete _ (gd_documents _ Hg)) in Hm. rewrite Hb in E. injection E as <-.
    exists id, m. split_and!; [done..| |]; rewrite Hst.
    + destruct (imports w !! import_key m) as [old|] eqn:Hold; [|done].
      by destruct (gd_imports _ Hg _ _ Hold) as (? & ? & _ & _ & _ & ? & _).
    + destruct (imports w !! import_key m) as [old|] eqn:Hold; [|done].
      destruct (gd_imports _ Hg _ _ Hold) as (id' & m' & Hm' & Hk' & _ & _ & Himp).
      by destruct (plan_unique _ _ _ _ Hm Hm' Hk') as [_ ->].
Qed.

Lemma good_step w w' : good w -> step w w' -> good w' /\ keeps (objs w) (objs w').
Proof.
  intros Hg Hs. revert Hg.
  destruct Hs as [w w' Ho Hr|w w' Hf Ho Hi Hd|w w' Hf Ho Hd Hi|w n r w' h Hrun|w w' h Hrun]; intros Hg.
  - rewrite Ho. split; [|done]. destruct Hg. by split; rewrite ?Ho, ?Hr.
  - rewrite Ho. split; [|done]. destruct Hg as [_ Hk Hso Hv Him].
    split; rewrite ?Ho, ?Hi; try done. unfold keyed. by rewrite Hi.
  - rewrite Ho. split; [|done]. destruct Hg as [Hdoc Hk Hso Hv Him].
    split; rewrite ?Ho, ?Hd; try done.
    + intros n bi' Hn. destruct (Hi n bi' Hn) as (bi & Hb & -> & _). by apply Hk.
    + intros n bi' Hn. destruct (Hi n bi' Hn) as (bi & Hb & _ & Hs & Hst).
      unfold import_ok. rewrite Hs, Hst. by apply Him.
  - destruct (run_Reconcile hd opts files objs walk rest n w (gd_keyed _ Hg)) as (r' & w2 & h' & Hrun' & Hrec).
    rewrite Hrun in Hrun'. injection Hrun' as -> -> ->. by eapply good_reconciles.
  - destruct (run_poll hd opts files objs walk rest w [] (gd_keyed _ Hg)) as (w2 & h' & Hrun' & Hp).
    rewrite Hrun in Hrun'. injection Hrun' as -> ->. by apply good_polled.
Qed.

Lemma good_reachable w0 w : good w0 -> rtc step w0 w -> good w /\ keeps (objs w0) (objs w).
Proof.
  intros Hg Hr. revert Hg. induction Hr as [w|w w1 w2 Hs _ IH]; intros Hg; [done|].
  destruct (good_step w w1 Hg Hs) as [Hg1 Hk1]. destruct (IH Hg1) as [Hg2 Hk2].
  split; [done|]. by transitivity (objs w1).
Qed.

(** ** Convergence *)

(** every file is stored or has its bytes in the inbox *)
Definition all_available (w : W) (m : Manifest) : Prop :=
  forall e, e ∈ mf_Files m -> available root (fullKey ms) walk (files w) (objs w) e.

Lemma available_commits w id m bi :
  plan !! id = Some m -> complete_manifest (docs w) (document_of bi) = Some m ->
  all_available w m -> commits w bi.
Proof.
  intros Hm Hc Hav. exists m. split; [done|].
  destruct (pass opts files objs walk w m) as [[res err] o] eqn:Hp.
  apply import_ref_available in Hp as [-> Hcom];
    [done|by apply (po_names Hplan id)|by apply (po_small Hplan id)|done].
Qed.

(** a reconcile of an import whose manifest and bytes are there *)
Lemma reconcile_ready n w r w' bi m :
  good w -> reconciles n w r w' -> imports w !! n = Some bi -> being_deleted (bi_Meta bi) = false ->
  complete_manifest (docs w) (document_of bi) = Some m -> all_available w m ->
  (forall e, e ∈ mf_Files m -> stored_in (objs w') e = true) /\
  ((r = done /\ exists bi', imports w' !! n = Some bi' /\ phase bi' = ImportImported) \/
   (sd_refusing (rest w) = true /\ exists e, r = failed e)).
Proof.
  intros Hg Hrec Hn Hdel Hc Hav.
  destruct (gd_imports _ Hg n bi Hn) as (id & m' & Hm & _ & Hs & Hnf & Himp).
  destruct (import_manifest w id m' bi m Hg Hm Hs Hc) as [Hid ->].
  pose proof (available_commits w id m' bi Hm Hc Hav) as Hcom.
  destruct (store_after_spec w id m' bi Hg Hm Hs) as (_ & _ & _ & Hst). specialize (Hst Hcom).
  destruct Hrec as [Hn'|b Hn' Hset|b e w' Hn' Hset Hw Href|b b' w' Hn' Hset Hw Hc' Hp
    |b b' w' Hn' Hset Hw Hu Hp|b b' w' Hn' Hset Hw Hc' Hp Hb];
    rewrite Hn in Hn'; try discriminate Hn'; injection Hn' as <-.
  - destruct Hset as [Hd|Ht]; [congruence|].
    assert (phase bi = ImportImported) as Hi by by destruct (phase bi).
    split; [by apply Himp|]. left. split; [done|]. by exists bi.
  - destruct Hw as (_ & -> & _). split; [done|]. right. split; [done|]. by exists e.
  - done.
  - destruct Hu as (data & e & Hd & Hpa). unfold complete_manifest in Hc. by rewrite Hd, Hpa in Hc.
  - destruct Hw as (_ & -> & _ & _ & ->). split; [done|]. left. split; [done|]. exists b'.
    cbn. by rewrite lookup_insert_eq.
Qed.

(** the store changes only by a pass *)
Lemma reconciles_objs n w r w' bi :
  reconciles n w r w' -> imports w !! n = Some bi ->
  objs w' = objs w \/ exists m, complete_manifest (docs w) (document_of bi) = Some m /\
    objs w' = (pass opts files objs walk w m).2.
Proof.
  intros Hrec Hn.
  assert (objs w' = objs w \/ objs w' = store_after w bi) as [->| ->]; [|by left|].
  { destruct Hrec as [Hn'|b Hn' _|b e w' Hn' _ (_ & -> & _) _|b b' w' Hn' _ (_ & -> & _)
      |b b' w' Hn' _ (_ & -> & _)|b b' w' Hn' _ (_ & -> & _)]; [by left|by left|..];
      rewrite Hn in Hn'; injection Hn' as <-; by right. }
  unfold Destination.store_after.
  destruct (complete_manifest (docs w) (document_of bi)) as [m|] eqn:E; [right; by exists m|by left].
Qed.

(** C8: however deliveries, documents, deletions, polls and reconciles interleave,
    over any number of backups, from a start without unsound objects every
    reachable destination is good: each object of a declared size has the declared
    digest, a discovery object is there only with all data files of its backup,
    every import is of a published manifest, none has failed for good, and one is
    Imported (and [Committed]) only with every object stored; what was stored stays
    as it was, and no other object of the bucket is touched.  Files of the inbox
    may appear, change and vanish between passes, and the API server may refuse
    any write. *)
Theorem destination_consistent w0 w :
  good w0 -> rtc step w0 w -> good w /\ keeps (objs w0) (objs w).
Proof. apply good_reachable. Qed.

(** C6: the imports converge.  From every reachable destination a reconcile of any
    import comes to a result in a good destination, and it leaves the queue for
    good only when the import is gone, marked for deletion or Imported; and as soon
    as its complete manifest is there and every file is stored or has its bytes in
    the inbox, the reconcile stores them all, and the import is Imported, unless
    the API server refused that update: then the reconcile reports the error, to
    run again. *)
Theorem destination_converges w0 w n :
  good w0 -> rtc step w0 w ->
  exists r w' h, run hd (Reconcile opts n) w [] = Some (r, w', h) /\
    good w' /\ keeps (objs w) (objs w') /\
    (r = done -> forall bi, imports w !! n = Some bi -> being_deleted (bi_Meta bi) = false ->
       exists bi', imports w' !! n = Some bi' /\ phase bi' = ImportImported) /\
    forall bi m, imports w !! n = Some bi -> being_deleted (bi_Meta bi) = false ->
      complete_manifest (docs w) (document_of bi) = Some m -> all_available w m ->
      (forall e, e ∈ mf_Files m -> stored_in (objs w') e = true) /\
      ((r = done /\ exists bi', imports w' !! n = Some bi' /\ phase bi' = ImportImported) \/
       (sd_refusing (rest w) = true /\ exists e, r = failed e)).
Proof.
  intros H0 Hr. destruct (good_reachable w0 w H0 Hr) as [Hg _].
  destruct (run_Reconcile hd opts files objs walk rest n w (gd_keyed _ Hg)) as (r & w' & h & Hrun & Hrec).
  exists r, w', h. split; [done|]. destruct (good_reconciles n w r w' Hg Hrec) as [Hg' Hk].
  split; [done|]. split; [done|]. split; [|intros bi m Hn Hdel Hc Hav; by eapply reconcile_ready].
  intros -> bi Hn Hdel. destruct (gd_imports _ Hg n bi Hn) as (id & m & Hm & _ & Hs & Hnf & _).
  inversion Hrec as [Hn'|b Hn' Hset|?|?|b b' w2 Hn' _ _ Hu|b b' w2 Hn' _ Hw _ Hp _]; subst;
    rewrite Hn in Hn'; try discriminate Hn'; injection Hn' as <-.
  - destruct Hset as [Hd|Ht]; [congruence|]. exists bi. split; [done|]. by destruct (phase bi).
  - apply (do_parses _ (gd_documents _ Hg)) in Hu. unfold document_of in Hu. rewrite Hs in Hu.
    cbn in Hu. rewrite (po_id Hplan id m Hm) in Hu. congruence.
  - destruct Hw as (_ & _ & _ & _ & ->). exists b'. cbn. by rewrite lookup_insert_eq.
Qed.

(** the same from the published document on: one poll, then one reconcile *)
Lemma poll_then_reconcile w id m :
  good w -> complete_manifest (docs w) id = Some m -> sd_refusing (rest w) = false ->
  all_available w m ->
  (forall bi, imports w !! import_key m = Some bi -> being_deleted (bi_Meta bi) = false) ->
  exists w1 h1 w2 h2 bi,
    run hd (poll opts pc) w [] = Some (tt, w1, h1) /\
    run hd (Reconcile opts (import_key m)) w1 [] = Some (done, w2, h2) /\
    good w2 /\ keeps (objs w) (objs w2) /\
    imports w2 !! import_key m = Some bi /\ phase bi = ImportImported /\
    files w1 = files w /\ objs w1 = objs w /\
    (forall e, e ∈ mf_Files m -> stored_in (objs w2) e = true) /\
    (objs w2 = objs w \/ objs w2 = (pass opts files objs walk w m).2).
Proof.
  intros Hg Hc Href Hav Hdel. pose proof (do_complete _ (gd_documents _ Hg) id m Hc) as Hm.
  destruct (run_poll hd opts files objs walk rest w [] (gd_keyed _ Hg)) as (w1 & h1 & Hrun1 & Hp).
  destruct (good_polled w w1 Hg Hp) as [Hg1 Hk1].
  destruct (pl_ensured _ _ _ _ _ _ Hp id m Href Hc) as (id' & m' & Hc' & Hkey & bi & Hbi & _ & Hs & _ & Hdt).
  pose proof (do_complete _ (gd_documents _ Hg) id' m' Hc') as Hm'.
  destruct (plan_unique _ _ _ _ Hm' Hm Hkey) as [-> ->].
  destruct (run_Reconcile hd opts files objs walk rest (import_key m) w1 (gd_keyed _ Hg1))
    as (r & w2 & h2 & Hrun2 & Hrec).
  destruct (good_reconciles _ _ _ _ Hg1 Hrec) as [Hg2 Hk2].
  destruct Hp as [Hf Ho Hd Hr _ _].
  destruct (reconcile_ready (import_key m) w1 r w2 bi m) as [Hst [[-> (bi' & Hb' & Hph)]|[Hr' _]]];
    [done..| | | |exists w1, h1, w2, h2, bi'|congruence].
  - destruct (imports w !! import_key m) as [old|] eqn:Hold; [|unfold being_deleted; by rewrite Hdt].
    specialize (Hdel old eq_refl). unfold being_deleted in *. by rewrite Hdt.
  - rewrite Hd. unfold document_of. rewrite Hs. cbn. by rewrite (po_id Hplan id m Hm).
  - unfold all_available. by rewrite Hf, Ho.
  - assert (document_of bi = id) as Hid
      by (unfold document_of; rewrite Hs; by apply (po_id Hplan id m Hm)).
    split_and!; try done; [by transitivity (objs w1)|]. rewrite <- Ho.
    destruct (reconciles_objs _ _ _ _ _ Hrec Hbi) as [->|(m' & Hc1 & ->)]; [by left|right].
    rewrite Hd, Hid, Hc in Hc1. injection Hc1 as <-. unfold pass. by rewrite Hf, Ho.
Qed.

(** C7: a published backup is imported.  From every reachable destination whose API
    server does not refuse, once the complete manifest of a backup is among the
    documents and every file of it is stored or has its bytes in the inbox, one
    poll of the bridge and one reconcile of the import it makes (unless that was
    marked for deletion) end with the import Imported and every object of the
    manifest in the store with the declared size and digest. *)
Theorem published_imported w0 w id m :
  good w0 -> rtc step w0 w ->
  complete_manifest (docs w) id = Some m -> sd_refusing (rest w) = false -> all_available w m ->
  (forall bi, imports w !! import_key m = Some bi -> being_deleted (bi_Meta bi) = false) ->
  exists w1 h1 w2 h2 bi,
    run hd (poll opts pc) w [] = Some (tt, w1, h1) /\
    run hd (Reconcile opts (import_key m)) w1 [] = Some (done, w2, h2) /\
    imports w2 !! import_key m = Some bi /\ phase bi = ImportImported /\
    bi_Committed (bi_Status bi) = true /\ bi_Spec bi = import_spec m /\
    forall e, e ∈ mf_Files m -> exists data, objs w2 !! obj e = Some data /\ matches e data = true.
Proof.
  intros H0 Hr Hc Href Hav Hdel. destruct (good_reachable w0 w H0 Hr) as [Hg _].
  destruct (poll_then_reconcile w id m Hg Hc Href Hav Hdel)
    as (w1 & h1 & w2 & h2 & bi & Hp & Hrec & Hg2 & _ & Hb & Hph & _ & _ & Hst & _).
  exists w1, h1, w2, h2, bi.
  pose proof (do_complete _ (gd_documents _ Hg) id m Hc) as Hm.
  destruct (gd_imports _ Hg2 _ _ Hb) as (id' & m' & Hm' & Hk & Hs & _ & Himp).
  destruct (plan_unique _ _ _ _ Hm Hm' Hk) as [<- <-]. split_and!; try done; [by apply Himp|].
  intros e He. specialize (Hst e He). unfold stored in Hst.
  destruct (objs w2 !! obj e) as [data|] eqn:Hd; [|done]. apply bool_decide_eq_true in Hst.
  exists data. split; [done|]. apply bool_decide_eq_true. split; [done|].
  by apply (gd_sound _ Hg2 id m e data).
Qed.
End Convergence.

(** ** A concrete destination

    An inbox and a bucket in memory; a sidecar with the manifests of up to two
    backups, which share an object of the repository; an API server. *)

Record demo_world : Type := {
  dt_files : gmap string string;
  dt_objs : gmap string string;
  dt_published : nat;    (* how many of the manifests *)
  dt_imports : gmap NamespacedName BackupImport;
  dt_refusing : bool;
}.

Definition first_manifest : Manifest :=
  {| mf_SchemaVersion := 1; mf_BackupName := "b1"; mf_StorageLocation := "default";
     mf_BSLPrefix := "prod"; mf_ObjectCount := 2; mf_TotalBytes := 9;
     mf_CompletedAt := "1970-01-01T00:00:00Z"; mf_Complete := true;
     mf_Files := [sample_entry "backups/b1/velero-backup.json" "d2" "{}";
                  sample_entry "kopia/p1" "d1" "payload"] |}.

Definition second_manifest : Manifest :=
  {| mf_SchemaVersion := 1; mf_BackupName := "b2"; mf_StorageLocation := "default";
     mf_BSLPrefix := "prod"; mf_ObjectCount := 3; mf_TotalBytes := 13; mf_CompletedAt := "";
     mf_Complete := true;
     mf_Files := [sample_entry "backups/b2/velero-backup.json" "d3" "[]";
                  sample_entry "kopia/p1" "d1" "payload"; sample_entry "kopia/p2" "d4" "more"] |}.

Definition document (m : Manifest) : string := match Marshal m with Ok doc => doc | Er _ => "" end.

Definition demo_manifests : list (string * Manifest) :=
  [(DocID "default" "b1", first_manifest); (DocID "default" "b2", second_manifest)].

Definition demo_plan : gmap string Manifest := list_to_map demo_manifests.

Definition demo_documents (k : nat) : gmap string string :=
  document <$> (list_to_map (take k demo_manifests) : gmap string Manifest).

Definition demo_side (w : demo_world) : side :=
  {| sd_documents := demo_documents (dt_published w); sd_imports := dt_imports w;
     sd_refusing := dt_refusing w |}.

(** the document id of a request *)
Definition requested_doc (collection body : string) : string :=
  let head := String "{" (print_string "collection" +:+ String ":" (print_string collection +:+
                String "," (print_string "docId" +:+ String ":" (String quote "")))) in
  match strip_prefix head body with
  | Some s => match parse_string (String.length s) s with Some (id, _) => id | None => "" end
  | None => ""
  end.

(** the replies of the sidecar *)
Definition demo_post (k : nat) (url body : string) : http_response :=
  if HasSuffix url "ListDocuments" then
    HttpReply 200 (print (json_map [("docIds", json_strings (map fst (take k demo_manifests)))]))
  else if HasSuffix url "GetDocument" then
    HttpReply 200 (print (json_map
      match demo_documents k !! requested_doc "manifests" body with
      | Some doc => [("jsonData", JStr doc)]
      | None => []
      end))
  else HttpFailed unavailable.

Definition with_imports (w : demo_world) (i : gmap NamespacedName BackupImport) : demo_world :=
  {| dt_files := dt_files w; dt_objs := dt_objs w; dt_published := dt_published w;
     dt_imports := i; dt_refusing := dt_refusing w |}.

Definition demo_destination : handler demo_world := fun c w =>
  match c as c return resp c * demo_world with
  | TimeNow => (0%Z, w)
  | HttpPost url body => (demo_post (dt_published w) url body, w)
  | X509AppendCerts _ => (true, w)
  | MinioDefaultTransport | MinioNew _ => (None, w)
  | KGetBackupImport n =>
      (match dt_imports w !! n with Some bi => Ok bi | None => Er (ext_missing "not found") end, w)
  | KStatusUpdateBackupImport bi =>
      if dt_refusing w then (Er unavailable, w)
      else (Ok bi, with_imports w (<[key_of bi := bi]> (dt_imports w)))
  | KCreateOrUpdateBackupImport obj mutate =>
      if dt_refusing w then (Er unavailable, w)
      else
        let base := default obj (dt_imports w !! key_of obj) in
        match mutate base with
        | Er e => (Er e, w)
        | Ok bi => (Ok OperationResultUpdated, with_imports w (<[key_of obj :=
                      {| bi_Meta := bi_Meta base; bi_Spec := bi_Spec bi;
                         bi_Status := bi_Status base |}]> (dt_imports w)))
        end
  | c =>
      let '(r, (f, o)) := inbox_memory c (dt_files w, dt_objs w) in
      (r, {| dt_files := f; dt_objs := o; dt_published := dt_published w;
             dt_imports := dt_imports w; dt_refusing := dt_refusing w |})
  end.

Lemma demo_import_world s :
  ImportWorld demo_destination (as_Store s) dt_files dt_objs (fullKey s).
Proof.
  split.
  - intros k [f o b i x] h. cbn. unfold Stat. cbn. destruct (o !! fullKey s k) as [d|] eqn:E;
      (do 2 eexists; split; [reflexivity|done]).
  - intros p [f o b i x] data H. cbn in *. by rewrite H.
  - intros p [f o b i x] data H. cbn in *. by rewrite H.
  - intros p [f o b i x] data H. cbn in *. by rewrite H.
  - intros k p w h data ct H. cbn. rewrite H. do 2 eexists. split; [reflexivity|done].
Qed.

#[export] Instance demo_inbox_world s root :
  InboxWorld demo_destination root (as_Store s) dt_files dt_objs (fullKey s) paths demo_side.
Proof.
  split.
  - apply demo_import_world.
  - intros p [f o b i x] H. cbn in *. rewrite H. by eexists.
  - intros [f o b i x]. eexists. split; [reflexivity|].
    split; [apply walk_files_clean|apply found_files].
  - apply paths_there.
  - intros k p w h data ct w' h' H. cbn. rewrite H. by intros [= <- <-].
Qed.

Definition demo_opts : ImportOptions :=
  {| io_PeatAddress := "localhost:50051"; io_InboxRoot := "/inbox";
     io_ManifestCollection := "manifests"; io_Namespace := "velero"; io_PollInterval := 10;
     io_DestStore := {| cfg_Endpoint := "http://minio:9000"; cfg_Region := ""; cfg_Bucket := "velero";
       cfg_Prefix := "prod"; cfg_AccessKeyID := "ak"; cfg_SecretAccessKey := "sk";
       cfg_SessionToken := ""; cfg_ForcePathStyle := true; cfg_InsecureTLS := false;
       cfg_CABundle := "" |};
     io_SourceEndpointID := ""; io_SourceAddresses := []; io_SourceRelayURL := "" |}.

(** every published document is one of the two *)
Lemma demo_documents_in k id doc :
  demo_documents k !! id = Some doc ->
  exists m, (id, m) ∈ demo_manifests /\ doc = document m.
Proof.
  unfold demo_documents. rewrite lookup_fmap. intros (m & Hm & ->)%fmap_Some. exists m.
  split; [|done]. apply elem_of_list_to_map_2 in Hm. by apply elem_of_take in Hm as (i & Hi%list_elem_of_lookup_2 & _).
Qed.

(** the cases of a list that is written out *)
Lemma demo_cases (P : string -> Manifest -> Prop) :
  P (DocID "default" "b1") first_manifest -> P (DocID "default" "b2") second_manifest ->
  forall id m, (id, m) ∈ demo_manifests -> P id m.
Proof. intros H1 H2 id m. unfold demo_manifests. rewrite !elem_of_cons, elem_of_nil. naive_solver. Qed.

Lemma demo_ids_ascii k id : is_Some (demo_documents k !! id) -> all_ascii id = true.
Proof.
  intros [doc (m & Hin & _)%demo_documents_in]. revert id m Hin. by apply demo_cases.
Qed.

Lemma demo_request id k :
  demo_documents k !! requested_doc "manifests"
    (print (json_map [("collection", JStr "manifests"); ("docId", JStr id)])) =
  demo_documents k !! id.
Proof.
  set (head := String "{" (print_string "collection" +:+ String ":" (print_string "manifests" +:+
                 String "," (print_string "docId" +:+ String ":" (String quote ""))))).
  assert (print (json_map [("collection", JStr "manifests"); ("docId", JStr id)]) =
    head +:+ (escape (String.length id) id +:+ String quote "}")) as ->.
  { change (json_map [("collection", JStr "manifests"); ("docId", JStr id)]) with
      (JObj [("collection", JStr "manifests"); ("docId", JStr id)]).
    rewrite print_obj. cbn [map sep_by]. unfold print_member. cbn [fst snd print].
    unfold print_string at 4, head. by autorewrite with str. }
  unfold requested_doc. fold head. rewrite strip_prefix_app.
  destruct (parse_escape_any (String.length id) id
    (String.length (escape (String.length id) id +:+ String quote "}")) "}") as (x & Hx & _);
    [done|rewrite length_sapp; cbn; lia|]. rewrite Hx.
  destruct (demo_documents k !! x) as [doc|] eqn:Hd.
  - by rewrite <- (parse_print_ascii id "}" x Hx (demo_ids_ascii k x ltac:(by eexists))).
  - destruct (demo_documents k !! id) as [doc|] eqn:Hid; [|done].
    rewrite parse_print_string in Hx; [congruence|].
    apply valid_utf8_all_ascii, (demo_ids_ascii k). by eexists.
Qed.

Lemma demo_replies k id : Unmarshal get_document_reply None (print (json_map
    match demo_documents k !! id with Some doc => [("jsonData", JStr doc)] | None => [] end)) =
  (demo_documents k !! id, None).
Proof.
  destruct (demo_documents k !! id) as [doc|] eqn:Hd; [|vm_compute; reflexivity].
  apply demo_documents_in in Hd as (m & Hin & ->). revert id m Hin.
  apply demo_cases; vm_compute; reflexivity.
Qed.

Lemma demo_lists k : exists ids, Unmarshal get_doc_ids []
    (print (json_map [("docIds", json_strings (map fst (take k demo_manifests)))])) = (ids, None) /\
  forall id, is_Some (demo_documents k !! id) -> id ∈ ids.
Proof.
  exists (map fst (take k demo_manifests)). split.
  - destruct k as [|[|k]]; [vm_compute; reflexivity..|].
    rewrite take_ge by (cbn; lia). vm_compute. reflexivity.
  - intros id [doc Hd]. unfold demo_documents in Hd. rewrite lookup_fmap in Hd.
    apply fmap_Some in Hd as (m & Hm & _). apply elem_of_list_to_map_2 in Hm.
    by apply (list_elem_of_fmap_2 fst) in Hm.
Qed.

#[export] Instance demo_destination_world :
  DestinationWorld demo_destination demo_opts dt_files dt_objs paths demo_side.
Proof.
  split; try done.
  - apply demo_inbox_world.
  - intros w. by exists 0%Z.
  - intros n w. by exists (ext_missing "not found").
  - intros bi old w _ _. cbn. destruct (dt_refusing w) eqn:Hr; eexists;
      [left; eexists; split; [done|]; split; [exact Hr|done]|right; by split].
  - intros obj mutate bi w Hm. cbn in *. destruct (dt_refusing w) eqn:Hr; eexists;
      [left; eexists; split; [done|]; split; [exact Hr|done]|right; rewrite Hm].
    eexists. split; [done|]. eexists. split; [by split|done].
  - intros body w. by exists (HttpFailed unavailable).
  - intros w. destruct (demo_lists (dt_published w)) as (ids & Hu & Hall). exists ids. eexists.
    split; [reflexivity|]. by split.
  - intros id w. eexists. split; [reflexivity|]. rewrite demo_request. apply demo_replies.
Qed.

Lemma demo_plan_cases id m : demo_plan !! id = Some m <->  (id, m) ∈ demo_manifests.
Proof.
  symmetry. apply elem_of_list_to_map. apply (bool_decide_unpack _). vm_compute. exact I.
Qed.

(** every pair of planned manifests satisfies a decidable property *)
Lemma demo_pairs (P : string * Manifest -> string * Manifest -> Prop)
    `{!forall p q, Decision (P p q)} :
  bool_decide (Forall (fun p => Forall (P p) demo_manifests) demo_manifests) = true ->
  forall id1 m1 id2 m2, demo_plan !! id1 = Some m1 -> demo_plan !! id2 = Some m2 ->
    P (id1, m1) (id2, m2).
Proof.
  intros Hall%bool_decide_eq_true id1 m1 id2 m2 H1%demo_plan_cases H2%demo_plan_cases.
  rewrite Forall_forall in Hall. specialize (Hall _ H1). rewrite Forall_forall in Hall.
  by apply Hall.
Qed.

Abbreviation demo_name e := (fullKey (opened (io_DestStore demo_opts)) (fe_Key e)).

Lemma demo_plan_ok : plan_ok demo_opts demo_plan.
Proof.
  split.
  - intros id m Hm%demo_plan_cases. revert id m Hm. by apply demo_cases.
  - intros id m Hm%demo_plan_cases. revert id m Hm.
    apply demo_cases; apply (bool_decide_unpack _); vm_compute; exact I.
  - intros id m Hm%demo_plan_cases. revert id m Hm. apply demo_cases; cbn; lia.
  - intros id1 m1 id2 m2 H1 H2.
    refine (demo_pairs (fun p q => import_key demo_opts p.2 = import_key demo_opts q.2 -> p.1 = q.1)
              _ id1 m1 id2 m2 H1 H2). vm_compute. reflexivity.
  - intros id1 m1 id2 m2 e1 e2 H1 H2 He1 He2.
    assert (Hall : _) by (refine (demo_pairs (fun p q => Forall (fun e1 => Forall (fun e2 =>
        demo_name e1 = demo_name e2 -> fe_Size e1 = fe_Size e2 /\ fe_SHA256 e1 = fe_SHA256 e2)
        (mf_Files q.2)) (mf_Files p.2)) _ id1 m1 id2 m2 H1 H2); vm_compute; reflexivity).
    by eapply Forall_forall in Hall; [eapply Forall_forall in Hall|].
  - intros id1 m1 id2 m2 e1 e2 H1 H2 He1 He2.
    assert (Hall : _) by (refine (demo_pairs (fun p q => Forall (fun e1 => Forall (fun e2 =>
        demo_name e1 = demo_name e2 -> p.1 = q.1)
        (mf_Files q.2)) (discovery_files (mf_Files p.2))) _ id1 m1 id2 m2 H1 H2); vm_compute; reflexivity).
    by eapply Forall_forall in Hall; [eapply Forall_forall in Hall|].
Qed.

Lemma demo_docs_ok k : docs_ok demo_plan (demo_documents k).
Proof.
  assert (forall id m, (id, m) ∈ demo_manifests -> Parse (document m) = Ok m) as Hp
    by (apply demo_cases; vm_compute; reflexivity).
  split.
  - intros id m. unfold complete_manifest. destruct (demo_documents k !! id) as [doc|] eqn:Hd; [|done].
    apply demo_documents_in in Hd as (m' & Hin & ->). rewrite (Hp id m' Hin).
    destruct (mf_Complete m'); [|done]. intros [= <-]. by apply demo_plan_cases.
  - intros id (doc & e & Hd & Hpa). apply demo_documents_in in Hd as (m & Hin & ->).
    rewrite (Hp id m Hin) in Hpa. discriminate.
Qed.

(** *** Two backups, delivered in parts

    The shared data file arrives at an unexpected place and the first backup's
    discovery object half; its manifest is published and polled; a reconcile stores
    the data file; the inbox file vanishes, the discovery object is complete, and
    the second manifest is published. *)

Abbreviation demo_step := (step (M := sample_machinery) demo_destination demo_opts
  dt_files dt_objs demo_side demo_plan).

Definition demo_start : demo_world :=
  {| dt_files := ∅; dt_objs := ∅; dt_published := 0; dt_imports := ∅; dt_refusing := false |}.

Definition with_inbox (w : demo_world) (fs : gmap string string) : demo_world :=
  {| dt_files := fs; dt_objs := dt_objs w; dt_published := dt_published w;
     dt_imports := dt_imports w; dt_refusing := dt_refusing w |}.

Definition publish (w : demo_world) (k : nat) : demo_world :=
  {| dt_files := dt_files w; dt_objs := dt_objs w; dt_published := k;
     dt_imports := dt_imports w; dt_refusing := dt_refusing w |}.

Definition first_import : NamespacedName := {| nn_Namespace := "velero"; nn_Name := "default-b1" |}.

Definition after {A} (m : io A) (w : demo_world) : demo_world :=
  match run demo_destination m w [] with Some (_, w', _) => w' | None => w end.

Definition after_pass (w : demo_world) : demo_world :=
  after (Reconcile (M := sample_machinery) demo_opts first_import) w.

Definition after_poll (w : demo_world) : demo_world :=
  after (poll demo_opts (Peat.New (io_PeatAddress demo_opts))) w.

Lemma after_run {A} (m : io A) w a w' h :
  run demo_destination m w [] = Some (a, w', h) -> after m w = w'.
Proof. unfold after. by intros ->. Qed.

Lemma step_after_pass w : keyed (demo_side w) -> demo_step w (after_pass w).
Proof.
  intros Hk. destruct (run_Reconcile (M := sample_machinery) demo_destination demo_opts dt_files dt_objs
                         paths demo_side first_import w Hk) as (r & w' & h & Hrun & _).
  unfold after_pass. rewrite (after_run _ _ _ _ _ Hrun). by eapply step_reconcile.
Qed.

Lemma step_after_poll w : keyed (demo_side w) -> demo_step w (after_poll w).
Proof.
  intros Hk. destruct (run_poll demo_destination demo_opts dt_files dt_objs
                         paths demo_side w [] Hk) as (w' & h & Hrun & _).
  unfold after_poll. rewrite (after_run _ _ _ _ _ Hrun). by eapply step_poll.
Qed.

Lemma step_with_inbox w fs : demo_step w (with_inbox w fs).
Proof. by apply step_inbox. Qed.

Lemma step_publish w k : demo_step w (publish w k).
Proof. apply step_documents; [done..|]. apply demo_docs_ok. Qed.

Lemma demo_good : good demo_opts dt_objs demo_side demo_plan demo_start.
Proof.
  split; [apply demo_docs_ok|..].
  - intros n bi H. cbn in H. by rewrite lookup_empty in H.
  - intros id m e data _ _ H. cbn in H. by rewrite lookup_empty in H.
  - intros id m _ d e _ H. unfold stored in H. cbn in H. by rewrite lookup_empty in H.
  - intros n bi H. cbn in H. by rewrite lookup_empty in H.
Qed.

Definition demo_published : demo_world :=
  publish (with_inbox demo_start partial_world.1) 1.

Definition demo_midway : demo_world := after_pass (after_poll demo_published).

Definition demo_delivered : demo_world :=
  publish (with_inbox demo_midway {["/inbox/d2/velero-backup.json" := "{}"]}) 2.

Lemma keyed_step w w' :
  rtc demo_step demo_start w -> demo_step w w' ->
  keyed (demo_side w) /\ rtc demo_step demo_start w'.
Proof.
  intros Hr Hs. split; [|by eapply rtc_r].
  eapply gd_keyed, (good_reachable (M := sample_machinery) demo_destination demo_opts dt_files dt_objs
    paths demo_side demo_plan demo_plan_ok demo_start w demo_good Hr).
Qed.

Lemma demo_reachable : rtc demo_step demo_start demo_delivered.
Proof.
  assert (rtc demo_step demo_start demo_published) as H1.
  { eapply rtc_l; [exact (step_with_inbox demo_start partial_world.1)|].
    apply rtc_once. exact (step_publish _ 1). }
  assert (keyed (demo_side demo_published)) as K1 by exact (proj1 (keyed_step _ _ H1 (step_publish _ 1))).
  destruct (keyed_step _ _ H1 (step_after_poll _ K1)) as [_ H2].
  assert (keyed (demo_side (after_poll demo_published))) as K2
    by exact (proj1 (keyed_step _ _ H2 (step_publish _ 1))).
  destruct (keyed_step _ _ H2 (step_after_pass _ K2)) as [_ H3].
  eapply rtc_r; [|exact (step_publish _ 2)]. eapply rtc_r; [exact H3|].
  exact (step_with_inbox demo_midway _).
Qed.

Lemma demo_available : all_available demo_opts dt_files dt_objs paths demo_delivered first_manifest.
Proof.
  intros e He. apply list_elem_of_In in He.
  repeat (destruct He as [<-|He]; [vm_compute; exact I|]). destruct He.
Qed.


Lemma demo_import_there : exists bi, dt_imports demo_delivered !! first_import = Some bi /\
  document_of bi = DocID "default" "b1" /\ being_deleted (bi_Meta bi) = false.
Proof.
  assert (match dt_imports demo_delivered !! first_import with
          | Some bi => bool_decide (document_of bi = DocID "default" "b1") && negb (being_deleted (bi_Meta bi))
          | None => false end = true) as H by (vm_compute; reflexivity).
  destruct (dt_imports demo_delivered !! first_import) as [bi|]; [|done]. exists bi.
  split; [done|]. by apply andb_prop in H as [?%bool_decide_eq_true ?%negb_true_iff].
Qed.

Lemma destination_consistent_witness :
  good demo_opts dt_objs demo_side demo_plan demo_delivered /\
  dt_objs demo_delivered = {["prod/kopia/p1" := "payload"]}.
Proof.
  split; [|vm_compute; reflexivity].
  apply (destination_consistent (M := sample_machinery) demo_destination demo_opts dt_files dt_objs
           paths demo_side demo_plan demo_plan_ok demo_start demo_delivered demo_good demo_reachable).
Defined.

Lemma destination_converges_witness :
  exists r w' h,
    run demo_destination (Reconcile (M := sample_machinery) demo_opts first_import) demo_delivered [] =
      Some (r, w', h) /\
    r = done /\ exists bi, dt_imports w' !! first_import = Some bi /\
      bi_Phase (bi_Status bi) = ImportImported.
Proof.
  destruct (destination_converges (M := sample_machinery) demo_destination demo_opts dt_files dt_objs
              paths demo_side demo_plan demo_plan_ok demo_start demo_delivered first_import
              demo_good demo_reachable) as (r & w' & h & Hrun & _ & _ & _ & Hfin).
  exists r, w', h. split; [exact Hrun|].
  destruct demo_import_there as (bi & Hbi & Hdoc & Hdel).
  destruct (Hfin bi first_manifest Hbi Hdel) as [_ [[-> H]|[Href _]]].
  - rewrite Hdoc. vm_compute. reflexivity.
  - exact demo_available.
  - split; [reflexivity|exact H].
  - exfalso. revert Href. vm_compute. discriminate.
Defined.

(** the poll also makes the second backup's import *)
Lemma published_imported_witness :
  exists w1 h1 w2 h2 bi,
    run demo_destination (poll demo_opts (Peat.New (io_PeatAddress demo_opts))) demo_delivered [] =
      Some (tt, w1, h1) /\
    run demo_destination (Reconcile (M := sample_machinery) demo_opts first_import) w1 [] =
      Some (done, w2, h2) /\
    dt_imports w2 !! first_import = Some bi /\ bi_Phase (bi_Status bi) = ImportImported.
Proof.
  destruct (published_imported (M := sample_machinery) demo_destination demo_opts dt_files dt_objs
              paths demo_side demo_plan demo_plan_ok demo_start demo_delivered (DocID "default" "b1")
              first_manifest demo_good demo_reachable)
    as (w1 & h1 & w2 & h2 & bi & Hp & Hrec & Hb & Hph & _).
  - vm_compute. reflexivity.
  - vm_compute. reflexivity.
  - exact demo_available.
  - intros bi Hbi. destruct demo_import_there as (bi' & Hbi' & _ & Hdel).
    change (import_key demo_opts first_manifest) with first_import in Hbi. cbn [demo_side sd_imports] in Hbi.
    rewrite Hbi' in Hbi. injection Hbi as <-. exact Hdel.
  - exists w1, h1, w2, h2, bi. split; [exact Hp|]. split; [exact Hrec|]. split; [exact Hb|exact Hph].
Defined.
