(* ===== verification/Setup.v ===== *)
(** * Setup: the scheme, the manager and the controllers' registration

    What the [init] functions of [api/v1alpha1] and [api/velero/v1] register, the
    [SetupWithManager] methods, and the steps by which [main] sets up
    controller-runtime's manager.  The manager is outside: each step is recorded
    and answered, with [nil] or an error, by an arbitrary function of the steps
    before it. *)

From stdpp Require Import base list strings gmap.
From S2P Require Import Prelude Api Effects Objstore ImportController.

(** ** Scheme registration *)

Record GroupVersion := { gv_Group : string; gv_Version : string }.

Record GroupVersionKind := { gvk_GroupVersion : GroupVersion; gvk_Kind : string }.

#[export] Instance GroupVersion_eq_dec : EqDecision GroupVersion.
Proof. solve_decision. Defined.

#[export] Instance GroupVersionKind_eq_dec : EqDecision GroupVersionKind.
Proof. solve_decision. Defined.

(** [scheme.Builder]: its group version and the types registered with it. *)
Record Builder := { bld_GroupVersion : GroupVersion; bld_types : list string }.

Definition Register (b : Builder) (objects : list string) : Builder :=
  {| bld_GroupVersion := bld_GroupVersion b; bld_types := bld_types b ++ objects |}.

Abbreviation Scheme := (list GroupVersionKind).

(** [Builder.AddToScheme]: each type under its own name as the kind. *)
Definition AddToScheme (b : Builder) (s : Scheme) : Scheme :=
  s ++ map (fun T => {| gvk_GroupVersion := bld_GroupVersion b; gvk_Kind := T |}) (bld_types b).

Definition snapback_v1alpha1 : GroupVersion :=
  {| gv_Group := "snapback.uds.dev"; gv_Version := "v1alpha1" |}.

Definition velero_v1 : GroupVersion :=
  {| gv_Group := "velero.io"; gv_Version := "v1" |}.

(** The [init] functions, in the order of their files. *)
Definition init_backupimport (b : Builder) : Builder :=
  Register b ["BackupImport"; "BackupImportList"].
Definition init_backupreplication (b : Builder) : Builder :=
  Register b ["BackupReplication"; "BackupReplicationList"].
Definition init_replicationpolicy (b : Builder) : Builder :=
  Register b ["ReplicationPolicy"; "ReplicationPolicyList"].
Definition init_velero (b : Builder) : Builder :=
  Register b ["Backup"; "BackupList"; "BackupStorageLocation"; "BackupStorageLocationList"].

Definition v1alpha1_SchemeBuilder : Builder :=
  init_replicationpolicy (init_backupreplication (init_backupimport
    {| bld_GroupVersion := snapback_v1alpha1; bld_types := [] |})).

Definition velero_SchemeBuilder : Builder :=
  init_velero {| bld_GroupVersion := velero_v1; bld_types := [] |}.

(** [main]'s [init]; what client-go's own scheme holds is a parameter. *)
Definition scheme (clientgo : Scheme) : Scheme :=
  AddToScheme velero_SchemeBuilder (AddToScheme v1alpha1_SchemeBuilder clientgo).

Definition snapback_kind (T : string) : GroupVersionKind :=
  {| gvk_GroupVersion := snapback_v1alpha1; gvk_Kind := T |}.
Definition velero_kind (T : string) : GroupVersionKind :=
  {| gvk_GroupVersion := velero_v1; gvk_Kind := T |}.

(** ** The steps of a set-up *)

(** The reconcilers, with the fields they have besides the manager's client and
    scheme. *)
Inductive reconciler :=
| BackupReconciler
| BackupReplicationReconciler
| BackupImportReconciler (Opts : ImportOptions).

(** [ctrl.NewControllerManagedBy(mgr).For(o).Named(n).Complete(r)] *)
Record ControllerSpec := {
  cs_For : GroupVersionKind;
  cs_Named : string;
  cs_Reconciler : reconciler;
}.

Record ManagerOptions := {
  mgr_Scheme : Scheme;
  mgr_MetricsBindAddress : string;
  mgr_HealthProbeBindAddress : string;
  mgr_LeaderElection : bool;
  mgr_LeaderElectionID : string;
}.

(** The bridge that the destination adds to the manager. *)
Inductive runnable := ManifestBridge (Opts : ImportOptions).

(** Whether the manager runs it on the elected leader only. *)
Definition NeedLeaderElection (r : runnable) : bool := true.

Inductive setup_step :=
| GetConfig
| NewManager (o : ManagerOptions)
| CompleteController (c : ControllerSpec)
| AddRunnable (r : runnable)
| AddHealthzCheck (name : string)
| AddReadyzCheck (name : string)
| StartManager.

(** How each step is answered, given the steps before it. *)
Abbreviation answers := (list setup_step -> setup_step -> option error).

(** The process goes on, or has called [os.Exit]. *)
Inductive flow (A : Type) :=
| Go (a : A)
| Exit (code : Z).
Arguments Go {A} a.
Arguments Exit {A} code.

(** Programs that set up a manager: they record their steps, may exit, and may
    call the outside. *)
Definition setup (A : Type) : Type := list setup_step -> io (flow A * list setup_step).

#[export] Instance setup_ret : MRet setup := fun A a tr => Ret (Go a, tr).
#[export] Instance setup_bind : MBind setup := fun A B f m tr =>
  '(r, tr) ← m tr;
  match r with
  | Go a => f a tr
  | Exit code => Ret (Exit code, tr)
  end.

Definition os_exit {A} (code : Z) : setup A := fun tr => Ret (Exit code, tr).
Definition outside {A} (m : io A) : setup A := fun tr => a ← m; Ret (Go a, tr).

(** [if err != nil { setupLog.Error(...); os.Exit(1) }] *)
Definition fatal (e : option error) : setup unit :=
  match e with Some _ => os_exit 1 | None => mret tt end.

Section manager.
Context (ans : answers).

Definition ask (s : setup_step) : setup (option error) :=
  fun tr => Ret (Go (ans tr s), tr ++ [s]).

(** ** SetupWithManager *)

Definition Backup_SetupWithManager (r : reconciler) : setup (option error) :=
  ask (CompleteController
         {| cs_For := velero_kind "Backup"; cs_Named := "backup"; cs_Reconciler := r |}).

Definition BackupReplication_SetupWithManager (r : reconciler) : setup (option error) :=
  ask (CompleteController
         {| cs_For := snapback_kind "BackupReplication"; cs_Named := "backupreplication";
            cs_Reconciler := r |}).

Definition BackupImport_SetupWithManager (r : reconciler) : setup (option error) :=
  ask (CompleteController
         {| cs_For := snapback_kind "BackupImport"; cs_Named := "backupimport";
            cs_Reconciler := r |}).

(** ** A plan of steps, carried out until one is refused *)

Fixpoint carry (tr : list setup_step) (plan : list setup_step) : flow unit * list setup_step :=
  match plan with
  | [] => (Go tt, tr)
  | s :: plan =>
      match ans tr s with
      | None => carry (tr ++ [s]) plan
      | Some _ => (Exit 1, tr ++ [s])
      end
  end.

(** [ask] with [fatal] for its answer *)
Definition must (s : setup_step) : setup unit := e ← ask s; fatal e.

Lemma must_then (s : setup_step) (k : setup unit) tr :
  (_ ← must s; k) tr =
    match ans tr s with
    | None => k (tr ++ [s])
    | Some _ => Ret (Exit 1, tr ++ [s])
    end.
Proof. unfold must, mbind, setup_bind. cbn. by destruct (ans tr s). Qed.

Lemma carry_app tr plan plan' :
  carry tr (plan ++ plan') =
    match carry tr plan with
    | (Go _, tr) => carry tr plan'
    | r => r
    end.
Proof.
  revert tr. induction plan as [|s plan IH]; intros tr; cbn; [done|].
  destruct (ans tr s); [done|apply IH].
Qed.

(** The set-up went through exactly when every step was accepted; otherwise the
    last step recorded was refused and the process exits with code 1. *)
Lemma carry_spec tr plan :
  let (r, tr') := carry tr plan in
  (r = Go tt /\ tr' = tr ++ plan /\
     (forall l s l', plan = l ++ s :: l' -> ans (tr ++ l) s = None)) \/
  (r = Exit 1 /\ exists l s l' e, plan = l ++ s :: l' /\ tr' = tr ++ l ++ [s] /\
     ans (tr ++ l) s = Some e /\
     (forall l1 s1 l2, l = l1 ++ s1 :: l2 -> ans (tr ++ l1) s1 = None)).
Proof.
  revert tr. induction plan as [|s plan IH]; intros tr; cbn.
  - left. rewrite app_nil_r. split_and!; [done..|]. by intros [|??] ?? ?.
  - destruct (ans tr s) as [e|] eqn:He.
    + right. split; [done|]. exists [], s, plan, e. rewrite app_nil_r.
      split_and!; [done..|]. by intros [|??] ?? ?.
    + specialize (IH (tr ++ [s])). destruct (carry (tr ++ [s]) plan) as [r tr'].
      destruct IH as [(-> & -> & Hall)|(-> & l & s' & l' & e & -> & -> & He' & Hall)].
      * left. rewrite <- app_assoc. split_and!; [done..|].
        intros [|a l] s1 l1 [= <- Hp]; [by rewrite app_nil_r|].
        specialize (Hall _ _ _ Hp). by rewrite <- app_assoc in Hall.
      * right. split; [done|]. exists (s :: l), s', l', e.
        rewrite <- !app_assoc in *. split_and!; [done..|].
        intros [|a l1] s1 l2 [= <- Hp]; [by rewrite app_nil_r|].
        specialize (Hall _ _ _ Hp). by rewrite <- app_assoc in Hall.
Qed.

End manager.

(** ** Every kind that the program uses is registered *)

(** The kind of object of a call to the API server. *)
Definition call_kind (c : call) : option GroupVersionKind :=
  match c with
  | KGetBackup _ => Some (velero_kind "Backup")
  | KGetBackupStorageLocation _ => Some (velero_kind "BackupStorageLocation")
  | KGetBackupReplication _ | KStatusUpdateBackupReplication _
  | KCreateOrUpdateBackupReplication _ _ => Some (snapback_kind "BackupReplication")
  | KGetReplicationPolicy _ => Some (snapback_kind "ReplicationPolicy")
  | KListReplicationPolicies => Some (snapback_kind "ReplicationPolicyList")
  | KGetBackupImport _ | KStatusUpdateBackupImport _
  | KCreateOrUpdateBackupImport _ _ => Some (snapback_kind "BackupImport")
  | KGetSecret _ =>
      Some {| gvk_GroupVersion := {| gv_Group := ""; gv_Version := "v1" |}; gvk_Kind := "Secret" |}
  | _ => None
  end.
