(* ===== verification/MainCmd.v ===== *)
(** * MainCmd: the command of [cmd/main.go]

    The flags, the options of the destination ([buildImportOptions], [splitCSV])
    and [main], which sets up the manager for its role with the steps of [Setup].
    Flags of other packages and client-go's scheme are parameters. *)

From stdpp Require Import gmap strings.
From Stdlib Require Import Ascii.
From S2P Require Import Prelude GoStrings GoFlag Api Effects.
From S2P Require Import Manifest Creds Objstore ReplicationController ImportController Setup.

(** trim each part and drop the empty ones *)
Definition csv_parts (parts : list string) : list string :=
  List.filter (fun p => negb (bool_decide (p = ""))) (map TrimSpace parts).

Definition splitCSV (s : string) : list string :=
  if bool_decide (TrimSpace s = "") then [] else csv_parts (Split s ",").

(** the destination flags, as [buildImportOptions] takes them *)
Record ImportFlags : Set := {
  if_peatAddress : string;
  if_inboxPath : string;
  if_manifestCollection : string;
  if_pollInterval : Z;
  if_endpoint : string;
  if_region : string;
  if_bucket : string;
  if_prefix : string;
  if_forcePathStyle : bool;
  if_insecureTLS : bool;
  if_credsFile : string;
  if_credsProfile : string;
  if_sourceEndpointID : string;
  if_sourceAddresses : string;
  if_sourceRelayURL : string;
}.

Definition flag_config (f : ImportFlags) : Config :=
  {| cfg_Endpoint := if_endpoint f; cfg_Region := if_region f; cfg_Bucket := if_bucket f;
     cfg_Prefix := if_prefix f; cfg_ForcePathStyle := if_forcePathStyle f;
     cfg_AccessKeyID := ""; cfg_SecretAccessKey := ""; cfg_SessionToken := "";
     cfg_CABundle := ""; cfg_InsecureTLS := if_insecureTLS f |}.

(** the configuration with the credentials file's keys, when there is a file *)
Definition dest_config (f : ImportFlags) : io (res Config) :=
  let cfg := flag_config f in
  if bool_decide (if_credsFile f = "") then Ret (Ok cfg)
  else
    r ← perform (OsReadFile (if_credsFile f));
    Ret match r with
        | Er e => Er (errorf [FStr "read dest credentials "; FQuo (if_credsFile f); FStr ": "] e)
        | Ok credBytes =>
            match ParseAWSCredentials credBytes (if_credsProfile f) with
            | Er e => Er (errorf [FStr "parse dest credentials: "] e)
            | Ok keys => Ok (set_keys cfg keys)
            end
        end.

Definition buildImportOptions (f : ImportFlags) : io (res ImportOptions) :=
  if bool_decide (if_endpoint f = "")
  then Ret (Er (EText [FStr "--dest-endpoint is required for role=destination"]))
  else if bool_decide (if_bucket f = "")
  then Ret (Er (EText [FStr "--dest-bucket is required for role=destination"]))
  else
    cfg ← dest_config f;
    try cfg (fun cfg =>
      ns ← perform (OsGetenv "POD_NAMESPACE");
      Ret (Ok {| io_PeatAddress := if_peatAddress f; io_InboxRoot := if_inboxPath f;
                 io_ManifestCollection := if_manifestCollection f;
                 io_Namespace := if bool_decide (ns = "") then "snapback" else ns;
                 io_PollInterval := if_pollInterval f; io_DestStore := cfg;
                 io_SourceEndpointID := if_sourceEndpointID f;
                 io_SourceAddresses := splitCSV (if_sourceAddresses f);
                 io_SourceRelayURL := if_sourceRelayURL f |})).

(** ** The flags *)

Definition roleSource : string := "source".
Definition roleDestination : string := "destination".

(** The flags [main] registers, with their defaults. *)
Definition main_flags : list (string * flag_value) :=
  [("metrics-bind-address", FvString ":8080");
   ("health-probe-bind-address", FvString ":8081");
   ("leader-elect", FvBool false);
   ("role", FvString roleSource);
   ("peat-address", FvString "localhost:50051");
   ("inbox-path", FvString "/var/lib/peat/inbox");
   ("manifest-collection", FvString Collection);
   ("manifest-poll-interval", FvDuration 30000000000);
   ("dest-endpoint", FvString "");
   ("dest-region", FvString "");
   ("dest-bucket", FvString "");
   ("dest-prefix", FvString "");
   ("dest-s3-force-path-style", FvBool true);
   ("dest-insecure-tls", FvBool false);
   ("dest-credentials-file", FvString "");
   ("dest-credentials-profile", FvString "");
   ("source-endpoint-id", FvString "");
   ("source-addresses", FvString "");
   ("source-relay-url", FvString "")].

(** The variables as [buildImportOptions] gets them. *)
Definition import_flags (v : flag_values) : ImportFlags :=
  {| if_peatAddress := string_flag v "peat-address";
     if_inboxPath := string_flag v "inbox-path";
     if_manifestCollection := string_flag v "manifest-collection";
     if_pollInterval := duration_flag v "manifest-poll-interval";
     if_endpoint := string_flag v "dest-endpoint";
     if_region := string_flag v "dest-region";
     if_bucket := string_flag v "dest-bucket";
     if_prefix := string_flag v "dest-prefix";
     if_forcePathStyle := bool_flag v "dest-s3-force-path-style";
     if_insecureTLS := bool_flag v "dest-insecure-tls";
     if_credsFile := string_flag v "dest-credentials-file";
     if_credsProfile := string_flag v "dest-credentials-profile";
     if_sourceEndpointID := string_flag v "source-endpoint-id";
     if_sourceAddresses := string_flag v "source-addresses";
     if_sourceRelayURL := string_flag v "source-relay-url" |}.

Section main.
Context (clientgo : Scheme) (others : list (string * flag_value)) (ans : answers).

(** [flag.CommandLine] before parsing; [others] are the flags of
    controller-runtime and zap.  A name registered twice panics in Go. *)
Definition command_line : flag_values := list_to_map (main_flags ++ others).

Definition manager_options (v : flag_values) : ManagerOptions :=
  {| mgr_Scheme := scheme clientgo;
     mgr_MetricsBindAddress := string_flag v "metrics-bind-address";
     mgr_HealthProbeBindAddress := string_flag v "health-probe-bind-address";
     mgr_LeaderElection := bool_flag v "leader-elect";
     mgr_LeaderElectionID := "snapback.uds.dev" |}.

(** [case roleSource] *)
Definition setup_source : setup unit :=
  e ← Backup_SetupWithManager ans BackupReconciler;
  _ ← fatal e;
  e ← BackupReplication_SetupWithManager ans BackupReplicationReconciler;
  fatal e.

(** [case roleDestination] *)
Definition setup_destination (v : flag_values) : setup unit :=
  importOpts ← outside (buildImportOptions (import_flags v));
  match importOpts with
  | Er _ => os_exit 1
  | Ok importOpts =>
      e ← BackupImport_SetupWithManager ans (BackupImportReconciler importOpts);
      _ ← fatal e;
      e ← ask ans (AddRunnable (ManifestBridge importOpts));
      fatal e
  end.

Definition setup_role (role : string) (v : flag_values) : setup unit :=
  if bool_decide (role = roleSource) then setup_source
  else if bool_decide (role = roleDestination) then setup_destination v
  else mret tt.

(** [main] after the flags are parsed *)
Definition run_manager (v : flag_values) : setup unit :=
  let role := string_flag v "role" in
  if bool_decide (role <> roleSource /\ role <> roleDestination) then os_exit 1
  else
    e ← ask ans GetConfig;
    _ ← fatal e;
    e ← ask ans (NewManager (manager_options v));
    _ ← fatal e;
    _ ← setup_role role v;
    e ← ask ans (AddHealthzCheck "healthz");
    _ ← fatal e;
    e ← ask ans (AddReadyzCheck "readyz");
    _ ← fatal e;
    e ← ask ans StartManager;
    fatal e.

(** [flag.Parse] of the command line exits with 0 after [-help], with 2 after an
    error. *)
Definition main (args : list string) : setup unit :=
  match GoFlag.Parse command_line args with
  | HelpRequested => os_exit 0
  | ParseError => os_exit 2
  | Parsed v _ => run_manager v
  end.

(** ** What a set-up amounts to *)

Definition controller_of (kind : GroupVersionKind) (name : string) (r : reconciler)
    : setup_step :=
  CompleteController {| cs_For := kind; cs_Named := name; cs_Reconciler := r |}.

Definition source_plan : list setup_step :=
  [controller_of (velero_kind "Backup") "backup" BackupReconciler;
   controller_of (snapback_kind "BackupReplication") "backupreplication"
     BackupReplicationReconciler].

Definition destination_plan (opts : ImportOptions) : list setup_step :=
  [controller_of (snapback_kind "BackupImport") "backupimport" (BackupImportReconciler opts);
   AddRunnable (ManifestBridge opts)].

Definition manager_plan (v : flag_values) : list setup_step :=
  [GetConfig; NewManager (manager_options v)].

Definition start_plan : list setup_step :=
  [AddHealthzCheck "healthz"; AddReadyzCheck "readyz"; StartManager].

End main.

(** ** Lists on the command line *)

Definition csv_item (p : string) : Prop :=
  p <> "" /\ all_solid p = true /\ no_char "," p = true.

Lemma all_solid_app s t : all_solid (s +:+ t) = all_solid s && all_solid t.
Proof. induction s as [|a s IH]; [done|]. rewrite sapp_cons. cbn. by rewrite IH, andb_assoc. Qed.

Lemma Join_solid l : Forall csv_item l -> all_solid (Join l ",") = true.
Proof.
  induction 1 as [|p l (_ & Hp & _) _ IH]; [done|]. destruct l as [|q l]; [done|].
  change (Join (p :: q :: l) ",") with (p +:+ String "," (Join (q :: l) ",")).
  rewrite all_solid_app, Hp. exact IH.
Qed.

Lemma csv_parts_items l : Forall csv_item l -> csv_parts l = l.
Proof.
  unfold csv_parts. induction 1 as [|p l (Hne & Hp & _) _ IH]; [done|]. cbn.
  rewrite TrimSpace_solid by by apply all_solid_text. rewrite bool_decide_eq_false_2 by done.
  cbn. by rewrite IH.
Qed.

(** a comma-separated flag round-trips: addresses of printable ASCII without
    spaces or commas, joined by commas, are read back as they are, none for the
    empty flag; and whatever the flag holds, every part read is non-empty. *)
Lemma splitCSV_roundtrip l s :
  Forall csv_item l -> splitCSV (Join l ",") = l /\ Forall (fun p => p <> "") (splitCSV s).
Proof.
  intros Hl. split.
  - unfold splitCSV. destruct l as [|p l]; [done|].
    assert (Join (p :: l) "," <> "") as Hne.
    { apply Forall_cons in Hl as [(Hp & _) _]. destruct l; cbn; [done|].
      by intros [? _]%sapp_eq_nil. }
    rewrite TrimSpace_solid by (apply all_solid_text; [done|by apply Join_solid]).
    rewrite bool_decide_eq_false_2 by done. rewrite Split_Join; [by apply csv_parts_items|done|].
    eapply Forall_impl; [exact Hl|]. by intros q (_ & _ & ?).
  - unfold splitCSV, csv_parts. case_bool_decide; [constructor|]. apply Forall_forall.
    intros p Hp%list_elem_of_In. apply filter_In in Hp as [_ Hp].
    apply negb_true_iff, bool_decide_eq_false in Hp. done.
Qed.

Lemma splitCSV_example :
  splitCSV "10.0.0.1:4001,peat.example:4001" = ["10.0.0.1:4001"; "peat.example:4001"] /\
  Forall (fun p => p <> "") (splitCSV " a ,, b").
Proof.
  apply (splitCSV_roundtrip ["10.0.0.1:4001"; "peat.example:4001"] " a ,, b").
  repeat (apply List.Forall_cons; [split; [discriminate|split; reflexivity]|]).
  apply List.Forall_nil.
Defined.

(** ** The destination's options *)

(** What the destination's options hold, given the calls that made them. *)
Definition options_of (f : ImportFlags) (h : history) (opts : ImportOptions) : Prop :=
  if_endpoint f <> "" /\ if_bucket f <> "" /\ io_Namespace opts <> "" /\
  io_SourceAddresses opts = splitCSV (if_sourceAddresses f) /\
  cfg_Endpoint (io_DestStore opts) = if_endpoint f /\
  cfg_Bucket (io_DestStore opts) = if_bucket f /\
  cfg_Prefix (io_DestStore opts) = if_prefix f /\
  io_PeatAddress opts = if_peatAddress f /\ io_InboxRoot opts = if_inboxPath f /\
  io_ManifestCollection opts = if_manifestCollection f /\
  io_PollInterval opts = if_pollInterval f /\
  if bool_decide (if_credsFile f = "") then io_DestStore opts = flag_config f
  else exists body keys, Ev (OsReadFile (if_credsFile f)) (Ok body) ∈ h /\
         ParseAWSCredentials body (if_credsProfile f) = Ok keys /\
         io_DestStore opts = set_keys (flag_config f) keys.

(** Why there are none. *)
Definition options_refused (f : ImportFlags) (h : history) : Prop :=
  if_endpoint f = "" \/ if_bucket f = "" \/
  if_credsFile f <> "" /\
    ((exists e, Ev (OsReadFile (if_credsFile f)) (Er e) ∈ h) \/
     exists body e, Ev (OsReadFile (if_credsFile f)) (Ok body) ∈ h /\
       ParseAWSCredentials body (if_credsProfile f) = Er e).

Definition options_outcome (f : ImportFlags) (h : history) (r : res ImportOptions) : Prop :=
  match r with Ok opts => options_of f h opts | Er _ => options_refused f h end.

Definition options_call (f : ImportFlags) (c : call) : Prop :=
  (c = OsReadFile (if_credsFile f) /\ if_credsFile f <> "") \/ c = OsGetenv "POD_NAMESPACE".

Lemma completes_buildImportOptions f : completes (buildImportOptions f).
Proof. unfold buildImportOptions, dest_config; completes_steps. Qed.

Lemma buildImportOptions_safe f h :
  safe (fun _ => options_call f) (buildImportOptions f) h (options_outcome f).
Proof.
  unfold buildImportOptions, dest_config, options_outcome, options_of, options_refused,
    options_call.
  case_bool_decide as He; [by left|]. case_bool_decide as Hb; [by right; left|].
  case_bool_decide as Hf; cbn.
  - split; [by right|]. intros ns. split_and!; try done. by case_bool_decide.
  - split; [by left|]. intros [body|e]; cbn.
    + destruct (ParseAWSCredentials body (if_credsProfile f)) as [keys|e] eqn:Hp; cbn.
      * split; [by right|]. intros ns. split_and!; try done; [by case_bool_decide|].
        exists body, keys. split_and!; [set_solver|done|done].
      * right; right. split; [done|]. right. exists body, e. split; [set_solver|done].
    + right; right. split; [done|]. left. exists e. set_solver.
Qed.

(** The destination starts only with an endpoint and a bucket; its options
    carry the flags, a namespace that is never empty, and, when a credentials file
    is named, exactly the keys parsed from that file under the requested profile
    (both non-empty), which is the only file read; a file that cannot be read or
    has no usable profile is an error.  There always is a result. *)
Lemma buildImportOptions_outcome f h :
  completes (buildImportOptions f) /\
  safe (fun _ => options_call f) (buildImportOptions f) h (options_outcome f).
Proof. split; [apply completes_buildImportOptions|apply buildImportOptions_safe]. Qed.

(** ** Main *)

Section main_facts.
Context (clientgo : Scheme) (others : list (string * flag_value)) (ans : answers).

Lemma ask_fatal s (k : setup unit) tr :
  (e ← ask ans s; _ ← fatal e; k) tr =
    match ans tr s with
    | None => k (tr ++ [s])
    | Some _ => Ret (Exit 1, tr ++ [s])
    end.
Proof. unfold mbind, setup_bind. cbn. by destruct (ans tr s). Qed.

Lemma ask_fatal_last s tr : (e ← ask ans s; fatal e) tr = Ret (carry ans tr [s]).
Proof. unfold mbind, setup_bind. cbn. by destruct (ans tr s). Qed.

Lemma setup_source_carry tr : setup_source ans tr = Ret (carry ans tr source_plan).
Proof.
  unfold setup_source. unfold Backup_SetupWithManager. rewrite ask_fatal.
  unfold source_plan, carry, controller_of. destruct (ans tr _); [done|].
  apply ask_fatal_last.
Qed.

Definition start_manager : setup unit :=
  e ← ask ans (AddHealthzCheck "healthz");
  _ ← fatal e;
  e ← ask ans (AddReadyzCheck "readyz");
  _ ← fatal e;
  e ← ask ans StartManager;
  fatal e.

Lemma start_manager_carry tr : start_manager tr = Ret (carry ans tr start_plan).
Proof.
  unfold start_manager. rewrite ask_fatal. cbn. destruct (ans tr _); [done|].
  rewrite ask_fatal. destruct (ans _ _); [done|]. apply ask_fatal_last.
Qed.

(** the rest of the set-up after a part of it *)
Lemma carry_then (m : setup unit) (k : setup unit) tr plan rest :
  m tr = Ret (carry ans tr plan) ->
  (forall tr', k tr' = Ret (carry ans tr' rest)) ->
  (_ ← m; k) tr = Ret (carry ans tr (plan ++ rest)).
Proof.
  intros Hm Hk. unfold mbind, setup_bind, mbind, io_mbind. rewrite Hm, carry_app. cbn.
  destruct (carry ans tr plan) as [[[]|code] tr']; cbn; [apply Hk|done].
Qed.

(** [run_manager] of a valid role: the manager, the role, the start. *)
Lemma run_manager_role v :
  let role := string_flag v "role" in
  role = roleSource \/ role = roleDestination ->
  run_manager clientgo ans v [] =
    match carry ans [] (manager_plan clientgo v) with
    | (Go _, tr) => (_ ← setup_role ans role v; start_manager) tr
    | r => Ret r
    end.
Proof.
  intros role Hrole. unfold run_manager. fold role.
  rewrite bool_decide_eq_false_2 by (intros [? ?]; by destruct Hrole).
  rewrite ask_fatal. unfold manager_plan. cbn [carry app]. destruct (ans [] GetConfig); [done|].
  rewrite ask_fatal. by destruct (ans _ (NewManager _)).
Qed.

Lemma run_manager_source v :
  string_flag v "role" = roleSource ->
  run_manager clientgo ans v [] =
    Ret (carry ans [] (manager_plan clientgo v ++ source_plan ++ start_plan)).
Proof.
  intros Hrole. rewrite run_manager_role by by left.
  rewrite carry_app. destruct (carry ans [] _) as [[[]|code] tr]; [|done].
  rewrite Hrole. apply carry_then; [apply setup_source_carry|apply start_manager_carry].
Qed.

Lemma completes_setup_bind {A B} (m : setup A) (f : A -> setup B) tr :
  (forall tr, completes (m tr)) -> (forall a tr, completes (f a tr)) ->
  completes ((m ≫= f) tr).
Proof.
  intros Hm Hf. apply completes_bind; [apply Hm|]. intros [[a|code] tr'];
    [apply Hf|apply completes_ret].
Qed.

Lemma safe_setup_then {A B} G (m : setup A) (f : A -> setup B) tr h
    (P : history -> flow A * list setup_step -> Prop) Q :
  safe G (m tr) h P ->
  (forall h' a tr', P h' (Go a, tr') -> safe G (f a tr') h' Q) ->
  (forall h' code tr', P h' (Exit code, tr') -> Q h' (Exit code, tr')) ->
  safe G ((m ≫= f) tr) h Q.
Proof.
  intros Hm Hf He. eapply safe_then; [exact Hm|]. intros h' [[a|code] tr'] HP; [by apply Hf|].
  by apply He.
Qed.

(** the destination's part and the start, after the manager was made *)
Lemma setup_destination_safe v tr h :
  safe (fun _ => options_call (import_flags v))
    ((_ ← setup_destination ans v; start_manager) tr) h (fun h' o =>
      (exists opts, options_of (import_flags v) h' opts /\
         o = carry ans tr (destination_plan opts ++ start_plan)) \/
      (options_refused (import_flags v) h' /\ o = (Exit 1, tr))).
Proof.
  eapply safe_setup_then with (P := fun h' o =>
    (exists opts, options_of (import_flags v) h' opts /\
       o = carry ans tr (destination_plan opts)) \/
    (options_refused (import_flags v) h' /\ o = (Exit 1, tr))).
  - unfold setup_destination.
    eapply safe_setup_then with (P := fun h' o => exists r,
      o = (Go r, tr) /\ options_outcome (import_flags v) h' r).
    + eapply safe_then; [apply buildImportOptions_safe|]. intros h' r Hr. by exists r.
    + intros h' r tr' (r' & [= <- ->] & Hr). destruct r as [opts|e]; [|by right].
      unfold BackupImport_SetupWithManager. rewrite ask_fatal.
      unfold destination_plan, controller_of. cbn [carry].
      destruct (ans tr _) eqn:E; [|rewrite ask_fatal_last]; cbn [safe];
        left; exists opts; (split; [done|]); by rewrite E.
    + by intros h' code tr' (r & [= ] & _).
  - intros h' [] tr' [(opts & Ho & Hc)|[_ [= ]]].
    rewrite start_manager_carry. left. exists opts. split; [done|].
    by rewrite carry_app, <- Hc.
  - intros h' code tr' [(opts & Ho & Hc)|[Ho [= -> ->]]]; [left|by right].
    exists opts. split; [done|]. by rewrite carry_app, <- Hc.
Qed.

Lemma completes_setup_destination v tr :
  completes ((_ ← setup_destination ans v; start_manager) tr).
Proof.
  apply completes_setup_bind; [|intros _ tr'; rewrite start_manager_carry; apply completes_ret].
  intros tr1. apply completes_setup_bind.
  - intros tr2. apply completes_bind; [apply completes_buildImportOptions|].
    intros r. apply completes_ret.
  - intros [opts|e] tr2; [|apply completes_ret].
    unfold BackupImport_SetupWithManager. rewrite ask_fatal.
    destruct (ans _ _); [|rewrite ask_fatal_last]; apply completes_ret.
Qed.

(** How the process ends, and after which steps, for the arguments [args]. *)
Definition main_end (args : list string) (h : history) (o : flow unit * list setup_step)
    : Prop :=
  match GoFlag.Parse (command_line others) args with
  | HelpRequested => o = (Exit 0, [])
  | ParseError => o = (Exit 2, [])
  | Parsed v _ =>
      let role := string_flag v "role" in
      if bool_decide (role = roleSource)
      then o = carry ans [] (manager_plan clientgo v ++ source_plan ++ start_plan)
      else if bool_decide (role = roleDestination)
      then
        (exists opts, options_of (import_flags v) h opts /\
           o = carry ans [] (manager_plan clientgo v ++ destination_plan opts ++ start_plan)) \/
        (options_refused (import_flags v) h /\ o = (Exit 1, manager_plan clientgo v)) \/
        (o = carry ans [] (manager_plan clientgo v) /\ o.1 = Exit 1)
      else o = (Exit 1, [])
  end.

(** C13: [main] sets up the manager for its role: a source with the Backup and the
    BackupReplication controllers, a destination with the BackupImport controller
    and the manifest bridge, both of the options built from the flags; then the
    health and ready checks, and the start.  The steps are made in this order and
    stop at the first refusal, with exit code 1; so the manager is started only
    when everything before was accepted.  A bad flag exits with 2 and a role that
    is neither with 1, before any step; refused destination options exit with 1
    before anything is registered.  The only outside calls are the credentials
    file and the namespace. *)
Theorem main_outcome args h :
  completes (main clientgo others ans args []) /\
  safe (fun _ c => exists v rest, GoFlag.Parse (command_line others) args = Parsed v rest /\
          string_flag v "role" = roleDestination /\ options_call (import_flags v) c)
    (main clientgo others ans args []) h (main_end args).
Proof.
  unfold main, main_end. destruct (GoFlag.Parse _ args) as [v rest| |]; [|done..].
  case_bool_decide as Hs; [by rewrite run_manager_source|].
  case_bool_decide as Hd; [|by unfold run_manager; rewrite bool_decide_eq_true_2 by done].
  rewrite run_manager_role by by right. rewrite Hd.
  pose proof (carry_spec ans [] (manager_plan clientgo v)) as Hc.
  destruct (carry ans [] (manager_plan clientgo v)) as [[[]|code] tr] eqn:Ec.
  - destruct Hc as [(_ & -> & _)|(? & _)]; [|done].
    split; [apply completes_setup_destination|].
    eapply safe_mono; [| |apply setup_destination_safe].
    + intros h' c Hcall. by exists v, rest.
    + intros h' o [(opts & Ho & ->)|[Ho ->]]; [left; exists opts|by right; left].
      split; [done|]. by rewrite (carry_app ans []), Ec.
  - split; [done|]. right; right. split; [done|]. by destruct Hc as [(? & _)|(-> & _)].
Qed.

(** *** What main reads *)

(** the flags that are documented, with settings of their types *)
Definition text_flags : list string :=
  ["metrics-bind-address"; "health-probe-bind-address"; "role"; "peat-address"; "inbox-path";
   "manifest-collection"; "dest-endpoint"; "dest-region"; "dest-bucket"; "dest-prefix";
   "dest-credentials-file"; "dest-credentials-profile"; "source-endpoint-id";
   "source-addresses"; "source-relay-url"].

Definition boolean_flags : list string :=
  ["leader-elect"; "dest-s3-force-path-style"; "dest-insecure-tls"].

Definition documented (name : string) (w : flag_value) : Prop :=
  match w with
  | FvString _ => name ∈ text_flags
  | FvBool _ => name ∈ boolean_flags
  | FvDuration d => name = "manifest-poll-interval" /\ (- 2 ^ 63 <= d < 2 ^ 63)%Z
  | FvOther _ _ => False
  end.

Definition text_of (w : flag_value) : option string :=
  match w with FvString s => Some s | _ => None end.
Definition boolean_of (w : flag_value) : option bool :=
  match w with FvBool b => Some b | _ => None end.
Definition duration_of (w : flag_value) : option Z :=
  match w with FvDuration d => Some d | _ => None end.

(** the last setting of a flag, or else the default [d] *)
Definition stated {A} (get : flag_value -> option A) (sets : list (string * flag_value))
    (name : string) (d : A) : A :=
  fold_left (fun x nv => if bool_decide (nv.1 = name) then default x (get nv.2) else x) sets d.

Lemma stated_value {A} (get : flag_value -> option A) (zero d : A) sets : forall (m : flag_values) name,
  (forall w, (name, w) ∈ sets -> is_Some (get w)) -> default zero (m !! name ≫= get) = d ->
  default zero (foldl (fun m nv => <[nv.1 := nv.2]> m) m sets !! name ≫= get) = stated get sets name d.
Proof.
  revert d. induction sets as [|[k w] sets IH]; intros d m name Hk Hd; [done|].
  unfold stated. cbn [foldl fold_left fst snd]. apply IH; [set_solver|].
  case_bool_decide as E; [subst k|by rewrite lookup_insert_ne].
  rewrite lookup_insert_eq. cbn. by destruct (Hk w (list_elem_of_here _ _)) as [x ->].
Qed.

Lemma string_flag_get v name : string_flag v name = default "" (v !! name ≫= text_of).
Proof. unfold string_flag. by destruct (v !! name) as [[]|]. Qed.

Lemma bool_flag_get v name : bool_flag v name = default false (v !! name ≫= boolean_of).
Proof. unfold bool_flag. by destruct (v !! name) as [[]|]. Qed.

Lemma duration_flag_get v name : duration_flag v name = default 0%Z (v !! name ≫= duration_of).
Proof. unfold duration_flag. by destruct (v !! name) as [[]|]. Qed.

(** a flag of [main] is registered as [main_flags] has it *)
Lemma command_line_main name d :
  (list_to_map main_flags : flag_values) !! name = Some d -> command_line others !! name = Some d.
Proof. intros H. unfold command_line. rewrite list_to_map_app. by apply lookup_union_Some_l. Qed.

Section Stated.
Context (sets : list (string * flag_value)) (Hsets : Forall (fun nv => documented nv.1 nv.2) sets).

Abbreviation v := (foldl (fun m nv => <[nv.1 := nv.2]> m) (command_line others) sets).

Lemma documented_in name w : (name, w) ∈ sets -> documented name w.
Proof. intros Hin. rewrite Forall_forall in Hsets. by apply (Hsets (name, w)). Qed.

Lemma documented_registered name w : documented name w ->
  flag_name name = true /\ settable w /\
  exists d, command_line others !! name = Some d /\ same_kind d w = true.
Proof.
  assert (Forall (fun name => flag_name name = true /\ exists d,
    (list_to_map main_flags : flag_values) !! name = Some d /\ same_kind d (FvString "") = true)
    text_flags) as Ht.
  { repeat (apply Forall_cons; split); [..|by apply Forall_nil];
      (split; [reflexivity|]; eexists; split; vm_compute; reflexivity). }
  assert (Forall (fun name => flag_name name = true /\ exists d,
    (list_to_map main_flags : flag_values) !! name = Some d /\ same_kind d (FvBool true) = true)
    boolean_flags) as Hb.
  { repeat (apply Forall_cons; split); [..|by apply Forall_nil];
      (split; [reflexivity|]; eexists; split; vm_compute; reflexivity). }
  rewrite Forall_forall in Ht, Hb.
  destruct w as [s|b|d|]; cbn; [intros Hn|intros Hn|intros [-> Hd]|done].
  - destruct (Ht name Hn) as (Hf & d & Hd%command_line_main & Hk). split_and!; [done..|].
    exists d. split; [done|]. by destruct d.
  - destruct (Hb name Hn) as (Hf & d & Hd%command_line_main & Hk). split_and!; [done..|].
    exists d. split; [done|]. by destruct d.
  - split; [done|]. split; [done|]. exists (FvDuration 30000000000). split; [|done].
    apply command_line_main. vm_compute. reflexivity.
Qed.

Lemma stated_text name d :
  name ∉ boolean_flags -> name <> "manifest-poll-interval" ->
  (list_to_map main_flags : flag_values) !! name = Some (FvString d) ->
  string_flag v name = stated text_of sets name d.
Proof.
  intros Hb Hi Hd%command_line_main. rewrite string_flag_get. apply stated_value; [|by rewrite Hd].
  intros w Hw%documented_in. destruct w; cbn in Hw |- *; [by eexists|done|naive_solver|done].
Qed.

Lemma stated_boolean name d :
  name ∉ text_flags -> name <> "manifest-poll-interval" ->
  (list_to_map main_flags : flag_values) !! name = Some (FvBool d) ->
  bool_flag v name = stated boolean_of sets name d.
Proof.
  intros Ht Hi Hd%command_line_main. rewrite bool_flag_get. apply stated_value; [|by rewrite Hd].
  intros w Hw%documented_in. destruct w; cbn in Hw |- *; [done|by eexists|naive_solver|done].
Qed.

Lemma stated_duration name d :
  name ∉ text_flags -> name ∉ boolean_flags ->
  (list_to_map main_flags : flag_values) !! name = Some (FvDuration d) ->
  duration_flag v name = stated duration_of sets name d.
Proof.
  intros Ht Hb Hd%command_line_main. rewrite duration_flag_get. apply stated_value; [|by rewrite Hd].
  intros w Hw%documented_in. destruct w; cbn in Hw |- *; [done|done|by eexists|done].
Qed.
End Stated.

(** C40: what [main] reads of its command line.  Of arguments that set documented
    flags, as [--name=value] and to any texts, booleans and int64 durations, nothing
    is left over or refused, and every variable of [main] has the last setting of
    the flag that is documented for it, or that flag's documented default: the role,
    the manager's options, and all that the destination's options are built from. *)
Theorem main_reads sets :
  Forall (fun nv => documented nv.1 nv.2) sets ->
  let text := stated text_of sets in
  let boolean := stated boolean_of sets in
  exists v, GoFlag.Parse (command_line others) (map setting sets) = Parsed v [] /\
    string_flag v "role" = text "role" "source" /\
    manager_options clientgo v =
      {| mgr_Scheme := scheme clientgo;
         mgr_MetricsBindAddress := text "metrics-bind-address" ":8080";
         mgr_HealthProbeBindAddress := text "health-probe-bind-address" ":8081";
         mgr_LeaderElection := boolean "leader-elect" false;
         mgr_LeaderElectionID := "snapback.uds.dev" |} /\
    import_flags v =
      {| if_peatAddress := text "peat-address" "localhost:50051";
         if_inboxPath := text "inbox-path" "/var/lib/peat/inbox";
         if_manifestCollection := text "manifest-collection" "snapback_replications";
         if_pollInterval := stated duration_of sets "manifest-poll-interval" (30 * 10 ^ 9)%Z;
         if_endpoint := text "dest-endpoint" "";
         if_region := text "dest-region" "";
         if_bucket := text "dest-bucket" "";
         if_prefix := text "dest-prefix" "";
         if_forcePathStyle := boolean "dest-s3-force-path-style" true;
         if_insecureTLS := boolean "dest-insecure-tls" false;
         if_credsFile := text "dest-credentials-file" "";
         if_credsProfile := text "dest-credentials-profile" "";
         if_sourceEndpointID := text "source-endpoint-id" "";
         if_sourceAddresses := text "source-addresses" "";
         if_sourceRelayURL := text "source-relay-url" "" |}.
Proof.
  intros Hsets text boolean. eexists. split.
  { apply Parse_settings. eapply Forall_impl; [exact Hsets|]. intros [name w].
    apply documented_registered. }
  unfold manager_options, import_flags.
  repeat match goal with
  | |- context [string_flag ?v ?n] =>
      let d := eval vm_compute in (string_flag (list_to_map main_flags) n) in
      rewrite (stated_text sets Hsets n d); [|decided|discriminate|vm_compute; reflexivity]
  | |- context [bool_flag ?v ?n] =>
      let d := eval vm_compute in (bool_flag (list_to_map main_flags) n) in
      rewrite (stated_boolean sets Hsets n d); [|decided|discriminate|vm_compute; reflexivity]
  | |- context [duration_flag ?v ?n] =>
      let d := eval vm_compute in (duration_flag (list_to_map main_flags) n) in
      rewrite (stated_duration sets Hsets n d); [|decided|decided|vm_compute; reflexivity]
  end.
  done.
Qed.

End main_facts.

(** The kinds that a plan's controllers watch. *)
Definition watched (plan : list setup_step) : list GroupVersionKind :=
  omap (fun s => match s with CompleteController c => Some (cs_For c) | _ => None end) plan.

(** Every kind that a controller of either role watches, and every kind that
    any component reads, lists, creates or updates, is registered in the scheme
    that [main] gives the manager, provided client-go's scheme has Secrets. *)
Lemma kinds_registered clientgo opts c k :
  {| gvk_GroupVersion := {| gv_Group := ""; gv_Version := "v1" |}; gvk_Kind := "Secret" |}
    ∈ clientgo ->
  call_kind c = Some k \/ k ∈ watched (source_plan ++ destination_plan opts) ->
  k ∈ scheme clientgo.
Proof.
  intros Hsec. unfold scheme, AddToScheme.
  rewrite !elem_of_app.
  intros [Hc|Hw].
  - destruct c; try discriminate Hc; injection Hc as <-; try (by left; left);
      (by left; right; apply (bool_decide_unpack _); vm_compute) ||
      (by right; apply (bool_decide_unpack _); vm_compute).
  - repeat (apply elem_of_cons in Hw as [->|Hw]); [..|by apply elem_of_nil in Hw];
      (by left; right; apply (bool_decide_unpack _); vm_compute) ||
      (by right; apply (bool_decide_unpack _); vm_compute).
Qed.

(** Without arguments and with a manager that accepts everything, a source
    comes up. *)
Example main_default :
  main [] [] (fun _ _ => None) [] [] =
    Ret (Go tt, manager_plan [] (command_line []) ++ source_plan ++ start_plan).
Proof. vm_compute. reflexivity. Qed.

(** ** Witnesses *)

Definition example_others : list (string * flag_value) :=
  [("kubeconfig", FvString ""); ("zap-devel", FvBool true)].

Definition example_args : list string :=
  ["--role=destination"; "-dest-bucket"; "velero"; "--leader-elect"; "--zap-devel=false"].

Lemma example_flags_distinct : NoDup (main_flags ++ example_others).*1.
Proof. apply (bool_decide_unpack _). vm_compute. exact I. Qed.

Lemma main_reads_witness : exists v,
  GoFlag.Parse (command_line example_others)
    ["--role=source"; "--manifest-poll-interval=90000000000ns"; "--dest-s3-force-path-style=false";
     "--role=destination"] = Parsed v [] /\
  string_flag v "role" = "destination" /\
  if_pollInterval (import_flags v) = 90000000000%Z /\
  if_forcePathStyle (import_flags v) = false /\
  if_peatAddress (import_flags v) = "localhost:50051".
Proof.
  destruct (main_reads [] example_others
    [("role", FvString "source"); ("manifest-poll-interval", FvDuration 90000000000);
     ("dest-s3-force-path-style", FvBool false); ("role", FvString "destination")])
    as (v & Hp & Hr & _ & Hi).
  - apply Forall_cons. split; [cbn [documented fst snd]; decided|]. apply Forall_cons. split; [cbn; split; [done|lia]|].
    apply Forall_cons. split; [cbn [documented fst snd]; decided|]. apply Forall_cons. split; [cbn [documented fst snd]; decided|by apply Forall_nil].
  - exists v. split; [exact Hp|]. split; [exact Hr|]. rewrite Hi. split; [reflexivity|].
    split; reflexivity.
Defined.

(** An interval of zero is read like any other, and the manifest bridge of options
    with it panics when the manager starts it. *)
Definition zero_interval : flag_values :=
  match GoFlag.Parse (command_line []) ["--role=destination"; "--manifest-poll-interval=0"] with
  | Parsed v _ => v
  | _ => ∅
  end.

Lemma zero_interval_panics opts h rounds :
  GoFlag.Parse (command_line []) ["--role=destination"; "--manifest-poll-interval=0"] =
    Parsed zero_interval [] /\
  (options_of (import_flags zero_interval) h opts -> exists what, Start opts rounds = Panic what).
Proof.
  split; [vm_compute; reflexivity|].
  assert (if_pollInterval (import_flags zero_interval) = 0%Z) as Hz by (vm_compute; reflexivity).
  intros (_ & _ & _ & _ & _ & _ & _ & _ & _ & _ & Hi & _). rewrite Hz in Hi.
  unfold Start, NewTicker. rewrite Hi. by eexists.
Qed.

Definition example_options : ImportOptions :=
  {| io_PeatAddress := ""; io_InboxRoot := ""; io_ManifestCollection := "";
     io_Namespace := "snapback"; io_PollInterval := 0; io_DestStore := flag_config (import_flags ∅);
     io_SourceEndpointID := ""; io_SourceAddresses := []; io_SourceRelayURL := "" |}.

Lemma kinds_registered_example :
  snapback_kind "BackupImport" ∈
    scheme [{| gvk_GroupVersion := {| gv_Group := ""; gv_Version := "v1" |};
               gvk_Kind := "Secret" |}].
Proof.
  apply (kinds_registered _ example_options (OsGetenv "")); [constructor|].
  right. apply (list_elem_of_lookup_2 _ 2). reflexivity.
Defined.
