(* ===== verification/EndToEnd.v ===== *)
(** * EndToEnd: a replicated backup arrives

    Staged objects meet the destination: the manifest that the source publishes of
    them parses to the same manifest, and importing it from an inbox that holds the
    delivered bytes rebuilds every object byte for byte, by one pass and by the
    destination of [ImportConvergence] at any point of its life.  [AirGap] joins
    this to runs of the source's reconciler. *)

From S2P Require Import Prelude GoStrings GoPath GoJson GoCrypto Api Effects Peat Batching Manifest Objstore.
From S2P Require Import GoTime Staging Importer ImportRefinement Ledger Kube ReplicationController.
From S2P Require Import ImportController Destination ImportConvergence.
From stdpp Require Import gmap strings.

(** ** From the source's store to the destination's *)

(** an object of the backup, the file it was staged as, and the file's handle *)
Record item : Set := {
  it_key : string;
  it_data : string;
  it_file : FileSpec;
  it_handle : AttachmentHandle;
}.

Definition item_entry (x : item) : FileEntry := manifest_entry (it_file x) (it_handle x).

Section Arrival.
Context (s : Stager) (src : minioStore) (h : history).
Context {W : Type} (hd : handler W) (root : string) (dst : Store)
  (files objs : W -> gmap string string) (name : string -> string)
  `{HW : !ImportWorld hd dst files objs name}.

(** the object was staged at the source, and peat put its bytes into the inbox *)
Definition delivered (w : W) (x : item) : Prop :=
  staged_bytes s src h (it_key x) (it_data x) (it_file x) /\
  (Z.of_nat (String.length (it_data x)) < 2 ^ 63)%Z /\
  ah_DistributionID (it_handle x) <> "" /\
  files w !! PathJoin [root; ah_DistributionID (it_handle x); Base (fs_RelativePath (it_file x))] =
    Some (it_data x).

Lemma delivered_landed w x : delivered w x -> landed root files w (item_entry x).
Proof.
  intros ((rel & tmp & _ & _ & _ & _ & _ & Hf) & Hlen & Hd & Hin). exists (it_data x).
  split_and!; [done|done|cbn; rewrite Hf; cbn|cbn; by rewrite Hf].
  rewrite int64_small, uint64_small; [done|lia|]. rewrite uint64_small; lia.
Qed.

Lemma items_arrive w h0 m items :
  mf_Files m = map item_entry items ->
  Forall (delivered w) items -> (Z.of_nat (length items) < 2 ^ 63)%Z ->
  NoDup (map (fun x => name (fs_RelativePath (it_file x))) items) ->
  (forall x, x ∈ items -> objs w !! name (fs_RelativePath (it_file x)) = None) ->
  exists res w' h', run hd (Import root dst m) w h0 = Some ((res, None), w', h') /\
    rs_Committed res = true /\
    (forall x, x ∈ items -> objs w' !! name (fs_RelativePath (it_file x)) = Some (it_data x)) /\
    (forall k, k ∉ map (fun x => name (fs_RelativePath (it_file x))) items ->
       objs w' !! k = objs w !! k).
Proof.
  intros Hm Hdel Hlen Hnd Hfresh. rewrite Forall_forall in Hdel.
  assert (map (fun e => name (fe_Key e)) (mf_Files m) =
          map (fun x => name (fs_RelativePath (it_file x))) items) as Hnames.
  { by rewrite Hm, map_map. }
  destruct (run_Import hd root dst files objs name m w h0) as
    (res & w' & h' & Hrun & Hc & _ & _ & (Hf & _ & Hsame & _ & Hnew) & _).
  - by rewrite Hnames.
  - by rewrite Hm, length_map.
  - rewrite Hm. intros e (x & -> & Hx)%list_elem_of_fmap. right. by apply delivered_landed, Hdel.
  - exists res, w', h'. split_and!; [done|done| |by rewrite <- Hnames].
    intros x Hx. change (name (fs_RelativePath (it_file x))) with (name (fe_Key (item_entry x))).
    rewrite Hnew.
    + by destruct (Hdel x Hx) as (_ & _ & _ & Hin).
    + rewrite Hm. by apply (list_elem_of_fmap_2 item_entry).
    + intros (d & Hd & _). pose proof (Hfresh x Hx) as Hn. cbn in Hd. congruence.
Qed.

(** A replicated backup arrives.  Take objects that were staged at the source
    and whose bytes the sidecar delivered to the destination's inbox, and the
    manifest that the source publishes of their files and handles.  The document is
    accepted by the destination as the same, complete manifest, and one import pass
    over it into a store without these objects commits, with every object there
    under its manifest key holding exactly the bytes read from the source, and
    every other object as it was. *)
Lemma backup_arrives spec prefix t items w h0 :
  let m := replication_manifest spec prefix (map item_entry items)
             (int64 (uint64 (total_size (map it_file items)))) t in
  manifest_ok m -> Forall (delivered w) items -> (Z.of_nat (length items) < 2 ^ 63)%Z ->
  NoDup (map (fun x => name (fs_RelativePath (it_file x))) items) ->
  (forall x, x ∈ items -> objs w !! name (fs_RelativePath (it_file x)) = None) ->
  exists doc m', Marshal m = Ok doc /\ Parse doc = Ok m' /\ mf_Complete m' = true /\
    exists res w' h', run hd (Import root dst m') w h0 = Some ((res, None), w', h') /\
      rs_Committed res = true /\
      (forall x, x ∈ items -> objs w' !! name (fs_RelativePath (it_file x)) = Some (it_data x)) /\
      (forall k, k ∉ map (fun x => name (fs_RelativePath (it_file x))) items ->
         objs w' !! k = objs w !! k).
Proof.
  intros m Hok Hdel Hlen Hnd Hfresh. destruct (parse_marshal m Hok eq_refl) as (doc & Hmar & Hp).
  exists doc, m. split_and!; [done..|]. by apply items_arrive.
Qed.
End Arrival.

(** ** From the source to the import's end

    The destination of [ImportConvergence], at any point of its life, with the
    delivered bytes in its inbox and the published document in its sidecar. *)

Section Imported.
Context `{M : ApiMachinery} (s : Stager) (src : minioStore) (h : history)
  {W : Type} (hd : handler W) (opts : ImportOptions)
  (files objs : W -> gmap string string) (walk : gmap string string -> list string)
  (rest : W -> side) `{HW : !DestinationWorld hd opts files objs walk rest}
  (plan : gmap string Manifest) (Hplan : plan_ok opts plan).

Abbreviation dst := (opened (io_DestStore opts)).
Abbreviation object x := (fullKey dst (fs_RelativePath (it_file x))).

(** the item was staged at the source, and peat put its bytes into the inbox *)
Abbreviation here := (delivered s src h (io_InboxRoot opts) files).

Lemma here_available w o x :
  here w x -> available (io_InboxRoot opts) (fullKey dst) walk (files w) o (item_entry x).
Proof. intros Hx. by eapply landed_available, delivered_landed. Qed.

(** the import of the manifest of delivered items, from a good destination *)
Lemma items_imported w id m items :
  good opts objs rest plan w -> mf_Files m = map item_entry items ->
  complete_manifest (sd_documents (rest w)) id = Some m -> sd_refusing (rest w) = false ->
  Forall (here w) items -> (forall x, x ∈ items -> objs w !! object x = None) ->
  (forall bi, sd_imports (rest w) !! import_key opts m = Some bi -> being_deleted (bi_Meta bi) = false) ->
  exists w1 h1 w2 h2 bi,
    run hd (poll opts (Peat.New (io_PeatAddress opts))) w [] = Some (tt, w1, h1) /\
    run hd (ImportController.Reconcile opts (import_key opts m)) w1 [] = Some (done, w2, h2) /\
    sd_imports (rest w2) !! import_key opts m = Some bi /\
    bi_Phase (bi_Status bi) = ImportImported /\
    (forall x, x ∈ items -> objs w2 !! object x = Some (it_data x)) /\
    keeps opts plan (objs w) (objs w2).
Proof.
  intros Hg Hm Hc Href Hdel Hfresh Hnd. rewrite Forall_forall in Hdel.
  assert (forall e, e ∈ mf_Files m -> exists x, e = item_entry x /\ x ∈ items) as Hitem.
  { rewrite Hm. by intros e (x & -> & Hx)%list_elem_of_fmap; exists x. }
  destruct (poll_then_reconcile hd opts files objs walk rest plan Hplan w id m Hg Hc Href)
    as (w1 & h1 & w2 & h2 & bi & Hp & Hrun & Hg2 & Hk & Hb & Hph & Hf & Ho & Hst & Hk2).
  { intros e (x & -> & Hx)%Hitem. by apply here_available, Hdel. }
  { done. }
  exists w1, h1, w2, h2, bi. split_and!; [done..| |done].
  intros x Hx. pose proof (do_complete _ _ (gd_documents _ _ _ _ _ Hg) id m Hc) as Hpl.
  assert (item_entry x ∈ mf_Files m) as Hxm by (rewrite Hm; by apply (list_elem_of_fmap_2 item_entry)).
  destruct Hk2 as [E| ->].
  { specialize (Hst _ Hxm). unfold stored in Hst. rewrite E in Hst. cbn in Hst.
    by rewrite (Hfresh x Hx) in Hst. }
  destruct (pass opts files objs walk w m) as [out o] eqn:Hpass. cbn [snd].
  change (object x) with (fullKey dst (fe_Key (item_entry x))).
  rewrite (import_ref_landed hd (io_InboxRoot opts) (as_Store dst) files objs (fullKey dst) walk rest
             m w out o); [|by apply (po_names _ _ Hplan id)|by apply (po_small _ _ Hplan id)| |done..|].
  - by destruct (Hdel x Hx) as (_ & _ & _ & Hin).
  - intros e (y & -> & Hy)%Hitem. right. by eapply delivered_landed, Hdel.
  - intros (d & Hd & _). cbn in Hd. by rewrite (Hfresh x Hx) in Hd.
Qed.

(** A replicated backup is imported, byte for byte.  Take objects that were
    staged at the source and whose bytes the sidecar delivered to the destination's
    inbox, and the manifest that the source publishes of their files and handles,
    as the sidecar's document.  From every reachable destination that plans this
    manifest, whose API server does not refuse and whose store does not have these
    objects, one poll of the bridge and one reconcile of the import it makes end
    with the import Imported and every object under its manifest key holding
    exactly the bytes read from the source; what else is stored stays as it was. *)
Lemma replicated_backup_imported spec prefix t items doc w0 w :
  let m := replication_manifest spec prefix (map item_entry items)
             (int64 (uint64 (total_size (map it_file items)))) t in
  good opts objs rest plan w0 ->
  rtc (step hd opts files objs rest plan) w0 w ->
  manifest_ok m -> Marshal m = Ok doc ->
  sd_documents (rest w) !! DocID (brs_StorageLocation spec) (brs_BackupName spec) = Some doc ->
  sd_refusing (rest w) = false ->
  Forall (here w) items -> (forall x, x ∈ items -> objs w !! object x = None) ->
  (forall bi, sd_imports (rest w) !! import_key opts m = Some bi -> being_deleted (bi_Meta bi) = false) ->
  exists w1 h1 w2 h2 bi,
    run hd (poll opts (Peat.New (io_PeatAddress opts))) w [] = Some (tt, w1, h1) /\
    run hd (ImportController.Reconcile opts (import_key opts m)) w1 [] = Some (done, w2, h2) /\
    sd_imports (rest w2) !! import_key opts m = Some bi /\
    bi_Phase (bi_Status bi) = ImportImported /\
    (forall x, x ∈ items -> objs w2 !! object x = Some (it_data x)) /\
    keeps opts plan (objs w) (objs w2).
Proof.
  intros m H0 Hr Hok Hmar Hdoc Href Hdel Hfresh Hnd.
  destruct (good_reachable hd opts files objs walk rest plan Hplan w0 w H0 Hr) as [Hg _].
  destruct (parse_marshal m Hok eq_refl) as (doc' & Hmar' & Hp).
  assert (doc' = doc) as -> by congruence.
  apply (items_imported w (DocID (brs_StorageLocation spec) (brs_BackupName spec)));
    [done|done| |done..]. unfold complete_manifest. by rewrite Hdoc, Hp.
Qed.
End Imported.

(** *** A backup of two objects *)

Definition sample_outbox : Stager := Staging.New "outbox" "/outbox".

Definition staging_events (key rel data : string) : history :=
  [Ev (OsRename ("/outbox/.staging-" +:+ data) (dst_path sample_outbox rel)) None;
   Ev (OsClose ("/outbox/.staging-" +:+ data)) None;
   Ev (OsWrite ("/outbox/.staging-" +:+ data) data) None;
   Ev (MinioObjectRead (ms_client sample_store) (ms_bucket sample_store) (fullKey sample_store key))
     (data, None)].

Definition sample_history : history :=
  staging_events "backups/b1/velero-backup.json" "backups/b1/velero-backup.json" "{}" ++
  staging_events "kopia/p1" "kopia/p1" "payload".

Definition sample_item (key data : string) (i : Z) (dist : string) : item :=
  {| it_key := key; it_data := data;
     it_file := file_spec sample_outbox key (Z.of_nat (String.length data)) (sha256 data);
     it_handle := {| ah_FileIndex := i; ah_BlobToken := ""; ah_DistributionID := dist |} |}.

Definition sample_items : list item :=
  [sample_item "backups/b1/velero-backup.json" "{}" 0 "d2"; sample_item "kopia/p1" "payload" 1 "d1"].

Definition sample_spec : BackupReplicationSpec :=
  {| brs_BackupName := "b1"; brs_PolicyName := "p"; brs_StorageLocation := "default" |}.

(** bounds of a number that evaluates *)
Ltac in_range := vm_compute; split; [discriminate|reflexivity].

(** membership in a list that is written out *)
Ltac listed := apply list_elem_of_In; repeat first [left; reflexivity | right].

Lemma sample_items_delivered {W} (files : W -> gmap string string) w :
  files w = sample_world.1 ->
  Forall (delivered sample_outbox sample_store sample_history "/inbox" files w) sample_items.
Proof.
  intros Hf. repeat (apply List.Forall_cons; [split; [eexists _, _; split_and!;
    [reflexivity|listed..|reflexivity]|rewrite Hf; split_and!; [cbn; lia|discriminate|reflexivity]]|]).
  apply List.Forall_nil.
Qed.

Lemma published_manifest_ok :
  manifest_ok (replication_manifest sample_spec "prod" (map item_entry sample_items) 9 0).
Proof.
  unfold manifest_ok. split_and!; [in_range|reflexivity..|in_range|in_range|reflexivity|].
  repeat (apply List.Forall_cons; [unfold entry_ok; split_and!;
    [reflexivity|reflexivity|reflexivity|in_range|reflexivity|reflexivity]|]).
  apply List.Forall_nil.
Qed.

Lemma backup_arrives_example :
  exists doc m', Marshal (replication_manifest sample_spec "prod" (map item_entry sample_items) 9 0) =
      Ok doc /\ Parse doc = Ok m' /\ mf_Complete m' = true /\
    exists res w' h', run memory_world (Import "/inbox" (as_Store sample_store) m') sample_world [] =
        Some ((res, None), w', h') /\ rs_Committed res = true /\
      w'.2 !! "prod/kopia/p1" = Some "payload" /\
      w'.2 !! "prod/backups/b1/velero-backup.json" = Some "{}".
Proof.
  destruct (backup_arrives sample_outbox sample_store sample_history memory_world "/inbox"
              (as_Store sample_store) fst snd (fullKey sample_store) sample_spec "prod" 0 sample_items
              sample_world []) as (doc & m' & Hm & Hp & Hc & res & w' & h' & Hrun & Hcom & Hobj & _).
  - exact published_manifest_ok.
  - by apply sample_items_delivered.
  - cbn. lia.
  - apply (bool_decide_unpack _). vm_compute. exact I.
  - intros x [->|[->|[]%elem_of_nil]%elem_of_cons]%elem_of_cons; reflexivity.
  - exists doc, m'. split_and!; [exact Hm|done|done|]. exists res, w', h'.
    split_and!; [done|done|apply (Hobj (sample_item "kopia/p1" "payload" 1 "d1")); listed
                |apply (Hobj (sample_item "backups/b1/velero-backup.json" "{}" 0 "d2")); listed].
Defined.

(** *** The same backup, imported by the demo destination *)

Definition landed_world : demo_world := publish (with_inbox demo_start sample_world.1) 1.

Lemma landed_reachable : rtc demo_step demo_start landed_world.
Proof.
  eapply rtc_l; [exact (step_with_inbox demo_start sample_world.1)|].
  apply rtc_once. exact (step_publish _ 1).
Qed.

Lemma replicated_backup_imported_example :
  exists w1 h1 w2 h2 bi,
    run demo_destination (poll demo_opts (Peat.New (io_PeatAddress demo_opts))) landed_world [] =
      Some (tt, w1, h1) /\
    run demo_destination (ImportController.Reconcile (M := sample_machinery) demo_opts first_import)
      w1 [] = Some (done, w2, h2) /\
    dt_imports w2 !! first_import = Some bi /\ bi_Phase (bi_Status bi) = ImportImported /\
    dt_objs w2 !! "prod/kopia/p1" = Some "payload" /\
    dt_objs w2 !! "prod/backups/b1/velero-backup.json" = Some "{}".
Proof.
  destruct (replicated_backup_imported (M := sample_machinery) sample_outbox sample_store sample_history
              demo_destination demo_opts dt_files dt_objs paths demo_side demo_plan demo_plan_ok
              sample_spec "prod" 0 sample_items (document first_manifest) demo_start landed_world
              demo_good landed_reachable published_manifest_ok)
    as (w1 & h1 & w2 & h2 & bi & Hp & Hrun & Hb & Hph & Hobj & _).
  - vm_compute. reflexivity.
  - vm_compute. reflexivity.
  - reflexivity.
  - by apply sample_items_delivered.
  - intros x [->|[->|[]%elem_of_nil]%elem_of_cons]%elem_of_cons; reflexivity.
  - intros bi Hbi. vm_compute in Hbi. discriminate Hbi.
  - exists w1, h1, w2, h2, bi. split; [exact Hp|]. split; [exact Hrun|]. split; [exact Hb|].
    split; [exact Hph|].
    split; [apply (Hobj (sample_item "kopia/p1" "payload" 1 "d1")); listed
           |apply (Hobj (sample_item "backups/b1/velero-backup.json" "{}" 0 "d2")); listed].
Defined.
