(* ===== verification/AirGap.v ===== *)
(** * AirGap: from the source cluster to the destination's import

    A replication that is Replicated in a reachable state of the source, and a
    destination at any point of its life: what lies between is the sidecar, taken at
    its documented word ([linked]).  The contract speaks of the requests and replies
    of the reconcile that shipped the backup, so that it can be checked of one. *)

From stdpp Require Import gmap strings relations.
From S2P Require Import Prelude GoStrings GoPath GoJson GoJsonFacts GoCrypto GoTime AsciiText Api Effects.
From S2P Require Import Peat Batching Manifest Objstore Staging Importer ImportRefinement Ledger Kube.
From S2P Require Import ReplicationController ReplicationLiveness ImportController Destination.
From S2P Require Import ImportConvergence EndToEnd Source SourceRuns.
From S2P Require BackupController.
#[local] Open Scope nat_scope.

(** ** What the requests say *)

Definition json_field (n : string) (j : json) : option json :=
  match j with
  | JObj l => snd <$> List.find (fun kv => bool_decide (kv.1 = n)) l
  | _ => None
  end.

Definition json_text (j : json) : option string := match j with JStr s => Some s | _ => None end.

(** the files of a SendAttachments request, by their paths below the outbox root *)
Definition requested_files (body : string) : option (list string) :=
  match parse body ≫= json_field "files" with
  | Some (JArr l) => mapM (fun j => json_field "relativePath" j ≫= json_text) l
  | _ => None
  end.

(** the id and the text of a PutDocument request *)
Definition requested_put (body : string) : option (string * string) :=
  j ← parse body; id ← json_field "docId" j ≫= json_text;
  doc ← json_field "jsonData" j ≫= json_text; Some (id, doc).

(** an object of members written out is printed faithfully when its texts are *)
Ltac members_ok :=
  apply json_ok_members; repeat (apply Forall_cons; split); try (apply Forall_nil; exact I);
  (split; [reflexivity|]); cbn -[valid_utf8 FormatUint Base64Encode]; auto with ascii_text.

Definition file_text (f : FileSpec) : Prop :=
  ascii_text (fs_RootName f) /\ ascii_text (fs_RelativePath f) /\ ascii_text (fs_DisplayName f) /\
  ascii_text (fs_ContentType f).

Lemma file_json_text f : file_text f ->
  json_ok (file_json f) /\ depth (file_json f) = 1%Z /\
  json_field "relativePath" (file_json f) = Some (JStr (fs_RelativePath f)).
Proof.
  intros (Hr & Hp & Hd & Hc). unfold file_json. repeat case_bool_decide.
  all: split; [|split; reflexivity]; members_ok.
Qed.

Lemma depth_elems d l :
  (0 <= d)%Z -> Forall (fun j => depth j <= d)%Z l -> (depth (JArr l) <= 1 + d)%Z.
Proof.
  intros Hd Hl. assert (foldr (fun x m => Z.max (depth x) m) 0%Z l <= d)%Z; [|cbn [depth]; lia].
  induction Hl as [|j l Hj _ IH]; cbn [foldr]; lia.
Qed.

Definition all_nodes_json : json := JObj [("allNodes", JObj [])].

Lemma requested_files_send id files prio :
  ascii_text id -> Forall file_text files ->
  requested_files (print (send_request id files all_nodes_json prio)) =
    Some (map fs_RelativePath files).
Proof.
  intros Hid Hf. unfold requested_files. rewrite parse_print.
  - cbn [mbind option_bind]. unfold send_request.
    assert (forall l, json_field "files" (send_request id l all_nodes_json prio) =
      Some (JArr (map file_json l))) as Hj by
      (intros l; unfold send_request; case_bool_decide; reflexivity).
    unfold send_request in Hj. rewrite Hj. apply mapM_Some. clear Hj.
    induction Hf as [|f l H _ IH]; cbn [map]; constructor; [|done].
    by destruct (file_json_text f H) as (_ & _ & ->).
  - unfold send_request.
    assert (json_ok (JArr (map file_json files))) as Hok.
    { apply json_ok_elems, Forall_map. eapply Forall_impl; [exact Hf|]. by intros f [? _]%file_json_text. }
    generalize dependent (JArr (map file_json files)). intros jf Hok.
    case_bool_decide; members_ok; by destruct prio.
  - assert (depth (JArr (map file_json files)) <= 2)%Z as Hd.
    { apply (depth_elems 1), Forall_map; [done|]. eapply Forall_impl; [exact Hf|].
      intros f (_ & Hd & _)%file_json_text. unfold compose. by rewrite Hd. }
    unfold send_request. generalize dependent (JArr (map file_json files)). intros jf Hd.
    unfold max_depth. case_bool_decide;
      match goal with |- (depth ?j <= _)%Z =>
        first [change (depth j) with (1 + Z.max 0 (Z.max (depth jf) 2))%Z
              |change (depth j) with (1 + Z.max (depth jf) 2)%Z]
      end; lia.
Qed.

Lemma requested_put_document id doc :
  ascii_text id -> valid_utf8 doc = true ->
  requested_put (print (put_document_request Collection id doc)) = Some (id, doc).
Proof.
  intros Hid Hdoc. unfold requested_put. rewrite parse_print; [reflexivity| |].
  2:{ by change (depth (put_document_request Collection id doc)) with 1%Z. }
  unfold put_document_request. members_ok.
Qed.

(** ** The sidecar's word *)

Section Linked.
Context {W : Type} (opts : ImportOptions) (files : W -> gmap string string) (rest : W -> side)
  (p : ReplicationPolicySpec) (h : history) (w : W).

Abbreviation peat_url method := (cc_baseURL (sidecar p) +:+ svcPath +:+ method).

(** the file at the outbox path was delivered: what was written and renamed there
    is in the inbox, under the distribution of the handle *)
Definition arrived (rel : string) (x : AttachmentHandle) : Prop :=
  ascii_text (ah_DistributionID x) /\ ah_DistributionID x <> "" /\ ascii_text (ah_BlobToken x) /\
  forall tmp data, Ev (OsWrite tmp data) None ∈ h ->
    Ev (OsRename tmp (dst_path (outbox p) rel)) None ∈ h ->
    files w !! PathJoin [io_InboxRoot opts; ah_DistributionID x; Base rel] = Some data.

(** The sidecar answers a bundle with a handle per file, in request order, and
    delivers the files; a document it took is a document of the destination. *)
Record linked : Prop := {
  lk_bundle body status reply sent :
    Ev (HttpPost (peat_url "SendAttachments") body) (HttpReply status reply) ∈ h ->
    success status ->
    Unmarshal get_SendResult {| sr_BundleID := ""; sr_Handles := [] |} reply = (sent, None) ->
    exists rels, requested_files body = Some rels /\
      map ah_FileIndex (sr_Handles sent) = map Z.of_nat (seq 0 (length rels)) /\
      Forall2 arrived rels (sr_Handles sent);
  lk_document body status reply :
    Ev (HttpPost (peat_url "PutDocument") body) (HttpReply status reply) ∈ h -> success status ->
    exists id doc, requested_put body = Some (id, doc) /\ sd_documents (rest w) !! id = Some doc;
}.

(** the handles of a bundle that was sent *)
Lemma sent_handles id fs prio sent :
  linked -> ascii_text id -> Forall file_text fs ->
  bundle_sent (sidecar p) h id fs {| sc_AllNodes := true; sc_NodeIDs := [] |} prio sent ->
  map ah_FileIndex (sr_Handles sent) = map Z.of_nat (seq 0 (length fs)) /\
  Forall2 (fun f x => arrived (fs_RelativePath f) x) fs (sr_Handles sent).
Proof.
  intros Hl Hid Hf (sj & status & reply & [= <-] & Hev & Hst & Hu).
  destruct (lk_bundle Hl _ _ _ _ Hev Hst Hu) as (rels & Hr & Hi & Ha).
  rewrite requested_files_send in Hr by done. injection Hr as <-.
  rewrite length_map in Hi. split; [done|].
  change (map fs_RelativePath fs) with (fs_RelativePath <$> fs) in Ha. by rewrite Forall2_fmap_l in Ha.
Qed.

(** the entries of all bundles are those of the files and their handles, in order *)
Lemma shipped_entries name prio i batches statuses entries :
  linked -> ascii_text name -> Forall file_text (concat (map b_Files batches)) ->
  bundles_shipped (sidecar p) name prio h i batches statuses entries ->
  exists handles,
    Forall2 (fun f x => arrived (fs_RelativePath f) x) (concat (map b_Files batches)) handles /\
    entries = zip_with manifest_entry (concat (map b_Files batches)) handles.
Proof.
  intros Hl Hn. induction 2 as [|i b bs es batches statuses es' Hb Hbs IH]; [by exists []|].
  cbn in *. apply Forall_app in H as [Hf Hfs]. destruct (IH Hfs) as (handles & Hh & ->).
  destruct Hb as (sent & Hsent & -> & _).
  destruct (sent_handles (bundle_id name i) (b_Files b) prio sent) as [Ho Ha]; [done| |done..|].
  { unfold bundle_id. rewrite !ascii_text_app. split_and!; [done..|auto with ascii_text]. }
  exists (sr_Handles sent ++ handles). split; [by apply Forall2_app|].
  rewrite zip_with_app by by eapply Forall2_length. f_equal. by apply bundle_entries_in_order.
Qed.
End Linked.

(** ** The source's texts *)

(** object keys, the location's prefix and the outbox's name are ASCII, an object
    is shorter than 2^63 bytes and a listing shorter than 2^61 objects *)
Record legible (h : history) : Prop := {
  lg_object c b k r :
    Ev (MinioObjectRead c b k) r ∈ h -> ascii_text k /\ (Z.of_nat (String.length r.1) < 2 ^ 63)%Z;
  lg_listing c b k r : Ev (MinioListObjects c b k) r ∈ h -> (Z.of_nat (length r) < 2 ^ 61)%Z;
  lg_location n bsl osl :
    Ev (KGetBackupStorageLocation n) (Ok bsl) ∈ h -> bsl_ObjectStorage (bsl_Spec bsl) = Some osl ->
    ascii_text (osl_Prefix osl);
  lg_policy n policy :
    Ev (KGetReplicationPolicy n) (Ok policy) ∈ h ->
    ascii_text (ps_OutboxRoot (rp_Peat (rp_Spec policy)));
}.

Lemma ascii_fullKey ms key : ascii_text (fullKey ms key) -> ascii_text key.
Proof. rewrite fullKey_eq, ascii_text_app. intros [_ H]. by apply ascii_TrimLeft_inv. Qed.

Lemma ascii_safeRelPath key rel : ascii_text key -> safeRelPath key = Ok rel -> ascii_text rel.
Proof.
  intros Hk. unfold safeRelPath. repeat case_match; try done. intros [= <-]. auto with ascii_text.
Qed.

Lemma listing_length ms h k infos :
  legible h -> listing ms h k infos -> (Z.of_nat (length infos) < 2 ^ 61)%Z.
Proof.
  intros Hh (os & Hev & Hl). apply (lg_listing _ Hh) in Hev. rewrite length_map in Hev.
  by rewrite <- (Forall2_length _ _ _ Hl).
Qed.

Lemma length_unrecorded m infos : length (unrecorded m infos) <= length infos.
Proof. unfold unrecorded. rewrite length_fmap. apply length_filter. Qed.

Lemma delta_length ms h spec keys :
  legible h -> delta ms h spec keys -> (Z.of_nat (length keys) < 2 ^ 63)%Z.
Proof.
  intros Hh (m & metas & kopia & restic & _ & H1%listing_length & H2%listing_length & H3%listing_length
    & ->); [|done..]. rewrite !length_app, length_fmap.
  pose proof (length_unrecorded m kopia). pose proof (length_unrecorded m restic). lia.
Qed.

Section Staged.
Context (s : Stager) (ms : minioStore) (h : history) (Hh : legible h) (Hs : ascii_text (sg_RootName s)).

Lemma staged_file_text key f : staged_file s ms h key f -> file_text f.
Proof.
  intros (data & rel & tmp & Hr & Hev & _ & _ & _ & ->). destruct (lg_object _ Hh _ _ _ _ Hev) as [Hk _].
  assert (ascii_text rel) by by eapply ascii_safeRelPath, Hr; eapply ascii_fullKey.
  unfold file_text. cbn. split_and!; auto with ascii_text.
Qed.

Lemma staged_files_text keys specs :
  Forall2 (staged_file s ms h) keys specs -> Forall file_text specs.
Proof. induction 1 as [|key f]; constructor; [by eapply staged_file_text|done]. Qed.

Lemma entry_text_ok f x :
  file_text f -> ascii_text (ah_DistributionID x) -> ascii_text (ah_BlobToken x) ->
  entry_ok (manifest_entry f x).
Proof.
  intros (_ & Hp & _) Hd Hb. unfold entry_ok. cbn -[valid_utf8].
  split_and!; auto with ascii_text; apply int64_range.
Qed.
End Staged.

Lemma entries_text_ok {W} opts (files : W -> gmap string string) p h w fs xs :
  Forall file_text fs -> Forall2 (fun f x => arrived opts files p h w (fs_RelativePath f) x) fs xs ->
  Forall entry_ok (zip_with manifest_entry fs xs).
Proof.
  intros Hf. induction 1 as [|f x fs xs (? & _ & ? & _) _ IH]; cbn; [done|].
  apply Forall_cons in Hf as [? ?]. constructor; [by apply entry_text_ok|auto].
Qed.

Lemma replication_manifest_ok spec prefix entries n t :
  ascii_text (brs_BackupName spec) -> ascii_text (brs_StorageLocation spec) -> ascii_text prefix ->
  (Z.of_nat (length entries) < 2 ^ 63)%Z -> Forall entry_ok entries ->
  manifest_ok (replication_manifest spec prefix entries (int64 n) t).
Proof.
  intros Hb Hl Hp Hlen He. unfold manifest_ok. cbn -[valid_utf8 RFC3339_UTC].
  split_and!; auto with ascii_text; [by unfold int64_ok, SchemaVersion|unfold int64_ok; lia
    |apply int64_range].
Qed.

(** ** Across the gap *)

Section Crossing.
Context `{M : ApiMachinery} {W : Type} (hd : handler W) (opts : ImportOptions)
  (files objs : W -> gmap string string) (walk : gmap string string -> list string)
  (rest : W -> side) `{HW : !DestinationWorld hd opts files objs walk rest}
  (plan : gmap string Manifest) (Hplan : plan_ok opts plan).

Abbreviation dst := (opened (io_DestStore opts)).
Abbreviation pc := (Peat.New (io_PeatAddress opts)).
Abbreviation docs w := (sd_documents (rest w)).
Abbreviation imports w := (sd_imports (rest w)).

(** the staged files with their handles, as items *)
Lemma items_of p ms h w keys specs handles :
  legible h -> Forall2 (staged_file (outbox p) ms h) keys specs ->
  Forall2 (fun f x => arrived opts files p h w (fs_RelativePath f) x) specs handles ->
  exists items, map it_key items = keys /\ map it_file items = specs /\
    map item_entry items = zip_with manifest_entry specs handles /\
    Forall (delivered (outbox p) ms h (io_InboxRoot opts) files w) items.
Proof.
  intros Hh Hst. revert handles. induction Hst as [|key f keys specs [data Hd] _ IH]; intros handles Hx.
  { exists []. by inversion Hx. }
  inversion Hx as [|f' x specs' handles' (_ & Hne & _ & Hin) Hx']; subst.
  destruct (IH handles' Hx') as (items & <- & <- & Hen & Hall).
  exists ({| it_key := key; it_data := data; it_file := f; it_handle := x |} :: items).
  cbn. rewrite Hen. split_and!; [done..|]. constructor; [|done].
  split; [done|]. destruct Hd as (rel & tmp & _ & Hread & Hw & _ & Hr & ->).
  split_and!; [by apply (lg_object _ Hh _ _ _ _ Hread)|done|by apply (Hin tmp)].
Qed.

(** the delta of the backup was staged, and its objects are in the destination's
    store as they were read *)
Definition crossed (p : ReplicationPolicySpec) (ms : minioStore) (h : history) (w : W)
    (keys : list string) : Prop :=
  exists specs, Forall2 (staged_file (outbox p) ms h) keys specs /\
    Forall2 (fun key f => exists data, staged_bytes (outbox p) ms h key data f /\
      objs w !! fullKey dst (fs_RelativePath f) = Some data) keys specs.

(** what is taken for granted of a reconcile that shipped [br], after [h], and of
    the destination [w]: its texts are ASCII, the sidecar keeps its word about its
    requests, and the destination has none of the objects yet and no import of them
    that is being deleted *)
Record carried (h : history) (br : BackupReplication) (w : W) : Prop := {
  ca_legible : legible h;
  ca_location : ascii_text (brs_StorageLocation (br_Spec br));
  ca_linked n policy : Ev (KGetReplicationPolicy n) (Ok policy) ∈ h ->
    linked opts files rest (rp_Spec policy) h w;
  ca_fresh m :
    complete_manifest (docs w)
      (DocID (brs_StorageLocation (br_Spec br)) (brs_BackupName (br_Spec br))) = Some m ->
    (forall e, e ∈ mf_Files m -> objs w !! fullKey dst (fe_Key e) = None) /\
    forall bi, imports w !! import_key opts m = Some bi -> being_deleted (bi_Meta bi) = false;
}.

(** a poll and a reconcile at the destination import what was shipped after [h] *)
Definition crosses (h : history) (w : W) : Prop :=
  exists p ms br0 keys, (exists n, Ev (KGetBackupReplication n) (Ok br0) ∈ h) /\
    delta ms h (br_Spec br0) keys /\
    exists m w1 h1 w2 h2 bi, manifest_published (sidecar p) m h /\
      run hd (poll opts pc) w [] = Some (tt, w1, h1) /\
      run hd (ImportController.Reconcile opts (import_key opts m)) w1 [] = Some (done, w2, h2) /\
      imports w2 !! import_key opts m = Some bi /\ bi_Phase (bi_Status bi) = ImportImported /\
      crossed p ms h w2 keys /\ keeps opts plan (objs w) (objs w2).

Lemma shipped_crosses h br w :
  shipped h br -> carried h br w -> ascii_text (om_Name (br_Meta br)) ->
  ascii_text (brs_BackupName (br_Spec br)) ->
  good opts objs rest plan w -> sd_refusing (rest w) = false -> crosses h w.
Proof.
  intros (p & ms & keys & specs & br0 & br1 & entries & prefix & t & Hst & Hsp & _ & Hloc & Hb & Hm & _)
    [Hh Hsl Hlk Hfresh] Hname Hbn Hg Href.
  destruct Hst as (br2 & (Hget & (policy & <- & Hpol) & Hdelta & _) & Hst & _).
  exists (rp_Spec policy), ms, br0, keys. split; [done|]. split; [done|].
  pose proof (delta_length _ _ _ _ Hh Hdelta) as Hlen.
  specialize (Hlk _ _ Hpol). pose proof (lg_policy _ Hh _ _ Hpol) as Hroot.
  pose proof (staged_files_text (outbox (rp_Spec policy)) ms h Hh Hroot _ _ Hst) as Htext.
  assert (concat (map b_Files (bundles (rp_Spec policy) specs)) = specs) as Hall by apply Pack_concat.
  destruct (shipped_entries opts files rest (rp_Spec policy) h w _ _ _ _ _ _ Hlk Hname
              ltac:(by rewrite Hall) Hb) as (handles & Hx & ->).
  rewrite Hall in Hx, Hm.
  destruct (items_of _ _ _ _ _ _ _ Hh Hst Hx) as (items & <- & <- & Hen & Hdel).
  set (m := replication_manifest _ _ _ _ _) in Hm.
  assert (manifest_ok m) as Hok.
  { destruct Hloc as (ns & bsl & osl & Hbsl & Hosl & <-). apply replication_manifest_ok; try done.
    - by apply (lg_location _ Hh _ _ _ Hbsl Hosl).
    - rewrite <- Hen, length_map. by rewrite length_map in Hlen.
    - by eapply entries_text_ok. }
  destruct Hm as (status & reply & Hm & Hok200).
  destruct (lk_document _ _ _ _ _ _ Hlk _ _ _ Hm Hok200) as (id & doc & Hput & Hdoc).
  destruct (manifest_json_ok m Hok) as [Hjson _].
  assert (ascii_text (DocID (mf_StorageLocation m) (mf_BackupName m))) as Hid.
  { unfold DocID. rewrite !ascii_text_app. by split_and!. }
  rewrite requested_put_document in Hput by auto with ascii_text. injection Hput as <- <-.
  destruct (parse_marshal m Hok eq_refl) as (doc & [= <-] & Hparse).
  assert (complete_manifest (docs w)
    (DocID (brs_StorageLocation (br_Spec br)) (brs_BackupName (br_Spec br))) = Some m) as Hc
    by (unfold complete_manifest; by rewrite Hdoc, Hparse).
  destruct (Hfresh m Hc) as [Hnone Hnd].
  destruct (items_imported (outbox (rp_Spec policy)) ms h hd opts files objs walk rest plan Hplan w _ m
              items Hg (eq_sym Hen) Hc Href Hdel)
    as (w1 & h1 & w2 & h2 & bi & Hpoll & Hrun & Hbi & Hph & Hobj & Hk); [|done|].
  { intros x Hx'. apply (Hnone (item_entry x)). cbn. rewrite <- Hen.
    by apply (list_elem_of_fmap_2 item_entry). }
  exists m, w1, h1, w2, h2, bi. split; [by exists status, reply|].
  split_and!; [done..| |done].
  exists (map it_file items). split; [done|]. clear -Hdel Hobj.
  induction Hdel as [|x items [Hx _] Hdel IH]; cbn; [done|].
  constructor; [exists (it_data x); split; [done|]; apply Hobj; constructor|].
  apply IH. intros y Hy. apply Hobj. by constructor.
Qed.

(** C2: a backup crosses the gap.  Take any reachable state of the source, where
    any reconciles of any backups ran interleaved, with stale reads, lost answers,
    crashes and failures outside, and a replication that is Replicated there.  Then
    its backup had been reported Completed, and a reconcile had shipped it; and when
    the sidecar kept its word about the requests of that reconcile ([carried]), then
    at any reachable destination whose API server does not refuse, one poll of the
    bridge and one reconcile of the import it makes end with the import Imported,
    and every object of the delta of the backup, as the store listed it and by the
    ledger read, has at the destination the very bytes that were read from the
    source; what else is stored there stays as it was. *)
Theorem replicated_crosses s n br w0 w :
  rtc source_step empty_source s -> object_at (so_api s) n = Some br ->
  br_Phase (br_Status br) = PhaseReplicated -> ascii_text (nn_Name n) ->
  good opts objs rest plan w0 -> rtc (step hd opts files objs rest plan) w0 w ->
  sd_refusing (rest w) = false ->
  (forall p h bw, p ∈ so_passes s -> extends h (ps_history p) -> shipped h bw ->
     replication_key bw = n -> br_Status bw = br_Status br -> carried h bw w) ->
  made (so_passes s) br /\
  exists p h bw, p ∈ so_passes s /\ extends h (ps_history p) /\ shipped h bw /\
    replication_key bw = n /\ br_Status bw = br_Status br /\ crosses h w.
Proof.
  intros [Hi Hl _]%reachable_consistent Ho Hph Hn H0 Hr Href Hcar.
  pose proof (Hl br (object_at_in _ _ _ Ho)) as Hbr. pose proof (object_at_key _ _ _ Hi Ho) as Hk.
  split; [apply Hbr|].
  destruct (lg_sent _ _ Hbr Hph) as (p & h & bw & Hp & Hh & Hs & Hbk & Hbn & Hst).
  rewrite Hk in Hbk. rewrite (logged_name _ _ Hbr), Hk in Hbn.
  exists p, h, bw. split_and!; [done..|].
  destruct (good_reachable hd opts files objs walk rest plan Hplan w0 w H0 Hr) as [Hgw _].
  apply (shipped_crosses h bw); [done|by apply (Hcar p)| |by rewrite Hbn|done..].
  by rewrite <- Hbk in Hn.
Qed.
End Crossing.

(** *** A source *)

Definition gap_objects (prefix : string) : list minio_object :=
  let object key data :=
    {| mo_Key := key; mo_Size := Z.of_nat (String.length data); mo_ETag := "e"; mo_LastModified := 0 |} in
  if bool_decide (prefix = "prod/backups/b1/") then [object "prod/backups/b1/velero-backup.json" "{}"]
  else if bool_decide (prefix = "prod/kopia/") then [object "prod/kopia/p1" "payload"] else [].

Definition gap_backup : Backup :=
  {| bk_Meta := new_meta "b1" "velero"; bk_Spec := bk_Spec demo_backup;
     bk_Status := bk_Status demo_backup |}.

Definition gap_cluster : cluster :=
  {| cl_replication := made_of gap_backup (cl_policy demo_cluster);
     cl_policy := cl_policy demo_cluster; cl_location := cl_location demo_cluster;
     cl_secrets := cl_secrets demo_cluster; cl_objects := gap_objects |}.

(** the sidecar's handles: the first file goes under [d2], the second under [d1] *)
Definition gap_reply (url body : string) : string :=
  let handle i d := JObj [("fileIndex", JNum (Itoa i)); ("distributionId", JStr d)] in
  if HasSuffix url "SendAttachments" then
    print (JObj [("bundleId", JStr (requested_id body)); ("handles", JArr [handle 0%Z "d2"; handle 1%Z "d1"])])
  else if HasSuffix url "GetAttachmentDistribution" then print (reply_json "")
  else "{}".

Definition gap_answer (c : call) : resp c :=
  match c as c return resp c with
  | OsCreateTemp dir _ => Ok (dir +:+ "/.staging")
  | MinioObjectRead _ _ key =>
      (if bool_decide (key = "prod/kopia/p1") then "payload" else "{}", None)
  | HttpPost url body => HttpReply 200 (gap_reply url body)
  | c => answer gap_cluster c
  end.

Definition gap_source : handler unit := fun c w => (gap_answer c, w).

Definition gap_request : NamespacedName := {| nn_Namespace := "velero"; nn_Name := "b1" |}.

Abbreviation gap_run :=
  (run gap_source (ReplicationController.Reconcile (M := sample_machinery) 1 gap_request) tt []).

Definition gap_history : history := match gap_run with Some (_, _, h) => h | None => [] end.

(** the object as the run writes it last *)
Definition gap_written : BackupReplication :=
  match gap_history with
  | x :: _ =>
      match ev_call x with
      | KStatusUpdateBackupReplication br => br
      | _ => cl_replication gap_cluster
      end
  | [] => cl_replication gap_cluster
  end.

Lemma gap_runs :
  gap_run = Some (done, tt, gap_history) /\
  gap_history = Ev (KStatusUpdateBackupReplication gap_written) (Ok gap_written) :: tail gap_history /\
  br_Phase (br_Status gap_written) = PhaseReplicated.
Proof. split; [|split]; vm_compute; reflexivity. Qed.

(** *** Looking through a history *)

Definition object_read (x : event) : option (string * (string * option error)) :=
  match ev_call x as c return resp c -> option (string * (string * option error)) with
  | MinioObjectRead _ _ k => fun r => Some (k, r)
  | _ => fun _ => None
  end (ev_resp x).

Definition listed_count (x : event) : option Z :=
  match ev_call x as c return resp c -> option Z with
  | MinioListObjects _ _ _ => fun r => Some (Z.of_nat (length r))
  | _ => fun _ => None
  end (ev_resp x).

Definition location_read (x : event) : option string :=
  match ev_call x as c return resp c -> option string with
  | KGetBackupStorageLocation _ => fun r =>
      match r with Ok bsl => osl_Prefix <$> bsl_ObjectStorage (bsl_Spec bsl) | Er _ => None end
  | _ => fun _ => None
  end (ev_resp x).

Definition policy_read (x : event) : option ReplicationPolicy :=
  match ev_call x as c return resp c -> option ReplicationPolicy with
  | KGetReplicationPolicy _ => fun r => match r with Ok p => Some p | Er _ => None end
  | _ => fun _ => None
  end (ev_resp x).

Definition posted (x : event) : option (string * string * Z * string) :=
  match ev_call x as c return resp c -> option (string * string * Z * string) with
  | HttpPost url body => fun r =>
      match r with HttpReply status reply => Some (url, body, status, reply) | _ => None end
  | _ => fun _ => None
  end (ev_resp x).

Definition file_written (x : event) : option (string * string) :=
  match ev_call x with OsWrite f data => Some (f, data) | _ => None end.

Definition file_renamed (x : event) : option (string * string) :=
  match ev_call x with OsRename old new => Some (old, new) | _ => None end.

Lemma look {A} (f : event -> option A) (h : history) x a : x ∈ h -> f x = Some a -> a ∈ omap f h.
Proof. intros Hx Hf. apply list_elem_of_omap. by exists x. Qed.

Lemma look_all {A} (f : event -> option A) (P : A -> Prop) (h : history) x a :
  Forall P (omap f h) -> x ∈ h -> f x = Some a -> P a.
Proof. rewrite Forall_forall. intros H Hx Hf. by eapply H, look. Qed.

#[local] Instance ascii_text_dec s : Decision (ascii_text s).
Proof. unfold ascii_text. apply _. Defined.

Lemma gap_legible : legible gap_history.
Proof.
  split.
  - intros c b k r Hev. apply (look_all object_read (fun x =>
      ascii_text x.1 /\ (Z.of_nat (String.length x.2.1) < 2 ^ 63)%Z) gap_history _ (k, r)) in Hev;
      [done|decided|done].
  - intros c b k r Hev. apply (look_all listed_count (fun n => n < 2 ^ 61)%Z gap_history _
      (Z.of_nat (length r))) in Hev; [done|decided|done].
  - intros n bsl osl Hev Hosl. apply (look_all location_read ascii_text gap_history _ (osl_Prefix osl)) in Hev;
      [done|decided|]. cbn. by rewrite Hosl.
  - intros n policy Hev. apply (look_all policy_read (fun p =>
      ascii_text (ps_OutboxRoot (rp_Peat (rp_Spec p)))) gap_history _ policy) in Hev; [done|decided|done].
Qed.

(** the sidecar between this source and the demo destination keeps its word *)

Definition gap_policy : ReplicationPolicySpec := rp_Spec (cl_policy gap_cluster).

Lemma gap_policy_read n policy :
  Ev (KGetReplicationPolicy n) (Ok policy) ∈ gap_history -> rp_Spec policy = gap_policy.
Proof.
  intros Hev. apply (look policy_read _ _ policy) in Hev; [|done].
  assert (omap policy_read gap_history = [cl_policy gap_cluster]) as E by (vm_compute; reflexivity).
  rewrite E in Hev. by apply list_elem_of_singleton in Hev as ->.
Qed.

(** what was written and renamed to a path of the outbox has these bytes *)
Definition gap_arrived (rel d : string) : Prop :=
  Forall (fun wr => Forall (fun rn => wr.1 = rn.1 -> rn.2 = dst_path (outbox gap_policy) rel ->
      dt_files landed_world !! PathJoin ["/inbox"; d; Base rel] = Some wr.2)
    (omap file_renamed gap_history)) (omap file_written gap_history).

Lemma gap_arrived_spec rel d i :
  ascii_text d -> d <> "" -> gap_arrived rel d ->
  arrived demo_opts dt_files gap_policy gap_history landed_world rel
    {| ah_FileIndex := i; ah_BlobToken := ""; ah_DistributionID := d |}.
Proof.
  intros Hd Hne Hall. split; [done|]. split; [done|]. split; [done|]. intros tmp data Hw Hr.
  apply (look file_written _ _ (tmp, data)) in Hw; [|done].
  apply (look file_renamed _ _ (tmp, dst_path (outbox gap_policy) rel)) in Hr; [|done].
  unfold gap_arrived in Hall. rewrite Forall_forall in Hall. specialize (Hall _ Hw).
  rewrite Forall_forall in Hall. by apply (Hall _ Hr).
Qed.

Definition gap_url (method : string) : string :=
  cc_baseURL (sidecar gap_policy) +:+ svcPath +:+ method.

(** the posts to an address, of those that got a reply *)
Definition posts_to (url : string) : list (string * Z * string) :=
  omap (fun '(u, body, status, reply) =>
    if bool_decide (u = url) then Some (body, status, reply) else None) (omap posted gap_history).

Lemma posts_to_in url body status reply :
  Ev (HttpPost url body) (HttpReply status reply) ∈ gap_history ->
  (body, status, reply) ∈ posts_to url.
Proof.
  intros Hev. unfold posts_to. apply list_elem_of_omap. exists (url, body, status, reply).
  rewrite bool_decide_eq_true_2 by done. split; [|done]. by eapply look.
Qed.

(** what holds of the one bundle and the one document of the run *)
Lemma gap_bundle : exists body reply,
  posts_to (gap_url "SendAttachments") = [(body, 200%Z, reply)] /\
  requested_files body = Some ["backups/b1/velero-backup.json"; "kopia/p1"] /\
  Unmarshal get_SendResult {| sr_BundleID := ""; sr_Handles := [] |} reply =
    ({| sr_BundleID := "b1-0000"; sr_Handles :=
          [{| ah_FileIndex := 0; ah_BlobToken := ""; ah_DistributionID := "d2" |};
           {| ah_FileIndex := 1; ah_BlobToken := ""; ah_DistributionID := "d1" |}] |}, None).
Proof. do 2 eexists. split; [vm_compute; reflexivity|]. split; vm_compute; reflexivity. Qed.

Lemma gap_document : exists body reply,
  posts_to (gap_url "PutDocument") = [(body, 200%Z, reply)] /\
  requested_put body = Some (DocID "default" "b1", document first_manifest).
Proof. do 2 eexists. split; [vm_compute; reflexivity|]. vm_compute. reflexivity. Qed.

Lemma gap_linked : linked demo_opts dt_files demo_side gap_policy gap_history landed_world.
Proof.
  split.
  - intros body status reply sent Hev%(posts_to_in (gap_url "SendAttachments")) _ Hu.
    destruct gap_bundle as (body' & reply' & Hp & Hreq & Hu').
    rewrite Hp in Hev.
    apply list_elem_of_singleton in Hev as [= -> -> ->]. rewrite Hu' in Hu. injection Hu as <-.
    eexists. split; [exact Hreq|]. split; [reflexivity|].
    apply List.Forall2_cons; [|apply List.Forall2_cons; [|apply List.Forall2_nil]];
      (apply gap_arrived_spec; [done|done|decided]).
  - intros body status reply Hev%(posts_to_in (gap_url "PutDocument")) _.
    destruct gap_document as (body' & reply' & Hp & Hreq).
    rewrite Hp in Hev.
    apply list_elem_of_singleton in Hev as [= -> -> ->]. do 2 eexists. split; [exact Hreq|].
    vm_compute. reflexivity.
Qed.

(** *** What was said of the whole run holds of any part of it *)

Lemma legible_part h h' : extends h h' -> legible h' -> legible h.
Proof.
  intros Hh [Ho Hl Hloc Hp]. split; intros *; [|intros Hev|intros Hev|intros Hev].
  - intros Hev. eapply Ho, extends_in, Hev. exact Hh.
  - eapply Hl, extends_in, Hev. exact Hh.
  - eapply Hloc, extends_in, Hev. exact Hh.
  - eapply Hp, extends_in, Hev. exact Hh.
Qed.

Lemma linked_part {W} opts (files : W -> gmap string string) rest p h h' w :
  extends h h' -> linked opts files rest p h' w -> linked opts files rest p h w.
Proof.
  intros Hh [Hb Hd]. split.
  - intros body status reply sent Hev%(extends_in _ _ _ Hh) Hs Hu.
    destruct (Hb _ _ _ _ Hev Hs Hu) as (rels & Hr & Hi & Ha). exists rels. split_and!; [done..|].
    eapply Forall2_impl; [exact Ha|]. intros rel x (? & ? & ? & Hin). split_and!; [done..|].
    intros tmp data Hw%(extends_in _ _ _ Hh) Hren%(extends_in _ _ _ Hh). by eapply Hin.
  - intros body status reply Hev%(extends_in _ _ _ Hh) Hs. by eapply Hd.
Qed.

(** *** The state of the source after the run *)

Definition gap_key : NamespacedName := gap_request.

Lemma gap_reachable : exists s p q, rtc (source_step (M := sample_machinery)) empty_source s /\
  object_at (so_api s) gap_key = Some gap_written /\ so_passes s = [p; q] /\
  omap policy_read (ps_history p) = [] /\ ps_history q = gap_history.
Proof.
  destruct (backup_runs (M := sample_machinery) (so_api empty_source) [] gap_backup
    [cl_policy gap_cluster] (cl_policy gap_cluster) (cl_replication gap_cluster))
    as (p & Hp & Hph).
  - reflexivity.
  - vm_compute. reflexivity.
  - exists (cl_replication gap_cluster). by split_and!.
  - destruct gap_runs as (Hrun & Hlast & _).
    destruct (replication_pass (M := sample_machinery) (cl_replication gap_cluster) gap_key gap_answer
      (fun _ => eq_refl) (fun _ => eq_refl) (api_write (so_api empty_source) (cl_replication gap_cluster))
      ([] ++ [p]) 1 (fun h r => h = gap_history /\ r = done))
      as (a & q & r & Hq & _ & [Hh _] & HI); [reflexivity|exact (object_at_written _ _)|by apply (run_under _ _ _ _ tt)|].
    exists (with_pass a ([] ++ [p]) q), p, q. split; [by etrans|].
    rewrite Hh, Hlast in HI. split; [by eapply last_update_current|]. split; [reflexivity|].
    split; [rewrite Hph; reflexivity|exact Hh].
Qed.

(** what a reconcile of the state shipped, was carried *)
Definition spec_answered (x : event) : option BackupReplicationSpec := br_Spec <$> answer_of x.

Lemma gap_shipped_spec h bw :
  extends h gap_history -> shipped h bw -> br_Spec bw = br_Spec (cl_replication gap_cluster).
Proof.
  intros Hh (p & ms & keys & specs & br0 & br1 & entries & prefix & t & Hst & -> & _).
  destruct Hst as (br2 & _ & _ & _ & Hev). eapply extends_in in Hev; [|exact Hh].
  apply (look spec_answered _ _ (br_Spec br1)) in Hev; [|done].
  assert (omap spec_answered gap_history = List.repeat (br_Spec (cl_replication gap_cluster)) 3) as E
    by (vm_compute; reflexivity).
  rewrite E in Hev. by apply list_elem_of_In, List.repeat_spec in Hev.
Qed.

Lemma gap_carried h bw :
  extends h gap_history -> shipped h bw ->
  carried demo_opts dt_files dt_objs demo_side h bw landed_world.
Proof.
  intros Hh Hs. pose proof (gap_shipped_spec h bw Hh Hs) as Hspec. split.
  - eapply legible_part, gap_legible. exact Hh.
  - rewrite Hspec. vm_compute. reflexivity.
  - intros n policy Hev. rewrite (gap_policy_read n policy) by by eapply extends_in.
    eapply linked_part, gap_linked. exact Hh.
  - intros m _. split; [intros e _; reflexivity|]. intros bi Hbi.
    vm_compute in Hbi. discriminate Hbi.
Qed.

(** a pass that read no policy shipped nothing *)
Lemma shipped_policy h h' bw : extends h h' -> shipped h bw -> omap policy_read h' <> [].
Proof.
  intros Hh (p & ms & keys & specs & br0 & br1 & _ & _ & _ & (br2 & Hen & _) & _) Hp.
  destruct Hen as (_ & (policy & _ & Hev) & _). eapply extends_in in Hev; [|exact Hh].
  apply (look policy_read _ _ policy) in Hev; [|done]. rewrite Hp in Hev. by apply elem_of_nil in Hev.
Qed.

Lemma replicated_crosses_witness : exists s,
  object_at (so_api s) gap_key = Some gap_written /\
  made (M := sample_machinery) (so_passes s) gap_written /\
  exists p h bw, p ∈ so_passes s /\ extends h (ps_history p) /\ shipped h bw /\
    replication_key bw = gap_key /\ br_Status bw = br_Status gap_written /\
    crosses (M := sample_machinery) demo_destination demo_opts dt_objs demo_side demo_plan
      h landed_world.
Proof.
  destruct gap_reachable as (s & p & q & Hr & Ho & Hps & Hp & Hq). exists s.
  split; [exact Ho|].
  apply (replicated_crosses (M := sample_machinery) demo_destination demo_opts dt_files dt_objs paths
           demo_side demo_plan demo_plan_ok s gap_key gap_written demo_start landed_world Hr Ho).
  - apply gap_runs.
  - vm_compute. reflexivity.
  - exact demo_good.
  - exact landed_reachable.
  - reflexivity.
  - intros p' h bw Hin Hh Hs _ _. rewrite Hps in Hin.
    apply elem_of_cons in Hin as [->|Hin].
    + destruct (shipped_policy h (ps_history p) bw Hh Hs Hp).
    + apply list_elem_of_singleton in Hin as ->. rewrite Hq in Hh. exact (gap_carried h bw Hh Hs).
Defined.
